(* ===== verification/_CoqProject ===== *)
-Q . S2P
Prelude.v
Machine.v
Platform.v
HashTable.v
Lookup.v
Pinner.v
TlbProg.v
Migration.v
Handler.v
Invariant.v
Release.v
Scenarios.v
Wire.v
RdmaServer.v
RdmaScenarios.v
Bench.v
Stall.v
PerfRdma.v
Receiver.v
PerfSlave.v
BenchScenarios.v
