(* ===== verification/Prelude.v ===== *)
(** * Verification of the Coyote unified-memory driver and its RDMA programs

    This development models, in Rocq, the four programs of the repository
    and proves the properties that make them correct, together with the
    places where they are not:
    - the accelerator-side page-fault handling of the Coyote FPGA driver,
      [src/artifacts/coyote-experiments/driver/fpga_gup.c];
    - the RDMA queue-pair handshake server
      [src/scripts/network/RDMA_server_v2.c];
    - the RDMA benchmark [perf_rdma/main.cpp] and the receiver
      [rdma_receiver/main.cpp] under
      [src/artifacts/coyote-experiments/sw/examples], two [main]s written
      against the Coyote C++ library.

    ** The driver and how its parts interact

    A fault of the accelerator (or an explicit user request) enters the
    driver at [mmu_handler_gup] (the fault handler).  It aligns the faulting
    byte range to page numbers, asks [map_present] (region lookup) whether a
    pinned region of the same client context ([cpid]) already covers the
    first page, and either reprograms the device TLB for it ([tlb_map_gup]),
    migrates it first ([tlb_unmap_gup], [migrate_to_card_gup] or
    [migrate_to_host_gup]), or pins a new region ([tlb_get_user_pages]),
    which inserts it into the region table [user_buff_map], a Linux
    [hashtable.h] array of [hlist] buckets per device and context.
    [offload_user_gup] and [sync_user_gup] force a migration of the region
    at an address; [tlb_put_user_pages] and [tlb_put_user_pages_cpid]
    release regions.

    ** The RDMA server

    [main] of RDMA_server_v2.c opens an RDMA device, allocates the verbs
    objects and a buffer, accepts one TCP connection, exchanges its queue
    pair's metadata ([struct ibvQ]) with the peer, moves its queue pair to
    RTR and RTS towards the peer, posts one RDMA WRITE of a 64-byte message
    and releases everything at the label [end], where every failure jumps.

    ** The two Coyote examples

    Both parse the same options (sizes, repetitions, read or write, the
    master's address), create a queue pair over [n_pages] huge pages
    ([hMem]) and exchange it with the peer.  perf_rdma then fills [hMem]
    with a 64-byte pattern and, for each transfer size [sg.len] from
    [min_size] doubling up to [max_size], runs as master a throughput and
    a latency benchmark (requests posted with [ibvPostSend], completions
    awaited on [ibvDone]) or as slave answers them; [ibvSync] separates
    the phases.  rdma_receiver fills the first [max_size/8] bytes with 1,
    waits for one completed WRITE and prints [hMem] as a C string.  The
    library is not in the repository: its calls are the events of a trace
    ([Bench.ev]), its results fields of [Bench.coyote_env], and [ibvSync]
    is a barrier between the two hosts ([Bench.joint]).

    ** Files, modules and their correspondence with the code

    - [Prelude] (this file): 64/32-bit wrap-around arithmetic ([wrap64],
      [wrap32], [add64], [sub64]); the outcome-and-state monad [ST] in which
      the C functions are written (stdpp's [x ← c; k] notation), whose
      [Stuck] outcomes are the undefined or blocking behaviours
      ([NullDeref], [HeapOverflow], [Indeterminate], [InvalidFree], ...);
      the [st_preserves] combinators for invariants; the index lists of C
      [for] loops ([c_for_indices]); the hint database [gup] and tactics.
    - [Machine]: the C structs as records ([tlb_order], [bus_drvdata],
      [desc_aligned], [user_pages]) and the kernel and device state the
      driver acts on ([world]), with its heap of [user_pages] objects.
    - [Platform]: the kernel and device functions the driver only calls
      (get_user_pages_remote, put_page, card_alloc, tlb_service_dev,
      fpga_invalidate, dma_offload_start, dma_sync_start, pid_task,
      find_vma, mutexes, completion waits), modelled from the
      specification by their effect on the state.
    - [HashTable]: the Linux hashtable ([hash_add], [hash_del],
      [hash_for_each], [hash_for_each_possible]) over a type class
      [HashFn] for the bucket function, with the kernel's [hash_64] as
      instance; [hash_del] inside a walk ends the walk of that bucket.
    - [Lookup]: [map_present] and its specification.
    - [Pinner]: [tlb_get_user_pages] with both failure paths.
    - [TlbProg]: [tlb_map_gup] and [tlb_unmap_gup].
    - [Migration]: [migrate_to_card_gup] and [migrate_to_host_gup].
    - [Handler]: [mmu_handler_gup], [offload_user_gup], [sync_user_gup],
      [tlb_put_user_pages] and [tlb_put_user_pages_cpid].
    - [Invariant]: the region-table invariant ([table_wf]: regions well
      formed and pairwise disjoint per context), its preservation by every
      entry point, and the reachable states of the driver as an inductive
      relation over sequences of entry-point calls.
    - [Release]: what the two release functions remove from the table.
    - [Scenarios]: concrete systems on which the driver's theorems are
      applied (their witnesses) and the scenarios of the specification and
      of the findings, evaluated.
    - [Wire]: [struct ibvQ] as the server sends and reads it (the x86-64
      layout, little endian), the GID text [sprintf] writes and the
      destination GID built from the peer's IPv4 address.
    - [RdmaServer]: [main] of the server as state passing over its
      automatic variables (an unassigned one is indeterminate), its heap
      blocks, the connection and the calls it makes; library results come
      from an environment record [verbs_env].
    - [RdmaScenarios]: concrete runs of the server and the witnesses of
      its theorems.
    - [Bench]: the text both examples share (lines 30-139): the
      parameters, the command line, [read_args] (lines 77-106), [setup]
      (lines 118-132), the buffer [hMem] with bounds-checked [store_byte]
      and [load_byte], the two loop forms [int_for] (an [int] counter,
      whose overflow is [SignedOverflow]) and [u32_for] (a wrapping
      [uint32_t] counter, with fuel), the [emits] lemmas for commands that
      only append calls, and the barrier semantics [joint] with its
      characterisation by the number of [ibvSync] calls.
    - [Stall]: the completion waits [while(ibvDone() < t)] of both
      examples, with the [stalled] check ([wait_done_chk]) and without it
      ([wait_done_spin], line 309), against a counter and a SIGINT time
      given by the environment; the handler [gotInt] is [stalled_at].
    - [PerfRdma]: perf_rdma's [main] ([perf_main], [run], [fill], [sweep],
      [round], [master_round], [benchmark_thr], [benchmark_lat],
      [slave_round]); the trace a master run should produce
      ([master_trace]), the sizes the sweep visits ([visited],
      [doubling_sizes], [sweep_exits]) and the wait protocol
      ([waits_match]).
    - [Receiver]: rdma_receiver's [main] ([receiver_main], [recv_fill],
      [c_string]); the peer's WRITE is [deliver], and since nothing
      orders it against the fill, the number [k] of the fill's stores done
      when it lands is a parameter ([peer_lands]): every theorem holds for
      every [k].
    - [PerfSlave]: the trace a slave run should produce ([slave_trace]),
      the sweep for any round that only appends calls ([sweep_run]), the
      slave's whole run, and the pairing of a master and a slave run at
      the barrier.
    - [BenchScenarios]: concrete command lines and the witnesses of the
      examples' theorems.

    ** Kinds of theorems

    For the driver: the functional behaviour of the lookup on a hit and a
    miss, and the equivalence of its scan with a declarative clip; the
    ordering unmap, flip, migrate, map of a fault on a region resident on
    the other side; the pinner's success, its two failure paths and the
    [-EFAULT] its unsigned test lets through; the bounds of the TLB
    batches; the copies an offload and a sync make; what each release function removes; the region-table invariant
    in every reachable state.  For the server: the run of the handshake
    when every call succeeds, the GID as an IPv4-mapped address, the
    bounds of the buffer-size arithmetic and of the GID text, and the error
    paths ([goto end] over unassigned variables, short reads, an empty
    poll, the [free] of the clean-up).  For perf_rdma: a refinement of the
    master's run by its specified trace, termination of the size sweep
    exactly when 32-bit doubling exceeds [max_size] and divergence
    otherwise, the wait protocol as an invariant of the trace, the fill's
    pattern,
    the wrap of [n_pages] and the slave's out-of-bounds read; a refinement
    of the slave's run by its specified trace, and that a master and a
    slave run meet at every barrier exactly when their sweeps visit as
    many sizes.  For the waits: both loops implement the wait event when
    no SIGINT comes, and SIGINT ends every wait but the slave's latency
    wait.  For the receiver: what it prints wherever the peer's WRITE lands
    in its fill, and its read past a buffer with no NUL.

    ** Bounds and fuel

    Every C [for] loop [for (i = a; i < n; i += inc)] is modelled by the
    list of indices it visits, computed with fuel [Z.to_nat (n - a)];
    [c_for_indices_fuel] shows that any larger fuel gives the same list
    when [inc >= 1], so the fuel never truncates a loop.  The server has no
    loop that the model needs (its one loop zeroes a GID the next
    statement overwrites).  Integers declared [uint64_t] or [uint32_t] are
    kept as [Z] with the wrap-around written out where the code computes
    a sum, a difference or a product.  The examples' size sweep has no
    bound in the code, so [PerfRdma.sweep] takes fuel and running out is
    the outcome [OutOfFuel]: [perf_sweep_terminates] shows 33 iterations
    suffice when the loop ends (a 32-bit value doubles at most 32 times
    before it is 0), [perf_sweep_diverges] that no fuel does otherwise.
    The slave's [uint32_t] loop needs [n_bench_runs + 1] iterations, so a
    whole slave run needs [n_bench_runs + 33] ([perf_slave_refines]); the
    C-string scan gets [buf + 1], and its read at offset [buf] is out of
    bounds before the fuel runs out.  A wait polls once more than the
    polls the counter takes to reach its target ([wait_done_refines]);
    one that never ends uses up any fuel.

    ** What is not modelled

    Concurrency between faulting threads (the code has no lock around the
    table; one thread is modelled), signal interruption of
    [wait_event_interruptible], cache flushes and debug printing; in the
    server, the [printf]s and the three stub functions [gidToUint],
    [uintToGid] and [print], which are never called.  In the examples:
    the [std::cout] output, the timing by [cBench] and the
    throughput and latency figures computed from it; what the Coyote
    library does inside its calls is not modelled beyond the results the
    environment gives, the barrier [ibvSync] and the counter [ibvDone()]
    the waits poll; in the trace model a wait is the single event
    [WaitDone t], which Stall.v justifies for the runs where the counter
    reaches [t].  The remaining lines of the sources are licence headers,
    includes, the parameter printing of perf_rdma (lines 107-117) and the
    server's three stubs. *)

From Stdlib Require Import ZArith Lia.
From stdpp Require Export base list gmap.

Declare Scope gup_scope.
Delimit Scope gup_scope with gup.
Open Scope Z_scope.

Create HintDb gup.

(** ** Machine integers *)

Definition wrap64 (z : Z) : Z := z mod 2 ^ 64.
Definition wrap32 (z : Z) : Z := z mod 2 ^ 32.
Definition add64 (a b : Z) : Z := wrap64 (a + b).
Definition sub64 (a b : Z) : Z := wrap64 (a - b).

Definition is_u64 (z : Z) : Prop := 0 <= z < 2 ^ 64.

Notation "a +ᵤ b" := (add64 a b) (at level 50, left associativity) : gup_scope.
Notation "a -ᵤ b" := (sub64 a b) (at level 50, left associativity) : gup_scope.

(** A page range [[v, v + n)] and membership of a page in it. *)
Definition in_pages (p v n : Z) : Prop := v <= p < v + n.

Definition pages_disjoint (v1 n1 v2 n2 : Z) : Prop :=
  v1 + n1 <= v2 \/ v2 + n2 <= v1.

#[export] Instance in_pages_dec p v n : Decision (in_pages p v n).
Proof. unfold in_pages. apply _. Defined.

#[export] Instance pages_disjoint_dec v1 n1 v2 n2 : Decision (pages_disjoint v1 n1 v2 n2).
Proof. unfold pages_disjoint. apply _. Defined.

Open Scope gup_scope.

Lemma wrap64_id z : is_u64 z -> wrap64 z = z.
Proof. unfold is_u64, wrap64. intros. apply Z.mod_small. lia. Qed.

Lemma wrap64_range z : is_u64 (wrap64 z).
Proof. unfold is_u64, wrap64. apply Z.mod_pos_bound. lia. Qed.

Lemma add64_nowrap a b : 0 <= a -> 0 <= b -> a + b < 2 ^ 64 -> a +ᵤ b = a + b.
Proof. intros. unfold add64. apply wrap64_id. unfold is_u64. lia. Qed.

Lemma sub64_nowrap a b : b <= a -> is_u64 a -> is_u64 b -> a -ᵤ b = a - b.
Proof. unfold is_u64. intros. unfold sub64. apply wrap64_id. unfold is_u64. lia. Qed.

Lemma add64_wrap a b : is_u64 a -> is_u64 b -> 2 ^ 64 <= a + b -> a +ᵤ b = a + b - 2 ^ 64.
Proof.
  unfold is_u64, add64, wrap64. intros.
  rewrite <- (Z.mod_small (a + b - 2 ^ 64) (2 ^ 64)) by lia.
  rewrite <- Zminus_mod_idemp_r, Z_mod_same_full, Z.sub_0_r. reflexivity.
Qed.

(** The C idiom [a + b < a] on unsigned 64-bit values detects exactly the
    sums that do not fit. *)
Lemma add64_lt_self_iff a b :
  is_u64 a -> is_u64 b -> (a +ᵤ b < a <-> 2 ^ 64 <= a + b).
Proof.
  intros Ha Hb. destruct (Z_lt_le_dec (a + b) (2 ^ 64)).
  - rewrite add64_nowrap by (unfold is_u64 in *; lia). unfold is_u64 in *. lia.
  - rewrite add64_wrap by assumption. unfold is_u64 in *. lia.
Qed.

#[export] Hint Resolve wrap64_range : gup.

Lemma wrap32_small z : 0 <= z < 2 ^ 32 -> wrap32 z = z.
Proof. intros. apply Z.mod_small. lia. Qed.

Lemma wrap32_range z : 0 <= wrap32 z < 2 ^ 32.
Proof. apply Z.mod_pos_bound. lia. Qed.

(** [(x & mask) >> s] with the 64-bit mask [~((1 << s) - 1)] is the page
    number [x / 2^s]. *)
Lemma land_mask_shiftr x s :
  0 <= s < 64 -> 0 <= x < 2 ^ 64 ->
  Z.shiftr (Z.land x (2 ^ 64 - 2 ^ s)) s = x / 2 ^ s.
Proof.
  intros Hs Hx. rewrite <- Z.shiftr_div_pow2 by lia.
  assert (Hm : 2 ^ 64 - 2 ^ s = Z.shiftl (Z.ones (64 - s)) s).
  { rewrite Z.shiftl_mul_pow2, Z.ones_equiv by lia. unfold Z.pred.
    replace (2 ^ 64) with (2 ^ (64 - s) * 2 ^ s) by (rewrite <- Z.pow_add_r by lia; f_equal; lia).
    lia. }
  rewrite Hm. apply Z.bits_inj'. intros i Hi.
  rewrite !Z.shiftr_spec, Z.land_spec, Z.shiftl_spec by lia.
  replace (i + s - s) with i by lia.
  destruct (decide (i + s < 64)).
  - rewrite Z.testbit_ones_nonneg by lia. rewrite (proj2 (Z.ltb_lt i (64 - s))) by lia.
    apply andb_true_r.
  - rewrite andb_comm. rewrite Z.testbit_ones_nonneg by lia. rewrite (proj2 (Z.ltb_ge i (64 - s))) by lia.
    cbn. symmetry. apply Z.bits_above_log2; [lia|].
    destruct (decide (x = 0)) as [->|]; [cbn; lia|].
    pose proof (proj1 (Z.log2_lt_pow2 x 64 ltac:(lia)) (proj2 Hx)). lia.
Qed.

(** Splitting a remainder by a product of moduli: the step of every
    digit-by-digit (byte, hex digit) argument. *)
Lemma mod_mul_split x b c :
  0 < b -> 0 < c -> x mod (b * c) = x mod b + b * ((x / b) mod c).
Proof.
  intros Hb Hc. rewrite (Z.mod_eq x (b * c)), (Z.mod_eq x b), (Z.mod_eq (x / b) c) by lia.
  rewrite <- Z.div_div by lia. ring.
Qed.

(** An [|] of bits below [k] onto bits shifted above [k] is an addition. *)
Lemma lor_shiftl_low a c k :
  0 <= k -> 0 <= c < 2 ^ k -> Z.lor (Z.shiftl a k) c = a * 2 ^ k + c.
Proof.
  intros Hk Hc. rewrite <- Z.shiftl_mul_pow2 by lia.
  assert (H0 : Z.land (Z.shiftl a k) c = 0).
  { apply Z.bits_inj'. intros i Hi. rewrite Z.land_spec, Z.bits_0, Z.shiftl_spec by lia.
    destruct (decide (i < k)); [rewrite Z.testbit_neg_r by lia; reflexivity|].
    destruct (decide (c = 0)) as [->|]; [rewrite Z.bits_0; apply andb_false_r|].
    rewrite (Z.bits_above_log2 c i); [apply andb_false_r|lia|].
    pose proof (proj1 (Z.log2_lt_pow2 c k ltac:(lia)) (proj2 Hc)). lia. }
  rewrite <- Z.lxor_lor, Z.add_nocarry_lxor by exact H0. reflexivity.
Qed.

(** ** Lists *)

Lemma filter_all {A} (P : A -> Prop) `{!forall x, Decision (P x)} (l : list A) :
  (forall x, x ∈ l -> P x) -> filter P l = l.
Proof.
  induction l as [|x l IH]; intros Hall; [reflexivity|].
  rewrite filter_cons_True by (apply Hall; left). f_equal. apply IH. intros y Hy. apply Hall. by right.
Qed.

(** ** The outcome-and-state monad

    A C function of the driver is a function from the state it reads to an
    [outcome]: it returns a value and a new state, or it gets stuck, which
    models behaviour with no well-defined continuation: blocking forever on
    a completion flag nobody sets, an array access outside its allocation,
    a NULL dereference, a [BUG_ON], or a mutex already held by the caller.
    The user-space programs add two more: reading an automatic variable
    that was never assigned ([Indeterminate], C11 6.3.2.1p2) and passing
    [free] a value no allocation returned ([InvalidFree], C11 7.22.3.3).
    The C++ benchmarks add an [int] loop counter incremented past
    [INT_MAX] ([SignedOverflow], C11 6.5p5) and an exception no handler
    catches, which ends the process in [std::terminate] ([Uncaught]).
    [OutOfFuel] is the model's own: a loop with no bound in the code ran
    more iterations than the fuel it was given (the result [OOT] of a fuel
    semantics); the theorems say when some fuel suffices and when none
    does. *)

Inductive stuck_reason :=
| Blocked
| OutOfBounds
| HeapOverflow
| NullDeref
| KernelBug
| Deadlock
| Indeterminate
| InvalidFree
| SignedOverflow
| Uncaught
| OutOfFuel.

#[export] Instance stuck_reason_eq_dec : EqDecision stuck_reason.
Proof. solve_decision. Defined.

Inductive outcome (S A : Type) : Type :=
| Ret (a : A) (s : S)
| Stuck (why : stuck_reason) (s : S).
Arguments Ret {S A} a s.
Arguments Stuck {S A} why s.

#[export] Instance outcome_eq_dec {S A} `{!EqDecision S, !EqDecision A} : EqDecision (outcome S A).
Proof. solve_decision. Defined.

Definition ST (S A : Type) : Type := S -> outcome S A.

#[export] Instance st_ret {S} : MRet (ST S) := fun A a s => Ret a s.
#[export] Instance st_bind {S} : MBind (ST S) := fun A B k c s =>
  match c s with
  | Ret a s' => k a s'
  | Stuck w s' => Stuck w s'
  end.

Definition st_get {S} : ST S S := fun s => Ret s s.
Definition st_put {S} (s : S) : ST S unit := fun _ => Ret () s.
Definition st_modify {S} (f : S -> S) : ST S unit := fun s => Ret () (f s).
Definition st_stuck {S A} (w : stuck_reason) : ST S A := fun s => Stuck w s.

(** Run an option-valued read: [None] is an out-of-bounds access. *)
Definition st_of_option {S A} (w : stuck_reason) (o : option A) : ST S A :=
  match o with Some a => mret a | None => st_stuck w end.

(** Run a pure computation that may get stuck. *)
Definition st_of_sum {S A} (r : stuck_reason + A) : ST S A :=
  match r with inl w => st_stuck w | inr a => mret a end.

(** Sequential iteration of a loop body over the indices the loop visits. *)
Fixpoint st_iter {S A} (f : A -> ST S unit) (l : list A) : ST S unit :=
  match l with
  | [] => mret ()
  | x :: l' => f x;; st_iter f l'
  end.

Lemma st_bind_Ret {S A B} (c : ST S A) (k : A -> ST S B) s a s' :
  c s = Ret a s' -> (c ≫= k) s = k a s'.
Proof. intros H. unfold mbind, st_bind. rewrite H. reflexivity. Qed.

Lemma st_bind_Stuck {S A B} (c : ST S A) (k : A -> ST S B) s w s' :
  c s = Stuck w s' -> (c ≫= k) s = Stuck w s'.
Proof. intros H. unfold mbind, st_bind. rewrite H. reflexivity. Qed.

Lemma st_bind_Stuck_ex {S A B} (c : ST S A) (k : A -> ST S B) s w :
  (exists s', c s = Stuck w s') -> exists s', (c ≫= k) s = Stuck w s'.
Proof. intros [s' H]. exists s'. by apply st_bind_Stuck. Qed.

Lemma st_ret_run {S A} (a : A) (s : S) : (mret a : ST S A) s = Ret a s.
Proof. reflexivity. Qed.

Lemma st_iter_ext {S A} (f g : A -> ST S unit) l :
  (forall x, x ∈ l -> f x = g x) -> st_iter f l = st_iter g l.
Proof.
  induction l as [|x l IH]; intros Hfg; [reflexivity|]. cbn.
  rewrite (Hfg x) by (left). rewrite IH; [reflexivity|]. intros y Hy. apply Hfg. by right.
Qed.

Lemma st_iter_app {S A} (f : A -> ST S unit) l1 l2 s :
  st_iter f (l1 ++ l2) s = (st_iter f l1;; st_iter f l2) s.
Proof.
  revert s. induction l1 as [|x l1 IH]; intros s; [reflexivity|].
  cbn [app st_iter]. unfold mbind, st_bind. destruct (f x s) as [[] s'|w s']; [|reflexivity].
  rewrite IH. unfold mbind, st_bind. destruct (st_iter f l1 s'); reflexivity.
Qed.

Lemma st_iter_fmap {S A B} (f : B -> ST S unit) (h : A -> B) l s :
  st_iter f (h <$> l) s = st_iter (fun x => f (h x)) l s.
Proof.
  revert s. induction l as [|x l IH]; intros s; [reflexivity|]. cbn [fmap list_fmap st_iter].
  unfold mbind, st_bind. destruct (f (h x) s); [apply IH|reflexivity].
Qed.

Lemma st_iter_single {S A} (f : A -> ST S unit) x s : st_iter f [x] s = f x s.
Proof. cbn [st_iter]. unfold mbind, st_bind. destruct (f x s) as [[] s'|]; reflexivity. Qed.

(** Binds whose parts run alike run alike. *)
Lemma st_bind_ext {S A B} (c1 c2 : ST S A) (k1 k2 : A -> ST S B) s :
  (forall s, c1 s = c2 s) -> (forall a s, k1 a s = k2 a s) -> (c1 ≫= k1) s = (c2 ≫= k2) s.
Proof. intros H1 H2. unfold mbind, st_bind. rewrite H1. destruct (c2 s); [apply H2|reflexivity]. Qed.

(** A successful run of a bind is a successful run of each part. *)
Lemma st_bind_Ret_inv {S A B} (c : ST S A) (k : A -> ST S B) s b s'' :
  (c ≫= k) s = Ret b s'' -> exists a s', c s = Ret a s' /\ k a s' = Ret b s''.
Proof. unfold mbind, st_bind. destruct (c s) as [a s'|]; [eauto|discriminate]. Qed.

(** ** Postconditions of successful runs

    [st_preserves R c]: every run of [c] that returns relates its initial
    and final states by [R].  For a preorder [R] this is closed under the
    monad's combinators, so a frame property of a whole handler follows
    from the frame properties of the primitives it calls. *)

Definition st_preserves {S A} (R : relation S) (c : ST S A) : Prop :=
  forall s a s', c s = Ret a s' -> R s s'.

Section Preserves.
Context {S : Type} (R : relation S) `{!PreOrder R}.

Lemma st_preserves_ret {A} (a : A) : st_preserves R (mret a).
Proof. intros s ? s' [= _ <-]. reflexivity. Qed.

Lemma st_preserves_bind {A B} (c : ST S A) (k : A -> ST S B) :
  st_preserves R c -> (forall a, st_preserves R (k a)) -> st_preserves R (c ≫= k).
Proof.
  intros Hc Hk s b s'' (a & s' & H1 & H2)%st_bind_Ret_inv.
  etrans; [exact (Hc _ _ _ H1)|exact (Hk _ _ _ _ H2)].
Qed.

Lemma st_preserves_get : st_preserves R st_get.
Proof. intros s ? s' [= _ <-]. reflexivity. Qed.

Lemma st_preserves_modify f : (forall s, R s (f s)) -> st_preserves R (st_modify f).
Proof. intros Hf s ? s' [= <-]. subst. apply Hf. Qed.

Lemma st_preserves_stuck {A} w : st_preserves R (st_stuck (A:=A) w).
Proof. intros ? ? ? [=]. Qed.

Lemma st_preserves_of_option {A} w (o : option A) : st_preserves R (st_of_option w o).
Proof. destruct o; [apply st_preserves_ret|apply st_preserves_stuck]. Qed.

Lemma st_preserves_of_sum {A} (r : stuck_reason + A) : st_preserves R (st_of_sum r).
Proof. destruct r; [apply st_preserves_stuck|apply st_preserves_ret]. Qed.

Lemma st_preserves_iter {A} (f : A -> ST S unit) l :
  (forall x, x ∈ l -> st_preserves R (f x)) -> st_preserves R (st_iter f l).
Proof.
  induction l as [|x l IH]; intros Hf; [apply st_preserves_ret|].
  apply st_preserves_bind; [apply Hf; left|intros _; apply IH; intros y Hy; apply Hf; by right].
Qed.
End Preserves.

Lemma st_preserves_apply {S A} (R : relation S) (c : ST S A) s a s' :
  st_preserves R c -> c s = Ret a s' -> R s s'.
Proof. intros Hc. apply Hc. Qed.

Lemma st_preserves_mono {S A} (R R' : relation S) (c : ST S A) :
  (forall s s', R s s' -> R' s s') -> st_preserves R c -> st_preserves R' c.
Proof. intros HR Hc s a s' H. exact (HR _ _ (Hc _ _ _ H)). Qed.

#[export] Hint Extern 1 (st_preserves ?R (mret _)) => apply (st_preserves_ret R) : gup.
#[export] Hint Extern 1 (st_preserves ?R st_get) => apply (st_preserves_get R) : gup.
#[export] Hint Extern 1 (st_preserves ?R (st_stuck _)) => apply (st_preserves_stuck R) : gup.
#[export] Hint Extern 1 (st_preserves ?R (st_of_option _ _)) => apply (st_preserves_of_option R) : gup.
#[export] Hint Extern 1 (st_preserves ?R (st_of_sum _)) => apply (st_preserves_of_sum R) : gup.

Lemma st_of_option_Ret {S A : Type} w (o : option A) (s : S) a s' :
  st_of_option w o s = Ret a s' -> o = Some a /\ s' = s.
Proof. destruct o; cbn; [by intros [= -> ->]|discriminate]. Qed.

(** ** C [for] loops

    [for (i = a; i < n; i += inc)] visits the indices [for_range]
    computes; the fuel [Z.to_nat (n - a)] is enough when [inc >= 1]. *)

Fixpoint for_range (fuel : nat) (i n inc : Z) : list Z :=
  match fuel with
  | O => []
  | S f => if decide (i < n) then i :: for_range f (i + inc) n inc else []
  end.

Definition c_for_indices (a n inc : Z) : list Z :=
  for_range (S (Z.to_nat (n - a))) a n inc.

Lemma for_range_fuel f1 f2 i n inc :
  1 <= inc -> (Z.to_nat (n - i) < f1)%nat -> (Z.to_nat (n - i) < f2)%nat ->
  for_range f1 i n inc = for_range f2 i n inc.
Proof.
  revert f2 i. induction f1 as [|f1 IH]; intros [|f2] i Hinc H1 H2; try lia.
  cbn. case_decide; [|reflexivity]. f_equal. apply IH; lia.
Qed.

(** Termination of the C loop: every fuel beyond [n - a] gives the same
    visited indices, so the model never cuts a loop short. *)
Lemma c_for_indices_fuel fuel a n inc :
  1 <= inc -> (Z.to_nat (n - a) < fuel)%nat ->
  for_range fuel a n inc = c_for_indices a n inc.
Proof. intros. unfold c_for_indices. apply for_range_fuel; lia. Qed.

Lemma c_for_indices_unfold a n inc :
  1 <= inc ->
  c_for_indices a n inc =
    if decide (a < n) then a :: c_for_indices (a + inc) n inc else [].
Proof.
  intros Hinc. unfold c_for_indices at 1. cbn. case_decide; [|reflexivity].
  f_equal. apply c_for_indices_fuel; lia.
Qed.

Lemma elem_of_c_for_indices a n inc x :
  1 <= inc ->
  x ∈ c_for_indices a n inc <-> a <= x < n /\ (x - a) mod inc = 0.
Proof.
  intros Hinc. remember (Z.to_nat (n - a)) as k eqn:Hk.
  revert a Hk. induction k as [k IH] using lt_wf_ind; intros a Hk.
  rewrite c_for_indices_unfold by lia. case_decide as Ha.
  - rewrite elem_of_cons. destruct (decide (x = a)) as [->|Hne].
    + rewrite Z.sub_diag, Z.mod_0_l by lia. split; [lia|tauto].
    + rewrite (IH (Z.to_nat (n - (a + inc)))) by lia.
      replace (x - a) with (x - (a + inc) + 1 * inc) by lia.
      rewrite Z.mod_add by lia.
      split; [intros [?|[??]]; [congruence|split; [lia|done]]|].
      intros [[??] Hm]. right. split; [|done].
      apply Z.mod_divide in Hm; [|lia]. destruct Hm as [q Hq].
      destruct (Z_le_gt_dec 0 q); [nia|].
      assert (q * inc <= - inc) by nia. lia.
  - rewrite elem_of_nil. lia.
Qed.

(** Induction along the iterations of a C loop. *)
Lemma c_for_indices_ind (P : Z -> list Z -> Prop) n inc :
  1 <= inc ->
  (forall a, n <= a -> P a []) ->
  (forall a, a < n -> P (a + inc) (c_for_indices (a + inc) n inc) ->
             P a (a :: c_for_indices (a + inc) n inc)) ->
  forall a, P a (c_for_indices a n inc).
Proof.
  intros Hinc Hend Hstep a. remember (Z.to_nat (n - a)) as k eqn:Hk. revert a Hk.
  induction k as [k IH] using lt_wf_ind; intros a Hk.
  rewrite c_for_indices_unfold by lia. case_decide as Ha.
  - apply Hstep; [lia|]. apply (IH (Z.to_nat (n - (a + inc)))); lia.
  - apply Hend. lia.
Qed.

Lemma NoDup_c_for_indices a n inc : 1 <= inc -> NoDup (c_for_indices a n inc).
Proof.
  intros Hinc. pattern a, (c_for_indices a n inc). revert a.
  apply c_for_indices_ind; [exact Hinc| |].
  - intros. constructor.
  - intros a Ha IH. constructor; [|exact IH].
    rewrite elem_of_c_for_indices by lia. lia.
Qed.

Lemma mod0_le n inc : 1 <= inc -> 1 <= n -> n mod inc = 0 -> inc <= n.
Proof.
  intros Hinc Hn Hmod. destruct (proj1 (Z.mod_divide n inc ltac:(lia)) Hmod) as [k ->].
  destruct (Z_le_gt_dec k 0); nia.
Qed.

Lemma add64_0_r x : is_u64 x -> x +ᵤ 0 = x.
Proof. intros Hx. unfold add64. rewrite Z.add_0_r. by apply wrap64_id. Qed.

Lemma add64_assoc x y z : (x +ᵤ y) +ᵤ z = x +ᵤ (y + z).
Proof. unfold add64, wrap64. rewrite Zplus_mod_idemp_l. f_equal. lia. Qed.

Lemma c_for_indices_step1 a n : c_for_indices a n 1 = seqZ a (n - a).
Proof.
  remember (Z.to_nat (n - a)) as k eqn:Hk. revert a Hk.
  induction k as [|k IH]; intros a Hk.
  - rewrite c_for_indices_unfold by lia. case_decide; [lia|].
    rewrite seqZ_nil by lia. reflexivity.
  - rewrite c_for_indices_unfold by lia. case_decide; [|lia].
    rewrite seqZ_cons by lia. f_equal.
    replace (Z.succ a) with (a + 1) by lia. replace (Z.pred (n - a)) with (n - (a + 1)) by lia.
    apply IH. lia.
Qed.

(** Number of iterations: [ceil ((n - a) / inc)]. *)
Lemma length_c_for_indices a n inc :
  1 <= inc -> a <= n ->
  Z.of_nat (length (c_for_indices a n inc)) = (n - a + inc - 1) / inc.
Proof.
  intros Hinc. remember (Z.to_nat (n - a)) as k eqn:Hk.
  revert a Hk. induction k as [k IH] using lt_wf_ind; intros a Hk Han.
  rewrite c_for_indices_unfold by lia. case_decide as Ha.
  - cbn [length]. destruct (Z_le_gt_dec (a + inc) n).
    + rewrite Nat2Z.inj_succ, (IH (Z.to_nat (n - (a + inc)))) by lia.
      replace (n - a + inc - 1) with ((n - (a + inc) + inc - 1) + 1 * inc) by lia.
      rewrite Z.div_add by lia. lia.
    + rewrite c_for_indices_unfold by lia. case_decide; [lia|]. cbn [length].
      change (Z.of_nat 1) with 1. apply Z.div_unique with (r := n - a - 1); lia.
  - cbn. replace (n - a + inc - 1) with (inc - 1) by lia.
    rewrite Z.div_small by lia. reflexivity.
Qed.

(** A loop over a whole number of strides runs [n / inc] times. *)
Lemma length_c_for_indices_mod0 n inc :
  1 <= inc -> 0 <= n -> n mod inc = 0 ->
  Z.of_nat (length (c_for_indices 0 n inc)) = n / inc.
Proof.
  intros Hinc Hn Hmod. rewrite length_c_for_indices by lia.
  destruct (proj1 (Z.mod_divide n inc ltac:(lia)) Hmod) as [k ->].
  rewrite Z.div_mul by lia. replace (k * inc - 0 + inc - 1) with ((inc - 1) + k * inc) by lia.
  rewrite Z.div_add by lia. rewrite Z.div_small by lia. lia.
Qed.

(** ** Tactics *)

(** Unfold one layer of the monad on a concrete continuation. *)
Ltac st_unfold :=
  cbn [mbind mret st_bind st_ret st_get st_put st_modify st_stuck st_of_option] in *.

(** Execute the first command of a bind chain with its run lemma [H]. *)
Ltac st_seq H := erewrite st_bind_Ret; [|apply H]; cbn beta iota.

(** Decompose a frame goal [st_preserves R c] along the structure of
    [c], leaving the primitives' frame lemmas to [eauto with gup]. *)
Ltac preserves_tac :=
  repeat first
    [ match goal with |- st_preserves ?R (mbind _ _) => apply (st_preserves_bind R); [|intros ?] end
    | match goal with |- st_preserves ?R (st_iter _ _) => apply (st_preserves_iter R); intros ? ? end
    | progress (eauto with gup)
    | match goal with
      | |- st_preserves _ (match ?x with _ => _ end) => destruct x
      | |- st_preserves _ (if ?b then _ else _) => destruct b
      end ].

(** Invert a successful run [H : c s = Ret a s'] along the structure of
    [c]: one hypothesis per command run, one goal per branch taken. *)
Ltac ret_inv H :=
  repeat (cbn beta iota in H;
    lazymatch type of H with
    | (mbind _ _) _ = Ret _ _ =>
        let Hc := fresh "Hc" in apply st_bind_Ret_inv in H as (? & ? & Hc & H)
    | (match ?x with _ => _ end) _ = Ret _ _ => destruct x
    | (if ?b then _ else _) _ = Ret _ _ => destruct b
    | (mret _) _ = Ret _ _ => injection H as <- <-
    end).

(** Decide an equality of closed terms by evaluating its [bool_decide]
    in the virtual machine: only the boolean is read back. *)
Ltac vm_decide := refine (bool_decide_eq_true_1 _ _); vm_compute; reflexivity.

(** Split a conjunction into its conjuncts, and nothing else. *)
Ltac split_conj := repeat match goal with |- _ /\ _ => split end.

(** Close the arithmetic side conditions of wrap-around lemmas. *)
Ltac u64_tac :=
  repeat match goal with
         | H : is_u64 _ |- _ => unfold is_u64 in H
         | |- is_u64 _ => unfold is_u64
         end; lia.

#[export] Hint Extern 3 (is_u64 _) => u64_tac : gup.
