(* ===== verification/Machine.v ===== *)
(** * The driver's data and the state it acts on

    The C structs of [fpga_gup.c] as records: [struct tlb_order] and the
    fields of [struct bus_drvdata] the file reads, the aligned fault
    descriptor [struct desc_aligned] and the pinned-region record
    [struct user_pages].  Then the state the driver reads and writes,
    [world]: the kernel heap of [user_pages] objects (so that a pointer
    returned by [map_present] and later mutated through is modelled as a
    pointer, with aliasing), the hash tables [user_buff_map[d->id][cpid]] of
    one device, the host side (address spaces of processes, pin counts of
    page frames, dirty bits, memory contents), the card memory and its
    allocator, and the device (TLB contents, completion flags, locks, and
    the log of commands submitted to the hardware). *)

From S2P Require Import Prelude.

(** ** Constants of the driver headers *)

(** [PAGE_SHIFT] of the kernel (4 KiB base pages). *)
Definition PAGE_SHIFT : Z := 12.

(** [MAX_N_MAP_PAGES]: the cap on the number of TLB descriptors of one
    batch. *)
Definition MAX_N_MAP_PAGES : Z := 128.

(** [HOST_ACCESS] and [CARD_ACCESS], the values of the [stream] flag. *)
Definition HOST_ACCESS : Z := 1.
Definition CARD_ACCESS : Z := 0.

(** Return codes. *)
Definition EINVAL : Z := 22.
Definition ENOMEM : Z := 12.
Definition EFAULT : Z := 14.

(** ** Structs *)

Record tlb_order := mk_tlb_order {
  page_shift : Z;
  page_mask : Z;
}.

(** The fields of [struct bus_drvdata] used by [fpga_gup.c]. *)
Record bus_drvdata := mk_bus_drvdata {
  stlb_order : tlb_order;
  ltlb_order : tlb_order;
  n_pages_in_huge : Z;
  dif_order_page_shift : Z;
  en_mem : bool;
}.

Module DescAligned.
(** [struct desc_aligned]: a fault extent in base pages. *)
Record desc_aligned := mk {
  vaddr : Z;
  n_pages : Z;
  cpid : Z;
  hugepages : bool;
}.
Definition set_n_pages (pfa : desc_aligned) (n : Z) : desc_aligned :=
  mk pfa.(vaddr) n pfa.(cpid) pfa.(hugepages).

Lemma set_n_pages_twice pfa a b : set_n_pages (set_n_pages pfa a) b = set_n_pages pfa b.
Proof. reflexivity. Qed.
Lemma set_n_pages_id pfa : set_n_pages pfa pfa.(n_pages) = pfa.
Proof. by destruct pfa. Qed.
End DescAligned.
Module DA := DescAligned.
Abbreviation desc_aligned := DA.desc_aligned.

Module UserPages.
(** [struct user_pages]: one pinned region; [pages] are the page frames
    pinned by [get_user_pages_remote], [hpages] their physical
    addresses, [cpages] the card pages ([NULL], here [[]], when the
    device has no card memory). *)
Record user_pages := mk {
  vaddr : Z;
  huge : bool;
  cpid : Z;
  n_pages : Z;
  host : bool;
  pages : list Z;
  hpages : list Z;
  cpages : list Z;
}.

(** The object [kzalloc] returns: every field zero. *)
Definition zeroed : user_pages := mk 0 false 0 0 false [] [] [].

Definition set_host (u : user_pages) (b : bool) : user_pages :=
  mk u.(vaddr) u.(huge) u.(cpid) u.(n_pages) b u.(pages) u.(hpages) u.(cpages).
End UserPages.
Module UP := UserPages.
Abbreviation user_pages := UP.user_pages.

(** Kernel pointers to [struct user_pages] objects. *)
Abbreviation ptr := positive.

(** One device TLB descriptor written by [tlb_create_map] or
    [tlb_create_unmap] into [map_array]. *)
Inductive tlb_desc :=
| TlbMap (va phys : Z) (on_host : bool) (cpid hpid : Z)
| TlbUnmap (va hpid : Z).

(** A device TLB entry, keyed by (large-page order?, virtual page). *)
Record tlb_entry := mk_tlb_entry {
  te_phys : Z;
  te_host : bool;
  te_cpid : Z;
  te_hpid : Z;
}.

(** Commands submitted to the hardware, in order. *)
Inductive dev_event :=
| EvService (huge : bool) (batch : list tlb_desc)
| EvInvalidate (va n : Z) (last : bool)
| EvOffload (n : Z) (huge : bool)
| EvSync (n : Z) (huge : bool).

(** ** Host, card, device *)

Record vm_area := mk_vm_area {
  vm_start : Z;
  vm_end : Z;
  vm_hugetlb : bool;
}.

(** A process address space: its VMAs in address order and its page
    table from base virtual page numbers to page frames. *)
Record mm_struct := mk_mm {
  mmap : list vm_area;
  pte : gmap Z Z;
}.

Record host_state := mk_host {
  procs : gmap Z mm_struct;
  page_pins : gmap Z nat;
  dirty : gset Z;
  hmem : gmap Z Z;
}.

Record card_state := mk_card {
  cmem : gmap Z Z;
  card_free_list : list Z;
}.

Record dev_state := mk_dev {
  tlb : gmap (bool * Z) tlb_entry;
  wait_invldt : bool;
  wait_offload : bool;
  wait_sync : bool;
  offload_lock : bool;
  sync_lock : bool;
  dlog : list dev_event;
}.

Record world := mk_world {
  heap : gmap positive user_pages;
  next_ptr : positive;
  user_buff_map : gmap Z (list (list positive));
  pid_array : gmap Z Z;
  host : host_state;
  card : card_state;
  dev : dev_state;
}.

(** ** Updates *)

Definition set_heap (w : world) (h : gmap positive user_pages) : world :=
  mk_world h w.(next_ptr) w.(user_buff_map) w.(pid_array) w.(host) w.(card) w.(dev).
Definition set_next_ptr (w : world) (p : positive) : world :=
  mk_world w.(heap) p w.(user_buff_map) w.(pid_array) w.(host) w.(card) w.(dev).
Definition set_user_buff_map (w : world) (m : gmap Z (list (list positive))) : world :=
  mk_world w.(heap) w.(next_ptr) m w.(pid_array) w.(host) w.(card) w.(dev).
Definition set_host_st (w : world) (h : host_state) : world :=
  mk_world w.(heap) w.(next_ptr) w.(user_buff_map) w.(pid_array) h w.(card) w.(dev).
Definition set_card (w : world) (c : card_state) : world :=
  mk_world w.(heap) w.(next_ptr) w.(user_buff_map) w.(pid_array) w.(host) c w.(dev).
Definition set_dev (w : world) (d : dev_state) : world :=
  mk_world w.(heap) w.(next_ptr) w.(user_buff_map) w.(pid_array) w.(host) w.(card) d.

Definition set_page_pins (h : host_state) (m : gmap Z nat) : host_state :=
  mk_host h.(procs) m h.(dirty) h.(hmem).
Definition set_dirty (h : host_state) (s : gset Z) : host_state :=
  mk_host h.(procs) h.(page_pins) s h.(hmem).
Definition set_hmem (h : host_state) (m : gmap Z Z) : host_state :=
  mk_host h.(procs) h.(page_pins) h.(dirty) m.

Definition set_tlb (d : dev_state) (t : gmap (bool * Z) tlb_entry) : dev_state :=
  mk_dev t d.(wait_invldt) d.(wait_offload) d.(wait_sync) d.(offload_lock) d.(sync_lock) d.(dlog).
Definition set_wait_invldt (d : dev_state) (b : bool) : dev_state :=
  mk_dev d.(tlb) b d.(wait_offload) d.(wait_sync) d.(offload_lock) d.(sync_lock) d.(dlog).
Definition set_wait_offload (d : dev_state) (b : bool) : dev_state :=
  mk_dev d.(tlb) d.(wait_invldt) b d.(wait_sync) d.(offload_lock) d.(sync_lock) d.(dlog).
Definition set_wait_sync (d : dev_state) (b : bool) : dev_state :=
  mk_dev d.(tlb) d.(wait_invldt) d.(wait_offload) b d.(offload_lock) d.(sync_lock) d.(dlog).
Definition set_offload_lock (d : dev_state) (b : bool) : dev_state :=
  mk_dev d.(tlb) d.(wait_invldt) d.(wait_offload) d.(wait_sync) b d.(sync_lock) d.(dlog).
Definition set_sync_lock (d : dev_state) (b : bool) : dev_state :=
  mk_dev d.(tlb) d.(wait_invldt) d.(wait_offload) d.(wait_sync) d.(offload_lock) b d.(dlog).
Definition log_event (d : dev_state) (e : dev_event) : dev_state :=
  mk_dev d.(tlb) d.(wait_invldt) d.(wait_offload) d.(wait_sync) d.(offload_lock) d.(sync_lock)
    (d.(dlog) ++ [e]).

(** ** Reading the heap *)

(** Dereference a [struct user_pages *]; a dangling pointer is stuck. *)
Definition deref (p : positive) : ST world user_pages :=
  w ← st_get; st_of_option NullDeref (w.(heap) !! p).

(** Write a [struct user_pages] back through its pointer. *)
Definition store (p : positive) (u : user_pages) : ST world unit :=
  st_modify (fun w => set_heap w (<[p := u]> w.(heap))).

Definition modify_dev (f : dev_state -> dev_state) : ST world unit :=
  st_modify (fun w => set_dev w (f w.(dev))).

Definition modify_host (f : host_state -> host_state) : ST world unit :=
  st_modify (fun w => set_host_st w (f w.(host))).

(** ** Decidable equality *)

#[export] Instance tlb_desc_eq_dec : EqDecision tlb_desc.
Proof. solve_decision. Defined.
#[export] Instance tlb_entry_eq_dec : EqDecision tlb_entry.
Proof. solve_decision. Defined.
#[export] Instance dev_event_eq_dec : EqDecision dev_event.
Proof. solve_decision. Defined.
#[export] Instance desc_aligned_eq_dec : EqDecision desc_aligned.
Proof. solve_decision. Defined.
#[export] Instance user_pages_eq_dec : EqDecision user_pages.
Proof. solve_decision. Defined.
#[export] Instance vm_area_eq_dec : EqDecision vm_area.
Proof. solve_decision. Defined.
#[export] Instance mm_struct_eq_dec : EqDecision mm_struct.
Proof. solve_decision. Defined.
#[export] Instance host_state_eq_dec : EqDecision host_state.
Proof. solve_decision. Defined.
#[export] Instance card_state_eq_dec : EqDecision card_state.
Proof. solve_decision. Defined.
#[export] Instance dev_state_eq_dec : EqDecision dev_state.
Proof. solve_decision. Defined.
#[export] Instance world_eq_dec : EqDecision world.
Proof. solve_decision. Defined.

Lemma deref_spec p w u : w.(heap) !! p = Some u -> deref p w = Ret u w.
Proof. intros H. unfold deref, mbind, st_bind, st_get, st_of_option. rewrite H. reflexivity. Qed.

Lemma deref_Ret p w u w' : deref p w = Ret u w' -> w' = w /\ w.(heap) !! p = Some u.
Proof.
  unfold deref, mbind, st_bind, st_get, st_of_option. destruct (w.(heap) !! p); [|discriminate].
  by intros [= -> ->].
Qed.

#[export] Hint Resolve deref_spec : gup.
