(* ===== verification/Platform.v ===== *)
(** * The collaborators [fpga_gup.c] calls

    The kernel services and the device operations the driver invokes but
    does not implement, written from their contracts (the specification's
    external interfaces): pinning user pages ([get_user_pages_remote]),
    dropping a pin ([put_page]), [SetPageDirty], the card-memory allocator
    ([card_alloc], [card_free]), programming a TLB batch
    ([tlb_service_dev]), invalidation commands ([fpga_invalidate]), the DMA
    copies ([dma_offload_start], [dma_sync_start]), completion waits
    ([wait_event_interruptible] on a flag), mutexes, [kzalloc]/[kfree],
    [vmalloc]'s refusal of a zero size, and the process lookups
    ([pid_task], [find_vma]).

    The device is modelled as completing a submitted command before the
    driver's next step: a DMA copy sets its completion flag, the
    invalidation marked last sets [wait_invldt]. *)

From S2P Require Import Prelude Machine.

(** ** Page pins *)

(** [get_user_pages_remote] pins pages in address order and stops at the
    first page that is not present. *)
Fixpoint gup_prefix (pt : gmap Z Z) (v : Z) (n : nat) : list Z :=
  match n with
  | O => []
  | S n' => match pt !! v with
            | Some pfn => pfn :: gup_prefix pt (v + 1) n'
            | None => []
            end
  end.

(** The pins held on each page frame. *)
Definition pin_count (m : gmap Z nat) (pfn : Z) : nat := default 0%nat (m !! pfn).

Definition pin_page (m : gmap Z nat) (pfn : Z) : gmap Z nat :=
  <[pfn := S (pin_count m pfn)]> m.

Definition unpin_page (m : gmap Z nat) (pfn : Z) : option (gmap Z nat) :=
  match m !! pfn with
  | Some (S O) => Some (delete pfn m)
  | Some (S k) => Some (<[pfn := k]> m)
  | _ => None
  end.

Definition get_user_pages_remote (mm : mm_struct) (start_vpage nr : Z) : ST world (Z * list Z) :=
  let pfns := gup_prefix mm.(pte) start_vpage (Z.to_nat nr) in
  modify_host (fun h => set_page_pins h (foldl pin_page h.(page_pins) pfns));;
  mret (if decide (pfns = []) then - EFAULT else Z.of_nat (length pfns), pfns).

(** [put_page]: dropping a pin the driver does not hold is a refcount
    underflow. *)
Definition put_page (pfn : Z) : ST world unit :=
  w ← st_get;
  match unpin_page w.(host).(page_pins) pfn with
  | Some m => modify_host (fun h => set_page_pins h m)
  | None => st_stuck KernelBug
  end.

Definition SetPageDirty (pfn : Z) : ST world unit :=
  modify_host (fun h => set_dirty h ({[pfn]} ∪ h.(dirty))).

Definition page_to_phys (pfn : Z) : Z := Z.shiftl pfn PAGE_SHIFT.

(** ** Card memory *)

Definition card_alloc (n : Z) (huge : bool) : ST world (option (list Z)) :=
  w ← st_get;
  let fl := w.(card).(card_free_list) in
  if decide (Z.to_nat n <= length fl)%nat then
    st_put (set_card w (mk_card w.(card).(cmem) (drop (Z.to_nat n) fl)));;
    mret (Some (take (Z.to_nat n) fl))
  else mret None.

Definition card_free (cpages : list Z) (n : Z) (huge : bool) : ST world unit :=
  st_modify (fun w => set_card w (mk_card w.(card).(cmem)
                                   (take (Z.to_nat n) cpages ++ w.(card).(card_free_list)))).

(** ** Kernel heap *)

Definition kzalloc : ST world positive :=
  w ← st_get;
  let p := w.(next_ptr) in
  st_put (set_next_ptr (set_heap w (<[p := UP.zeroed]> w.(heap))) (Pos.succ p));;
  mret p.

Definition kfree (p : positive) : ST world unit :=
  st_modify (fun w => set_heap w (delete p w.(heap))).

(** [BUG_ON(!vmalloc(size))] where [vmalloc(0)] returns [NULL]. *)
Definition vmalloc_check (size : Z) : ST world unit :=
  if decide (size = 0) then st_stuck KernelBug else mret ().

(** ** Device *)

Definition tlb_apply (huge : bool) (t : gmap (bool * Z) tlb_entry) (e : tlb_desc)
    : gmap (bool * Z) tlb_entry :=
  match e with
  | TlbMap va phys on_host cpid hpid => <[(huge, va) := mk_tlb_entry phys on_host cpid hpid]> t
  | TlbUnmap va _ => delete (huge, va) t
  end.

(** [tlb_service_dev(d, order, map_array, n)]: the device takes the first
    [n] descriptors of the array. *)
Definition tlb_service_dev (huge : bool) (batch : list tlb_desc) (n : Z) : ST world unit :=
  let b := take (Z.to_nat n) batch in
  modify_dev (fun d => log_event (set_tlb d (foldl (tlb_apply huge) d.(tlb) b)) (EvService huge b)).

(** [fpga_invalidate(d, vaddr, n, hpid, last)]: the device acknowledges the
    command marked last by setting [wait_invldt]. *)
Definition fpga_invalidate (va n hpid : Z) (last : bool) : ST world unit :=
  modify_dev (fun d => let d' := log_event d (EvInvalidate va n last) in
                       if last then set_wait_invldt d' true else d').

Definition nth_addr (l : list Z) (i : Z) : option Z :=
  if decide (0 <= i) then l !! Z.to_nat i else None.

(** One page of a DMA copy from [src] to [dst] memory. *)
Definition copy_page (src dst : gmap Z Z) (from to : Z) : gmap Z Z :=
  <[to := default 0 (src !! from)]> dst.

Fixpoint dma_copy (src dst : gmap Z Z) (froms tos : list Z) : gmap Z Z :=
  match froms, tos with
  | f :: froms', t :: tos' => dma_copy src (copy_page src dst f t) froms' tos'
  | _, _ => dst
  end.

(** [dma_offload_start(d, hpages, cpages, n, huge)]: host to card. *)
Definition dma_offload_start (hpages cpages : list Z) (n : Z) (huge : bool) : ST world unit :=
  if decide (cpages = []) then st_stuck NullDeref
  else if decide (Z.to_nat n <= length hpages /\ Z.to_nat n <= length cpages)%nat then
    st_modify (fun w =>
      set_dev (set_card w (mk_card (dma_copy w.(host).(hmem) w.(card).(cmem)
                                      (take (Z.to_nat n) hpages) (take (Z.to_nat n) cpages))
                                   w.(card).(card_free_list)))
              (set_wait_offload (log_event w.(dev) (EvOffload n huge)) true))
  else st_stuck OutOfBounds.

(** [dma_sync_start(d, hpages, cpages, n, huge)]: card to host. *)
Definition dma_sync_start (hpages cpages : list Z) (n : Z) (huge : bool) : ST world unit :=
  if decide (cpages = []) then st_stuck NullDeref
  else if decide (Z.to_nat n <= length hpages /\ Z.to_nat n <= length cpages)%nat then
    st_modify (fun w =>
      set_dev (set_host_st w (set_hmem w.(host) (dma_copy w.(card).(cmem) w.(host).(hmem)
                                      (take (Z.to_nat n) cpages) (take (Z.to_nat n) hpages))))
              (set_wait_sync (log_event w.(dev) (EvSync n huge)) true))
  else st_stuck OutOfBounds.

(** [wait_event_interruptible(wq, atomic_read(flag) == FLAG_SET)]: with
    nobody left to set the flag, the caller sleeps forever. *)
Definition wait_flag (flag : dev_state -> bool) : ST world unit :=
  w ← st_get; if flag w.(dev) then mret () else st_stuck Blocked.

(** [mutex_lock] by the only running thread: a held lock never frees. *)
Definition mutex_lock (get : dev_state -> bool) (set : dev_state -> bool -> dev_state) : ST world unit :=
  w ← st_get; if get w.(dev) then st_stuck Deadlock else modify_dev (fun d => set d true).

Definition mutex_unlock (set : dev_state -> bool -> dev_state) : ST world unit :=
  modify_dev (fun d => set d false).

(** ** Processes *)

Definition pid_task (hpid : Z) : ST world mm_struct :=
  w ← st_get; st_of_option NullDeref (w.(host).(procs) !! hpid).

(** [find_vma(mm, addr)]: the first area ending above [addr] ([NULL] if
    none, which [is_vm_hugetlb_page] then dereferences). *)
Definition find_vma (mm : mm_struct) (addr : Z) : option vm_area :=
  List.find (fun a => bool_decide (addr < a.(vm_end))) mm.(mmap).

(** ** Lemmas *)

Lemma pin_count_pin m p x :
  pin_count (pin_page m p) x = (pin_count m x + if decide (p = x) then 1 else 0)%nat.
Proof.
  unfold pin_count, pin_page. case_decide as Hpx.
  - subst. rewrite lookup_insert_eq. cbn. unfold pin_count. lia.
  - rewrite lookup_insert_ne by done. lia.
Qed.

Lemma unpin_page_Some m p m' :
  unpin_page m p = Some m' ->
  (1 <= pin_count m p)%nat /\
  forall x, pin_count m' x = (pin_count m x - if decide (p = x) then 1 else 0)%nat.
Proof.
  unfold unpin_page. intros Hm. unfold pin_count.
  destruct (m !! p) as [[|[|k]]|] eqn:E; try discriminate; injection Hm as <-;
    (split; [cbn; lia|]); intros x; case_decide as Hpx.
  - subst. rewrite lookup_delete_eq, E. cbn. lia.
  - rewrite lookup_delete_ne by done. lia.
  - subst. rewrite lookup_insert_eq, E. cbn. lia.
  - rewrite lookup_insert_ne by done. lia.
Qed.

Lemma unpin_page_None m p : unpin_page m p = None <-> pin_count m p = 0%nat.
Proof.
  unfold unpin_page, pin_count. destruct (m !! p) as [[|[|k]]|]; cbn; split; done.
Qed.

Lemma pin_count_pin_all m l x :
  pin_count (foldl pin_page m l) x = (pin_count m x + count_occ Z.eq_dec l x)%nat.
Proof.
  revert m. induction l as [|p l IH]; intros m; cbn; [lia|].
  rewrite IH, pin_count_pin. destruct (Z.eq_dec p x), (decide (p = x)); try congruence; lia.
Qed.

Lemma gup_prefix_length pt v n : (length (gup_prefix pt v n) <= n)%nat.
Proof.
  revert v. induction n as [|n IH]; intros v; cbn; [lia|].
  destruct (pt !! v); cbn; [specialize (IH (v + 1))|]; lia.
Qed.

(** With every page of the range present, all of them are pinned. *)
Lemma gup_prefix_full pt v n :
  (forall i, v <= i < v + Z.of_nat n -> is_Some (pt !! i)) ->
  length (gup_prefix pt v n) = n.
Proof.
  revert v. induction n as [|n IH]; intros v Hall; cbn; [done|].
  destruct (Hall v) as [pfn Hp]; [lia|]. rewrite Hp. cbn. f_equal.
  apply IH. intros i Hi. apply Hall. lia.
Qed.

#[export] Hint Resolve gup_prefix_length : gup.

(** ** Run lemmas *)

Lemma kzalloc_run w :
  kzalloc w = Ret w.(next_ptr)
    (set_next_ptr (set_heap w (<[w.(next_ptr) := UP.zeroed]> w.(heap))) (Pos.succ w.(next_ptr))).
Proof. reflexivity. Qed.

Lemma kfree_run p w : kfree p w = Ret () (set_heap w (delete p w.(heap))).
Proof. reflexivity. Qed.

Lemma store_run p u w : store p u w = Ret () (set_heap w (<[p := u]> w.(heap))).
Proof. reflexivity. Qed.

Lemma get_user_pages_remote_run mm v n w :
  let pfns := gup_prefix mm.(pte) v (Z.to_nat n) in
  get_user_pages_remote mm v n w =
  Ret (if decide (pfns = []) then - EFAULT else Z.of_nat (length pfns), pfns)
    (set_host_st w (set_page_pins w.(host) (foldl pin_page w.(host).(page_pins) pfns))).
Proof. reflexivity. Qed.

Lemma card_alloc_ok n huge w :
  (Z.to_nat n <= length w.(card).(card_free_list))%nat ->
  card_alloc n huge w =
  Ret (Some (take (Z.to_nat n) w.(card).(card_free_list)))
    (set_card w (mk_card w.(card).(cmem) (drop (Z.to_nat n) w.(card).(card_free_list)))).
Proof.
  intros Hn. unfold card_alloc, mbind, st_bind, st_get. case_decide; [reflexivity|lia].
Qed.

Lemma card_alloc_fail n huge w :
  (length w.(card).(card_free_list) < Z.to_nat n)%nat -> card_alloc n huge w = Ret None w.
Proof.
  intros Hn. unfold card_alloc, mbind, st_bind, st_get. case_decide; [lia|reflexivity].
Qed.

Lemma tlb_service_dev_run h b n w :
  tlb_service_dev h b n w =
  Ret () (set_dev w (log_event (set_tlb w.(dev) (foldl (tlb_apply h) w.(dev).(tlb) (take (Z.to_nat n) b)))
                                (EvService h (take (Z.to_nat n) b)))).
Proof. reflexivity. Qed.

Lemma wait_flag_run flag w : flag w.(dev) = true -> wait_flag flag w = Ret () w.
Proof. intros Hf. unfold wait_flag, mbind, st_bind, st_get. by rewrite Hf. Qed.

Lemma modify_dev_run f w : modify_dev f w = Ret () (set_dev w (f w.(dev))).
Proof. reflexivity. Qed.

Lemma put_page_run p w m :
  unpin_page w.(host).(page_pins) p = Some m ->
  put_page p w = Ret () (set_host_st w (set_page_pins w.(host) m)).
Proof. intros Hm. unfold put_page, mbind, st_bind, st_get, modify_host, st_modify. rewrite Hm. done. Qed.

(** Dropping one pin per element of [l], when the driver holds them. *)
Lemma put_pages_run l w :
  (forall x, (count_occ Z.eq_dec l x <= pin_count w.(host).(page_pins) x)%nat) ->
  exists m, st_iter put_page l w = Ret () (set_host_st w (set_page_pins w.(host) m)) /\
    forall x, pin_count m x = (pin_count w.(host).(page_pins) x - count_occ Z.eq_dec l x)%nat.
Proof.
  revert w. induction l as [|p l IH]; intros w Hle.
  - exists w.(host).(page_pins). split; [by destruct w as [? ? ? ? [] ? ?]|]. intros x. cbn. lia.
  - destruct (unpin_page w.(host).(page_pins) p) as [m1|] eqn:Hm1.
    + destruct (unpin_page_Some _ _ _ Hm1) as [_ Hc1].
      destruct (IH (set_host_st w (set_page_pins w.(host) m1))) as [m [Hrun Hc]].
      { intros x. cbn. rewrite Hc1. specialize (Hle x). cbn in Hle.
        destruct (Z.eq_dec p x), (decide (p = x)); try congruence; lia. }
      exists m. split.
      * cbn [st_iter]. unfold mbind at 1, st_bind at 1. rewrite (put_page_run p w m1 Hm1).
        exact Hrun.
      * intros x. rewrite Hc. cbn. rewrite Hc1. specialize (Hle x). cbn in Hle.
        destruct (Z.eq_dec p x), (decide (p = x)); try congruence; lia.
    + apply unpin_page_None in Hm1. specialize (Hle p). cbn in Hle.
      destruct (Z.eq_dec p p); [lia|congruence].
Qed.
