(* ===== verification/HashTable.v ===== *)
(** * The Linux hashtable of [user_buff_map]

    [user_buff_map[d][cpid]] is a [DECLARE_HASHTABLE]-style array of
    [2 ^ USER_HASH_TABLE_ORDER] [hlist] buckets.  A table is modelled as the
    list of its buckets, each bucket as the list of the pointers it links,
    head first: [hash_add] is [hlist_add_head] into bucket
    [hash_min key], [hash_del] unlinks a node, [hash_for_each] visits the
    buckets in index order and each bucket from its head, and
    [hash_for_each_possible] visits the one bucket of a key.

    The bucket function is an interface, the class [HashFn]: the table only
    relies on [hash_min] returning an index below the table size.  The
    kernel's [hash_64] (a multiplicative hash by [GOLDEN_RATIO_64]) with the
    table order of the driver is its instance [linux_hash].

    [hash_del] is [hlist_del_init], which sets the node's [next] to [NULL];
    the iteration macros read [next] after the body, so a walk whose body
    deletes the current node stops there.  [hlist_walk] models exactly
    that. *)

From S2P Require Import Prelude.

Class HashFn := {
  hash_bits : nat;
  hash_min : Z -> nat;
  hash_min_lt : forall k, (hash_min k < 2 ^ hash_bits)%nat;
}.

Abbreviation hashtable := (list (list positive)).

Section Table.
Context `{!HashFn}.

Definition HASH_SIZE : nat := 2 ^ hash_bits.

(** [hash_init]: every bucket empty. *)
Definition empty_table : hashtable := replicate HASH_SIZE [].

(** [hash_add(table, node, key)]: [hlist_add_head] into the key's bucket. *)
Definition hash_add (t : hashtable) (p : positive) (key : Z) : hashtable :=
  alter (cons p) (hash_min key) t.

(** [hash_del(node)]: unlink the node from its bucket. *)
Definition hash_del (t : hashtable) (p : positive) : hashtable :=
  map (filter (fun q => q ≠ p)) t.

(** The nodes in [hash_for_each] order. *)
Definition hash_entries (t : hashtable) : list positive := concat t.

(** The bucket [hash_for_each_possible] walks for a key. *)
Definition hash_bucket (t : hashtable) (key : Z) : list positive :=
  default [] (t !! hash_min key).

(** A walk of one bucket, threading the loop's local variables [acc],
    whose body returns [true] when it has executed [hash_del] on the
    current node: the walk then reads a [NULL] [next] and ends. *)
Fixpoint hlist_walk {S A} (body : A -> positive -> ST S (bool * A)) (l : list positive) (acc : A)
    : ST S A :=
  match l with
  | [] => mret acc
  | p :: l' => '((deleted, acc') : bool * A) ← body acc p;
      if deleted then mret acc' else hlist_walk body l' acc'
  end.

(** A table has [HASH_SIZE] buckets and links each node once. *)
Definition table_shape (t : hashtable) : Prop :=
  length t = HASH_SIZE /\ NoDup (hash_entries t).

#[export] Instance table_shape_dec t : Decision (table_shape t).
Proof. unfold table_shape. apply _. Defined.

(** ** Lemmas *)

Lemma length_empty_table : length empty_table = HASH_SIZE.
Proof. apply length_replicate. Qed.

Lemma hash_entries_empty : hash_entries empty_table = [].
Proof. unfold hash_entries, empty_table. induction HASH_SIZE; cbn; auto. Qed.

Lemma length_hash_add t p k : length (hash_add t p k) = length t.
Proof. apply length_alter. Qed.

Lemma length_hash_del t p : length (hash_del t p) = length t.
Proof. apply length_map. Qed.

Lemma concat_alter_cons (t : hashtable) i p :
  (i < length t)%nat -> concat (alter (cons p) i t) ≡ₚ p :: concat t.
Proof.
  revert i. induction t as [|b t IH]; intros [|i] Hi; cbn in *; try lia.
  - reflexivity.
  - rewrite IH by lia. symmetry. apply Permutation_middle.
Qed.

Lemma hash_entries_add t p k :
  length t = HASH_SIZE -> hash_entries (hash_add t p k) ≡ₚ p :: hash_entries t.
Proof.
  intros Hl. apply concat_alter_cons. rewrite Hl. apply hash_min_lt.
Qed.

Lemma hash_entries_del t p :
  hash_entries (hash_del t p) = filter (fun q => q ≠ p) (hash_entries t).
Proof.
  unfold hash_entries, hash_del. induction t as [|b t IH]; cbn; [reflexivity|].
  rewrite filter_app, IH. reflexivity.
Qed.

Lemma elem_of_hash_entries_add t p k q :
  length t = HASH_SIZE -> q ∈ hash_entries (hash_add t p k) <-> q = p \/ q ∈ hash_entries t.
Proof. intros Hl. rewrite (hash_entries_add t p k Hl). apply elem_of_cons. Qed.

Lemma elem_of_hash_entries_del t p q :
  q ∈ hash_entries (hash_del t p) <-> q ≠ p /\ q ∈ hash_entries t.
Proof. rewrite hash_entries_del, list_elem_of_filter. tauto. Qed.

Lemma table_shape_add t p k :
  table_shape t -> p ∉ hash_entries t -> table_shape (hash_add t p k).
Proof.
  intros [Hl Hnd] Hp. split; [rewrite length_hash_add; exact Hl|].
  rewrite (hash_entries_add t p k Hl). constructor; assumption.
Qed.

Lemma table_shape_del t p : table_shape t -> table_shape (hash_del t p).
Proof.
  intros [Hl Hnd]. split; [rewrite length_hash_del; exact Hl|].
  rewrite hash_entries_del. apply NoDup_filter. exact Hnd.
Qed.

Lemma table_shape_empty : table_shape empty_table.
Proof.
  split; [apply length_empty_table|]. rewrite hash_entries_empty. constructor.
Qed.

(** Where a node lives: bucket [b] of the table. *)
Definition in_bucket (t : hashtable) (b : nat) (p : positive) : Prop :=
  exists l, t !! b = Some l /\ p ∈ l.

Lemma elem_of_hash_entries t p : p ∈ hash_entries t <-> exists b, in_bucket t b p.
Proof.
  unfold hash_entries, in_bucket. rewrite list_elem_of_In, in_concat. split.
  - intros [l [Hl Hp]]. apply list_elem_of_In in Hl, Hp.
    apply list_elem_of_lookup in Hl as [b Hb]. eauto.
  - intros [b [l [Hb Hp]]]. exists l.
    split; apply list_elem_of_In; [by eapply list_elem_of_lookup_2|done].
Qed.

Lemma in_bucket_add t p k b q :
  in_bucket (hash_add t p k) b q <->
  (q = p /\ b = hash_min k /\ (b < length t)%nat) \/ in_bucket t b q.
Proof.
  unfold in_bucket, hash_add. rewrite list_lookup_alter.
  destruct (decide (hash_min k = b)) as [<-|Hne].
  - destruct (t !! hash_min k) as [l|] eqn:E; cbn.
    + apply lookup_lt_Some in E as Hlt. split.
      * intros [l' [[= <-] Hq]]. apply elem_of_cons in Hq as [->|Hq]; [left|right]; eauto.
      * intros [(-> & _ & _)|[l' [[= <-] Hq]]]; exists (p :: l); split; auto;
          apply elem_of_cons; auto.
    + apply lookup_ge_None in E. split; [intros [? [[=] _]]|].
      intros [(_ & _ & ?)|[? [[=] _]]]. lia.
  - split; [intros Hq; by right|].
    intros [(_ & ? & _)|Hq]; [congruence|exact Hq].
Qed.

Lemma in_bucket_del t p b q : in_bucket (hash_del t p) b q <-> q ≠ p /\ in_bucket t b q.
Proof.
  unfold in_bucket, hash_del. rewrite list_lookup_fmap.
  destruct (t !! b) as [l|]; cbn; split.
  - intros [l' [[= <-] Hq]]. apply list_elem_of_filter in Hq as [? ?]. eauto.
  - intros [? [l' [[= <-] Hq]]]. eexists; split; [done|]. by apply list_elem_of_filter.
  - intros [? [[=] _]].
  - intros [_ [? [[=] _]]].
Qed.

Lemma hash_bucket_in t k p : p ∈ hash_bucket t k <-> in_bucket t (hash_min k) p.
Proof.
  unfold hash_bucket, in_bucket. destruct (t !! hash_min k) as [l|]; cbn.
  - split; [eauto|]. intros [l' [[= <-] Hp]]. exact Hp.
  - split; [intros Hp; by apply elem_of_nil in Hp|]. intros [? [[=] _]].
Qed.

(** In a table that links each node once, a node is in one bucket. *)
Lemma in_bucket_unique t b1 b2 q :
  NoDup (hash_entries t) -> in_bucket t b1 q -> in_bucket t b2 q -> b1 = b2.
Proof.
  revert b1 b2. induction t as [|l t IH]; intros b1 b2 Hnd (l1 & H1 & Hq1) (l2 & H2 & Hq2);
    [done|].
  change (hash_entries (l :: t)) with (l ++ hash_entries t) in Hnd.
  apply NoDup_app in Hnd as (_ & Hdisj & Hnd).
  destruct b1 as [|b1], b2 as [|b2]; cbn in H1, H2; simplify_eq; try done.
  - exfalso. apply (Hdisj q Hq1), elem_of_hash_entries. exists b2, l2. done.
  - exfalso. apply (Hdisj q Hq2), elem_of_hash_entries. exists b1, l1. done.
  - f_equal. apply IH; [exact Hnd|exists l1|exists l2]; done.
Qed.

Lemma hlist_walk_preserves {S A} (R : relation S) `{!PreOrder R}
    (body : A -> positive -> ST S (bool * A)) l acc :
  (forall a p, p ∈ l -> st_preserves R (body a p)) -> st_preserves R (hlist_walk body l acc).
Proof.
  revert acc. induction l as [|p l IH]; intros acc Hb; cbn [hlist_walk]; [by apply st_preserves_ret|].
  apply (st_preserves_bind R); [apply Hb; left|]. intros [[] a'];
    [by apply st_preserves_ret|apply IH; intros; apply Hb; by right].
Qed.

(** A walk whose body never deletes visits the whole bucket. *)
Lemma hlist_walk_nodel {S A} (body : A -> positive -> ST S (bool * A)) l acc s :
  (forall a p s, p ∈ l -> exists a' s', body a p s = Ret (false, a') s') ->
  exists a' s', hlist_walk body l acc s = Ret a' s'.
Proof.
  revert acc s. induction l as [|p l IH]; intros acc s Hb; cbn; [eauto|].
  destruct (Hb acc p s) as (a' & s' & Hs'); [left|].
  unfold mbind, st_bind. rewrite Hs'. apply IH. intros. apply Hb. by right.
Qed.
End Table.

#[export] Hint Resolve table_shape_add table_shape_del table_shape_empty : gup.

(** ** The kernel's bucket function *)

(** [GOLDEN_RATIO_64] of [linux/hash.h]. *)
Definition GOLDEN_RATIO_64 : Z := 0x61C8864680B583EB.

(** [hash_64_generic(val, bits) = val * GOLDEN_RATIO_64 >> (64 - bits)],
    with the product taken modulo [2^64]. *)
Definition hash_64 (val : Z) (bits : nat) : nat :=
  Z.to_nat (Z.shiftr (wrap64 (val * GOLDEN_RATIO_64)) (64 - Z.of_nat bits)).

(** [USER_HASH_TABLE_ORDER]: [2^8] buckets per table. *)
Definition USER_HASH_TABLE_ORDER : nat := 8.

Lemma hash_64_lt val : (hash_64 val USER_HASH_TABLE_ORDER < 2 ^ USER_HASH_TABLE_ORDER)%nat.
Proof.
  unfold hash_64, USER_HASH_TABLE_ORDER.
  pose proof (wrap64_range (val * GOLDEN_RATIO_64)) as Hr. unfold is_u64 in Hr.
  change (64 - Z.of_nat 8) with 56.
  rewrite Z.shiftr_div_pow2 by lia.
  assert (0 <= wrap64 (val * GOLDEN_RATIO_64) / 2 ^ 56 < 2 ^ 8) as Hb.
  { split; [apply Z.div_pos; lia|]. apply Z.div_lt_upper_bound; lia. }
  apply Nat2Z.inj_lt. rewrite Z2Nat.id by lia. change (Z.of_nat (2 ^ 8)) with (2 ^ 8). lia.
Qed.

(** [hash_min(key, bits)] on a 64-bit key is [hash_64]. *)
#[export] Instance linux_hash : HashFn := {
  hash_bits := USER_HASH_TABLE_ORDER;
  hash_min k := hash_64 k USER_HASH_TABLE_ORDER;
  hash_min_lt := hash_64_lt;
}.
