(* ===== verification/Lookup.v ===== *)
(** * Region Lookup: [map_present]

    The Region Table of a context is [table_of w cpid]; [map_present]
    walks all of it in [hash_for_each] order.  On each region it either
    reports a hit (the region contains the first faulting page; the extent
    is clipped at the region's end) or, when the region starts strictly
    inside the extent, clips the extent to stop at that start, and goes on.
    The extent [pfa] is a caller's stack variable passed by pointer: the
    model returns it with the result.

    Theorems: the behaviour on a hit and on a miss, the equivalence of the
    clipped length on a miss with the declarative [clip_ref] (the minimum
    over all region starts inside the extent), and the disjointness of the
    miss extent from every region, which is what keeps the Region Table
    free of overlaps. *)

From S2P Require Import Prelude Machine HashTable.

Section Lookup.
Context `{!HashFn}.

(** [user_buff_map[d->id][cpid]]. *)
Definition table_of (w : world) (cpid : Z) : hashtable :=
  default empty_table (w.(user_buff_map) !! cpid).

Definition set_table (w : world) (cpid : Z) (t : hashtable) : world :=
  set_user_buff_map w (<[cpid := t]> w.(user_buff_map)).

Lemma table_of_set_table_eq w c t : table_of (set_table w c t) c = t.
Proof. unfold table_of, set_table. cbn. by rewrite lookup_insert_eq. Qed.

Lemma table_of_set_table_ne w c c' t : c ≠ c' -> table_of (set_table w c t) c' = table_of w c'.
Proof. intros Hne. unfold table_of, set_table. cbn. by rewrite lookup_insert_ne. Qed.

(** The body of the [hash_for_each] loop of [map_present] on one entry:
    [inl] returns a hit, [inr] continues with the (possibly clipped)
    extent. *)
Definition map_present_body (pfa : desc_aligned) (e : user_pages) : desc_aligned + desc_aligned :=
  let v := pfa.(DA.vaddr) in
  let e_end := e.(UP.vaddr) +ᵤ e.(UP.n_pages) in
  if decide (e.(UP.vaddr) <= v /\ v < e_end) then
    inl (if decide (v +ᵤ pfa.(DA.n_pages) > e_end)
         then DA.set_n_pages pfa (e_end -ᵤ v) else pfa)
  else if decide (v < e.(UP.vaddr) /\ v +ᵤ pfa.(DA.n_pages) > e.(UP.vaddr))
  then inr (DA.set_n_pages pfa (e.(UP.vaddr) -ᵤ v))
  else inr pfa.

(** The walk, dereferencing each node when it reaches it ([None]: a
    dangling node). *)
Fixpoint map_present_scan (h : gmap positive user_pages) (ps : list positive)
    (pfa : desc_aligned) : option (option positive * desc_aligned) :=
  match ps with
  | [] => Some (None, pfa)
  | p :: ps' =>
      e ← h !! p;
      match map_present_body pfa e with
      | inl pfa' => Some (Some p, pfa')
      | inr pfa' => map_present_scan h ps' pfa'
      end
  end.

(** [map_present(d, pfa)]. *)
Definition map_present (pfa : desc_aligned) : ST world (option positive * desc_aligned) :=
  w ← st_get;
  st_of_option NullDeref
    (map_present_scan w.(heap) (hash_entries (table_of w pfa.(DA.cpid))) pfa).

Lemma map_present_Ret pfa w r pfa' w' :
  map_present pfa w = Ret (r, pfa') w' ->
  w' = w /\ map_present_scan w.(heap) (hash_entries (table_of w pfa.(DA.cpid))) pfa = Some (r, pfa').
Proof.
  unfold map_present, mbind, st_bind, st_get. intros Hr.
  apply st_of_option_Ret in Hr as [Hs ->]. by split.
Qed.

(** ** Specification *)

(** A region the pinner can have created: non-empty and not wrapping. *)
Definition region_ok (e : user_pages) : Prop :=
  0 <= e.(UP.vaddr) /\ 1 <= e.(UP.n_pages) /\ e.(UP.vaddr) + e.(UP.n_pages) < 2 ^ 64.

(** An extent [map_present] is called with. *)
Definition extent_ok (pfa : desc_aligned) : Prop :=
  0 <= pfa.(DA.vaddr) /\ 1 <= pfa.(DA.n_pages) /\ pfa.(DA.vaddr) + pfa.(DA.n_pages) < 2 ^ 64.

Definition contains (e : user_pages) (v : Z) : Prop :=
  in_pages v e.(UP.vaddr) e.(UP.n_pages).

(** The declarative clip: the extent [[v, v+n)] cut at the first region
    start strictly inside it. *)
Definition clip_ref (v n : Z) (starts : list Z) : Z :=
  foldr (fun s acc => if decide (v < s < v + n) then Z.min (s - v) acc else acc) n starts.

(** All nodes of a walk are live regions. *)
Definition all_regions_ok (h : gmap positive user_pages) (ps : list positive) : Prop :=
  forall p, p ∈ ps -> exists e, h !! p = Some e /\ region_ok e.

(** The starts of the regions of a walk. *)
Definition starts_of (h : gmap positive user_pages) (ps : list positive) : list Z :=
  omap (fun p => UP.vaddr <$> h !! p) ps.

#[export] Instance region_ok_dec e : Decision (region_ok e).
Proof. unfold region_ok. apply _. Defined.
#[export] Instance extent_ok_dec pfa : Decision (extent_ok pfa).
Proof. unfold extent_ok. apply _. Defined.
#[export] Instance contains_dec e v : Decision (contains e v).
Proof. unfold contains. apply _. Defined.

(** The check of [all_regions_ok] the walk itself performs. *)
Definition all_regions_okb (h : gmap positive user_pages) (ps : list positive) : bool :=
  forallb (fun p => match h !! p with Some e => bool_decide (region_ok e) | None => false end) ps.

Lemma all_regions_okb_sound h ps : all_regions_okb h ps = true -> all_regions_ok h ps.
Proof.
  unfold all_regions_okb. rewrite forallb_forall. intros Hall p Hp.
  specialize (Hall p (proj1 (list_elem_of_In ps p) Hp)). destruct (h !! p) as [e|]; [|discriminate].
  exists e. split; [reflexivity|]. by apply bool_decide_eq_true in Hall.
Qed.

(** ** Lemmas on one step of the walk *)

Lemma map_present_body_hit pfa e pfa' :
  extent_ok pfa -> region_ok e ->
  map_present_body pfa e = inl pfa' ->
  contains e pfa.(DA.vaddr) /\ pfa'.(DA.vaddr) = pfa.(DA.vaddr) /\
  1 <= pfa'.(DA.n_pages) <= pfa.(DA.n_pages) /\
  pfa'.(DA.vaddr) + pfa'.(DA.n_pages) <= e.(UP.vaddr) + e.(UP.n_pages) /\
  pfa'.(DA.cpid) = pfa.(DA.cpid).
Proof.
  destruct pfa as [v n c hg], e as [ev eh ec en ehost ep ehp ecp].
  unfold extent_ok, region_ok, contains, in_pages, map_present_body; cbn.
  intros (? & ? & ?) (? & ? & ?) Heq.
  rewrite (add64_nowrap ev en), (add64_nowrap v n) in Heq by lia.
  case_decide as Hin; [|case_decide; discriminate].
  injection Heq as <-. case_decide; cbn; [rewrite sub64_nowrap by u64_tac|]; lia.
Qed.

Lemma map_present_body_cont pfa e pfa' :
  extent_ok pfa -> region_ok e ->
  map_present_body pfa e = inr pfa' ->
  ~ contains e pfa.(DA.vaddr) /\
  pfa' = DA.set_n_pages pfa (clip_ref pfa.(DA.vaddr) pfa.(DA.n_pages) [e.(UP.vaddr)]).
Proof.
  destruct pfa as [v n c hg], e as [ev eh ec en ehost ep ehp ecp].
  unfold extent_ok, region_ok, contains, in_pages, map_present_body, clip_ref; cbn.
  intros (? & ? & ?) (? & ? & ?) Heq.
  rewrite (add64_nowrap ev en), (add64_nowrap v n) in Heq by lia.
  case_decide as Hin; [discriminate|]. split; [exact Hin|].
  case_decide; injection Heq as <-; repeat case_decide; unfold DA.set_n_pages; cbn;
    f_equal; rewrite ?sub64_nowrap by u64_tac; lia.
Qed.

Lemma clip_ref_cons_eq v n s starts :
  clip_ref v n (s :: starts) =
  if decide (v < s < v + n) then Z.min (s - v) (clip_ref v n starts) else clip_ref v n starts.
Proof. reflexivity. Qed.

Lemma clip_ref_nil v n : clip_ref v n [] = n.
Proof. reflexivity. Qed.

Lemma clip_ref_bounds v n starts : 1 <= n -> 1 <= clip_ref v n starts <= n.
Proof.
  intros Hn. induction starts as [|s starts IH]; rewrite ?clip_ref_nil, ?clip_ref_cons_eq;
    [lia|]. case_decide; lia.
Qed.

(** Cutting at one start and then at the others is cutting at all. *)
Lemma clip_ref_cons v n s starts :
  clip_ref v n (s :: starts) = clip_ref v (clip_ref v n [s]) starts.
Proof.
  assert (Hn' : clip_ref v n [s] = if decide (v < s < v + n) then Z.min (s - v) n else n)
    by reflexivity.
  rewrite Hn', clip_ref_cons_eq. clear Hn'. induction starts as [|s' starts IH].
  - rewrite !clip_ref_nil. case_decide; lia.
  - rewrite !clip_ref_cons_eq. rewrite <- IH. repeat case_decide; lia.
Qed.

Lemma clip_ref_le v n starts : clip_ref v n starts <= n.
Proof.
  induction starts as [|s starts IH]; rewrite ?clip_ref_nil, ?clip_ref_cons_eq; [lia|].
  case_decide; lia.
Qed.

(** No start of the list lies strictly inside the clipped extent. *)
Lemma clip_ref_spec v n starts s :
  s ∈ starts -> v < s < v + clip_ref v n starts -> False.
Proof.
  induction starts as [|s' starts IH]; intros Hin Hs; [by apply elem_of_nil in Hin|].
  rewrite clip_ref_cons_eq in Hs. pose proof (clip_ref_le v n starts).
  apply elem_of_cons in Hin as [->|Hin]; case_decide; try lia; apply IH; auto; lia.
Qed.
End Lookup.

Section LookupSpec.
Context `{!HashFn}.

Lemma starts_of_cons h p e ps :
  h !! p = Some e -> starts_of h (p :: ps) = e.(UP.vaddr) :: starts_of h ps.
Proof. intros He. unfold starts_of. cbn. rewrite He. reflexivity. Qed.

Lemma all_regions_ok_cons h p ps :
  all_regions_ok h (p :: ps) <-> (exists e, h !! p = Some e /\ region_ok e) /\ all_regions_ok h ps.
Proof.
  unfold all_regions_ok. split.
  - intros Hall. split; [apply Hall; left|]. intros q Hq. apply Hall. by right.
  - intros [Hp Hall] q Hq. apply elem_of_cons in Hq as [->|Hq]; auto.
Qed.

Lemma extent_ok_clip pfa starts :
  extent_ok pfa ->
  extent_ok (DA.set_n_pages pfa (clip_ref pfa.(DA.vaddr) pfa.(DA.n_pages) starts)).
Proof.
  unfold extent_ok. cbn. intros (? & ? & ?).
  pose proof (clip_ref_bounds pfa.(DA.vaddr) pfa.(DA.n_pages) starts). lia.
Qed.

(** The walk never dereferences a dangling node of a table whose nodes
    are all live. *)
Lemma map_present_scan_some h ps pfa :
  all_regions_ok h ps -> exists r, map_present_scan h ps pfa = Some r.
Proof.
  revert pfa. induction ps as [|p ps IH]; intros pfa Hok; cbn; [eauto|].
  apply all_regions_ok_cons in Hok as [[e [He _]] Hok]. rewrite He. cbn.
  destruct (map_present_body pfa e); eauto.
Qed.

(** On a miss, the extent keeps its start and is cut at every region
    start inside it, and no region contains its first page. *)
Lemma map_present_scan_miss h ps pfa pfa' :
  extent_ok pfa -> all_regions_ok h ps ->
  map_present_scan h ps pfa = Some (None, pfa') ->
  pfa' = DA.set_n_pages pfa (clip_ref pfa.(DA.vaddr) pfa.(DA.n_pages) (starts_of h ps)) /\
  (forall p e, p ∈ ps -> h !! p = Some e -> ~ contains e pfa.(DA.vaddr)).
Proof.
  revert pfa. induction ps as [|p ps IH]; intros pfa Hext Hok Hscan; cbn in Hscan.
  - injection Hscan as <-. split; [symmetry; apply DA.set_n_pages_id|].
    intros ? ? Hp. by apply elem_of_nil in Hp.
  - apply all_regions_ok_cons in Hok as [[e [He Hre]] Hok]. rewrite He in Hscan. cbn in Hscan.
    destruct (map_present_body pfa e) as [pfa1|pfa1] eqn:Hb; [discriminate|].
    destruct (map_present_body_cont _ _ _ Hext Hre Hb) as [Hnc ->].
    destruct (IH _ (extent_ok_clip pfa _ Hext) Hok Hscan) as [-> Hrest].
    split.
    + rewrite (starts_of_cons h p e ps He).
      rewrite (clip_ref_cons pfa.(DA.vaddr) pfa.(DA.n_pages) e.(UP.vaddr) (starts_of h ps)).
      reflexivity.
    + intros q f Hq Hf. apply elem_of_cons in Hq as [->|Hq]; [congruence|].
      exact (Hrest q f Hq Hf).
Qed.

(** On a hit, the node is a region of the walk containing the first
    faulting page, and the extent is cut to end inside it. *)
Lemma map_present_scan_hit h ps pfa p pfa' :
  extent_ok pfa -> all_regions_ok h ps ->
  map_present_scan h ps pfa = Some (Some p, pfa') ->
  exists e, p ∈ ps /\ h !! p = Some e /\ contains e pfa.(DA.vaddr) /\
    pfa'.(DA.vaddr) = pfa.(DA.vaddr) /\ 1 <= pfa'.(DA.n_pages) <= pfa.(DA.n_pages) /\
    pfa'.(DA.vaddr) + pfa'.(DA.n_pages) <= e.(UP.vaddr) + e.(UP.n_pages) /\
    pfa'.(DA.cpid) = pfa.(DA.cpid).
Proof.
  revert pfa. induction ps as [|q ps IH]; intros pfa Hext Hok Hscan; cbn in Hscan; [discriminate|].
  apply all_regions_ok_cons in Hok as [[e [He Hre]] Hok]. rewrite He in Hscan. cbn in Hscan.
  destruct (map_present_body pfa e) as [pfa1|pfa1] eqn:Hb.
  - injection Hscan as <- <-. exists e. split; [left|split; [done|]].
    by apply (map_present_body_hit pfa e pfa1).
  - destruct (map_present_body_cont _ _ _ Hext Hre Hb) as [_ ->].
    destruct (IH _ (extent_ok_clip pfa _ Hext) Hok Hscan) as (f & Hp & Hf & Hc & Hv & Hn & Hend & Hcp).
    pose proof (clip_ref_le pfa.(DA.vaddr) pfa.(DA.n_pages) [e.(UP.vaddr)]).
    cbn in *. exists f. split; [by right|]. split; [done|]. split; [done|].
    split; [done|]. split; [lia|]. split; [lia|done].
Qed.
Lemma elem_of_starts_of h ps p e :
  p ∈ ps -> h !! p = Some e -> e.(UP.vaddr) ∈ starts_of h ps.
Proof.
  intros Hp He. unfold starts_of. apply list_elem_of_omap. exists p. rewrite He. done.
Qed.

(** the extent [map_present] returns on a miss overlaps no region of the
    walk, so a region pinned for it keeps the table free of overlaps. *)
Lemma map_present_scan_miss_disjoint h ps pfa pfa' :
  extent_ok pfa -> all_regions_ok h ps ->
  map_present_scan h ps pfa = Some (None, pfa') ->
  forall p e, p ∈ ps -> h !! p = Some e ->
    pages_disjoint pfa'.(DA.vaddr) pfa'.(DA.n_pages) e.(UP.vaddr) e.(UP.n_pages).
Proof.
  intros Hext Hok Hscan p e Hp He.
  destruct (map_present_scan_miss h ps pfa pfa' Hext Hok Hscan) as [-> Hnc].
  specialize (Hnc p e Hp He). pose proof (elem_of_starts_of h ps p e Hp He) as Hs.
  unfold pages_disjoint, contains, in_pages in *. cbn.
  destruct (Z_lt_le_dec pfa.(DA.vaddr) e.(UP.vaddr)); [left|right; lia].
  destruct (Z_le_gt_dec (pfa.(DA.vaddr) + clip_ref pfa.(DA.vaddr) pfa.(DA.n_pages) (starts_of h ps))
    e.(UP.vaddr)) as [|Hlt]; [done|].
  exfalso. apply (clip_ref_spec pfa.(DA.vaddr) pfa.(DA.n_pages) (starts_of h ps) e.(UP.vaddr) Hs). lia.
Qed.

(** C31: [map_present] reports a hit exactly when a region of the walk
    contains the first faulting page. *)
Lemma map_present_scan_hit_iff h ps pfa :
  extent_ok pfa -> all_regions_ok h ps ->
  (exists p pfa', map_present_scan h ps pfa = Some (Some p, pfa')) <->
  (exists p e, p ∈ ps /\ h !! p = Some e /\ contains e pfa.(DA.vaddr)).
Proof.
  intros Hext Hok. split.
  - intros (p & pfa' & Hs). destruct (map_present_scan_hit h ps pfa p pfa' Hext Hok Hs)
      as (e & Hp & He & Hc & _). eauto.
  - intros (p & e & Hp & He & Hc). destruct (map_present_scan_some h ps pfa Hok) as [[[q|] pfa'] Hs].
    + eauto.
    + destruct (map_present_scan_miss h ps pfa pfa' Hext Hok Hs) as [_ Hnc].
      exfalso. exact (Hnc p e Hp He Hc).
Qed.

(** ** [map_present] *)

Lemma map_present_run pfa w :
  map_present pfa w =
  st_of_option NullDeref (map_present_scan w.(heap) (hash_entries (table_of w pfa.(DA.cpid))) pfa) w.
Proof. reflexivity. Qed.

(** When every node of the context's table is a live region,
    [map_present] returns, and leaves the world unchanged. *)
Lemma map_present_total pfa w :
  all_regions_ok w.(heap) (hash_entries (table_of w pfa.(DA.cpid))) ->
  exists r pfa', map_present pfa w = Ret (r, pfa') w.
Proof.
  intros Hok. destruct (map_present_scan_some _ _ pfa Hok) as [[r pfa'] Hs].
  exists r, pfa'. rewrite map_present_run, Hs. reflexivity.
Qed.

(** C2: on a miss, the extent [map_present] returns is the requested
    extent cut at the first region start strictly inside it (the
    declarative [clip_ref] over all regions of the context), no region
    of the context contains the faulting page, and the returned extent
    overlaps none of them. *)
Lemma map_present_miss pfa pfa' w w' :
  extent_ok pfa -> all_regions_ok w.(heap) (hash_entries (table_of w pfa.(DA.cpid))) ->
  map_present pfa w = Ret (None, pfa') w' ->
  let ps := hash_entries (table_of w pfa.(DA.cpid)) in
  w' = w /\
  pfa' = DA.set_n_pages pfa (clip_ref pfa.(DA.vaddr) pfa.(DA.n_pages) (starts_of w.(heap) ps)) /\
  forall p e, p ∈ ps -> w.(heap) !! p = Some e ->
    ~ contains e pfa.(DA.vaddr) /\
    pages_disjoint pfa'.(DA.vaddr) pfa'.(DA.n_pages) e.(UP.vaddr) e.(UP.n_pages).
Proof.
  intros Hext Hok Hr ps. apply map_present_Ret in Hr as [-> Hs].
  destruct (map_present_scan_miss _ _ _ _ Hext Hok Hs) as [Hclip Hnc].
  split; [reflexivity|split; [exact Hclip|]]. intros p e Hp He.
  split; [exact (Hnc p e Hp He)|exact (map_present_scan_miss_disjoint _ _ _ _ Hext Hok Hs p e Hp He)].
Qed.

(** on a hit, [map_present] returns a region of the context that
    contains the faulting page, with the extent kept at its start and
    clipped to end inside that region. *)
Lemma map_present_hit pfa p pfa' w w' :
  extent_ok pfa -> all_regions_ok w.(heap) (hash_entries (table_of w pfa.(DA.cpid))) ->
  map_present pfa w = Ret (Some p, pfa') w' ->
  w' = w /\ exists e, p ∈ hash_entries (table_of w pfa.(DA.cpid)) /\ w.(heap) !! p = Some e /\
    contains e pfa.(DA.vaddr) /\ pfa'.(DA.vaddr) = pfa.(DA.vaddr) /\
    1 <= pfa'.(DA.n_pages) <= pfa.(DA.n_pages) /\
    pfa'.(DA.vaddr) + pfa'.(DA.n_pages) <= e.(UP.vaddr) + e.(UP.n_pages) /\
    pfa'.(DA.cpid) = pfa.(DA.cpid).
Proof.
  intros Hext Hok Hr. apply map_present_Ret in Hr as [-> Hs].
  split; [reflexivity|]. exact (map_present_scan_hit _ _ _ _ _ Hext Hok Hs).
Qed.
End LookupSpec.
