(* ===== verification/Pinner.v ===== *)
(** * Page Pinner: [tlb_get_user_pages]

    [tlb_get_user_pages(d, pfa, hpid, curr_task, curr_mm)] rejects an extent
    that wraps the address space or is empty, allocates the [user_pages]
    object, pins the user pages, records their physical addresses,
    allocates card pages when the device has card memory, and inserts the
    region into the table of its context.  Its two failure labels release
    what was acquired: [fail_host_unmap] drops the [ret_val] pins obtained;
    [fail_card_unmap] drops the pins of [user_pg->n_pages] pages, a field
    still zero at that point (the object comes from [kzalloc] and
    [n_pages] is only set on success), so it drops none.  The test of
    line 435 compares [int ret_val] as an unsigned number, so a negative
    error code is not caught; the cache-flush loop that follows reads
    every slot of [user_pg->pages], which is [NULL] or, for the last one,
    never written when nothing was pinned.

    Theorems: the guard is exactly the no-wrap, non-empty condition; on
    success the region is the extent, host resident, and added to its
    table; a partial pin leaves no region and releases exactly the pages
    obtained; a card allocation failure leaves no region but keeps every
    page pinned; [-EFAULT] goes on to the read of an unwritten slot. *)

From S2P Require Import Prelude Machine Platform HashTable Lookup.

Section Pinner.
Context `{!HashFn}.

(** [hash_add(user_buff_map[d->id][cpid], &user_pg->entry, key)]. *)
Definition add_region (cpid : Z) (p : positive) (key : Z) : ST world unit :=
  st_modify (fun w => set_table w cpid (hash_add (table_of w cpid) p key)).

(** Slot [i] of the array [user_pg->pages] of [n] entries after
    [get_user_pages_remote] filled its first [length pages] slots: a page
    frame, the [NULL] the loop of lines 423-425 stored in slots [0 .. n-2],
    or ([None]) the indeterminate content [vmalloc] left in slot [n-1]. *)
Definition page_slot (pages : list Z) (n i : Z) : option (option Z) :=
  if decide (i < Z.of_nat (length pages)) then Some (pages !! Z.to_nat i)
  else if decide (i < n - 1) then Some None
  else None.

(** The loop of lines 440-442, [flush_dcache_page(user_pg->pages[i])]
    for [i < n_pages]: it reads every slot ([flush_dcache_page] itself
    changes nothing the model holds). *)
Definition flush_slot (pages : list Z) (n i : Z) : ST world unit :=
  match page_slot pages n i with
  | None => st_stuck Indeterminate
  | Some _ => mret ()
  end.

Definition flush_pages (pages : list Z) (n : Z) : ST world unit :=
  st_iter (flush_slot pages n) (seqZ 0 n).

(** Line 435 compares [int ret_val] with the unsigned [pfa->n_pages]: the
    usual arithmetic conversions turn [ret_val] into a [uint64_t], so a
    negative error code is a huge count ([wrap64 ret]). *)
Definition tlb_get_user_pages (pd : bus_drvdata) (pfa : desc_aligned) (mm : mm_struct)
    : ST world (option positive) :=
  if decide (pfa.(DA.vaddr) +ᵤ pfa.(DA.n_pages) < pfa.(DA.vaddr)) then mret None
  else if decide (pfa.(DA.n_pages) = 0) then mret None
  else
    p ← kzalloc;
    '(ret, pages) ← get_user_pages_remote mm pfa.(DA.vaddr) pfa.(DA.n_pages);
    if decide (wrap64 ret < pfa.(DA.n_pages)) then
      (* fail_host_unmap *)
      st_iter put_page (take (Z.to_nat ret) pages);;
      kfree p;;
      mret None
    else
      flush_pages pages pfa.(DA.n_pages);;
      let hpages := page_to_phys <$> pages in
      store p (UP.mk 0 false 0 0 false pages hpages []);;
      cres ← (if pd.(en_mem) then card_alloc pfa.(DA.n_pages) pfa.(DA.hugepages)
              else mret (Some []));
      match cres with
      | None =>
          (* fail_card_unmap *)
          up ← deref p;
          st_iter put_page (take (Z.to_nat up.(UP.n_pages)) up.(UP.pages));;
          kfree p;;
          mret None
      | Some cpages =>
          store p (UP.mk pfa.(DA.vaddr) pfa.(DA.hugepages) pfa.(DA.cpid) pfa.(DA.n_pages)
                     true pages hpages cpages);;
          add_region pfa.(DA.cpid) p pfa.(DA.vaddr);;
          mret (Some p)
      end.

(** ** Properties *)

(** The world after [kzalloc] and [get_user_pages_remote]. *)
Definition pinned_world (mm : mm_struct) (pfa : desc_aligned) (w : world) : world :=
  set_host_st
    (set_next_ptr (set_heap w (<[w.(next_ptr) := UP.zeroed]> w.(heap))) (Pos.succ w.(next_ptr)))
    (set_page_pins w.(host)
       (foldl pin_page w.(host).(page_pins)
          (gup_prefix mm.(pte) pfa.(DA.vaddr) (Z.to_nat pfa.(DA.n_pages))))).

Lemma pinned_world_pins mm pfa w :
  (pinned_world mm pfa w).(host).(page_pins) =
  foldl pin_page w.(host).(page_pins) (gup_prefix mm.(pte) pfa.(DA.vaddr) (Z.to_nat pfa.(DA.n_pages))).
Proof. reflexivity. Qed.

Lemma pinned_world_heap mm pfa w :
  (pinned_world mm pfa w).(heap) = <[w.(next_ptr) := UP.zeroed]> w.(heap).
Proof. reflexivity. Qed.

Lemma flush_slots_ok pages n l w :
  Forall (fun i => is_Some (page_slot pages n i)) l -> st_iter (flush_slot pages n) l w = Ret () w.
Proof.
  induction 1 as [|i l [x Hx] _ IH]; [reflexivity|]. cbn [st_iter].
  erewrite st_bind_Ret; [exact IH|]. unfold flush_slot. rewrite Hx. reflexivity.
Qed.

Lemma flush_pages_Ret pages n w u w' : flush_pages pages n w = Ret u w' -> w' = w.
Proof.
  unfold flush_pages. generalize (seqZ 0 n). intros l. revert w.
  induction l as [|i l IH]; intros w Hr; [by injection Hr|]. cbn [st_iter] in Hr.
  unfold flush_slot in Hr. destruct (page_slot pages n i); [|discriminate]. exact (IH w Hr).
Qed.

(** With every page pinned the flush reads only pages. *)
Lemma flush_pages_full pages n w :
  0 <= n -> length pages = Z.to_nat n -> flush_pages pages n w = Ret () w.
Proof.
  intros Hn Hl. apply flush_slots_ok, Forall_forall. intros i Hi%elem_of_seqZ.
  unfold page_slot. rewrite decide_True by lia. eexists. reflexivity.
Qed.

(** With no page pinned the flush reaches the slot [n-1] no one wrote. *)
Lemma flush_pages_empty n w : 1 <= n -> flush_pages [] n w = Stuck Indeterminate w.
Proof.
  intros Hn. unfold flush_pages.
  assert (Hok : Forall (fun i => is_Some (page_slot [] n i)) (seqZ 0 (Z.of_nat (Z.to_nat (n - 1))))).
  { apply Forall_forall. intros i Hi%elem_of_seqZ. unfold page_slot. cbn [length].
    rewrite decide_False, decide_True by lia. eexists. reflexivity. }
  replace n with (Z.of_nat (S (Z.to_nat (n - 1)))) at 2 by lia.
  rewrite seqZ_S, st_iter_app, (st_bind_Ret _ _ _ _ _ (flush_slots_ok _ _ _ w Hok)).
  cbn [st_iter]. apply st_bind_Stuck. unfold flush_slot, page_slot. cbn [length].
  rewrite !decide_False by lia. reflexivity.
Qed.

Lemma tlb_get_user_pages_pinned pd pfa mm w :
  extent_ok pfa ->
  tlb_get_user_pages pd pfa mm w =
  (let pages := gup_prefix mm.(pte) pfa.(DA.vaddr) (Z.to_nat pfa.(DA.n_pages)) in
   let ret := if decide (pages = []) then - EFAULT else Z.of_nat (length pages) in
   if decide (wrap64 ret < pfa.(DA.n_pages)) then
     st_iter put_page (take (Z.to_nat ret) pages);; kfree w.(next_ptr);; mret None
   else
     flush_pages pages pfa.(DA.n_pages);;
     let hpages := page_to_phys <$> pages in
     store w.(next_ptr) (UP.mk 0 false 0 0 false pages hpages []);;
     cres ← (if pd.(en_mem) then card_alloc pfa.(DA.n_pages) pfa.(DA.hugepages)
             else mret (Some []));
     match cres with
     | None =>
         up ← deref w.(next_ptr);
         st_iter put_page (take (Z.to_nat up.(UP.n_pages)) up.(UP.pages));;
         kfree w.(next_ptr);; mret None
     | Some cpages =>
         store w.(next_ptr) (UP.mk pfa.(DA.vaddr) pfa.(DA.hugepages) pfa.(DA.cpid)
                               pfa.(DA.n_pages) true pages hpages cpages);;
         add_region pfa.(DA.cpid) w.(next_ptr) pfa.(DA.vaddr);;
         mret (Some w.(next_ptr))
     end) (pinned_world mm pfa w).
Proof.
  intros (? & ? & ?). unfold tlb_get_user_pages.
  rewrite decide_False by (rewrite add64_nowrap by lia; lia).
  rewrite decide_False by lia.
  st_seq kzalloc_run. st_seq get_user_pages_remote_run.
  reflexivity.
Qed.

(** The guard of [tlb_get_user_pages] rejects exactly the extents that
    wrap the 64-bit address space or are empty, and leaves the world as
    it was. *)
Lemma tlb_get_user_pages_guard pd pfa mm w :
  is_u64 pfa.(DA.vaddr) -> is_u64 pfa.(DA.n_pages) ->
  (2 ^ 64 <= pfa.(DA.vaddr) + pfa.(DA.n_pages) \/ pfa.(DA.n_pages) = 0) ->
  tlb_get_user_pages pd pfa mm w = Ret None w.
Proof.
  intros Hv Hn Hbad. unfold tlb_get_user_pages.
  destruct (decide (pfa.(DA.vaddr) +ᵤ pfa.(DA.n_pages) < pfa.(DA.vaddr))) as [|Hno]; [reflexivity|].
  rewrite add64_lt_self_iff in Hno by assumption.
  rewrite decide_True by lia. reflexivity.
Qed.

(** C10: A partial pin (at least one page pinned, fewer than requested)
    leaves no region and no object behind, and releases exactly the pages
    it obtained: every pin count ends as it began. *)
Lemma tlb_get_user_pages_partial pd pfa mm w :
  extent_ok pfa -> w.(heap) !! w.(next_ptr) = None ->
  (0 < length (gup_prefix mm.(pte) pfa.(DA.vaddr) (Z.to_nat pfa.(DA.n_pages)))
     < Z.to_nat pfa.(DA.n_pages))%nat ->
  exists w', tlb_get_user_pages pd pfa mm w = Ret None w' /\
    w'.(heap) = w.(heap) /\ w'.(user_buff_map) = w.(user_buff_map) /\
    forall x, pin_count w'.(host).(page_pins) x = pin_count w.(host).(page_pins) x.
Proof.
  intros Hext Hfresh Hlen. rewrite (tlb_get_user_pages_pinned pd pfa mm w Hext). cbn zeta.
  set (pages := gup_prefix _ _ _) in *. destruct Hext as (? & ? & ?).
  assert (Hret : wrap64 (if decide (pages = []) then - EFAULT else Z.of_nat (length pages)) < pfa.(DA.n_pages)
    /\ take (Z.to_nat (if decide (pages = []) then - EFAULT else Z.of_nat (length pages))) pages = pages).
  { case_decide as Hp; [rewrite Hp in Hlen; cbn in Hlen; lia|].
    rewrite wrap64_id by (unfold is_u64; lia). rewrite Nat2Z.id, take_ge by lia. split; [lia|reflexivity]. }
  destruct Hret as [Hlt ->]. rewrite decide_True by exact Hlt.
  destruct (put_pages_run pages (pinned_world mm pfa w)) as [m [Hrun Hc]].
  { intros x. rewrite pinned_world_pins, pin_count_pin_all. unfold pages. lia. }
  st_seq Hrun. st_seq kfree_run.
  eexists; split; [reflexivity|]. cbn. split; [by rewrite delete_insert_eq, delete_id|]. split; [reflexivity|].
  intros x. rewrite Hc, pinned_world_pins, pin_count_pin_all. unfold pages. lia.
Qed.

Lemma gup_ret_full mm pfa :
  extent_ok pfa ->
  (forall i, pfa.(DA.vaddr) <= i < pfa.(DA.vaddr) + pfa.(DA.n_pages) -> is_Some (mm.(pte) !! i)) ->
  let pages := gup_prefix mm.(pte) pfa.(DA.vaddr) (Z.to_nat pfa.(DA.n_pages)) in
  length pages = Z.to_nat pfa.(DA.n_pages) /\
  (if decide (pages = []) then - EFAULT else Z.of_nat (length pages)) = pfa.(DA.n_pages).
Proof.
  intros (? & ? & ?) Hall pages.
  assert (Hl : length pages = Z.to_nat pfa.(DA.n_pages)).
  { apply gup_prefix_full. intros i Hi. apply Hall. lia. }
  split; [exact Hl|]. case_decide as Hp; [rewrite Hp in Hl; cbn in Hl; lia|]. lia.
Qed.

(** C11: A card allocation failure leaves no region in the table, but
    [fail_card_unmap] drops the pins of [user_pg->n_pages] pages, which is
    still zero: all the pages pinned stay pinned. *)
Lemma tlb_get_user_pages_card_fail pd pfa mm w :
  extent_ok pfa -> w.(heap) !! w.(next_ptr) = None -> pd.(en_mem) = true ->
  (forall i, pfa.(DA.vaddr) <= i < pfa.(DA.vaddr) + pfa.(DA.n_pages) -> is_Some (mm.(pte) !! i)) ->
  (length w.(card).(card_free_list) < Z.to_nat pfa.(DA.n_pages))%nat ->
  let pages := gup_prefix mm.(pte) pfa.(DA.vaddr) (Z.to_nat pfa.(DA.n_pages)) in
  exists w', tlb_get_user_pages pd pfa mm w = Ret None w' /\
    w'.(heap) = w.(heap) /\ w'.(user_buff_map) = w.(user_buff_map) /\
    forall x, pin_count w'.(host).(page_pins) x =
              (pin_count w.(host).(page_pins) x + count_occ Z.eq_dec pages x)%nat.
Proof.
  intros Hext Hfresh Hmem Hall Hfree pages.
  destruct (gup_ret_full mm pfa Hext Hall) as [Hl Hret].
  rewrite (tlb_get_user_pages_pinned pd pfa mm w Hext). cbn zeta. rewrite Hret.
  pose proof Hext as (? & ? & ?). rewrite wrap64_id by (unfold is_u64; lia).
  rewrite decide_False by lia. rewrite (st_bind_Ret _ _ _ _ _ (flush_pages_full pages pfa.(DA.n_pages) _ ltac:(lia) Hl)). st_seq store_run. rewrite Hmem.
  st_seq card_alloc_fail; [|exact Hfree]. st_seq deref_spec; [|cbn; apply lookup_insert_eq].
  cbn [UP.n_pages UP.pages take Z.to_nat st_iter]. st_seq @st_ret_run.
  st_seq kfree_run. eexists; split; [reflexivity|]. cbn.
  split; [by rewrite delete_insert_eq, delete_insert_eq, delete_id|]. split; [reflexivity|].
  intros x. rewrite pin_count_pin_all. reflexivity.
Qed.

Lemma add_region_run c p k w :
  add_region c p k w = Ret () (set_table w c (hash_add (table_of w c) p k)).
Proof. reflexivity. Qed.

(** On success the new object describes the extent, host resident, with
    the pages pinned once more, their physical addresses and, when the
    device has card memory, as many card pages; it is linked into the
    table of its context under its start page and no other table
    changes. *)
Lemma tlb_get_user_pages_success pd pfa mm w :
  extent_ok pfa -> w.(heap) !! w.(next_ptr) = None ->
  (forall i, pfa.(DA.vaddr) <= i < pfa.(DA.vaddr) + pfa.(DA.n_pages) -> is_Some (mm.(pte) !! i)) ->
  (pd.(en_mem) = true -> (Z.to_nat pfa.(DA.n_pages) <= length w.(card).(card_free_list))%nat) ->
  let pages := gup_prefix mm.(pte) pfa.(DA.vaddr) (Z.to_nat pfa.(DA.n_pages)) in
  let cpages := if pd.(en_mem) then take (Z.to_nat pfa.(DA.n_pages)) w.(card).(card_free_list)
                else [] in
  exists w', tlb_get_user_pages pd pfa mm w = Ret (Some w.(next_ptr)) w' /\
    w'.(heap) = <[w.(next_ptr) := UP.mk pfa.(DA.vaddr) pfa.(DA.hugepages) pfa.(DA.cpid)
                   pfa.(DA.n_pages) true pages (page_to_phys <$> pages) cpages]> w.(heap) /\
    table_of w' pfa.(DA.cpid) = hash_add (table_of w pfa.(DA.cpid)) w.(next_ptr) pfa.(DA.vaddr) /\
    (forall c, c ≠ pfa.(DA.cpid) -> table_of w' c = table_of w c) /\
    w'.(next_ptr) = Pos.succ w.(next_ptr) /\
    (forall x, pin_count w'.(host).(page_pins) x =
               (pin_count w.(host).(page_pins) x + count_occ Z.eq_dec pages x)%nat) /\
    w'.(dev) = w.(dev) /\ length pages = Z.to_nat pfa.(DA.n_pages).
Proof.
  intros Hext Hfresh Hall Hmem pages cpages.
  destruct (gup_ret_full mm pfa Hext Hall) as [Hl Hret].
  rewrite (tlb_get_user_pages_pinned pd pfa mm w Hext). cbn zeta. rewrite Hret.
  pose proof Hext as (? & ? & ?). rewrite wrap64_id by (unfold is_u64; lia).
  rewrite decide_False by lia. rewrite (st_bind_Ret _ _ _ _ _ (flush_pages_full pages pfa.(DA.n_pages) _ ltac:(lia) Hl)). st_seq store_run.
  unfold cpages. destruct (en_mem pd).
  - st_seq card_alloc_ok; [|apply Hmem; reflexivity].
    st_seq store_run. st_seq add_region_run.
    eexists; split; [reflexivity|]. split; [|split; [|split; [|split; [|split; [|split]]]]].
    + cbn. by rewrite !insert_insert_eq.
    + rewrite table_of_set_table_eq. reflexivity.
    + intros c Hc. rewrite table_of_set_table_ne by congruence. reflexivity.
    + reflexivity.
    + intros x. cbn. rewrite pin_count_pin_all. reflexivity.
    + reflexivity.
    + exact Hl.
  - st_seq @st_ret_run. st_seq store_run. st_seq add_region_run.
    eexists; split; [reflexivity|]. split; [|split; [|split; [|split; [|split; [|split]]]]].
    + cbn. by rewrite !insert_insert_eq.
    + rewrite table_of_set_table_eq. reflexivity.
    + intros c Hc. rewrite table_of_set_table_ne by congruence. reflexivity.
    + reflexivity.
    + intros x. cbn. rewrite pin_count_pin_all. reflexivity.
    + reflexivity.
    + exact Hl.
Qed.
(** C12: Error.  When the first page of the extent is not mapped,
    [get_user_pages_remote] pins nothing and returns [-EFAULT]; the test
    of line 435 compares it as an unsigned number, [2^64 - EFAULT], which
    is not below [n_pages], so the failure is not caught: the flush loop
    of lines 440-442 reads the slot [user_pg->pages[n_pages-1]] that no one
    wrote, with no page pinned and the table unchanged. *)
Lemma tlb_get_user_pages_efault pd pfa mm w :
  extent_ok pfa -> pfa.(DA.n_pages) < 2 ^ 64 - EFAULT -> mm.(pte) !! pfa.(DA.vaddr) = None ->
  exists w', tlb_get_user_pages pd pfa mm w = Stuck Indeterminate w' /\
    w'.(user_buff_map) = w.(user_buff_map) /\ w'.(host).(page_pins) = w.(host).(page_pins).
Proof.
  intros Hext Hn Hpte. rewrite (tlb_get_user_pages_pinned pd pfa mm w Hext). cbn zeta.
  pose proof Hext as (? & ? & ?).
  assert (Hnil : gup_prefix mm.(pte) pfa.(DA.vaddr) (Z.to_nat pfa.(DA.n_pages)) = []).
  { destruct (Z.to_nat pfa.(DA.n_pages)) eqn:E; [lia|]. cbn. rewrite Hpte. reflexivity. }
  assert (Hw : wrap64 (if decide (@nil Z = []) then - EFAULT else Z.of_nat (length (@nil Z))) = 2 ^ 64 - EFAULT)
    by reflexivity.
  rewrite Hnil, Hw, decide_False by lia.
  eexists. split; [apply st_bind_Stuck, flush_pages_empty; lia|]. split; [reflexivity|].
  rewrite pinned_world_pins, Hnil. reflexivity.
Qed.
End Pinner.
