(* ===== verification/TlbProg.v ===== *)
(** * TLB Programmer: [tlb_map_gup] and [tlb_unmap_gup]

    [tlb_map_gup(d, pfa, user_pg, hpid)] fills [map_array] with one map
    descriptor per device page of the extent ([pg_inc] base pages per
    descriptor for a huge region), the physical address taken from
    [hpages] or [cpages] according to the region's residency, and submits
    the first [n_map_pages] descriptors, [n_map_pages] being the extent's
    device-page count capped at [MAX_N_MAP_PAGES].  The array holds
    [n_map_pages] descriptors while the fill loop is not capped.

    [tlb_unmap_gup(d, user_pg, hpid)] submits one unmap descriptor per
    device page of the whole region, issues one invalidation per device
    page, the one at index [n_pages - pg_inc] marked last, and sleeps
    until the device acknowledges the last one.

    The fill loops are pure functions returning the descriptors or the
    reason the C loop goes wrong ([OutOfBounds] for a read past [hpages] or
    [cpages], [HeapOverflow] for a write past [map_array]). *)

From S2P Require Import Prelude Machine Platform.

Section TlbProg.
Variable pd : bus_drvdata.

(** The backing array the descriptors of a region read from. *)
Definition backing (up : user_pages) : list Z :=
  if up.(UP.host) then up.(UP.hpages) else up.(UP.cpages).

(** The fill loop of [tlb_map_gup]: iteration [i] reads
    [backing[i + pg_offs]] and writes [map_array[2*j]]. *)
Fixpoint fill_map (up : user_pages) (hpid pg_offs pg_inc cap vaddr_tmp j : Z) (idx : list Z)
    : stuck_reason + list tlb_desc :=
  match idx with
  | [] => inr []
  | i :: idx' =>
      match nth_addr (backing up) (i +ᵤ pg_offs) with
      | None => inl OutOfBounds
      | Some phys =>
          if decide (cap <= j) then inl HeapOverflow
          else match fill_map up hpid pg_offs pg_inc cap (vaddr_tmp +ᵤ pg_inc) (j + 1) idx' with
               | inl r => inl r
               | inr rest => inr (TlbMap vaddr_tmp phys up.(UP.host) up.(UP.cpid) hpid :: rest)
               end
      end
  end.

Definition map_pg_inc (up : user_pages) : Z := if up.(UP.huge) then pd.(n_pages_in_huge) else 1.

(** [n_map_pages] of [tlb_map_gup]. *)
Definition map_n_map_pages (up : user_pages) (n_pages : Z) : Z :=
  let n := if up.(UP.huge) then Z.shiftr n_pages pd.(dif_order_page_shift) else n_pages in
  if decide (n > MAX_N_MAP_PAGES) then MAX_N_MAP_PAGES else n.

Definition tlb_map_gup (pfa : desc_aligned) (p : positive) (hpid : Z) : ST world unit :=
  up ← deref p;
  let pg_inc := map_pg_inc up in
  let first_pfa := pfa.(DA.vaddr) in
  let pg_offs := first_pfa -ᵤ up.(UP.vaddr) in
  let n_pages := wrap32 pfa.(DA.n_pages) in
  let n_map_pages := map_n_map_pages up n_pages in
  vmalloc_check (n_map_pages * 2 * 8);;
  batch ← st_of_sum (fill_map up hpid pg_offs pg_inc n_map_pages first_pfa 0
                       (c_for_indices 0 n_pages pg_inc));
  tlb_service_dev up.(UP.huge) batch n_map_pages.

(** The fill loop of [tlb_unmap_gup]. *)
Fixpoint fill_unmap (hpid pg_inc cap vaddr_tmp j : Z) (idx : list Z) : stuck_reason + list tlb_desc :=
  match idx with
  | [] => inr []
  | _ :: idx' =>
      if decide (cap <= j) then inl HeapOverflow
      else match fill_unmap hpid pg_inc cap (vaddr_tmp +ᵤ pg_inc) (j + 1) idx' with
           | inl r => inl r
           | inr rest => inr (TlbUnmap vaddr_tmp hpid :: rest)
           end
  end.

(** The invalidation loop: [fpga_invalidate(d, vaddr_tmp, pg_inc, hpid,
    i == (n_pages - pg_inc))], the subtraction in [uint32_t]. *)
Fixpoint invalidate_loop (n_pages pg_inc hpid vaddr_tmp : Z) (idx : list Z) : ST world unit :=
  match idx with
  | [] => mret ()
  | i :: idx' =>
      fpga_invalidate vaddr_tmp pg_inc hpid (bool_decide (i = wrap32 (n_pages - pg_inc)));;
      invalidate_loop n_pages pg_inc hpid (vaddr_tmp +ᵤ pg_inc) idx'
  end.

Definition tlb_unmap_gup (p : positive) (hpid : Z) : ST world unit :=
  up ← deref p;
  let n_pages := wrap32 up.(UP.n_pages) in
  let n_map_pages := if up.(UP.huge) then Z.shiftr n_pages pd.(dif_order_page_shift) else n_pages in
  let pg_inc := map_pg_inc up in
  vmalloc_check (n_map_pages * 2 * 8);;
  batch ← st_of_sum (fill_unmap hpid pg_inc n_map_pages up.(UP.vaddr) 0
                       (c_for_indices 0 n_pages pg_inc));
  tlb_service_dev up.(UP.huge) batch n_map_pages;;
  invalidate_loop n_pages pg_inc hpid up.(UP.vaddr) (c_for_indices 0 n_pages pg_inc);;
  wait_flag wait_invldt;;
  modify_dev (fun d => set_wait_invldt d false).
End TlbProg.

(** ** Properties *)

Section TlbProgSpec.
Variable pd : bus_drvdata.

(** The configuration of the two page orders: [n_pages_in_huge] base
    pages per huge page, [2 ^ dif_order_page_shift]. *)
Definition drvdata_wf : Prop :=
  0 <= pd.(dif_order_page_shift) /\ pd.(n_pages_in_huge) = 2 ^ pd.(dif_order_page_shift).

#[export] Instance drvdata_wf_dec : Decision drvdata_wf.
Proof. unfold drvdata_wf. apply _. Defined.

(** The address descriptor [i] of an extent reads. *)
Definition phys_at (up : user_pages) (pg_offs i : Z) : Z :=
  default 0 (nth_addr (backing up) (i +ᵤ pg_offs)).

Definition map_descs (up : user_pages) (hpid pg_offs v0 : Z) (idx : list Z) : list tlb_desc :=
  (fun i => TlbMap (v0 +ᵤ i) (phys_at up pg_offs i) up.(UP.host) up.(UP.cpid) hpid) <$> idx.

(** The fill loop writes one descriptor per iteration when every read is
    in bounds and the array is large enough. *)
Lemma fill_map_ok up hpid offs inc cap v0 vt n a j :
  1 <= inc -> vt = v0 +ᵤ a ->
  (forall i, i ∈ c_for_indices a n inc -> is_Some (nth_addr (backing up) (i +ᵤ offs))) ->
  Z.of_nat (length (c_for_indices a n inc)) <= cap - j ->
  fill_map up hpid offs inc cap vt j (c_for_indices a n inc) =
  inr (map_descs up hpid offs v0 (c_for_indices a n inc)).
Proof.
  intros Hinc ->. revert j.
  pattern a, (c_for_indices a n inc). revert a. apply c_for_indices_ind; [exact Hinc| |].
  - intros a _ j _ _. reflexivity.
  - intros a Ha IH j Hrd Hlen. cbn [fill_map length] in *.
    destruct (Hrd a ltac:(left)) as [phys Hphys]. rewrite Hphys.
    rewrite decide_False by lia. rewrite add64_assoc, IH.
    + cbn. unfold phys_at. rewrite Hphys. reflexivity.
    + intros i Hi. apply Hrd. by right.
    + lia.
Qed.

(** When the loop has more iterations than the array has slots, the
    first write past the end is reached. *)
Lemma fill_map_overflow up hpid offs inc cap v0 n a j :
  1 <= inc -> j <= cap ->
  (forall i, i ∈ c_for_indices a n inc -> is_Some (nth_addr (backing up) (i +ᵤ offs))) ->
  cap - j < Z.of_nat (length (c_for_indices a n inc)) ->
  fill_map up hpid offs inc cap v0 j (c_for_indices a n inc) = inl HeapOverflow.
Proof.
  intros Hinc. revert v0 j.
  pattern a, (c_for_indices a n inc). revert a. apply c_for_indices_ind; [exact Hinc| |].
  - intros a _ v0 j Hj _ Hlen. cbn in Hlen. lia.
  - intros a Ha IH v0 j Hj Hrd Hlen. cbn [fill_map length] in *.
    destruct (Hrd a ltac:(left)) as [phys Hphys]. rewrite Hphys.
    case_decide; [reflexivity|]. rewrite IH; [reflexivity|lia| |lia].
    intros i Hi. apply Hrd. by right.
Qed.

(** Applying map descriptors with distinct addresses installs one entry
    per descriptor and leaves every other entry. *)
Lemma tlb_apply_maps h t (l : list Z) (key phys : Z -> Z) (on_host : bool) (c hp : Z) :
  NoDup (key <$> l) ->
  let t' := foldl (tlb_apply h) t ((fun i => TlbMap (key i) (phys i) on_host c hp) <$> l) in
  (forall i, i ∈ l -> t' !! (h, key i) = Some (mk_tlb_entry (phys i) on_host c hp)) /\
  (forall k, (forall i, i ∈ l -> k ≠ (h, key i)) -> t' !! k = t !! k).
Proof.
  revert t. induction l as [|i l IH]; intros t Hnd; cbn.
  - split; [intros ? Hi; by apply elem_of_nil in Hi|done].
  - apply NoDup_cons in Hnd as [Hni Hnd].
    destruct (IH (<[(h, key i) := mk_tlb_entry (phys i) on_host c hp]> t) Hnd) as [Hin Hout].
    split.
    + intros i' Hi'. apply elem_of_cons in Hi' as [->|Hi']; [|by apply Hin].
      rewrite Hout; [apply lookup_insert_eq|].
      intros i2 Hi2 [= Heq]. apply Hni. rewrite Heq. by apply list_elem_of_fmap_2.
    + intros k Hk. rewrite Hout; [|intros; apply Hk; by right].
      rewrite lookup_insert_ne; [done|]. intros <-. by apply (Hk i); [left|].
Qed.

(** The conditions under which [tlb_map_gup] reads only inside the
    region: the extent lies inside the region, whose arrays hold one
    address per base page, and nothing wraps. *)
Definition map_inside (pfa : desc_aligned) (up : user_pages) : Prop :=
  0 <= up.(UP.vaddr) <= pfa.(DA.vaddr) /\
  pfa.(DA.vaddr) + pfa.(DA.n_pages) <= up.(UP.vaddr) + up.(UP.n_pages) /\
  up.(UP.vaddr) + up.(UP.n_pages) < 2 ^ 64 /\
  1 <= pfa.(DA.n_pages) < 2 ^ 32 /\
  (Z.to_nat up.(UP.n_pages) <= length (backing up))%nat /\
  1 <= map_pg_inc pd up.

#[export] Instance map_inside_dec pfa up : Decision (map_inside pfa up).
Proof. unfold map_inside. apply _. Defined.

Lemma map_inside_reads pfa up i :
  map_inside pfa up -> i ∈ c_for_indices 0 pfa.(DA.n_pages) (map_pg_inc pd up) ->
  exists ph, backing up !! Z.to_nat (pfa.(DA.vaddr) - up.(UP.vaddr) + i) = Some ph /\
    nth_addr (backing up) (i +ᵤ (pfa.(DA.vaddr) -ᵤ up.(UP.vaddr))) = Some ph.
Proof.
  intros (? & ? & ? & ? & ? & ?) Hi. apply elem_of_c_for_indices in Hi as [? _]; [|lia].
  rewrite sub64_nowrap by u64_tac. rewrite add64_nowrap by lia.
  destruct (lookup_lt_is_Some_2 (backing up) (Z.to_nat (pfa.(DA.vaddr) - up.(UP.vaddr) + i)))
    as [ph Hph]; [lia|].
  exists ph. split; [exact Hph|]. unfold nth_addr. rewrite decide_True by lia.
  by rewrite Z.add_comm.
Qed.

Lemma tlb_map_gup_fill pfa p hpid w up :
  w.(heap) !! p = Some up -> map_inside pfa up ->
  tlb_map_gup pd pfa p hpid w =
  (vmalloc_check (map_n_map_pages pd up pfa.(DA.n_pages) * 2 * 8);;
   batch ← st_of_sum (fill_map up hpid (pfa.(DA.vaddr) -ᵤ up.(UP.vaddr)) (map_pg_inc pd up)
                       (map_n_map_pages pd up pfa.(DA.n_pages)) pfa.(DA.vaddr) 0
                       (c_for_indices 0 pfa.(DA.n_pages) (map_pg_inc pd up)));
   tlb_service_dev up.(UP.huge) batch (map_n_map_pages pd up pfa.(DA.n_pages))) w.
Proof.
  intros Hp Hin. pose proof Hin as (? & ? & ? & ? & ? & ?).
  unfold tlb_map_gup. st_seq deref_spec; [|exact Hp]. cbn zeta.
  unfold wrap32. rewrite Z.mod_small by lia. reflexivity.
Qed.

(** [tlb_map_gup] on an extent inside its region, when the batch fits the
    array: every device page of the extent gets a TLB entry for the
    region's authoritative copy of that page, no other entry changes,
    and one batch is submitted. *)
Lemma tlb_map_gup_maps pfa p hpid w up :
  w.(heap) !! p = Some up -> map_inside pfa up ->
  let idx := c_for_indices 0 pfa.(DA.n_pages) (map_pg_inc pd up) in
  Z.of_nat (length idx) <= map_n_map_pages pd up pfa.(DA.n_pages) ->
  exists t', tlb_map_gup pd pfa p hpid w =
    Ret () (set_dev w (log_event (set_tlb w.(dev) t')
             (EvService up.(UP.huge) (map_descs up hpid (pfa.(DA.vaddr) -ᵤ up.(UP.vaddr))
                                        pfa.(DA.vaddr) idx)))) /\
    (forall i, i ∈ idx -> exists ph,
        backing up !! Z.to_nat (pfa.(DA.vaddr) - up.(UP.vaddr) + i) = Some ph /\
        t' !! (up.(UP.huge), pfa.(DA.vaddr) + i) = Some (mk_tlb_entry ph up.(UP.host) up.(UP.cpid) hpid)) /\
    (forall k, (forall i, i ∈ idx -> k ≠ (up.(UP.huge), pfa.(DA.vaddr) + i)) ->
        t' !! k = w.(dev).(tlb) !! k).
Proof.
  intros Hp Hin idx Hcap. pose proof Hin as (? & ? & ? & ? & ? & ?). unfold idx in *.
  assert (Hlen1 : 1 <= Z.of_nat (length (c_for_indices 0 pfa.(DA.n_pages) (map_pg_inc pd up)))).
  { rewrite length_c_for_indices by lia.
    apply Z.div_le_lower_bound; lia. }
  rewrite (tlb_map_gup_fill pfa p hpid w up Hp Hin).
  unfold vmalloc_check. rewrite decide_False by lia. st_seq @st_ret_run.
  rewrite (fill_map_ok _ _ _ _ _ pfa.(DA.vaddr) _ _ 0); [| lia
    | symmetry; apply add64_0_r; u64_tac
    | intros i Hi; destruct (map_inside_reads pfa up i Hin Hi) as (? & _ & ->); eauto | lia].
  st_seq @st_ret_run. unfold tlb_service_dev, modify_dev, st_modify.
  rewrite take_ge by (unfold map_descs; rewrite length_fmap; lia).
  destruct (tlb_apply_maps up.(UP.huge) w.(dev).(tlb)
              (c_for_indices 0 pfa.(DA.n_pages) (map_pg_inc pd up)) (fun i => pfa.(DA.vaddr) +ᵤ i)
              (phys_at up (pfa.(DA.vaddr) -ᵤ up.(UP.vaddr))) up.(UP.host) up.(UP.cpid) hpid)
    as [Hmap Hother].
  { apply NoDup_fmap_2_strong; [|apply NoDup_c_for_indices; lia].
    intros i i' Hi Hi' Heq.
    apply elem_of_c_for_indices in Hi as [? _], Hi' as [? _]; [|lia|lia].
    rewrite !add64_nowrap in Heq by lia. lia. }
  cbv beta in Hmap, Hother. unfold map_descs.
  eexists; split; [reflexivity|]. split.
  - intros i Hi. destruct (map_inside_reads pfa up i Hin Hi) as (ph & Hph & Hnth).
    exists ph. split; [exact Hph|]. specialize (Hmap i Hi).
    apply elem_of_c_for_indices in Hi as [? _]; [|lia].
    rewrite add64_nowrap in Hmap by lia. rewrite Hmap. unfold phys_at. by rewrite Hnth.
  - intros k Hk. apply Hother. intros i Hi.
    pose proof Hi as Hi2. apply elem_of_c_for_indices in Hi2 as [? _]; [|lia].
    rewrite add64_nowrap by lia. by apply Hk.
Qed.

Lemma map_n_map_pages_nonneg up n : 0 <= n -> 0 <= map_n_map_pages pd up n.
Proof.
  intros Hn. unfold map_n_map_pages, MAX_N_MAP_PAGES.
  destruct (UP.huge up); [pose proof (proj2 (Z.shiftr_nonneg n (dif_order_page_shift pd)) Hn)|];
    case_decide; lia.
Qed.

(** When the extent has more device pages than [map_array] has slots,
    the fill loop writes past the end of the array. *)
Lemma tlb_map_gup_overflow pfa p hpid w up :
  w.(heap) !! p = Some up -> map_inside pfa up ->
  map_n_map_pages pd up pfa.(DA.n_pages) ≠ 0 ->
  map_n_map_pages pd up pfa.(DA.n_pages) <
    Z.of_nat (length (c_for_indices 0 pfa.(DA.n_pages) (map_pg_inc pd up))) ->
  tlb_map_gup pd pfa p hpid w = Stuck HeapOverflow w.
Proof.
  intros Hp Hin Hnz Hover. pose proof Hin as (? & ? & ? & ? & ? & ?).
  pose proof (map_n_map_pages_nonneg up pfa.(DA.n_pages)).
  rewrite (tlb_map_gup_fill pfa p hpid w up Hp Hin).
  unfold vmalloc_check. rewrite decide_False by lia. st_seq @st_ret_run.
  rewrite fill_map_overflow; [reflexivity|lia|lia| |lia].
  intros i Hi. destruct (map_inside_reads pfa up i Hin Hi) as (? & _ & ->). eauto.
Qed.

(** C30: For a region of base pages, any extent longer than [MAX_N_MAP_PAGES]
    pages overflows [map_array]: the cap is applied to the array and the
    submitted count, not to the loop that fills it. *)
Lemma tlb_map_gup_base_overflow pfa p hpid w up :
  w.(heap) !! p = Some up -> map_inside pfa up -> up.(UP.huge) = false ->
  MAX_N_MAP_PAGES < pfa.(DA.n_pages) ->
  tlb_map_gup pd pfa p hpid w = Stuck HeapOverflow w.
Proof.
  intros Hp Hin Hsmall Hbig. pose proof Hin as (? & ? & ? & ? & ? & ?).
  assert (Hcap : map_n_map_pages pd up pfa.(DA.n_pages) = MAX_N_MAP_PAGES).
  { unfold map_n_map_pages. rewrite Hsmall. case_decide; lia. }
  apply (tlb_map_gup_overflow pfa p hpid w up); [exact Hp|exact Hin|rewrite Hcap; discriminate|].
  unfold map_pg_inc. rewrite Hsmall, c_for_indices_step1, length_seqZ, Hcap. lia.
Qed.

(** ** Unmapping *)

Definition unmap_descs (hpid v0 : Z) (idx : list Z) : list tlb_desc :=
  (fun i => TlbUnmap (v0 +ᵤ i) hpid) <$> idx.

(** Whether iteration [i] issues the invalidation marked last. *)
Definition inval_last (n_pages pg_inc i : Z) : bool := bool_decide (i = wrap32 (n_pages - pg_inc)).

Definition inval_events (n_pages pg_inc v0 : Z) (idx : list Z) : list dev_event :=
  (fun i => EvInvalidate (v0 +ᵤ i) pg_inc (inval_last n_pages pg_inc i)) <$> idx.

Lemma fill_unmap_ok hpid inc cap v0 vt n a j :
  1 <= inc -> vt = v0 +ᵤ a ->
  Z.of_nat (length (c_for_indices a n inc)) <= cap - j ->
  fill_unmap hpid inc cap vt j (c_for_indices a n inc) = inr (unmap_descs hpid v0 (c_for_indices a n inc)).
Proof.
  intros Hinc ->. revert j.
  pattern a, (c_for_indices a n inc). revert a. apply c_for_indices_ind; [exact Hinc| |].
  - intros a _ j _. reflexivity.
  - intros a Ha IH j Hlen. cbn [fill_unmap length] in *.
    rewrite decide_False by lia. rewrite add64_assoc, IH by lia. reflexivity.
Qed.

Lemma invalidate_loop_run n inc hpid v0 vt a w :
  1 <= inc -> vt = v0 +ᵤ a ->
  invalidate_loop n inc hpid vt (c_for_indices a n inc) w =
  Ret () (set_dev w (mk_dev w.(dev).(tlb)
    (w.(dev).(wait_invldt) || existsb (inval_last n inc) (c_for_indices a n inc))
    w.(dev).(wait_offload) w.(dev).(wait_sync) w.(dev).(offload_lock) w.(dev).(sync_lock)
    (w.(dev).(dlog) ++ inval_events n inc v0 (c_for_indices a n inc)))).
Proof.
  intros Hinc ->. revert w.
  pattern a, (c_for_indices a n inc). revert a. apply c_for_indices_ind; [exact Hinc| |].
  - intros a _ w. cbn. rewrite orb_false_r, app_nil_r. by destruct w as [? ? ? ? ? ? []].
  - intros a Ha IH w. cbn [invalidate_loop].
    unfold mbind at 1, st_bind at 1, fpga_invalidate, modify_dev, st_modify.
    rewrite add64_assoc, IH. unfold inval_events. rewrite fmap_cons. cbn [existsb].
    change (bool_decide (a = wrap32 (n - inc))) with (inval_last n inc a).
    destruct (inval_last n inc a); cbn -[inval_last c_for_indices];
      destruct (wait_invldt (dev w)); cbn -[inval_last c_for_indices];
      rewrite <- ?app_assoc; reflexivity.
Qed.

(** The index the invalidation marked last is issued at, when the
    region is a whole number of device pages. *)
Lemma inval_last_issued n inc :
  1 <= inc -> 1 <= n < 2 ^ 32 -> n mod inc = 0 ->
  existsb (inval_last n inc) (c_for_indices 0 n inc) = true.
Proof.
  intros Hinc Hn Hmod. apply existsb_exists. exists (n - inc). split.
  - apply list_elem_of_In, elem_of_c_for_indices; [lia|].
    pose proof (mod0_le n inc Hinc ltac:(lia) Hmod).
    split; [lia|]. replace (n - inc - 0) with (n + (-1) * inc) by lia.
    rewrite Z.mod_add by lia. exact Hmod.
  - unfold inval_last, wrap32. pose proof (mod0_le n inc Hinc ltac:(lia) Hmod).
    rewrite Z.mod_small by lia. by apply bool_decide_eq_true.
Qed.

Lemma tlb_apply_unmaps h t (l : list Z) (key : Z -> Z) hp k :
  foldl (tlb_apply h) t ((fun i => TlbUnmap (key i) hp) <$> l) !! k =
  if decide (Exists (fun i => k = (h, key i)) l) then None else t !! k.
Proof.
  revert t. induction l as [|i l IH]; intros t; cbn.
  - rewrite decide_False; [done|]. intros Hex. by apply Exists_nil in Hex.
  - rewrite IH. case_decide as Hex; case_decide as Hex'.
    + done.
    + exfalso. apply Hex'. by apply Exists_cons; right.
    + apply Exists_cons in Hex' as [->|?]; [apply lookup_delete_eq|contradiction].
    + rewrite lookup_delete_ne; [done|]. intros <-. apply Hex'. by apply Exists_cons; left.
Qed.

(** A region [tlb_unmap_gup] handles: non-empty, not wrapping, a whole
    number of device pages, with a well-formed page-order configuration. *)
Definition unmap_ok (up : user_pages) : Prop :=
  0 <= up.(UP.vaddr) /\ 1 <= up.(UP.n_pages) < 2 ^ 32 /\
  up.(UP.vaddr) + up.(UP.n_pages) < 2 ^ 64 /\ drvdata_wf /\
  up.(UP.n_pages) mod map_pg_inc pd up = 0.

#[export] Instance unmap_ok_dec up : Decision (unmap_ok up).
Proof. unfold unmap_ok. apply _. Defined.

Lemma map_pg_inc_pos up : drvdata_wf -> 1 <= map_pg_inc pd up.
Proof.
  intros [Hd Hn]. unfold map_pg_inc. destruct (UP.huge up); [|lia].
  rewrite Hn. pose proof (Z.pow_pos_nonneg 2 (dif_order_page_shift pd)). lia.
Qed.

(** The unmap batch size is the number of iterations of its fill loop. *)
Lemma unmap_cap_exact up :
  unmap_ok up ->
  (if up.(UP.huge) then Z.shiftr up.(UP.n_pages) pd.(dif_order_page_shift) else up.(UP.n_pages)) =
  Z.of_nat (length (c_for_indices 0 up.(UP.n_pages) (map_pg_inc pd up))).
Proof.
  intros (? & ? & ? & Hwf & Hmod). pose proof (map_pg_inc_pos up Hwf).
  rewrite length_c_for_indices_mod0 by lia. destruct Hwf as [Hd Hn].
  unfold map_pg_inc. destruct (UP.huge up) eqn:Hh.
  - rewrite Z.shiftr_div_pow2, Hn by lia. reflexivity.
  - rewrite Z.div_1_r. reflexivity.
Qed.

(** [tlb_unmap_gup] on a well-formed region submits one unmap descriptor
    per device page, then the invalidations, the last one marked, waits
    for the acknowledgment and clears the flag. *)
Lemma tlb_unmap_gup_run p hpid w up :
  w.(heap) !! p = Some up -> unmap_ok up ->
  let inc := map_pg_inc pd up in
  let idx := c_for_indices 0 up.(UP.n_pages) inc in
  let d := w.(dev) in
  tlb_unmap_gup pd p hpid w =
  Ret () (set_dev w (mk_dev (foldl (tlb_apply up.(UP.huge)) d.(tlb) (unmap_descs hpid up.(UP.vaddr) idx))
    false d.(wait_offload) d.(wait_sync) d.(offload_lock) d.(sync_lock)
    (d.(dlog) ++ EvService up.(UP.huge) (unmap_descs hpid up.(UP.vaddr) idx)
              :: inval_events up.(UP.n_pages) inc up.(UP.vaddr) idx))).
Proof.
  intros Hp Hok. cbv zeta. pose proof Hok as (? & ? & ? & Hwf & Hmod).
  pose proof (map_pg_inc_pos up Hwf). pose proof (unmap_cap_exact up Hok) as Hcap.
  pose proof (length_c_for_indices_mod0 up.(UP.n_pages) (map_pg_inc pd up)
                ltac:(lia) ltac:(lia) Hmod) as Hl.
  pose proof (mod0_le up.(UP.n_pages) (map_pg_inc pd up) ltac:(lia) ltac:(lia) Hmod).
  assert (Hpos : 1 <= up.(UP.n_pages) / map_pg_inc pd up)
    by (apply Z.div_le_lower_bound; lia).
  unfold tlb_unmap_gup. st_seq deref_spec; [|exact Hp]. cbn zeta.
  unfold wrap32. rewrite Z.mod_small by lia. rewrite Hcap.
  unfold vmalloc_check. rewrite decide_False by lia. st_seq @st_ret_run.
  rewrite (fill_unmap_ok hpid _ _ up.(UP.vaddr) _ _ 0); [|lia|symmetry; apply add64_0_r; u64_tac|lia].
  st_seq @st_ret_run. st_seq tlb_service_dev_run.
  rewrite take_ge by (unfold unmap_descs; rewrite length_fmap; lia).
  st_seq (invalidate_loop_run up.(UP.n_pages) (map_pg_inc pd up) hpid up.(UP.vaddr) up.(UP.vaddr) 0); [|lia|symmetry; apply add64_0_r; u64_tac].
  st_seq wait_flag_run; [|apply orb_true_intro; right; apply inval_last_issued; lia].
  rewrite modify_dev_run. cbn. rewrite <- app_assoc. reflexivity.
Qed.
End TlbProgSpec.
