(* ===== verification/Migration.v ===== *)
(** * Migration Engine: [migrate_to_card_gup] and [migrate_to_host_gup]

    Each takes the device's migration mutex ([offload_lock] or
    [sync_lock]), starts the DMA copy of the region's [n_pages] pages
    between [hpages] and [cpages], sleeps until the device sets the
    completion flag, clears it and releases the mutex.

    Theorems: the run of each migration (memory copied, lock and flag back
    to free and clear, one command logged), the NULL dereference of a
    migration to the card on a device without card memory, and the copies:
    an offload leaves each card page holding its host page and a sync each
    host page holding its card page, every other word unchanged. *)

From S2P Require Import Prelude Machine Platform.

Definition migrate_to_card_gup (p : positive) : ST world unit :=
  mutex_lock offload_lock set_offload_lock;;
  up ← deref p;
  dma_offload_start up.(UP.hpages) up.(UP.cpages) up.(UP.n_pages) up.(UP.huge);;
  wait_flag wait_offload;;
  modify_dev (fun d => set_wait_offload d false);;
  mutex_unlock set_offload_lock.

Definition migrate_to_host_gup (p : positive) : ST world unit :=
  mutex_lock sync_lock set_sync_lock;;
  up ← deref p;
  dma_sync_start up.(UP.hpages) up.(UP.cpages) up.(UP.n_pages) up.(UP.huge);;
  wait_flag wait_sync;;
  modify_dev (fun d => set_wait_sync d false);;
  mutex_unlock set_sync_lock.

(** ** Memory contents *)

(** A memory word, zero where nothing was written. *)
Definition mem_read (m : gmap Z Z) (a : Z) : Z := default 0 (m !! a).

(** Two copies to the same target carry the same value. *)
Definition copies_consistent (src : gmap Z Z) (froms tos : list Z) : Prop :=
  forall i j f f' t, froms !! i = Some f -> froms !! j = Some f' ->
    tos !! i = Some t -> tos !! j = Some t -> mem_read src f = mem_read src f'.

Lemma mem_read_copy_page src dst f t a :
  mem_read (copy_page src dst f t) a = if decide (a = t) then mem_read src f else mem_read dst a.
Proof.
  unfold mem_read, copy_page. case_decide as Ha.
  - subst. by rewrite lookup_insert_eq.
  - by rewrite lookup_insert_ne.
Qed.

Lemma copies_consistent_tail src f froms t tos :
  copies_consistent src (f :: froms) (t :: tos) -> copies_consistent src froms tos.
Proof. intros Hc i j f1 f2 t' Hi Hj Hti Htj. exact (Hc (S i) (S j) f1 f2 t' Hi Hj Hti Htj). Qed.

(** A DMA copy whose writes to a same target agree: every target holds
    the value of its source, and every other word is unchanged. *)
Lemma dma_copy_spec src dst froms tos :
  length froms = length tos -> copies_consistent src froms tos ->
  (forall i f t, froms !! i = Some f -> tos !! i = Some t ->
     mem_read (dma_copy src dst froms tos) t = mem_read src f) /\
  (forall a, a ∉ tos -> mem_read (dma_copy src dst froms tos) a = mem_read dst a).
Proof.
  revert dst tos. induction froms as [|f froms IH]; intros dst [|t tos] Hlen Hc; try discriminate.
  - split; [intros ? ? ? Hf; discriminate|done].
  - cbn in Hlen. injection Hlen as Hlen.
    destruct (IH (copy_page src dst f t) tos Hlen (copies_consistent_tail _ _ _ _ _ Hc)) as [Hin Hout].
    cbn [dma_copy]. split.
    + intros [|i] f' t' Hf Ht; cbn in Hf, Ht.
      * injection Hf as <-. injection Ht as <-.
        destruct (decide (t ∈ tos)) as [Hmem|Hnot].
        -- apply list_elem_of_lookup in Hmem as [k Hk].
           destruct (lookup_lt_is_Some_2 froms k) as [fk Hfk].
           { rewrite Hlen. by eapply lookup_lt_Some. }
           rewrite (Hin k fk t Hfk Hk). symmetry. exact (Hc 0%nat (S k) f fk t eq_refl Hfk eq_refl Hk).
        -- rewrite Hout by exact Hnot. rewrite mem_read_copy_page. by rewrite decide_True.
      * exact (Hin i f' t' Hf Ht).
    + intros a Ha. rewrite Hout by (intros Hin'; apply Ha; by right).
      rewrite mem_read_copy_page, decide_False; [done|]. intros ->. apply Ha. by left.
Qed.

#[export] Hint Resolve copies_consistent_tail : gup.

(** ** Runs *)

Definition offload_ready (up : user_pages) : Prop :=
  up.(UP.cpages) ≠ [] /\
  (Z.to_nat up.(UP.n_pages) <= length up.(UP.hpages))%nat /\
  (Z.to_nat up.(UP.n_pages) <= length up.(UP.cpages))%nat.

#[export] Instance offload_ready_dec up : Decision (offload_ready up).
Proof. unfold offload_ready. apply _. Defined.

Lemma mutex_lock_run get set w :
  get w.(dev) = false -> mutex_lock get set w = Ret () (set_dev w (set w.(dev) true)).
Proof. intros Hg. unfold mutex_lock, mbind, st_bind, st_get. by rewrite Hg. Qed.

Lemma dma_offload_start_run hp cp n huge w :
  cp ≠ [] -> (Z.to_nat n <= length hp)%nat -> (Z.to_nat n <= length cp)%nat ->
  dma_offload_start hp cp n huge w =
  Ret () (set_dev (set_card w (mk_card (dma_copy w.(host).(hmem) w.(card).(cmem)
                                          (take (Z.to_nat n) hp) (take (Z.to_nat n) cp))
                                       w.(card).(card_free_list)))
                  (set_wait_offload (log_event w.(dev) (EvOffload n huge)) true)).
Proof.
  intros Hc Hh Hcp. unfold dma_offload_start. rewrite decide_False by exact Hc.
  rewrite decide_True by lia. reflexivity.
Qed.

Lemma dma_sync_start_run hp cp n huge w :
  cp ≠ [] -> (Z.to_nat n <= length hp)%nat -> (Z.to_nat n <= length cp)%nat ->
  dma_sync_start hp cp n huge w =
  Ret () (set_dev (set_host_st w (set_hmem w.(host) (dma_copy w.(card).(cmem) w.(host).(hmem)
                                          (take (Z.to_nat n) cp) (take (Z.to_nat n) hp))))
                  (set_wait_sync (log_event w.(dev) (EvSync n huge)) true)).
Proof.
  intros Hc Hh Hcp. unfold dma_sync_start. rewrite decide_False by exact Hc.
  rewrite decide_True by lia. reflexivity.
Qed.

(** A migration to the card of a region with card pages copies the host
    pages to the card pages, logs one command, and leaves the mutex free
    and the completion flag clear. *)
Lemma migrate_to_card_run p w up :
  w.(heap) !! p = Some up -> w.(dev).(offload_lock) = false -> offload_ready up ->
  migrate_to_card_gup p w =
  Ret () (set_dev (set_card w (mk_card (dma_copy w.(host).(hmem) w.(card).(cmem)
                                          (take (Z.to_nat up.(UP.n_pages)) up.(UP.hpages))
                                          (take (Z.to_nat up.(UP.n_pages)) up.(UP.cpages)))
                                       w.(card).(card_free_list)))
                  (mk_dev w.(dev).(tlb) w.(dev).(wait_invldt) false w.(dev).(wait_sync) false
                          w.(dev).(sync_lock) (w.(dev).(dlog) ++ [EvOffload up.(UP.n_pages) up.(UP.huge)]))).
Proof.
  intros Hp Hl (Hc & Hh & Hcp). unfold migrate_to_card_gup.
  st_seq mutex_lock_run; [|exact Hl]. st_seq deref_spec; [|exact Hp].
  st_seq dma_offload_start_run; [| exact Hc | exact Hh | exact Hcp].
  st_seq wait_flag_run; [|reflexivity]. st_seq modify_dev_run. reflexivity.
Qed.

Lemma migrate_to_host_run p w up :
  w.(heap) !! p = Some up -> w.(dev).(sync_lock) = false -> offload_ready up ->
  migrate_to_host_gup p w =
  Ret () (set_dev (set_host_st w (set_hmem w.(host) (dma_copy w.(card).(cmem) w.(host).(hmem)
                                          (take (Z.to_nat up.(UP.n_pages)) up.(UP.cpages))
                                          (take (Z.to_nat up.(UP.n_pages)) up.(UP.hpages)))))
                  (mk_dev w.(dev).(tlb) w.(dev).(wait_invldt) w.(dev).(wait_offload) false
                          w.(dev).(offload_lock) false (w.(dev).(dlog) ++ [EvSync up.(UP.n_pages) up.(UP.huge)]))).
Proof.
  intros Hp Hl (Hc & Hh & Hcp). unfold migrate_to_host_gup.
  st_seq mutex_lock_run; [|exact Hl]. st_seq deref_spec; [|exact Hp].
  st_seq dma_sync_start_run; [| exact Hc | exact Hh | exact Hcp].
  st_seq wait_flag_run; [|reflexivity]. st_seq modify_dev_run. reflexivity.
Qed.

(** C33: On a device without card memory the region's [cpages] is [NULL]: a
    migration to the card dereferences it, with the mutex held. *)
Lemma migrate_to_card_null p w up :
  w.(heap) !! p = Some up -> w.(dev).(offload_lock) = false -> up.(UP.cpages) = [] ->
  migrate_to_card_gup p w = Stuck NullDeref (set_dev w (set_offload_lock w.(dev) true)).
Proof.
  intros Hp Hl Hc. unfold migrate_to_card_gup.
  st_seq mutex_lock_run; [|exact Hl]. st_seq deref_spec; [|exact Hp].
  unfold mbind at 1, st_bind at 1, dma_offload_start. rewrite decide_True by exact Hc. reflexivity.
Qed.

(** C8: An offload copies the host: after [migrate_to_card_gup] each card
    page of the region holds what its host page holds, every other card
    word is unchanged, and host memory is not touched. *)
Lemma migrate_to_card_copies p w up :
  w.(heap) !! p = Some up -> w.(dev).(offload_lock) = false -> offload_ready up ->
  NoDup (take (Z.to_nat up.(UP.n_pages)) up.(UP.cpages)) ->
  let H := take (Z.to_nat up.(UP.n_pages)) up.(UP.hpages) in
  let C := take (Z.to_nat up.(UP.n_pages)) up.(UP.cpages) in
  exists w', migrate_to_card_gup p w = Ret () w' /\
    (forall i h c, H !! i = Some h -> C !! i = Some c ->
       mem_read w'.(card).(cmem) c = mem_read w.(host).(hmem) h) /\
    (forall a, a ∉ C -> mem_read w'.(card).(cmem) a = mem_read w.(card).(cmem) a) /\
    w'.(host).(hmem) = w.(host).(hmem).
Proof.
  intros Hp Hol Hready Hnd H C. pose proof Hready as (Hc & Hh & Hcp).
  rewrite (migrate_to_card_run p w up Hp Hol Hready).
  eexists; split; [reflexivity|]. cbn.
  destruct (dma_copy_spec w.(host).(hmem) w.(card).(cmem) H C) as [Hin Hout].
  { unfold C, H. rewrite !length_take. lia. }
  { intros i j f f' t Hi Hj Hti Htj. rewrite (NoDup_lookup C i j t Hnd Hti Htj) in Hi. congruence. }
  split; [exact Hin|]. split; [exact Hout|reflexivity].
Qed.

(** C9: A sync copies the card: after [migrate_to_host_gup] each host
    page of the region holds what its card page holds, whatever the
    accelerator wrote there, and every other host word is unchanged. *)
Lemma migrate_to_host_copies p w up :
  w.(heap) !! p = Some up -> w.(dev).(sync_lock) = false -> offload_ready up ->
  NoDup (take (Z.to_nat up.(UP.n_pages)) up.(UP.hpages)) ->
  let H := take (Z.to_nat up.(UP.n_pages)) up.(UP.hpages) in
  let C := take (Z.to_nat up.(UP.n_pages)) up.(UP.cpages) in
  exists w', migrate_to_host_gup p w = Ret () w' /\
    (forall i h c, H !! i = Some h -> C !! i = Some c ->
       mem_read w'.(host).(hmem) h = mem_read w.(card).(cmem) c) /\
    (forall a, a ∉ H -> mem_read w'.(host).(hmem) a = mem_read w.(host).(hmem) a).
Proof.
  intros Hp Hsl Hready Hnd H C. pose proof Hready as (Hc & Hh & Hcp).
  erewrite migrate_to_host_run; [|exact Hp|exact Hsl|exact Hready].
  eexists; split; [reflexivity|]. cbn.
  destruct (dma_copy_spec w.(card).(cmem) w.(host).(hmem) C H) as [Hin Hout].
  { unfold C, H. rewrite !length_take. lia. }
  { intros i j f f' t Hi Hj Hti Htj. rewrite (NoDup_lookup H i j t Hnd Hti Htj) in Hi. congruence. }
  split; [|exact Hout]. intros i h c Hhi Hci. exact (Hin i c h Hci Hhi).
Qed.
