(* ===== verification/Handler.v ===== *)
(** * Fault Orchestrator: [mmu_handler_gup], [offload_user_gup],
      [sync_user_gup], [tlb_put_user_pages], [tlb_put_user_pages_cpid]

    The entry points of [fpga_gup.c], composed from the Region Lookup
    ([map_present]), the Page Pinner ([tlb_get_user_pages]), the TLB
    Programmer ([tlb_map_gup], [tlb_unmap_gup]) and the Migration Engine.
    The two [hash_for_each_possible] walks and the [hash_for_each] walk use
    [hlist_walk], so that a [hash_del] inside the walk ends the walk of its
    bucket, as [hlist_del_init] does in the kernel.

    Theorems: the page alignment of a fault, the log of device commands
    each branch of the handler issues and in which order, and the dead
    [-EINVAL] branch.  What the release paths remove is proved in
    Release.v, the invariant they all keep in Invariant.v. *)

From S2P Require Import Prelude Machine Platform HashTable Lookup Pinner TlbProg Migration.

Section Handler.
Context `{!HashFn}.
Variable pd : bus_drvdata.

(** [(vaddr & o->page_mask) >> o->page_shift]. *)
Definition page_number (o : tlb_order) (vaddr : Z) : Z :=
  Z.shiftr (Z.land vaddr o.(page_mask)) o.(page_shift).

(** The alignment of lines 72-84: the fault extent in base pages. *)
Definition align_fault (huge : bool) (vaddr len cpid : Z) : desc_aligned :=
  let o := if huge then pd.(ltlb_order) else pd.(stlb_order) in
  let first := page_number o vaddr in
  let last := page_number o (wrap64 (vaddr + len - 1)) in
  let n := wrap64 (last - first + 1) in
  if huge then DA.mk (wrap64 (Z.shiftl first pd.(dif_order_page_shift)))
                     (wrap64 (n * pd.(n_pages_in_huge))) cpid true
  else DA.mk first n cpid false.

(** [user_pg->host = b]. *)
Definition set_host_field (p : positive) (b : bool) : ST world unit :=
  up ← deref p; store p (UP.set_host up b).

(** The sequence the code repeats at lines 98-101, 106-109, 317-320 and
    378-381: unmap the region, flip its residency, migrate it, and map
    the extent again. *)
Definition migrate_and_remap (p : positive) (pfa : desc_aligned) (hpid : Z) (to_host : bool)
    : ST world unit :=
  tlb_unmap_gup pd p hpid;;
  set_host_field p to_host;;
  (if to_host then migrate_to_host_gup p else migrate_to_card_gup p);;
  tlb_map_gup pd pfa p hpid.

Definition mmu_handler_gup (vaddr len cpid : Z) (stream : bool) (hpid : Z) : ST world Z :=
  curr_mm ← pid_task hpid;
  vma ← st_of_option NullDeref (find_vma curr_mm vaddr);
  let pfa0 := align_fault vma.(vm_hugetlb) vaddr len cpid in
  '((res, pfa) : option positive * desc_aligned) ← map_present pfa0;
  match res with
  | Some p =>
      up ← deref p;
      if decide (Z.b2z stream = HOST_ACCESS) then
        if up.(UP.host) then tlb_map_gup pd pfa p hpid;; mret 0
        else migrate_and_remap p pfa hpid true;; mret 0
      else if decide (Z.b2z stream = CARD_ACCESS) then
        if up.(UP.host) then migrate_and_remap p pfa hpid false;; mret 0
        else tlb_map_gup pd pfa p hpid;; mret 0
      else mret (- EINVAL)
  | None =>
      r ← tlb_get_user_pages pd pfa curr_mm;
      match r with
      | None => mret (- ENOMEM)
      | Some p =>
          if stream then tlb_map_gup pd pfa p hpid;; mret 0
          else
            set_host_field p false;;
            migrate_to_card_gup p;;
            tlb_map_gup pd pfa p hpid;;
            mret 0
      end
  end.

(** The body of the [hash_for_each_possible] loop of [offload_user_gup]
    ([to_host = false]) and [sync_user_gup] ([to_host = true]); the
    accumulator is [ret_val]. *)
Definition user_migrate_body (to_host : bool) (cpid hpid vaddr_tmp : Z) (ret : Z) (q : positive)
    : ST world (bool * Z) :=
  e ← deref q;
  if decide (e.(UP.vaddr) <= vaddr_tmp /\ vaddr_tmp < e.(UP.vaddr) +ᵤ e.(UP.n_pages)) then
    let pfa := DA.mk e.(UP.vaddr) e.(UP.n_pages) cpid e.(UP.huge) in
    migrate_and_remap q pfa hpid to_host;;
    mret (false, 0)
  else mret (false, ret).

Definition user_migrate (to_host : bool) (vaddr cpid : Z) : ST world Z :=
  w ← st_get;
  let vaddr_tmp := page_number pd.(stlb_order) vaddr in
  let hpid := default 0 (w.(pid_array) !! cpid) in
  hlist_walk (user_migrate_body to_host cpid hpid vaddr_tmp)
    (hash_bucket (table_of w cpid) vaddr_tmp) 1.

Definition offload_user_gup (vaddr cpid : Z) : ST world Z := user_migrate false vaddr cpid.
Definition sync_user_gup (vaddr cpid : Z) : ST world Z := user_migrate true vaddr cpid.

(** [for (i = 0; i < n_pages; i++) f(pages[i])]. *)
Definition for_each_page (e : user_pages) (f : Z -> ST world unit) : ST world unit :=
  st_iter (fun i => pfn ← st_of_option OutOfBounds (nth_addr e.(UP.pages) i); f pfn)
    (c_for_indices 0 e.(UP.n_pages) 1).

(** [hash_del(&tmp_entry->entry)]. *)
Definition del_region (cpid : Z) (q : positive) : ST world unit :=
  st_modify (fun w => set_table w cpid (hash_del (table_of w cpid) q)).

(** The release of one region, common to both release paths; the
    [vfree]s of the arrays are not observable and the struct itself is
    not freed. *)
Definition release_region (dirtied : bool) (cpid hpid : Z) (q : positive) (e : user_pages)
    : ST world unit :=
  tlb_unmap_gup pd q hpid;;
  (if pd.(en_mem) then card_free e.(UP.cpages) e.(UP.n_pages) e.(UP.huge) else mret ());;
  (if dirtied then for_each_page e SetPageDirty else mret ());;
  for_each_page e put_page;;
  del_region cpid q.

Definition put_body (dirtied : bool) (cpid hpid vaddr_tmp : Z) (_ : unit) (q : positive)
    : ST world (bool * unit) :=
  e ← deref q;
  if decide (e.(UP.vaddr) <= vaddr_tmp /\ vaddr_tmp <= e.(UP.vaddr) +ᵤ e.(UP.n_pages)) then
    release_region dirtied cpid hpid q e;; mret (true, ())
  else mret (false, ()).

Definition tlb_put_user_pages (vaddr cpid hpid : Z) (dirtied : bool) : ST world Z :=
  w ← st_get;
  let vaddr_tmp := page_number pd.(stlb_order) vaddr in
  hlist_walk (put_body dirtied cpid hpid vaddr_tmp) (hash_bucket (table_of w cpid) vaddr_tmp) ();;
  mret 0.

Definition put_all_body (dirtied : bool) (cpid hpid : Z) (_ : unit) (q : positive)
    : ST world (bool * unit) :=
  e ← deref q; release_region dirtied cpid hpid q e;; mret (true, ()).

(** [hash_for_each]: the buckets in order, each read when the outer loop
    reaches it. *)
Definition tlb_put_user_pages_cpid (cpid hpid : Z) (dirtied : bool) : ST world Z :=
  st_iter (fun bkt => w ← st_get;
                      hlist_walk (put_all_body dirtied cpid hpid) (default [] (table_of w cpid !! bkt)) ())
    (seq 0 HASH_SIZE);;
  mret 0.
End Handler.

(** ** Properties *)

Section HandlerSpec.
Context `{!HashFn}.
Variable pd : bus_drvdata.

Definition order_wf (o : tlb_order) (s : Z) : Prop :=
  o.(page_shift) = s /\ o.(page_mask) = 2 ^ 64 - 2 ^ s.
Definition orders_wf : Prop :=
  order_wf pd.(stlb_order) PAGE_SHIFT /\
  order_wf pd.(ltlb_order) (PAGE_SHIFT + pd.(dif_order_page_shift)) /\
  drvdata_wf pd /\ PAGE_SHIFT + pd.(dif_order_page_shift) < 64.
Definition fault_ok (vaddr len : Z) : Prop := 0 <= vaddr /\ 1 <= len /\ vaddr + len <= 2 ^ 64.
Definition huge_unit (huge : bool) : Z := if huge then pd.(n_pages_in_huge) else 1.

#[export] Instance order_wf_dec o s : Decision (order_wf o s).
Proof. unfold order_wf. apply _. Defined.
#[export] Instance orders_wf_dec : Decision orders_wf.
Proof. unfold orders_wf. apply _. Defined.
#[export] Instance fault_ok_dec vaddr len : Decision (fault_ok vaddr len).
Proof. unfold fault_ok. apply _. Defined.

Lemma page_number_div o s x : order_wf o s -> 0 <= s < 64 -> 0 <= x < 2 ^ 64 ->
  page_number o x = x / 2 ^ s.
Proof. intros [Hs Hm] ? ?. unfold page_number. rewrite Hs, Hm. by apply land_mask_shiftr. Qed.

Lemma align_fault_spec huge vaddr len cpid :
  orders_wf -> fault_ok vaddr len ->
  let pfa := align_fault pd huge vaddr len cpid in
  let u := huge_unit huge in
  extent_ok pfa /\ pfa.(DA.cpid) = cpid /\ pfa.(DA.hugepages) = huge /\
  pfa.(DA.vaddr) * 2 ^ PAGE_SHIFT <= vaddr < (pfa.(DA.vaddr) + u) * 2 ^ PAGE_SHIFT /\
  (pfa.(DA.vaddr) + pfa.(DA.n_pages) - u) * 2 ^ PAGE_SHIFT < vaddr + len <=
    (pfa.(DA.vaddr) + pfa.(DA.n_pages)) * 2 ^ PAGE_SHIFT /\
  pfa.(DA.vaddr) mod u = 0 /\ pfa.(DA.n_pages) mod u = 0.
Proof.
  intros ([Hs1 Hm1] & [Hs2 Hm2] & [Hd Hn] & Hlt) (Hv & Hl & Hvl). cbv zeta.
  unfold align_fault, huge_unit, PAGE_SHIFT in *.
  set (D := dif_order_page_shift pd) in *.
  rewrite (wrap64_id (vaddr + len - 1)) by (unfold is_u64; lia).
  destruct huge; cbn [DA.vaddr DA.n_pages DA.cpid DA.hugepages].
  - rewrite !(page_number_div _ (12 + D)) by (try split; lia).
    rewrite Hn, Z.shiftl_mul_pow2 by lia.
    assert (HP : 1 <= 2 ^ D <= 2 ^ 51).
    { split; [pose proof (Z.pow_pos_nonneg 2 D); lia|apply Z.pow_le_mono_r; lia]. }
    replace (2 ^ (12 + D)) with (4096 * 2 ^ D) by (rewrite Z.pow_add_r by lia; reflexivity).
    set (P := 2 ^ D) in *.
    pose proof (Z.div_mod vaddr (4096 * P) ltac:(lia)).
    pose proof (Z.mod_pos_bound vaddr (4096 * P) ltac:(lia)).
    pose proof (Z.div_mod (vaddr + len - 1) (4096 * P) ltac:(lia)).
    pose proof (Z.mod_pos_bound (vaddr + len - 1) (4096 * P) ltac:(lia)).
    assert (Hfl : vaddr / (4096 * P) <= (vaddr + len - 1) / (4096 * P)) by (apply Z.div_le_mono; lia).
    set (f := vaddr / (4096 * P)) in *. set (l := (vaddr + len - 1) / (4096 * P)) in *.
    set (r1 := vaddr mod (4096 * P)) in *. set (r2 := (vaddr + len - 1) mod (4096 * P)) in *.
    assert (Hf0 : 0 <= f) by nia. assert (HlP : l * P < 2 ^ 52) by nia.
    rewrite (wrap64_id (f * P)), (wrap64_id (l - f + 1)), (wrap64_id ((l - f + 1) * P))
      by (unfold is_u64; nia).
    unfold extent_ok; cbn [DA.vaddr DA.n_pages].
    rewrite Z.mod_mul, Z.mod_mul by lia. repeat split; nia.
  - rewrite !(page_number_div _ 12) by (try split; lia). change (2 ^ 12) with 4096.
    pose proof (Z.div_mod vaddr 4096 ltac:(lia)).
    pose proof (Z.mod_pos_bound vaddr 4096 ltac:(lia)).
    pose proof (Z.div_mod (vaddr + len - 1) 4096 ltac:(lia)).
    pose proof (Z.mod_pos_bound (vaddr + len - 1) 4096 ltac:(lia)).
    rewrite (wrap64_id (_ - _ + 1)) by (unfold is_u64; lia).
    unfold extent_ok; cbn [DA.vaddr DA.n_pages]. rewrite !Z.mod_1_r. repeat split; lia.
Qed.

(** the extent of a well-formed fault is exactly the set of base
    pages whose page (a huge page for a huge mapping) holds a byte of
    [[vaddr, vaddr + len)]; it neither is empty nor wraps. *)
Lemma align_fault_covers huge vaddr len cpid :
  orders_wf -> fault_ok vaddr len ->
  let pfa := align_fault pd huge vaddr len cpid in
  let u := huge_unit huge in
  extent_ok pfa /\ pfa.(DA.cpid) = cpid /\ pfa.(DA.hugepages) = huge /\
  forall x, in_pages x pfa.(DA.vaddr) pfa.(DA.n_pages) <->
    x / u * u * 2 ^ PAGE_SHIFT < vaddr + len /\ vaddr < (x / u * u + u) * 2 ^ PAGE_SHIFT.
Proof.
  intros Hord Hf. cbv zeta.
  destruct (align_fault_spec huge vaddr len cpid Hord Hf)
    as (Hext & Hc & Hh & [Hv1 Hv2] & [Hn1 Hn2] & Hvm & Hnm).
  split; [exact Hext|split; [exact Hc|split; [exact Hh|]]].
  assert (Hu : 1 <= huge_unit huge).
  { unfold huge_unit. destruct huge; [|lia]. destruct Hord as (_ & _ & [? ->] & _).
    pose proof (Z.pow_pos_nonneg 2 (dif_order_page_shift pd)). lia. }
  set (pfa := align_fault pd huge vaddr len cpid) in *. set (u := huge_unit huge) in *.
  unfold PAGE_SHIFT in *. change (2 ^ 12) with 4096 in *.
  apply Z.mod_divide in Hvm as [a Ha]; [|lia]. apply Z.mod_divide in Hnm as [c Hc']; [|lia].
  intros x. unfold in_pages. rewrite Ha, Hc' in *.
  pose proof (Z.div_mod x u ltac:(lia)). pose proof (Z.mod_pos_bound x u ltac:(lia)).
  set (q := x / u) in *. set (r := x mod u) in *. split.
  - intros [Hlo Hhi]. assert (a <= q) by nia. assert (q < a + c) by nia. split; nia.
  - intros [Hlo Hhi]. assert (q < a + c) by nia. assert (a <= q) by nia. split; nia.
Qed.

(** ** Runs of the shared sequences *)

Lemma pid_task_run hpid mm w : w.(host).(procs) !! hpid = Some mm -> pid_task hpid w = Ret mm w.
Proof. intros Hm. unfold pid_task, mbind, st_bind, st_get. cbn. by rewrite Hm. Qed.

Lemma set_host_field_run p b w up :
  w.(heap) !! p = Some up ->
  set_host_field p b w = Ret () (set_heap w (<[p := UP.set_host up b]> w.(heap))).
Proof. intros Hp. unfold set_host_field. st_seq deref_spec; [|exact Hp]. apply store_run. Qed.

Lemma pid_task_Ret hpid mm w w' :
  pid_task hpid w = Ret mm w' -> w' = w /\ w.(host).(procs) !! hpid = Some mm.
Proof.
  unfold pid_task, mbind, st_bind, st_get. intros Hr.
  apply st_of_option_Ret in Hr as [Hs ->]. by split.
Qed.

(** The map batch of an extent fits [map_array]. *)
Definition map_fits (pfa : desc_aligned) (up : user_pages) : Prop :=
  Z.of_nat (length (c_for_indices 0 pfa.(DA.n_pages) (map_pg_inc pd up))) <=
  map_n_map_pages pd up pfa.(DA.n_pages).

#[export] Instance map_fits_dec pfa up : Decision (map_fits pfa up).
Proof. unfold map_fits. apply _. Defined.

(** The commands the device receives from [tlb_unmap_gup], from a
    migration, and from [tlb_map_gup]. *)
Definition unmap_log (hpid : Z) (up : user_pages) : list dev_event :=
  let idx := c_for_indices 0 up.(UP.n_pages) (map_pg_inc pd up) in
  EvService up.(UP.huge) (unmap_descs hpid up.(UP.vaddr) idx)
    :: inval_events up.(UP.n_pages) (map_pg_inc pd up) up.(UP.vaddr) idx.

Definition mig_event (to_host : bool) (up : user_pages) : dev_event :=
  if to_host then EvSync up.(UP.n_pages) up.(UP.huge) else EvOffload up.(UP.n_pages) up.(UP.huge).

Definition map_event (pfa : desc_aligned) (up : user_pages) (hpid : Z) : dev_event :=
  EvService up.(UP.huge) (map_descs up hpid (pfa.(DA.vaddr) -ᵤ up.(UP.vaddr)) pfa.(DA.vaddr)
                            (c_for_indices 0 pfa.(DA.n_pages) (map_pg_inc pd up))).

(** The host and card memories after the migration of [up]. *)
Definition migrated_hmem (to_host : bool) (up : user_pages) (w : world) : gmap Z Z :=
  if to_host then dma_copy w.(card).(cmem) w.(host).(hmem)
                    (take (Z.to_nat up.(UP.n_pages)) up.(UP.cpages))
                    (take (Z.to_nat up.(UP.n_pages)) up.(UP.hpages))
  else w.(host).(hmem).

Definition migrated_cmem (to_host : bool) (up : user_pages) (w : world) : gmap Z Z :=
  if to_host then w.(card).(cmem)
  else dma_copy w.(host).(hmem) w.(card).(cmem)
         (take (Z.to_nat up.(UP.n_pages)) up.(UP.hpages))
         (take (Z.to_nat up.(UP.n_pages)) up.(UP.cpages)).

(** Unmap, flip, migrate and remap a well-formed region with both
    migration mutexes free: the region's residency is [to_host], its
    pages are copied to the new residency, the device receives the unmap
    batch, its invalidations, the migration and the map batch in this
    order, and every device page of the extent then translates to the
    new residency's copy. *)
Lemma migrate_and_remap_run p pfa hpid to_host w up :
  w.(heap) !! p = Some up -> w.(dev).(offload_lock) = false -> w.(dev).(sync_lock) = false ->
  unmap_ok pd up -> offload_ready up ->
  map_inside pd pfa (UP.set_host up to_host) -> map_fits pfa up ->
  let up' := UP.set_host up to_host in
  exists w', migrate_and_remap pd p pfa hpid to_host w = Ret () w' /\
    w'.(heap) = <[p := up']> w.(heap) /\ w'.(user_buff_map) = w.(user_buff_map) /\
    w'.(next_ptr) = w.(next_ptr) /\
    w'.(host).(hmem) = migrated_hmem to_host up w /\ w'.(card).(cmem) = migrated_cmem to_host up w /\
    w'.(dev).(dlog) = w.(dev).(dlog) ++ unmap_log hpid up ++ [mig_event to_host up; map_event pfa up' hpid] /\
    w'.(dev).(offload_lock) = false /\ w'.(dev).(sync_lock) = false /\
    (forall i, i ∈ c_for_indices 0 pfa.(DA.n_pages) (map_pg_inc pd up) -> exists ph,
       backing up' !! Z.to_nat (pfa.(DA.vaddr) - up.(UP.vaddr) + i) = Some ph /\
       w'.(dev).(tlb) !! (up.(UP.huge), pfa.(DA.vaddr) + i) =
         Some (mk_tlb_entry ph to_host up.(UP.cpid) hpid)).
Proof.
  intros Hp Hol Hsl Hun Hready Hin Hfit up'. unfold migrate_and_remap.
  st_seq tlb_unmap_gup_run; [|exact Hp|exact Hun].
  st_seq set_host_field_run; [|exact Hp].
  set (w2 := set_heap _ _).
  assert (Hp2 : w2.(heap) !! p = Some up') by apply lookup_insert_eq.
  destruct to_host.
  - st_seq migrate_to_host_run; [|exact Hp2|exact Hsl|exact Hready].
    match goal with |- context [tlb_map_gup _ _ _ _ ?W] =>
      destruct (tlb_map_gup_maps pd pfa p hpid W up' ltac:(apply lookup_insert_eq) Hin Hfit)
        as (t' & Hrun & Hmap & _) end.
    rewrite Hrun. eexists; split; [reflexivity|]. cbn.
    rewrite <- !app_assoc. repeat split; try reflexivity; first [assumption|exact Hmap].
  - st_seq migrate_to_card_run; [|exact Hp2|exact Hol|exact Hready].
    match goal with |- context [tlb_map_gup _ _ _ _ ?W] =>
      destruct (tlb_map_gup_maps pd pfa p hpid W up' ltac:(apply lookup_insert_eq) Hin Hfit)
        as (t' & Hrun & Hmap & _) end.
    rewrite Hrun. eexists; split; [reflexivity|]. cbn.
    rewrite <- !app_assoc. repeat split; try reflexivity; first [assumption|exact Hmap].
Qed.

(** The steps of [mmu_handler_gup] before it branches on the lookup. *)
Lemma mmu_handler_gup_prefix vaddr len cpid stream hpid w mm vma res pfa :
  w.(host).(procs) !! hpid = Some mm -> find_vma mm vaddr = Some vma ->
  map_present (align_fault pd vma.(vm_hugetlb) vaddr len cpid) w = Ret (res, pfa) w ->
  mmu_handler_gup pd vaddr len cpid stream hpid w =
  match res with
  | Some p =>
      (up ← deref p;
       if decide (Z.b2z stream = HOST_ACCESS) then
         if up.(UP.host) then tlb_map_gup pd pfa p hpid;; mret 0
         else migrate_and_remap pd p pfa hpid true;; mret 0
       else if decide (Z.b2z stream = CARD_ACCESS) then
         if up.(UP.host) then migrate_and_remap pd p pfa hpid false;; mret 0
         else tlb_map_gup pd pfa p hpid;; mret 0
       else mret (- EINVAL)) w
  | None =>
      (r ← tlb_get_user_pages pd pfa mm;
       match r with
       | None => mret (- ENOMEM)
       | Some p =>
           if stream then tlb_map_gup pd pfa p hpid;; mret 0
           else set_host_field p false;; migrate_to_card_gup p;; tlb_map_gup pd pfa p hpid;; mret 0
       end) w
  end.
Proof.
  intros Hm Hv Hmp. unfold mmu_handler_gup.
  st_seq pid_task_run; [|exact Hm]. rewrite Hv. st_seq @st_ret_run.
  st_seq Hmp. by destruct res.
Qed.

(** The stream selects a residency: the handler's access kind. *)
Lemma stream_dispatch (stream : bool) (A : Type) (h c e : A) :
  (if decide (Z.b2z stream = HOST_ACCESS) then h
   else if decide (Z.b2z stream = CARD_ACCESS) then c else e) = if stream then h else c.
Proof. by destruct stream. Qed.

(** C4: a fault on a region already resident where the access wants it
    only reprograms the TLB: no unmap, no migration, the region table
    unchanged, and one map batch submitted. *)
Lemma mmu_handler_gup_hit_map vaddr len cpid stream hpid w mm vma p pfa up :
  w.(host).(procs) !! hpid = Some mm -> find_vma mm vaddr = Some vma ->
  map_present (align_fault pd vma.(vm_hugetlb) vaddr len cpid) w = Ret (Some p, pfa) w ->
  w.(heap) !! p = Some up -> up.(UP.host) = stream ->
  map_inside pd pfa up -> map_fits pfa up ->
  exists w', mmu_handler_gup pd vaddr len cpid stream hpid w = Ret 0 w' /\
    w'.(heap) = w.(heap) /\ w'.(user_buff_map) = w.(user_buff_map) /\
    w'.(dev).(dlog) = w.(dev).(dlog) ++ [map_event pfa up hpid].
Proof.
  intros Hm Hv Hmp Hp Hh Hin Hfit.
  rewrite (mmu_handler_gup_prefix _ _ _ _ _ _ _ _ _ _ Hm Hv Hmp).
  st_seq deref_spec; [|exact Hp]. rewrite stream_dispatch, Hh.
  destruct (tlb_map_gup_maps pd pfa p hpid w up Hp Hin Hfit) as (t' & Hrun & _).
  destruct stream; (st_seq Hrun; eexists; split; [reflexivity|done]).
Qed.

(** C3: a fault on a region resident on the other side unmaps it, flips
    its residency, migrates it and maps it again, in this order, and
    returns [0]. *)
Lemma mmu_handler_gup_hit_migrate vaddr len cpid stream hpid w mm vma p pfa up :
  w.(host).(procs) !! hpid = Some mm -> find_vma mm vaddr = Some vma ->
  map_present (align_fault pd vma.(vm_hugetlb) vaddr len cpid) w = Ret (Some p, pfa) w ->
  w.(heap) !! p = Some up -> up.(UP.host) = negb stream ->
  w.(dev).(offload_lock) = false -> w.(dev).(sync_lock) = false ->
  unmap_ok pd up -> offload_ready up ->
  map_inside pd pfa (UP.set_host up stream) -> map_fits pfa up ->
  exists w', mmu_handler_gup pd vaddr len cpid stream hpid w = Ret 0 w' /\
    w'.(heap) = <[p := UP.set_host up stream]> w.(heap) /\
    w'.(user_buff_map) = w.(user_buff_map) /\
    w'.(dev).(dlog) = w.(dev).(dlog) ++ unmap_log hpid up ++
                       [mig_event stream up; map_event pfa (UP.set_host up stream) hpid].
Proof.
  intros Hm Hv Hmp Hp Hh Hol Hsl Hun Hready Hin Hfit.
  rewrite (mmu_handler_gup_prefix _ _ _ _ _ _ _ _ _ _ Hm Hv Hmp).
  st_seq deref_spec; [|exact Hp]. rewrite stream_dispatch, Hh.
  destruct (migrate_and_remap_run p pfa hpid stream w up Hp Hol Hsl Hun Hready Hin Hfit)
    as (w' & Hrun & Hheap & Hubm & _ & _ & _ & Hlog & _).
  destruct stream; cbn [negb]; (st_seq Hrun; eexists; split; [reflexivity|done]).
Qed.

(** The region [tlb_get_user_pages] creates for an extent, with the
    residency the handler leaves it in. *)
Definition new_region (pfa : desc_aligned) (mm : mm_struct) (w : world) (on_host : bool) : user_pages :=
  let pages := gup_prefix mm.(pte) pfa.(DA.vaddr) (Z.to_nat pfa.(DA.n_pages)) in
  UP.mk pfa.(DA.vaddr) pfa.(DA.hugepages) pfa.(DA.cpid) pfa.(DA.n_pages) on_host pages
    (page_to_phys <$> pages)
    (if pd.(en_mem) then take (Z.to_nat pfa.(DA.n_pages)) w.(card).(card_free_list) else []).

(** C5: a fault on pages no region covers pins the (clipped) extent as a
    new region linked under its start page, migrates it to the card
    first for a card access, maps it, and returns [0]. *)
Lemma mmu_handler_gup_miss vaddr len cpid stream hpid w mm vma pfa :
  w.(host).(procs) !! hpid = Some mm -> find_vma mm vaddr = Some vma ->
  map_present (align_fault pd vma.(vm_hugetlb) vaddr len cpid) w = Ret (None, pfa) w ->
  extent_ok pfa -> pfa.(DA.n_pages) < 2 ^ 32 -> drvdata_wf pd ->
  w.(heap) !! w.(next_ptr) = None ->
  (forall i, pfa.(DA.vaddr) <= i < pfa.(DA.vaddr) + pfa.(DA.n_pages) -> is_Some (mm.(pte) !! i)) ->
  (pd.(en_mem) = true -> (Z.to_nat pfa.(DA.n_pages) <= length w.(card).(card_free_list))%nat) ->
  (stream = false -> pd.(en_mem) = true /\ w.(dev).(offload_lock) = false) ->
  map_fits pfa (new_region pfa mm w stream) ->
  let up := new_region pfa mm w stream in
  exists w', mmu_handler_gup pd vaddr len cpid stream hpid w = Ret 0 w' /\
    w'.(heap) = <[w.(next_ptr) := up]> w.(heap) /\
    table_of w' pfa.(DA.cpid) = hash_add (table_of w pfa.(DA.cpid)) w.(next_ptr) pfa.(DA.vaddr) /\
    w'.(dev).(dlog) = w.(dev).(dlog) ++
      (if stream then [] else [EvOffload pfa.(DA.n_pages) pfa.(DA.hugepages)]) ++ [map_event pfa up hpid].
Proof.
  intros Hm Hv Hmp Hext Hn32 Hwf Hfresh Hall Hmem Hcard Hfit up.
  rewrite (mmu_handler_gup_prefix _ _ _ _ _ _ _ _ _ _ Hm Hv Hmp).
  destruct (tlb_get_user_pages_success pd pfa mm w Hext Hfresh Hall Hmem)
    as (w1 & Hrun & Hheap & Htab & _ & _ & _ & Hdev & Hlen).
  st_seq Hrun. pose proof Hext as (? & ? & ?).
  assert (Hin : map_inside pd pfa up).
  { refine (conj _ (conj _ (conj _ (conj _ (conj _ _))))); try (cbn; lia);
      [|apply map_pg_inc_pos, Hwf].
    unfold up, new_region, backing. cbn [UP.host UP.n_pages UP.hpages UP.cpages].
    destruct stream; [rewrite length_fmap; lia|].
    destruct (Hcard eq_refl) as [Hen _]. rewrite Hen, length_take. specialize (Hmem Hen). lia. }
  destruct stream.
  - destruct (tlb_map_gup_maps pd pfa w.(next_ptr) hpid w1 up) as (t' & Hmap & _); [| exact Hin | exact Hfit |].
    { rewrite Hheap. apply lookup_insert_eq. }
    st_seq Hmap. eexists; split; [reflexivity|]. cbn. rewrite Hdev. done.
  - destruct (Hcard eq_refl) as [Hen Hol].
    st_seq set_host_field_run; [|rewrite Hheap; apply lookup_insert_eq].
    st_seq migrate_to_card_run; [|apply lookup_insert_eq|cbn; by rewrite Hdev|].
    2:{ unfold offload_ready; cbn. rewrite Hen. specialize (Hmem Hen).
        rewrite length_fmap, length_take. split; [|lia].
        destruct (card_free_list (card w)); cbn in Hmem |- *; [lia|].
        destruct (Z.to_nat (DA.n_pages pfa)) eqn:E; [lia|discriminate]. }
    match goal with |- context [(mbind _ (tlb_map_gup _ _ _ _)) ?W] =>
      destruct (tlb_map_gup_maps pd pfa w.(next_ptr) hpid W up ltac:(apply lookup_insert_eq) Hin Hfit)
        as (t' & Hmap & _) end.
    st_seq Hmap. eexists; split; [reflexivity|]. split; [|split; [exact Htab|]].
    + cbn. rewrite Hheap, insert_insert_eq. unfold up, new_region. by rewrite Hen.
    + cbn. by rewrite Hdev, <- app_assoc.
Qed.

(** C32: the handler returns [0] or [-ENOMEM]; the [-EINVAL] branch for an
    unsupported access kind is dead, since [stream] is a [bool]. *)
Lemma mmu_handler_gup_returns vaddr len cpid stream hpid w r w' :
  mmu_handler_gup pd vaddr len cpid stream hpid w = Ret r w' -> r = 0 \/ r = - ENOMEM.
Proof.
  unfold mmu_handler_gup. intros Hr. ret_inv Hr; try by (left + right).
  destruct stream; unfold HOST_ACCESS, CARD_ACCESS in *; cbn in *; congruence.
Qed.
End HandlerSpec.
