(* ===== verification/Invariant.v ===== *)
(** * The Region Table invariant

    [table_wf]: every heap object lies below the allocation cursor; the
    table of every context has [HASH_SIZE] buckets and links each node
    once; every node is a live, well-formed region of that context, in the
    bucket of its start page; and the regions of one context are pairwise
    disjoint (the specification's non-overlap invariant).

    Two equivalences on worlds carry the frame reasoning: [core_eq] (same
    heap, tables and cursor: what device, card, TLB and host-page
    operations leave alone) and the coarser [layout_eq] (same tables and
    cursor, and the same ranges for every object: what a flip of a
    region's residency leaves alone).  [table_wf] is [Proper] for
    [layout_eq], so every theorem about an operation that only migrates
    regions is a rewrite.

    Theorems: every operation of the driver preserves [core_eq] or
    [layout_eq] where it should; [table_wf] holds of the initial world and
    is preserved by [offload_user_gup], [sync_user_gup],
    [tlb_put_user_pages], [tlb_put_user_pages_cpid] and, for faults with a
    well-formed byte range, by [mmu_handler_gup]. *)

From S2P Require Import Prelude Machine Platform HashTable Lookup Pinner TlbProg Migration Handler.

(** ** Frames *)

Definition core (w : world) : gmap positive user_pages * gmap Z (list (list positive)) * positive :=
  (w.(heap), w.(user_buff_map), w.(next_ptr)).

Definition core_eq (w w' : world) : Prop := core w = core w'.

(** The fields of a region the table invariant reads. *)
Definition region_view (u : user_pages) : Z * Z * Z * bool :=
  (u.(UP.vaddr), u.(UP.n_pages), u.(UP.cpid), u.(UP.huge)).

Definition layout (w : world) : gmap Z (list (list positive)) * gmap positive (Z * Z * Z * bool) * positive :=
  (w.(user_buff_map), region_view <$> w.(heap), w.(next_ptr)).

Definition layout_eq (w w' : world) : Prop := layout w = layout w'.

#[export] Instance core_eq_equiv : Equivalence core_eq.
Proof. unfold core_eq. split; [done|by intros ??->|by intros ???->->]. Qed.

#[export] Instance layout_eq_equiv : Equivalence layout_eq.
Proof. unfold layout_eq. split; [done|by intros ??->|by intros ???->->]. Qed.

Lemma core_layout w w' : core_eq w w' -> layout_eq w w'.
Proof. unfold core_eq, layout_eq, core, layout. by intros [= -> -> ->]. Qed.

Lemma core_modify (f : world -> world) :
  (forall w, core (f w) = core w) -> st_preserves core_eq (st_modify f).
Proof. intros Hf. apply (st_preserves_modify core_eq). intros w. symmetry. apply Hf. Qed.

#[export] Hint Extern 1 (st_preserves core_eq (st_modify _)) =>
  apply core_modify; intros; reflexivity : gup.

Ltac core_tac defs :=
  unfold defs; unfold deref, vmalloc_check, tlb_service_dev, fpga_invalidate, mutex_lock,
    mutex_unlock, wait_flag, dma_offload_start, dma_sync_start, card_free, put_page, SetPageDirty;
  unfold modify_dev, modify_host;
  preserves_tac.

Section Frames.
Context `{!HashFn}.
Variable pd : bus_drvdata.

Lemma invalidate_loop_core n inc hpid v idx :
  st_preserves core_eq (invalidate_loop n inc hpid v idx).
Proof.
  revert v. induction idx as [|i idx IH]; intros v; cbn [invalidate_loop]; core_tac fpga_invalidate.
Qed.
#[local] Hint Resolve invalidate_loop_core : gup.

Lemma tlb_map_gup_core pfa p hpid : st_preserves core_eq (tlb_map_gup pd pfa p hpid).
Proof. core_tac tlb_map_gup. Qed.

Lemma tlb_unmap_gup_core p hpid : st_preserves core_eq (tlb_unmap_gup pd p hpid).
Proof. core_tac tlb_unmap_gup. Qed.

Lemma migrate_to_card_core p : st_preserves core_eq (migrate_to_card_gup p).
Proof. core_tac migrate_to_card_gup. Qed.

Lemma migrate_to_host_core p : st_preserves core_eq (migrate_to_host_gup p).
Proof. core_tac migrate_to_host_gup. Qed.

Lemma set_host_field_layout p b : st_preserves layout_eq (set_host_field p b).
Proof.
  intros w a w' (u & w1 & Hd & Hs)%st_bind_Ret_inv.
  apply deref_Ret in Hd as [-> Hp]. unfold store, st_modify in Hs. injection Hs as _ <-.
  unfold layout_eq, layout. cbn. rewrite fmap_insert.
  f_equal. f_equal. symmetry. apply insert_id. rewrite lookup_fmap, Hp. reflexivity.
Qed.

Lemma migrate_and_remap_layout p pfa hpid b : st_preserves layout_eq (migrate_and_remap pd p pfa hpid b).
Proof.
  unfold migrate_and_remap.
  apply (st_preserves_bind layout_eq);
    [apply (st_preserves_mono core_eq); [apply core_layout|apply tlb_unmap_gup_core]|intros _].
  apply (st_preserves_bind layout_eq); [apply set_host_field_layout|intros _].
  apply (st_preserves_bind layout_eq); [|intros _];
    apply (st_preserves_mono core_eq); try apply core_layout.
  - destruct b; [apply migrate_to_host_core|apply migrate_to_card_core].
  - apply tlb_map_gup_core.
Qed.
End Frames.

(** ** The invariant *)

Section Invariant.
Context `{!HashFn}.
Variable pd : bus_drvdata.

(** Every allocated object lies below the cursor [kzalloc] allocates at. *)
Definition heap_below (w : world) : Prop :=
  forall q u, w.(heap) !! q = Some u -> (q < w.(next_ptr))%positive.

Definition context_wf (w : world) (c : Z) : Prop :=
  table_shape (table_of w c) /\
  (forall b q, in_bucket (table_of w c) b q ->
     exists u, w.(heap) !! q = Some u /\ region_ok u /\ u.(UP.cpid) = c /\ b = hash_min u.(UP.vaddr)) /\
  (forall q1 q2 u1 u2, q1 ∈ hash_entries (table_of w c) -> q2 ∈ hash_entries (table_of w c) ->
     q1 ≠ q2 -> w.(heap) !! q1 = Some u1 -> w.(heap) !! q2 = Some u2 ->
     pages_disjoint u1.(UP.vaddr) u1.(UP.n_pages) u2.(UP.vaddr) u2.(UP.n_pages)).

Definition table_wf (w : world) : Prop := heap_below w /\ forall c, context_wf w c.

Lemma layout_lookup w w' q u' :
  layout_eq w w' -> w'.(heap) !! q = Some u' ->
  exists u, w.(heap) !! q = Some u /\ region_view u = region_view u'.
Proof.
  intros [= _ Hh _] Hq. pose proof (f_equal (lookup q) Hh) as Hq'.
  rewrite !lookup_fmap, Hq in Hq'. destruct (w.(heap) !! q) as [u|]; [|discriminate].
  cbn in Hq'. exists u. split; [reflexivity|congruence].
Qed.

Lemma layout_table w w' c : layout_eq w w' -> table_of w' c = table_of w c.
Proof. intros [= Hm _ _]. unfold table_of. by rewrite Hm. Qed.

Lemma layout_table_wf w w' : layout_eq w w' -> table_wf w -> table_wf w'.
Proof.
  intros Hl (Hbelow & Hctx). pose proof Hl as [= _ _ Hnp]. split.
  - intros q u' Hq. destruct (layout_lookup w w' q u' Hl Hq) as (u & Hu & _).
    rewrite <- Hnp. exact (Hbelow q u Hu).
  - intros c. unfold context_wf. rewrite !(layout_table w w' c Hl).
    destruct (Hctx c) as (Hshape & Hin & Hdisj). split; [exact Hshape|split].
    + intros b q Hb. destruct (Hin b q Hb) as (u & Hu & Hok & Hc & ->).
      destruct (layout_lookup w' w q u ltac:(by symmetry) Hu) as (u0 & Hu0 & Hv).
      unfold region_view in Hv. injection Hv as Hv Hn Hc' _. exists u0.
      unfold region_ok in *. rewrite Hv, Hn, Hc'.
      split; [exact Hu0|split; [exact Hok|split; [exact Hc|reflexivity]]].
    + intros q1 q2 u1' u2' H1 H2 Hne Hq1 Hq2.
      destruct (layout_lookup w w' q1 u1' Hl Hq1) as (u1 & Hu1 & Hv1).
      destruct (layout_lookup w w' q2 u2' Hl Hq2) as (u2 & Hu2 & Hv2).
      unfold region_view in Hv1, Hv2. injection Hv1 as <- <- _ _. injection Hv2 as <- <- _ _.
      exact (Hdisj q1 q2 u1 u2 H1 H2 Hne Hu1 Hu2).
Qed.

#[export] Instance table_wf_proper : Proper (layout_eq ==> iff) table_wf.
Proof. intros w w' Hl. split; apply layout_table_wf; [exact Hl|by symmetry]. Qed.

(** The relation of a run that keeps the invariant. *)
Definition wf_step (w w' : world) : Prop := table_wf w -> table_wf w'.

#[export] Instance wf_step_preorder : PreOrder wf_step.
Proof. split; [intros w Hw; exact Hw|intros w1 w2 w3 H12 H23 Hw; exact (H23 (H12 Hw))]. Qed.

Lemma layout_wf_step w w' : layout_eq w w' -> wf_step w w'.
Proof. intros Hl Hw. unfold wf_step. rewrite <- Hl. exact Hw. Qed.

Lemma core_wf_step w w' : core_eq w w' -> wf_step w w'.
Proof. intros. by apply layout_wf_step, core_layout. Qed.

Lemma table_wf_empty w : w.(heap) = ∅ -> w.(user_buff_map) = ∅ -> table_wf w.
Proof.
  intros Hh Hm. split; [intros q u; by rewrite Hh, lookup_empty|].
  intros c. unfold context_wf, table_of. rewrite Hm, lookup_empty. cbn.
  split; [apply table_shape_empty|split].
  - intros b q Hb. assert (Hq : q ∈ hash_entries empty_table) by (apply elem_of_hash_entries; eauto).
    rewrite hash_entries_empty in Hq. by apply elem_of_nil in Hq.
  - intros q1 ? ? ? Hq1. rewrite hash_entries_empty in Hq1. by apply elem_of_nil in Hq1.
Qed.
End Invariant.

(** ** Preservation *)

Section Preservation.
Context `{!HashFn}.
Variable pd : bus_drvdata.

Lemma for_each_page_core e f :
  (forall x, st_preserves core_eq (f x)) -> st_preserves core_eq (for_each_page e f).
Proof. intros Hf. unfold for_each_page. preserves_tac. Qed.

Lemma put_page_core x : st_preserves core_eq (put_page x).
Proof. core_tac put_page. Qed.

Lemma SetPageDirty_core x : st_preserves core_eq (SetPageDirty x).
Proof. core_tac SetPageDirty. Qed.

Lemma del_region_wf c q : st_preserves wf_step (del_region c q).
Proof.
  apply (st_preserves_modify wf_step). intros w (Hbelow & Hctx). split; [exact Hbelow|]. intros c'.
  destruct (decide (c' = c)) as [->|Hne].
  2:{ unfold context_wf. rewrite table_of_set_table_ne by congruence. exact (Hctx c'). }
  unfold context_wf. rewrite table_of_set_table_eq. destruct (Hctx c) as (Hs & Hin & Hd).
  split; [by apply table_shape_del|split].
  - intros b q' [_ Hb']%in_bucket_del. exact (Hin b q' Hb').
  - intros q1 q2 u1 u2 [_ H1]%elem_of_hash_entries_del [_ H2]%elem_of_hash_entries_del. eauto.
Qed.

(** One step of a chain whose command keeps the heap, tables and cursor. *)
Ltac core_step L :=
  apply (st_preserves_bind wf_step);
    [apply (st_preserves_mono core_eq); [apply core_wf_step|L]|intros _].

Lemma release_region_wf dirtied c hpid q e : st_preserves wf_step (release_region pd dirtied c hpid q e).
Proof.
  unfold release_region.
  core_step ltac:(apply tlb_unmap_gup_core).
  core_step ltac:(destruct (en_mem pd); [core_tac card_free|apply (st_preserves_ret core_eq)]).
  core_step ltac:(destruct dirtied; [apply for_each_page_core, SetPageDirty_core
                                    |apply (st_preserves_ret core_eq)]).
  core_step ltac:(apply for_each_page_core, put_page_core).
  apply del_region_wf.
Qed.

Lemma user_migrate_layout to_host vaddr cpid : st_preserves layout_eq (user_migrate pd to_host vaddr cpid).
Proof.
  unfold user_migrate. apply (st_preserves_bind layout_eq); [apply (st_preserves_get layout_eq)|intros w].
  apply (hlist_walk_preserves layout_eq). intros ret q _. unfold user_migrate_body.
  apply (st_preserves_bind layout_eq); [unfold deref; preserves_tac|intros e].
  case_decide; [|apply (st_preserves_ret layout_eq)].
  apply (st_preserves_bind layout_eq); [apply migrate_and_remap_layout|intros _; apply (st_preserves_ret layout_eq)].
Qed.

(** [offload_user_gup] changes no table and no region's range: only
    residencies, memories and the device. *)
Lemma offload_user_gup_layout vaddr cpid w r w' :
  offload_user_gup pd vaddr cpid w = Ret r w' -> layout_eq w w' /\ (table_wf w -> table_wf w').
Proof.
  intros Hr. pose proof (user_migrate_layout false vaddr cpid w r w' Hr) as Hl.
  split; [exact Hl|]. intros Hw. by rewrite <- Hl.
Qed.

(** so does [sync_user_gup]. *)
Lemma sync_user_gup_layout vaddr cpid w r w' :
  sync_user_gup pd vaddr cpid w = Ret r w' -> layout_eq w w' /\ (table_wf w -> table_wf w').
Proof.
  intros Hr. pose proof (user_migrate_layout true vaddr cpid w r w' Hr) as Hl.
  split; [exact Hl|]. intros Hw. by rewrite <- Hl.
Qed.

(** [tlb_put_user_pages] keeps the Region Table invariant. *)
Lemma tlb_put_user_pages_wf vaddr cpid hpid dirtied w r w' :
  tlb_put_user_pages pd vaddr cpid hpid dirtied w = Ret r w' -> table_wf w -> table_wf w'.
Proof.
  revert w r w'. unfold tlb_put_user_pages.
  apply (st_preserves_bind wf_step); [apply (st_preserves_get wf_step)|intros w].
  apply (st_preserves_bind wf_step); [|intros _; apply (st_preserves_ret wf_step)].
  apply (hlist_walk_preserves wf_step). intros [] q _. unfold put_body.
  apply (st_preserves_bind wf_step); [unfold deref; preserves_tac|intros e].
  case_decide; [|apply (st_preserves_ret wf_step)].
  apply (st_preserves_bind wf_step); [apply release_region_wf|intros _; apply (st_preserves_ret wf_step)].
Qed.

(** [tlb_put_user_pages_cpid] keeps the Region Table invariant. *)
Lemma tlb_put_user_pages_cpid_wf cpid hpid dirtied w r w' :
  tlb_put_user_pages_cpid pd cpid hpid dirtied w = Ret r w' -> table_wf w -> table_wf w'.
Proof.
  revert w r w'. unfold tlb_put_user_pages_cpid.
  apply (st_preserves_bind wf_step); [|intros _; apply (st_preserves_ret wf_step)].
  apply (st_preserves_iter wf_step). intros bkt _.
  apply (st_preserves_bind wf_step); [apply (st_preserves_get wf_step)|intros w].
  apply (hlist_walk_preserves wf_step). intros [] q _. unfold put_all_body.
  apply (st_preserves_bind wf_step); [unfold deref; preserves_tac|intros e].
  apply (st_preserves_bind wf_step); [apply release_region_wf|intros _; apply (st_preserves_ret wf_step)].
Qed.
End Preservation.

(** ** Successful runs of the pinner *)

Section PinnerRet.
Context `{!HashFn}.

Lemma card_alloc_core n huge : st_preserves core_eq (card_alloc n huge).
Proof.
  intros s a s' Hr. unfold card_alloc, mbind, st_bind, st_get, st_put in Hr. cbn in Hr.
  case_decide; injection Hr as _ <-; reflexivity.
Qed.

Lemma get_user_pages_remote_core mm v n : st_preserves core_eq (get_user_pages_remote mm v n).
Proof. core_tac get_user_pages_remote. Qed.

Lemma put_pages_core l : st_preserves core_eq (st_iter put_page l).
Proof. apply (st_preserves_iter core_eq). intros x _. apply put_page_core. Qed.

(** Read the frame of a successful run off its [st_preserves] lemma. *)
Ltac core_of H L :=
  let Hh := fresh "Hh" in let Hm := fresh "Hm" in let Hn := fresh "Hn" in
  apply L in H; unfold core_eq, core in H; injection H as Hh Hm Hn.

(** A run of [tlb_get_user_pages] that returns either leaves the heap
    and the tables as they were, or adds exactly one region, at the
    cursor, with the extent's range, linked under its start page into
    the table of its context; the extent then neither is empty nor
    wraps. *)
Lemma tlb_get_user_pages_Ret pd pfa mm w r w1 :
  w.(heap) !! w.(next_ptr) = None ->
  tlb_get_user_pages pd pfa mm w = Ret r w1 ->
  (w.(next_ptr) <= w1.(next_ptr))%positive /\
  match r with
  | None => w1.(heap) = w.(heap) /\ w1.(user_buff_map) = w.(user_buff_map)
  | Some p =>
      p = w.(next_ptr) /\ w1.(next_ptr) = Pos.succ p /\ pfa.(DA.n_pages) ≠ 0 /\
      ~ (pfa.(DA.vaddr) +ᵤ pfa.(DA.n_pages) < pfa.(DA.vaddr)) /\
      (exists u, w1.(heap) = <[p := u]> w.(heap) /\
         region_view u = (pfa.(DA.vaddr), pfa.(DA.n_pages), pfa.(DA.cpid), pfa.(DA.hugepages))) /\
      table_of w1 pfa.(DA.cpid) = hash_add (table_of w pfa.(DA.cpid)) p pfa.(DA.vaddr) /\
      (forall c, c ≠ pfa.(DA.cpid) -> table_of w1 c = table_of w c)
  end.
Proof.
  intros Hfresh. unfold tlb_get_user_pages. intros Hr. ret_inv Hr;
    try (split; [reflexivity|split; reflexivity]).
  all: rewrite kzalloc_run in Hc; injection Hc as <- <-;
    core_of Hc0 get_user_pages_remote_core.
  - core_of Hc1 put_pages_core. rewrite kfree_run in Hc2. injection Hc2 as _ <-.
    cbn in *. split; [rewrite <- Hn0, <- Hn; lia|].
    split; [|congruence]. rewrite <- Hh0, <- Hh. cbn. by rewrite delete_insert_eq, delete_id.
  - apply flush_pages_Ret in Hc1. subst. rewrite store_run in Hc2. injection Hc2 as _ <-.
    assert (Hca : core_eq (set_heap x2 (<[w.(next_ptr) := _]> x2.(heap))) x7)
      by (destruct (en_mem pd); [exact (card_alloc_core _ _ _ _ _ Hc3)|by injection Hc3 as _ <-]).
    unfold core_eq, core in Hca; injection Hca as Hh1 Hm1 Hn1. rewrite store_run in Hc4. injection Hc4 as _ <-.
    unfold add_region, st_modify in Hc5. injection Hc5 as _ <-. cbn in *.
    split; [rewrite <- Hn1, <- Hn; lia|].
    split; [reflexivity|split; [rewrite <- Hn1, <- Hn; reflexivity|split; [assumption|split; [assumption|]]]].
    split; [|split].
    + eexists; split; [cbn; rewrite <- Hh1, <- Hh; cbn; rewrite !insert_insert_eq; reflexivity|].
      reflexivity.
    + rewrite table_of_set_table_eq. unfold table_of. cbn. by rewrite <- Hm1, <- Hm.
    + intros c Hc. rewrite table_of_set_table_ne by congruence. unfold table_of. cbn. by rewrite <- Hm1, <- Hm.
  - apply flush_pages_Ret in Hc1. subst. rewrite store_run in Hc2. injection Hc2 as _ <-.
    assert (Hca : core_eq (set_heap x2 (<[w.(next_ptr) := _]> x2.(heap))) x7)
      by (destruct (en_mem pd); [exact (card_alloc_core _ _ _ _ _ Hc3)|by injection Hc3 as _ <-]).
    unfold core_eq, core in Hca; injection Hca as Hh1 Hm1 Hn1. apply deref_Ret in Hc4 as [<- _].
    core_of Hc5 put_pages_core. rewrite kfree_run in Hc6. injection Hc6 as _ <-. cbn in *.
    split; [rewrite <- Hn0, <- Hn1, <- Hn; lia|].
    split; [|congruence]. rewrite <- Hh0, <- Hh1, <- Hh. cbn.
    by rewrite insert_insert_eq, delete_insert_eq, delete_id.
Qed.
End PinnerRet.

(** ** Inserting a fresh region *)

Section Insert.
Context `{!HashFn}.

Lemma table_wf_fresh w q : table_wf w -> w.(heap) !! q = None -> (q = w.(next_ptr)) ->
  forall c, q ∉ hash_entries (table_of w c).
Proof.
  intros (Hbelow & Hctx) _ -> c Hq. apply elem_of_hash_entries in Hq as [b Hb].
  destruct (Hctx c) as (_ & Hin & _). destruct (Hin b _ Hb) as (u & Hu & _).
  pose proof (Hbelow _ _ Hu). lia.
Qed.

Lemma table_wf_entry w c q : table_wf w -> q ∈ hash_entries (table_of w c) ->
  exists u, w.(heap) !! q = Some u /\ region_ok u /\ u.(UP.cpid) = c /\ (q < w.(next_ptr))%positive.
Proof.
  intros (Hbelow & Hctx) Hq. apply elem_of_hash_entries in Hq as [b Hb].
  destruct (Hctx c) as (_ & Hin & _). destruct (Hin b _ Hb) as (u & Hu & Hok & Hc & _).
  exists u. eauto.
Qed.

(** Linking a fresh, well-formed region that overlaps no region of its
    context into that context's table keeps the invariant. *)
Lemma table_wf_add w w1 u :
  table_wf w -> w1.(heap) = <[w.(next_ptr) := u]> w.(heap) ->
  w1.(next_ptr) = Pos.succ w.(next_ptr) ->
  table_of w1 u.(UP.cpid) = hash_add (table_of w u.(UP.cpid)) w.(next_ptr) u.(UP.vaddr) ->
  (forall c, c ≠ u.(UP.cpid) -> table_of w1 c = table_of w c) ->
  region_ok u ->
  (forall q e, q ∈ hash_entries (table_of w u.(UP.cpid)) -> w.(heap) !! q = Some e ->
     pages_disjoint u.(UP.vaddr) u.(UP.n_pages) e.(UP.vaddr) e.(UP.n_pages)) ->
  table_wf w1.
Proof.
  intros Hwf Hh Hn Htab Hoth Hok Hdisj. pose proof Hwf as (Hbelow & Hctx).
  assert (Hold : forall c q, q ∈ hash_entries (table_of w c) -> w1.(heap) !! q = w.(heap) !! q).
  { intros c q Hq. destruct (table_wf_entry w c q Hwf Hq) as (? & _ & _ & _ & Hlt).
    rewrite Hh, lookup_insert_ne by lia. reflexivity. }
  split.
  - intros q e. rewrite Hh, Hn. destruct (decide (q = w.(next_ptr))) as [->|Hne]; [lia|].
    rewrite lookup_insert_ne by congruence. intros Hq. pose proof (Hbelow _ _ Hq). lia.
  - intros c. destruct (decide (c = u.(UP.cpid))) as [->|Hne].
    2:{ unfold context_wf. rewrite (Hoth c Hne). destruct (Hctx c) as (Hs & Hin & Hd).
        split; [exact Hs|split].
        - intros b q Hb. rewrite (Hold c q) by (apply elem_of_hash_entries; eauto). by apply Hin.
        - intros q1 q2 u1 u2 H1 H2 Hne12. rewrite (Hold c q1 H1), (Hold c q2 H2). by apply Hd. }
    unfold context_wf. rewrite Htab. destruct (Hctx u.(UP.cpid)) as (Hs & Hin & Hd).
    pose proof (table_wf_fresh w w.(next_ptr) Hwf ltac:(destruct (w.(heap) !! _) eqn:E;
      [pose proof (Hbelow _ _ E); lia|reflexivity]) eq_refl u.(UP.cpid)) as Hfresh.
    split; [by apply table_shape_add|split].
    + intros b q [(-> & -> & _)|Hb]%in_bucket_add.
      * exists u. rewrite Hh, lookup_insert_eq. done.
      * rewrite (Hold _ q) by (apply elem_of_hash_entries; eauto). by apply Hin.
    + destruct Hs as [Hlen _].
      intros q1 q2 u1 u2 [->|H1]%elem_of_hash_entries_add [->|H2]%elem_of_hash_entries_add Hne12;
        try exact Hlen; try congruence.
      * intros Hq1 Hq2. rewrite (Hold _ q2 H2) in Hq2. rewrite Hh, lookup_insert_eq in Hq1.
        injection Hq1 as <-. by apply (Hdisj q2).
      * intros Hq1 Hq2. rewrite (Hold _ q1 H1) in Hq1. rewrite Hh, lookup_insert_eq in Hq2.
        injection Hq2 as <-. pose proof (Hdisj q1 u1 H1 Hq1). unfold pages_disjoint in *. lia.
      * rewrite (Hold _ q1 H1), (Hold _ q2 H2). by apply Hd.
Qed.
End Insert.

(** ** The fault handler *)

Section HandlerWf.
Context `{!HashFn}.
Variable pd : bus_drvdata.

Lemma wf_of_core {A} (c : ST world A) : st_preserves core_eq c -> st_preserves wf_step c.
Proof. apply st_preserves_mono, core_wf_step. Qed.

Lemma wf_of_layout {A} (c : ST world A) : st_preserves layout_eq c -> st_preserves wf_step c.
Proof. apply st_preserves_mono, layout_wf_step. Qed.

#[local] Hint Extern 1 (st_preserves wf_step (tlb_map_gup _ _ _ _)) =>
  apply wf_of_core, tlb_map_gup_core : gup.
#[local] Hint Extern 1 (st_preserves wf_step (migrate_to_card_gup _)) =>
  apply wf_of_core, migrate_to_card_core : gup.
#[local] Hint Extern 1 (st_preserves wf_step (migrate_and_remap _ _ _ _ _)) =>
  apply wf_of_layout, migrate_and_remap_layout : gup.
#[local] Hint Extern 1 (st_preserves wf_step (set_host_field _ _)) =>
  apply wf_of_layout, set_host_field_layout : gup.

(** A world that differs only by a larger cursor keeps the invariant. *)
Lemma table_wf_cursor w w1 :
  table_wf w -> w1.(heap) = w.(heap) -> w1.(user_buff_map) = w.(user_buff_map) ->
  (w.(next_ptr) <= w1.(next_ptr))%positive -> table_wf w1.
Proof.
  intros (Hbelow & Hctx) Hh Hm Hn. split.
  - intros q u Hq. rewrite Hh in Hq. pose proof (Hbelow q u Hq). lia.
  - intros c. unfold context_wf, table_of. rewrite Hm, Hh. exact (Hctx c).
Qed.

(** for a fault whose byte range is well formed, on a device whose
    page orders are configured as the driver sets them up, every run of
    [mmu_handler_gup] that returns keeps the Region Table invariant: in
    particular the regions of one context never overlap. *)
Theorem mmu_handler_gup_wf vaddr len cpid stream hpid w r w' :
  orders_wf pd -> fault_ok vaddr len -> table_wf w ->
  mmu_handler_gup pd vaddr len cpid stream hpid w = Ret r w' -> table_wf w'.
Proof.
  intros Hord Hf Hwf Hr. unfold mmu_handler_gup in Hr.
  apply st_bind_Ret_inv in Hr as (mm & w1 & Hpid & Hr). apply pid_task_Ret in Hpid as [-> _].
  apply st_bind_Ret_inv in Hr as (vma & w2 & Hv & Hr). apply st_of_option_Ret in Hv as [_ ->].
  apply st_bind_Ret_inv in Hr as ([res pfa] & w3 & Hmp & Hr).
  apply map_present_Ret in Hmp as [-> Hscan]. cbn beta iota in Hr.
  destruct (align_fault_spec pd vma.(vm_hugetlb) vaddr len cpid Hord Hf) as (Hext & _).
  set (pfa0 := align_fault pd _ vaddr len cpid) in *.
  assert (Hall : all_regions_ok w.(heap) (hash_entries (table_of w pfa0.(DA.cpid)))).
  { intros q Hq. destruct (table_wf_entry w _ q Hwf Hq) as (u & Hu & Hok & _). eauto. }
  destruct res as [p|].
  - refine (st_preserves_apply wf_step _ w r w' _ Hr Hwf).
    apply (st_preserves_bind wf_step); [unfold deref; preserves_tac|]. intros up. preserves_tac.
  - apply st_bind_Ret_inv in Hr as (res & w4 & Hpin & Hr).
    destruct (map_present_scan_miss _ _ _ _ Hext Hall Hscan) as (Hpfa & _).
    pose proof (map_present_scan_miss_disjoint _ _ _ _ Hext Hall Hscan) as Hdisj.
    assert (Hext' : extent_ok pfa) by (rewrite Hpfa; apply extent_ok_clip, Hext).
    assert (Hfresh : w.(heap) !! w.(next_ptr) = None).
    { destruct (w.(heap) !! _) eqn:E; [|reflexivity]. pose proof (proj1 Hwf _ _ E). lia. }
    destruct (tlb_get_user_pages_Ret pd pfa mm w res w4 Hfresh Hpin) as (Hle & Hres).
    destruct res as [p|].
    + destruct Hres as (-> & Hn & _ & _ & (u & Hh & Hview) & Htab & Hoth).
      unfold region_view in Hview. injection Hview as Hu1 Hu2 Hu3 Hu4.
      assert (Hwf4 : table_wf w4).
      { assert (Hcp : pfa.(DA.cpid) = pfa0.(DA.cpid)) by (rewrite Hpfa; reflexivity).
        apply (table_wf_add w w4 u Hwf Hh Hn); rewrite ?Hu3, ?Hu1, ?Hu2.
        - exact Htab.
        - exact Hoth.
        - unfold region_ok. rewrite ?Hu1, ?Hu2. exact Hext'.
        - intros q e Hq He. rewrite Hcp in Hq. exact (Hdisj q e Hq He). }
      refine (st_preserves_apply wf_step _ w4 r w' _ Hr Hwf4). preserves_tac.
    + destruct Hres as [Hh Hm]. ret_inv Hr. exact (table_wf_cursor w w4 Hwf Hh Hm Hle).
Qed.
End HandlerWf.

(** ** Reachable states

    The driver's entry points as calls of a state machine, from a world
    with no region; the invariant holds in every state reachable by calls
    that return. *)

Inductive driver_call :=
| CallFault (vaddr len cpid : Z) (stream : bool) (hpid : Z)
| CallOffload (vaddr cpid : Z)
| CallSync (vaddr cpid : Z)
| CallPut (vaddr cpid hpid : Z) (dirtied : bool)
| CallPutAll (cpid hpid : Z) (dirtied : bool).

Section Reachable.
Context `{!HashFn}.
Variable pd : bus_drvdata.

Definition run_call (c : driver_call) : ST world Z :=
  match c with
  | CallFault vaddr len cpid stream hpid => mmu_handler_gup pd vaddr len cpid stream hpid
  | CallOffload vaddr cpid => offload_user_gup pd vaddr cpid
  | CallSync vaddr cpid => sync_user_gup pd vaddr cpid
  | CallPut vaddr cpid hpid dirtied => tlb_put_user_pages pd vaddr cpid hpid dirtied
  | CallPutAll cpid hpid dirtied => tlb_put_user_pages_cpid pd cpid hpid dirtied
  end.

(** Faults come from the device with a well-formed byte range. *)
Definition call_ok (c : driver_call) : Prop :=
  match c with CallFault vaddr len _ _ _ => fault_ok vaddr len | _ => True end.

Inductive reachable : world -> Prop :=
| reach_init w : w.(heap) = ∅ -> w.(user_buff_map) = ∅ -> reachable w
| reach_call w c r w' : reachable w -> call_ok c -> run_call c w = Ret r w' -> reachable w'.

Lemma run_call_wf c w r w' :
  orders_wf pd -> call_ok c -> table_wf w -> run_call c w = Ret r w' -> table_wf w'.
Proof.
  intros Hord Hok Hwf. destruct c; cbn in *; intros Hr.
  - exact (mmu_handler_gup_wf pd _ _ _ _ _ _ _ _ Hord Hok Hwf Hr).
  - exact (layout_table_wf _ _ (user_migrate_layout pd false _ _ _ _ _ Hr) Hwf).
  - exact (layout_table_wf _ _ (user_migrate_layout pd true _ _ _ _ _ Hr) Hwf).
  - exact (tlb_put_user_pages_wf pd _ _ _ _ _ _ _ Hr Hwf).
  - exact (tlb_put_user_pages_cpid_wf pd _ _ _ _ _ _ Hr Hwf).
Qed.

(** C1: in every reachable state the Region Table invariant holds; in
    particular no two regions of one context overlap. *)
Theorem reachable_table_wf w : orders_wf pd -> reachable w -> table_wf w.
Proof.
  intros Hord Hr. induction Hr as [w Hh Hm|w c r w' _ IH Hok Hrun].
  - exact (table_wf_empty w Hh Hm).
  - exact (run_call_wf c w r w' Hord Hok IH Hrun).
Qed.
End Reachable.
