(* ===== verification/Release.v ===== *)
(** * Release: [tlb_put_user_pages] and [tlb_put_user_pages_cpid]

    What each release path really removes from the Region Table.
    [tlb_put_user_pages] walks only the bucket of the page it is given and
    releases the first region there whose closed range
    [[vaddr, vaddr + n_pages]] contains the page ([<=], where the lookup
    uses [<]), then stops: [put_target] is that region.
    [tlb_put_user_pages_cpid] visits every bucket, but [hash_del] inside
    [hash_for_each] ends the walk of the bucket, so only the first region
    of each bucket is released.

    Theorems: the table after every successful run of each path, and the
    region each releases; the concrete consequences (a neighbour released
    in place of the region asked for, regions left behind by a release of
    the whole context) are in [Scenarios]. *)

From S2P Require Import Prelude Machine Platform HashTable Lookup Pinner TlbProg Migration Handler Invariant.

Section Release.
Context `{!HashFn}.
Variable pd : bus_drvdata.

(** The condition of line 519 on a node. *)
Definition put_match (h : gmap positive user_pages) (vt : Z) (q : positive) : bool :=
  match h !! q with
  | Some e => bool_decide (e.(UP.vaddr) <= vt /\ vt <= e.(UP.vaddr) +ᵤ e.(UP.n_pages))
  | None => false
  end.

(** The region [tlb_put_user_pages] releases for page [vt]. *)
Definition put_target (w : world) (cpid vt : Z) : option positive :=
  List.find (put_match w.(heap) vt) (hash_bucket (table_of w cpid) vt).

Lemma card_free_opt_core e :
  st_preserves core_eq (if pd.(en_mem) then card_free e.(UP.cpages) e.(UP.n_pages) e.(UP.huge)
                        else mret ()).
Proof. destruct (en_mem pd); [core_tac card_free|apply (st_preserves_ret core_eq)]. Qed.

Lemma dirty_opt_core (dirtied : bool) e :
  st_preserves core_eq (if dirtied then for_each_page e SetPageDirty else mret ()).
Proof.
  destruct dirtied; [apply for_each_page_core, SetPageDirty_core|apply (st_preserves_ret core_eq)].
Qed.

(** A release that returns unlinks its region from the table of its
    context and changes nothing else of the heap, tables or cursor. *)
Lemma release_region_Ret dirtied c hpid q e w w' :
  release_region pd dirtied c hpid q e w = Ret () w' ->
  w'.(heap) = w.(heap) /\ w'.(next_ptr) = w.(next_ptr) /\
  w'.(user_buff_map) = (set_table w c (hash_del (table_of w c) q)).(user_buff_map).
Proof.
  unfold release_region. intros Hr.
  apply st_bind_Ret_inv in Hr as (? & w1 & H1 & Hr). apply tlb_unmap_gup_core in H1.
  apply st_bind_Ret_inv in Hr as (? & w2 & H2 & Hr). apply card_free_opt_core in H2.
  apply st_bind_Ret_inv in Hr as (? & w3 & H3 & Hr). apply dirty_opt_core in H3.
  apply st_bind_Ret_inv in Hr as (? & w4 & H4 & Hr). apply (for_each_page_core e put_page put_page_core) in H4.
  unfold del_region, st_modify in Hr. injection Hr as <-.
  unfold core_eq in *. assert (Hc : core w = core w4) by congruence.
  unfold core in Hc. injection Hc as Hh Hm Hn.
  unfold set_table, table_of. cbn. rewrite <- Hh, <- Hm, <- Hn. done.
Qed.

(** The walk of [tlb_put_user_pages] over a bucket. *)
Lemma put_walk_Ret dirtied cpid hpid vt l w a w' :
  hlist_walk (put_body pd dirtied cpid hpid vt) l () w = Ret a w' ->
  w'.(heap) = w.(heap) /\
  w'.(user_buff_map) = match List.find (put_match w.(heap) vt) l with
                       | Some q => (set_table w cpid (hash_del (table_of w cpid) q)).(user_buff_map)
                       | None => w.(user_buff_map)
                       end.
Proof.
  revert w. induction l as [|q l IH]; intros w Hr; cbn [hlist_walk List.find] in *.
  - injection Hr as _ <-. done.
  - apply st_bind_Ret_inv in Hr as ([deleted ?] & w1 & Hb & Hr).
    unfold put_body in Hb. apply st_bind_Ret_inv in Hb as (e & w0 & Hd & Hb).
    apply deref_Ret in Hd as [-> He]. unfold put_match at 1. rewrite He.
    case_decide as Hin.
    + apply st_bind_Ret_inv in Hb as ([] & w2 & Hrel & Hb). injection Hb as <- <-.
      cbn in Hr. injection Hr as _ <-. rewrite bool_decide_true by exact Hin.
      destruct (release_region_Ret _ _ _ _ _ _ _ Hrel) as (Hh & _ & Hm). cbn iota. subst. split; congruence.
    + injection Hb; intros; subst. rewrite bool_decide_false by exact Hin. cbn in Hr. exact (IH _ Hr).
Qed.

(** C6: every run of [tlb_put_user_pages] that returns returns [0] and
    unlinks exactly [put_target] (the first region of the page's bucket
    whose closed range contains the page) from the table of its
    context, or nothing when there is none; no other table changes. *)
Theorem tlb_put_user_pages_releases vaddr cpid hpid dirtied w r w' :
  tlb_put_user_pages pd vaddr cpid hpid dirtied w = Ret r w' ->
  let vt := page_number pd.(stlb_order) vaddr in
  r = 0 /\ w'.(heap) = w.(heap) /\
  (forall c, c ≠ cpid -> table_of w' c = table_of w c) /\
  table_of w' cpid = match put_target w cpid vt with
                     | Some q => hash_del (table_of w cpid) q
                     | None => table_of w cpid
                     end.
Proof.
  unfold tlb_put_user_pages. intros Hr. cbv zeta.
  apply st_bind_Ret_inv in Hr as (w0 & w1 & Hg & Hr). injection Hg as <- <-.
  apply st_bind_Ret_inv in Hr as (? & w2 & Hw & Hr). injection Hr as <- <-.
  destruct (put_walk_Ret _ _ _ _ _ _ _ _ Hw) as (Hh & Hm). unfold put_target.
  split; [reflexivity|split; [exact Hh|split]].
  - intros c Hc. unfold table_of. rewrite Hm.
    destruct (List.find _ _); cbn; [by rewrite lookup_insert_ne|reflexivity].
  - unfold table_of at 1. rewrite Hm.
    destruct (List.find _ _); cbn; [by rewrite lookup_insert_eq|reflexivity].
Qed.

(** ** Releasing a whole context *)

(** Releasing the first node of bucket [b], the effect of one outer
    iteration of [hash_for_each] in [tlb_put_user_pages_cpid]. *)
Definition drop_head (t : hashtable) (b : nat) : hashtable :=
  match t !! b with Some (q :: _) => hash_del t q | _ => t end.

(** [q] is the first node of some bucket. *)
Definition bucket_head (t : hashtable) (q : positive) : Prop :=
  exists b l, t !! b = Some (q :: l).

Lemma drop_head_other t b b' :
  table_shape t -> b ≠ b' -> drop_head t b !! b' = t !! b'.
Proof.
  intros [_ Hnd] Hne. unfold drop_head. destruct (t !! b) as [[|q l]|] eqn:Hb; try done.
  unfold hash_del. rewrite list_lookup_fmap. destruct (t !! b') as [l'|] eqn:Hb'; [|done].
  cbn. f_equal. apply filter_all. intros x Hx ->.
  apply Hne, (in_bucket_unique t b b' q Hnd); [exists (q :: l); split; [done|left]|by exists l'].
Qed.

Lemma drop_head_shape t b : table_shape t -> table_shape (drop_head t b).
Proof. intros Hs. unfold drop_head. destruct (t !! b) as [[|q l]|]; try done. by apply table_shape_del. Qed.

Lemma drop_head_entries t b q :
  q ∈ hash_entries (drop_head t b) <-> q ∈ hash_entries t /\ ~ (exists l, t !! b = Some (q :: l)).
Proof.
  unfold drop_head. destruct (t !! b) as [[|q0 l]|] eqn:Hb.
  - split; [intros Hq; split; [done|intros [? [=]]]|tauto].
  - rewrite elem_of_hash_entries_del. split.
    + intros [Hne Hq]. split; [done|]. intros [l' [= -> _]]. done.
    + intros [Hq Hnh]. split; [|done]. intros ->. apply Hnh. eauto.
  - split; [intros Hq; split; [done|intros [? [=]]]|tauto].
Qed.

(** Releasing the first node of each of the buckets [bs], in order,
    removes exactly the nodes that were first in one of them. *)
Lemma drop_heads_spec t bs :
  table_shape t -> NoDup bs ->
  table_shape (foldl drop_head t bs) /\
  (forall b, b ∉ bs -> foldl drop_head t bs !! b = t !! b) /\
  (forall q, q ∈ hash_entries (foldl drop_head t bs) <->
             q ∈ hash_entries t /\ ~ exists b l, b ∈ bs /\ t !! b = Some (q :: l)).
Proof.
  revert t. induction bs as [|b bs IH]; intros t Hs Hnd; cbn [foldl].
  - split; [done|split; [done|]]. intros q. split; [intros Hq; split; [done|]|tauto].
    intros (b & l & Hb & _). by apply elem_of_nil in Hb.
  - apply NoDup_cons in Hnd as [Hb Hnd].
    destruct (IH (drop_head t b) (drop_head_shape t b Hs) Hnd) as (Hs' & Hother & Hent).
    split; [exact Hs'|split].
    + intros b' Hb'. rewrite Hother by (intros ?; apply Hb'; by right).
      apply drop_head_other; [exact Hs|]. intros ->. apply Hb'. by left.
    + intros q. rewrite Hent, drop_head_entries. split.
      * intros [[Hq Hh] Hnh]. split; [exact Hq|]. intros (b' & l & [->|Hin]%elem_of_cons & Hb').
        -- apply Hh. eauto.
        -- apply Hnh. exists b', l. split; [exact Hin|].
           rewrite drop_head_other; [exact Hb'|exact Hs|]. intros ->. by apply Hb.
      * intros [Hq Hnh]. split; [split; [exact Hq|]|].
        -- intros [l Hl]. apply Hnh. exists b, l. split; [left|exact Hl].
        -- intros (b' & l & Hin & Hb'). apply Hnh. exists b', l. split; [by right|].
           rewrite drop_head_other in Hb'; [exact Hb'|exact Hs|]. intros ->. by apply Hb.
Qed.

Lemma put_all_walk_Ret dirtied cpid hpid l w a w' :
  hlist_walk (put_all_body pd dirtied cpid hpid) l () w = Ret a w' ->
  w'.(heap) = w.(heap) /\
  table_of w' cpid = (match l with [] => table_of w cpid | q :: _ => hash_del (table_of w cpid) q end) /\
  (forall c, c ≠ cpid -> table_of w' c = table_of w c).
Proof.
  destruct l as [|q l]; cbn [hlist_walk]; intros Hr.
  - injection Hr as _ <-. done.
  - apply st_bind_Ret_inv in Hr as ([deleted ?] & w1 & Hb & Hr).
    unfold put_all_body in Hb. apply st_bind_Ret_inv in Hb as (e & w0 & Hd & Hb).
    apply deref_Ret in Hd as [-> _].
    apply st_bind_Ret_inv in Hb as ([] & w2 & Hrel & Hb). injection Hb; intros; subst.
    cbn in Hr. injection Hr as _ <-.
    destruct (release_region_Ret _ _ _ _ _ _ _ Hrel) as (Hh & _ & Hm).
    split; [exact Hh|split].
    + unfold table_of at 1. rewrite Hm. cbn. by rewrite lookup_insert_eq.
    + intros c Hc. unfold table_of at 1. rewrite Hm. cbn. by rewrite lookup_insert_ne.
Qed.

Lemma put_all_iter_Ret dirtied cpid hpid bs w w' :
  st_iter (fun bkt => w ← st_get;
                      hlist_walk (put_all_body pd dirtied cpid hpid)
                        (default [] (table_of w cpid !! bkt)) ()) bs w = Ret () w' ->
  w'.(heap) = w.(heap) /\ table_of w' cpid = foldl drop_head (table_of w cpid) bs /\
  (forall c, c ≠ cpid -> table_of w' c = table_of w c).
Proof.
  revert w. induction bs as [|b bs IH]; intros w Hr; cbn [st_iter foldl] in *.
  - injection Hr as <-. done.
  - apply st_bind_Ret_inv in Hr as ([] & w1 & Hb & Hr).
    apply st_bind_Ret_inv in Hb as (w0 & w0' & Hg & Hb). injection Hg as <- <-.
    destruct (put_all_walk_Ret _ _ _ _ _ _ _ Hb) as (Hh1 & Ht1 & Ho1).
    destruct (IH w1 Hr) as (Hh2 & Ht2 & Ho2).
    split; [congruence|split].
    + rewrite Ht2, Ht1. f_equal. unfold drop_head.
      by destruct (table_of w cpid !! b) as [[|q l]|].
    + intros c Hc. rewrite Ho2, Ho1 by exact Hc. reflexivity.
Qed.

(** C7: every run of [tlb_put_user_pages_cpid] that returns returns [0]
    and removes from the context's table exactly the regions that were
    first in their bucket: every region that shared a bucket with an
    earlier one is still linked, pinned and mapped afterwards. *)
Theorem tlb_put_user_pages_cpid_releases cpid hpid dirtied w r w' :
  table_shape (table_of w cpid) ->
  tlb_put_user_pages_cpid pd cpid hpid dirtied w = Ret r w' ->
  r = 0 /\ w'.(heap) = w.(heap) /\ (forall c, c ≠ cpid -> table_of w' c = table_of w c) /\
  forall q, q ∈ hash_entries (table_of w' cpid) <->
            q ∈ hash_entries (table_of w cpid) /\ ~ bucket_head (table_of w cpid) q.
Proof.
  intros Hs Hr. unfold tlb_put_user_pages_cpid in Hr.
  apply st_bind_Ret_inv in Hr as ([] & w1 & Hit & Hr). injection Hr as <- <-.
  destruct (put_all_iter_Ret _ _ _ _ _ _ Hit) as (Hh & Ht & Ho).
  destruct (drop_heads_spec (table_of w cpid) (seq 0 HASH_SIZE) Hs (NoDup_seq 0 HASH_SIZE))
    as (_ & _ & Hent).
  split; [reflexivity|split; [exact Hh|split; [exact Ho|]]].
  intros q. rewrite Ht, Hent. unfold bucket_head. split.
  - intros [Hq Hnh]. split; [exact Hq|]. intros (b & l & Hb). apply Hnh. exists b, l.
    split; [|exact Hb]. apply elem_of_seq. split; [lia|].
    destruct Hs as [Hlen _]. rewrite <- Hlen. apply lookup_lt_Some in Hb. lia.
  - intros [Hq Hnh]. split; [exact Hq|]. intros (b & l & _ & Hb). apply Hnh. eauto.
Qed.
End Release.
