(* ===== verification/Scenarios.v ===== *)
(** * Scenarios: the driver run on concrete worlds

    A device configured as the driver configures it (4 KiB base pages,
    2 MiB huge pages, card memory enabled), one process whose page table
    maps a range of base pages, and the kernel's [hash_64] bucket function.
    On these worlds the model is executed by [vm_compute]: the scenarios of
    the specification, the behaviours the theorems describe, and the
    witnesses of the theorems' hypotheses. *)

From S2P Require Import Prelude Machine Platform HashTable Lookup Pinner TlbProg Migration Handler Invariant Release.

(** ** The concrete system *)

Definition PAGE_4K : Z := 2 ^ PAGE_SHIFT.

Definition pd0 : bus_drvdata :=
  mk_bus_drvdata (mk_tlb_order 12 (2 ^ 64 - 2 ^ 12)) (mk_tlb_order 21 (2 ^ 64 - 2 ^ 21)) 512 9 true.

(** A page table mapping base pages [[lo, lo + n)] to frames from 1000. *)
Definition pte_range (lo n : Z) : gmap Z Z :=
  list_to_map ((fun i => (i, 1000 + i)) <$> seqZ lo n).

(** One area of base pages below page 4096, one of huge pages above. *)
Definition mm0 : mm_struct :=
  mk_mm [mk_vm_area 0 (4096 * PAGE_4K) false; mk_vm_area (4096 * PAGE_4K) (2 ^ 40) true]
        (pte_range 0 400).

(** Host memory: a distinct word in every host frame of the small range. *)
Definition hmem0 : gmap Z Z :=
  list_to_map ((fun i => (page_to_phys (1000 + i), 3 * i + 1)) <$> seqZ 0 400).

Definition world_of (mm : mm_struct) : world :=
  mk_world ∅ 1 ∅ {[0 := 7]} (mk_host {[7 := mm]} ∅ ∅ hmem0) (mk_card ∅ (seqZ 100000 1000))
    (mk_dev ∅ false false false false false []).

Definition world0 : world := world_of mm0.

(** The world a run ends in, whether it returns or gets stuck, and the
    value it returns, if it does. *)
Definition final {A} (o : outcome world A) : world := match o with Ret _ w | Stuck _ w => w end.
Definition result {A} (o : outcome world A) : option A := match o with Ret a _ => Some a | Stuck _ _ => None end.
Definition stuck_on {A} (o : outcome world A) : option stuck_reason :=
  match o with Ret _ _ => None | Stuck why _ => Some why end.

Definition fault (vpage npages : Z) (stream : bool) : ST world Z :=
  mmu_handler_gup pd0 (vpage * PAGE_4K) (npages * PAGE_4K) 0 stream 7.

(** Regions at pages [[0, 10)] and [[20, 30)]. *)
Definition world_2r : world := final ((fault 0 10 true;; fault 20 10 true) world0).

(** A device without card memory. *)
Definition pd_nomem : bus_drvdata :=
  mk_bus_drvdata (mk_tlb_order 12 (2 ^ 64 - 2 ^ 12)) (mk_tlb_order 21 (2 ^ 64 - 2 ^ 21)) 512 9 false.

(** Region [[100, 104)], host resident. *)
Definition world_r : world := final (fault 100 4 true world0).

(** Region B at [[144, 150)] linked first, then its neighbour A at
    [[0, 144)]: both start pages hash to bucket 0, A ahead of B. *)
Definition world_nb : world :=
  final ((tlb_get_user_pages pd0 (DA.mk 144 6 0 false) mm0;;
          tlb_get_user_pages pd0 (DA.mk 0 144 0 false) mm0) world0).

(** The process of [world0] with only pages [[0, 3)] present. *)
Definition mm3 : mm_struct := mk_mm [mk_vm_area 0 (4096 * PAGE_4K) false] (pte_range 0 3).


(** ** The specification's scenarios *)

(** regions at [[0, 10)] and [[20, 30)]; the fault [[5, 25)] hits
    [[0, 10)] with its count clipped to end at page 10. *)
Example spec_clip_hit :
  map_present (align_fault pd0 false (5 * PAGE_4K) (20 * PAGE_4K) 0) world_2r =
  Ret (Some 1%positive, DA.mk 5 5 0 false) world_2r.
Proof. vm_decide. Qed.

Definition run_clip_miss : outcome world Z := fault 12 13 true world_2r.

(** the fault [[12, 25)] is clipped at the region starting at page 20,
    and the handler pins exactly [[12, 20)]. *)
Example spec_clip_miss :
  map_present (align_fault pd0 false (12 * PAGE_4K) (13 * PAGE_4K) 0) world_2r =
    Ret (None, DA.mk 12 8 0 false) world_2r /\
  result run_clip_miss = Some 0 /\
  region_view <$> (final run_clip_miss).(heap) !! 3%positive = Some (12, 8, 0, false).
Proof. split_conj; vm_decide. Qed.

Definition run_round_trip : outcome world (Z * Z) :=
  (r1 ← offload_user_gup pd0 (100 * PAGE_4K) 0; r2 ← sync_user_gup pd0 (100 * PAGE_4K) 0;
   mret (r1, r2)) world_r.

(** pin [[100, 104)], offload it to the card, sync it back: both calls
    return [0], the region ends host resident and every host memory word
    is as before the offload. *)
Example spec_round_trip :
  result run_round_trip = Some (0, 0) /\
  UP.host <$> (final run_round_trip).(heap) !! 1%positive = Some true /\
  (final run_round_trip).(host).(hmem) = world_r.(host).(hmem).
Proof. split_conj; vm_decide. Qed.

Definition run_partial : outcome world Z := fault 0 5 true (world_of mm3).

(** only 3 of the 5 requested pages present: the fault fails with
    [-ENOMEM], no region is linked and no page stays pinned. *)
Example spec_partial_pin :
  result run_partial = Some (- ENOMEM) /\ hash_entries (table_of (final run_partial) 0) = [] /\
  (final run_partial).(host).(page_pins) = ∅.
Proof. split_conj; vm_decide. Qed.


(** ** What the code does where the specification says otherwise *)

Definition run_put_b : outcome world Z := tlb_put_user_pages pd0 (144 * PAGE_4K) 0 7 false world_nb.

(** releasing region B at page 144 releases its neighbour A, which ends
    at page 144 and sits ahead of B in the same bucket ([<=] in place of
    [<] at line 519): A's pages are unpinned and B stays linked. *)
Example put_releases_neighbour :
  hash_entries (table_of world_nb 0) = [2%positive; 1%positive] /\
  region_view <$> world_nb.(heap) !! 1%positive = Some (144, 6, 0, false) /\
  region_view <$> world_nb.(heap) !! 2%positive = Some (0, 144, 0, false) /\
  result run_put_b = Some 0 /\ hash_entries (table_of (final run_put_b) 0) = [1%positive] /\
  pin_count (final run_put_b).(host).(page_pins) (1000 + 0) = 0%nat /\
  pin_count (final run_put_b).(host).(page_pins) (1000 + 144) = 1%nat.
Proof. split_conj; vm_decide. Qed.

Definition run_put_all : outcome world Z := tlb_put_user_pages_cpid pd0 0 7 false world_nb.

(** releasing the whole context leaves B linked and pinned: [hash_del]
    ends the walk of bucket 0 after A. *)
Example put_all_leaves_region :
  result run_put_all = Some 0 /\ hash_entries (table_of (final run_put_all) 0) = [1%positive] /\
  pin_count (final run_put_all).(host).(page_pins) (1000 + 144) = 1%nat.
Proof. split_conj; vm_decide. Qed.

Definition run_offload_inside : outcome world Z := offload_user_gup pd0 (101 * PAGE_4K) 0 world_r.

(** offloading by page 101 of region [[100, 104)] finds nothing:
    [hash_for_each_possible] probes the bucket of page 101, which is not
    the bucket of page 100 the region is linked under (a page inside a
    region whose number hashes like the first page's would find it).  The
    call returns [1] and the region stays on the host. *)
Example offload_inside_not_found :
  result run_offload_inside = Some 1 /\
  UP.host <$> (final run_offload_inside).(heap) !! 1%positive = Some true /\
  (final run_offload_inside).(dev).(dlog) = world_r.(dev).(dlog).
Proof. split_conj; vm_decide. Qed.

(** a zero-length fault is not rejected: at address 0, [vaddr + len - 1]
    wraps and the extent covers the whole address space; at page 100 the
    extent is empty, and since page 100 starts the region of [world_r]
    the handler calls [vmalloc(0)] and hits the [BUG_ON].  (On a page of
    no region the empty extent is refused by [tlb_get_user_pages].) *)
Example fault_zero_length :
  align_fault pd0 false 0 0 0 = DA.mk 0 (2 ^ 52) 0 false /\
  align_fault pd0 false (100 * PAGE_4K) 0 0 = DA.mk 100 0 0 false /\
  stuck_on (fault 100 0 true world_r) = Some KernelBug.
Proof. split_conj; vm_decide. Qed.

Definition run_big_fault : outcome world Z := fault 0 200 true world0.

(** a fault on 200 base pages pins and links the region, then
    [tlb_map_gup] writes past the 128-descriptor [map_array]. *)
Example fault_base_overflow :
  stuck_on run_big_fault = Some HeapOverflow /\
  hash_entries (table_of (final run_big_fault) 0) = [1%positive] /\
  region_view <$> (final run_big_fault).(heap) !! 1%positive = Some (0, 200, 0, false).
Proof. split_conj; vm_decide. Qed.

Definition run_card_short : outcome world Z :=
  fault 0 5 true (set_card world0 (mk_card ∅ [100000; 100001])).

(** when card memory runs out, the fault fails with [-ENOMEM] and no
    region, but the 5 pinned pages stay pinned ([fail_card_unmap] reads
    the [n_pages] of the partially filled object, still 0). *)
Example card_fail_leaks_pins :
  result run_card_short = Some (- ENOMEM) /\ hash_entries (table_of (final run_card_short) 0) = [] /\
  Forall (fun i => pin_count (final run_card_short).(host).(page_pins) (1000 + i) = 1%nat) (seqZ 0 5).
Proof. split_conj; vm_decide. Qed.

(** on a device without card memory, a card-access fault on unmapped
    pages pins them and migrates the region to the card through its
    [NULL] card-page array. *)
Example fault_card_nomem_null :
  stuck_on (mmu_handler_gup pd_nomem 0 PAGE_4K 0 false 7 world0) = Some NullDeref.
Proof. vm_decide. Qed.

(** ** Witnesses: the theorems applied where their hypotheses hold *)

Lemma reachable_table_wf_witness :
  orders_wf pd0 /\ table_wf (final (fault 0 10 true world0)).
Proof.
  split; [vm_decide|].
  apply (reachable_table_wf pd0); [vm_decide|].
  apply (reach_call pd0 world0 (CallFault (0 * PAGE_4K) (10 * PAGE_4K) 0 true 7) 0).
  - apply reach_init; reflexivity.
  - vm_decide.
  - vm_decide.
Defined.

Definition pfa_5_25 : desc_aligned := align_fault pd0 false (5 * PAGE_4K) (20 * PAGE_4K) 0.
Definition pfa_12_25 : desc_aligned := align_fault pd0 false (12 * PAGE_4K) (13 * PAGE_4K) 0.

Lemma map_present_total_witness :
  exists r pfa', map_present pfa_5_25 world_2r = Ret (r, pfa') world_2r.
Proof.
  apply map_present_total. apply all_regions_okb_sound. vm_compute. reflexivity.
Defined.

Lemma map_present_miss_witness :
  extent_ok pfa_12_25 /\
  DA.mk 12 8 0 false = DA.set_n_pages pfa_12_25
    (clip_ref 12 13 (starts_of world_2r.(heap) (hash_entries (table_of world_2r 0)))).
Proof.
  split; [vm_decide|].
  destruct (map_present_miss pfa_12_25 (DA.mk 12 8 0 false) world_2r world_2r)
    as (_ & Hclip & _).
  - vm_decide.
  - apply all_regions_okb_sound. vm_compute. reflexivity.
  - vm_decide.
  - exact Hclip.
Defined.

Lemma map_present_hit_witness :
  exists e, world_2r.(heap) !! 1%positive = Some e /\ contains e 5 /\ e.(UP.vaddr) + e.(UP.n_pages) = 10.
Proof.
  destruct (map_present_hit pfa_5_25 1%positive (DA.mk 5 5 0 false) world_2r world_2r)
    as (_ & e & _ & He & Hc & _).
  - vm_decide.
  - apply all_regions_okb_sound. vm_compute. reflexivity.
  - vm_decide.
  - exists e. split; [exact He|split; [exact Hc|]]. vm_compute in He. injection He as <-. reflexivity.
Defined.

Lemma map_present_scan_hit_iff_witness :
  exists p e, p ∈ hash_entries (table_of world_2r 0) /\ world_2r.(heap) !! p = Some e /\ contains e 5.
Proof.
  apply (map_present_scan_hit_iff world_2r.(heap) (hash_entries (table_of world_2r 0)) pfa_5_25).
  - vm_decide.
  - apply all_regions_okb_sound. vm_compute. reflexivity.
  - exists 1%positive, (DA.mk 5 5 0 false). vm_decide.
Defined.

(** The object at [p], [UP.zeroed] if none. *)
Definition region_of (w : world) (p : positive) : user_pages := default UP.zeroed (w.(heap) !! p).

Definition vma_small : vm_area := mk_vm_area 0 (4096 * PAGE_4K) false.

Lemma align_fault_covers_witness :
  extent_ok (align_fault pd0 true (5000 * PAGE_4K + 17) (3 * PAGE_4K) 0) /\
  in_pages 4700 (align_fault pd0 true (5000 * PAGE_4K + 17) (3 * PAGE_4K) 0).(DA.vaddr)
                (align_fault pd0 true (5000 * PAGE_4K + 17) (3 * PAGE_4K) 0).(DA.n_pages).
Proof.
  destruct (align_fault_covers pd0 true (5000 * PAGE_4K + 17) (3 * PAGE_4K) 0) as (Hext & _ & _ & Hx);
    [vm_decide|vm_decide|].
  split; [exact Hext|]. apply Hx. vm_compute. split; reflexivity.
Defined.

Lemma mmu_handler_gup_hit_map_witness :
  exists w', fault 100 4 true world_r = Ret 0 w' /\
    w'.(dev).(dlog) = world_r.(dev).(dlog) ++ [map_event pd0 (DA.mk 100 4 0 false) (region_of world_r 1) 7].
Proof.
  destruct (mmu_handler_gup_hit_map pd0 (100 * PAGE_4K) (4 * PAGE_4K) 0 true 7 world_r mm0 vma_small
              1%positive (DA.mk 100 4 0 false) (region_of world_r 1)) as (w' & Hrun & _ & _ & Hlog);
    [vm_decide|vm_decide|vm_decide|vm_decide|vm_decide|vm_decide|vm_decide|].
  exists w'. split; [exact Hrun|exact Hlog].
Defined.

Lemma mmu_handler_gup_hit_migrate_witness :
  exists w', fault 100 4 false world_r = Ret 0 w' /\
    w'.(dev).(dlog) = world_r.(dev).(dlog) ++ unmap_log pd0 7 (region_of world_r 1) ++
      [mig_event false (region_of world_r 1);
       map_event pd0 (DA.mk 100 4 0 false) (UP.set_host (region_of world_r 1) false) 7].
Proof.
  destruct (mmu_handler_gup_hit_migrate pd0 (100 * PAGE_4K) (4 * PAGE_4K) 0 false 7 world_r mm0 vma_small
              1%positive (DA.mk 100 4 0 false) (region_of world_r 1)) as (w' & Hrun & _ & _ & Hlog);
    [vm_decide|vm_decide|vm_decide|vm_decide|vm_decide|vm_decide|vm_decide|vm_decide|vm_decide
    |vm_decide|vm_decide|].
  exists w'. split; [exact Hrun|exact Hlog].
Defined.

Lemma mmu_handler_gup_miss_witness :
  exists w', fault 100 4 false world0 = Ret 0 w' /\
    table_of w' 0 = hash_add (table_of world0 0) 1%positive 100.
Proof.
  destruct (mmu_handler_gup_miss pd0 (100 * PAGE_4K) (4 * PAGE_4K) 0 false 7 world0 mm0 vma_small
              (DA.mk 100 4 0 false)) as (w' & Hrun & _ & Htab & _).
  - vm_decide.
  - vm_decide.
  - vm_decide.
  - vm_decide.
  - vm_decide.
  - vm_decide.
  - vm_decide.
  - apply Forall_seqZ. vm_decide.
  - intros _. vm_decide.
  - intros _. split; vm_decide.
  - vm_decide.
  - exists w'. split; [exact Hrun|exact Htab].
Defined.

Lemma mmu_handler_gup_returns_witness : 0 = 0 \/ 0 = - ENOMEM.
Proof.
  apply (mmu_handler_gup_returns pd0 (100 * PAGE_4K) (4 * PAGE_4K) 0 true 7 world0 0
           (final (fault 100 4 true world0))).
  vm_decide.
Defined.

Lemma tlb_get_user_pages_guard_witness :
  tlb_get_user_pages pd0 (DA.mk 100 0 0 false) mm0 world0 = Ret None world0 /\
  tlb_get_user_pages pd0 (DA.mk (2 ^ 64 - 2) 4 0 false) mm0 world0 = Ret None world0.
Proof.
  split; apply tlb_get_user_pages_guard; vm_decide.
Defined.

Lemma tlb_get_user_pages_partial_witness :
  exists w', tlb_get_user_pages pd0 (DA.mk 0 5 0 false) mm3 (world_of mm3) = Ret None w' /\
    w'.(user_buff_map) = (world_of mm3).(user_buff_map).
Proof.
  destruct (tlb_get_user_pages_partial pd0 (DA.mk 0 5 0 false) mm3 (world_of mm3))
    as (w' & Hrun & _ & Hm & _); [vm_decide|vm_decide|vm_decide|].
  exists w'. split; [exact Hrun|exact Hm].
Defined.

(** The process of [world0] with page 0 not present. *)
Definition mm_hole : mm_struct := mk_mm [mk_vm_area 0 (4096 * PAGE_4K) false] (pte_range 3 10).

Lemma tlb_get_user_pages_efault_witness :
  exists w', tlb_get_user_pages pd0 (DA.mk 0 5 0 false) mm_hole (world_of mm_hole) = Stuck Indeterminate w' /\
    w'.(user_buff_map) = (world_of mm_hole).(user_buff_map).
Proof.
  destruct (tlb_get_user_pages_efault pd0 (DA.mk 0 5 0 false) mm_hole (world_of mm_hole))
    as (w' & Hrun & Hm & _); [vm_decide|vm_decide|vm_decide|].
  exists w'. split; [exact Hrun|exact Hm].
Defined.

Definition world_card_short : world := set_card world0 (mk_card ∅ [100000; 100001]).

Lemma tlb_get_user_pages_card_fail_witness :
  exists w', tlb_get_user_pages pd0 (DA.mk 0 5 0 false) mm0 world_card_short = Ret None w' /\
    pin_count w'.(host).(page_pins) 1000 = 1%nat.
Proof.
  destruct (tlb_get_user_pages_card_fail pd0 (DA.mk 0 5 0 false) mm0 world_card_short)
    as (w' & Hrun & _ & _ & Hpins);
    [vm_decide|vm_decide|vm_decide|apply Forall_seqZ; vm_decide|vm_decide|].
  exists w'. split; [exact Hrun|]. rewrite Hpins. vm_compute. reflexivity.
Defined.

Lemma tlb_map_gup_base_overflow_witness :
  tlb_map_gup pd0 (DA.mk 0 200 0 false) 1%positive 7 (final run_big_fault) =
  Stuck HeapOverflow (final run_big_fault).
Proof.
  apply (tlb_map_gup_base_overflow pd0 (DA.mk 0 200 0 false) 1%positive 7 (final run_big_fault)
           (region_of (final run_big_fault) 1)); vm_decide.
Defined.

Lemma migrate_to_card_copies_witness :
  let H := take (Z.to_nat (region_of world_r 1).(UP.n_pages)) (region_of world_r 1).(UP.hpages) in
  let C := take (Z.to_nat (region_of world_r 1).(UP.n_pages)) (region_of world_r 1).(UP.cpages) in
  exists w', migrate_to_card_gup 1%positive world_r = Ret () w' /\
    (forall i h c, H !! i = Some h -> C !! i = Some c ->
       mem_read w'.(card).(cmem) c = mem_read world_r.(host).(hmem) h) /\
    (forall a, a ∉ C -> mem_read w'.(card).(cmem) a = mem_read world_r.(card).(cmem) a) /\
    w'.(host).(hmem) = world_r.(host).(hmem).
Proof.
  apply (migrate_to_card_copies 1%positive world_r (region_of world_r 1)); vm_decide.
Defined.

Lemma migrate_to_host_copies_witness :
  let H := take (Z.to_nat (region_of world_r 1).(UP.n_pages)) (region_of world_r 1).(UP.hpages) in
  let C := take (Z.to_nat (region_of world_r 1).(UP.n_pages)) (region_of world_r 1).(UP.cpages) in
  exists w', migrate_to_host_gup 1%positive world_r = Ret () w' /\
    (forall i h c, H !! i = Some h -> C !! i = Some c ->
       mem_read w'.(host).(hmem) h = mem_read world_r.(card).(cmem) c) /\
    (forall a, a ∉ H -> mem_read w'.(host).(hmem) a = mem_read world_r.(host).(hmem) a).
Proof.
  apply (migrate_to_host_copies 1%positive world_r (region_of world_r 1)); vm_decide.
Defined.

(** Region [[100, 104)] pinned on a device without card memory. *)
Definition world_nomem : world := final (tlb_get_user_pages pd_nomem (DA.mk 100 4 0 false) mm0 world0).

Lemma migrate_to_card_null_witness :
  migrate_to_card_gup 1%positive world_nomem =
  Stuck NullDeref (set_dev world_nomem (set_offload_lock world_nomem.(dev) true)).
Proof.
  apply (migrate_to_card_null 1%positive world_nomem (region_of world_nomem 1)); vm_decide.
Defined.

Lemma tlb_put_user_pages_releases_witness :
  table_of (final run_put_b) 0 = hash_del (table_of world_nb 0) 2%positive.
Proof.
  destruct (tlb_put_user_pages_releases pd0 (144 * PAGE_4K) 0 7 false world_nb 0 (final run_put_b))
    as (_ & _ & _ & Htab); [vm_decide|].
  rewrite Htab. vm_decide.
Defined.

Lemma tlb_put_user_pages_cpid_releases_witness :
  (1%positive ∈ hash_entries (table_of (final run_put_all) 0) <->
     1%positive ∈ hash_entries (table_of world_nb 0) /\ ~ bucket_head (table_of world_nb 0) 1%positive) /\
  (2%positive ∈ hash_entries (table_of (final run_put_all) 0) <->
     2%positive ∈ hash_entries (table_of world_nb 0) /\ ~ bucket_head (table_of world_nb 0) 2%positive).
Proof.
  destruct (tlb_put_user_pages_cpid_releases pd0 0 7 false world_nb 0 (final run_put_all))
    as (_ & _ & _ & Hent); [vm_decide|vm_decide|split; apply Hent].
Defined.

Lemma offload_user_gup_layout_witness :
  layout_eq world_r (final (offload_user_gup pd0 (100 * PAGE_4K) 0 world_r)).
Proof.
  apply (offload_user_gup_layout pd0 (100 * PAGE_4K) 0 world_r 0); vm_decide.
Defined.

Definition world_r_card : world := final (offload_user_gup pd0 (100 * PAGE_4K) 0 world_r).

Lemma sync_user_gup_layout_witness :
  layout_eq world_r_card (final (sync_user_gup pd0 (100 * PAGE_4K) 0 world_r_card)).
Proof.
  apply (sync_user_gup_layout pd0 (100 * PAGE_4K) 0 world_r_card 0); vm_decide.
Defined.
