(* ===== verification/Wire.v ===== *)
(** * Wire: the queue-pair metadata of the RDMA handshake

    [struct ibvQ] of src/scripts/network/RDMA_server_v2.c (lines 52-75)
    as the server reads it from and writes it to the TCP connection, byte
    for byte: its x86-64 layout (64 bytes, little endian, the pointer
    [vaddr] 8-aligned at offset 16, three bytes of padding after
    [char gid[33]]); the text [sprintf("%08x%08x%08x%08x", ...)] writes
    into [gid] (line 373); and the 64-bit interface id the server builds
    from the peer's IPv4 address with two [htonl]s (lines 341-346), laid
    out in the 16 bytes of [union ibv_gid] (lines 404-410).

    Bytes are [Z]s in [0, 256); the host is little endian, so [htonl] is a
    byte swap. *)

From S2P Require Import Prelude.

(** ** Little-endian integers *)

(** The bytes of the [n]-byte little-endian representation of [x]. *)
Fixpoint le_bytes (n : nat) (x : Z) : list Z :=
  match n with
  | O => []
  | S n' => Z.land x 255 :: le_bytes n' (Z.shiftr x 8)
  end.

(** The unsigned value of little-endian bytes ([memcpy] into an integer). *)
Fixpoint le_value (l : list Z) : Z :=
  match l with
  | [] => 0
  | b :: l' => b + 256 * le_value l'
  end.

Definition is_byte (b : Z) : Prop := 0 <= b < 256.

#[export] Instance is_byte_dec b : Decision (is_byte b).
Proof. unfold is_byte. apply _. Defined.

(** [htonl] on a little-endian host: the four bytes in reverse order. *)
Definition htonl (x : Z) : Z := le_value (rev (le_bytes 4 x)).

(** ** [struct ibvQ] *)

Record ibvQ := mk_ibvQ {
  ip_addr : Z;
  qpn : Z;
  psn : Z;
  rkey : Z;
  vaddr : Z;
  size : Z;
  gid : list Z
}.

#[export] Instance ibvQ_eq_dec : EqDecision ibvQ.
Proof. solve_decision. Defined.

(** [sizeof(struct ibvQ)]: 4 * 4 bytes, the 8-byte pointer at 16, the
    4-byte [size] at 24, [gid[33]] at 28, padded to a multiple of 8. *)
Definition sizeof_ibvQ : nat := 64.

(** The bytes [write(connfd, local_ibvQ, sizeof(struct ibvQ))] sends;
    [pad] are the three padding bytes, which nothing initialises. *)
Definition ibvQ_bytes (q : ibvQ) (pad : list Z) : list Z :=
  le_bytes 4 q.(ip_addr) ++ le_bytes 4 q.(qpn) ++ le_bytes 4 q.(psn) ++
  le_bytes 4 q.(rkey) ++ le_bytes 8 q.(vaddr) ++ le_bytes 4 q.(size) ++
  q.(gid) ++ pad.

(** The integer field of [n] bytes at offset [off]. *)
Definition field (off n : nat) (b : list Z) : Z := le_value (take n (drop off b)).

(** [memcpy(remote_ibvQ, recv_buf, sizeof(struct ibvQ))] and the field
    reads that follow it. *)
Definition ibvQ_of_bytes (b : list Z) : ibvQ :=
  mk_ibvQ (field 0 4 b) (field 4 4 b) (field 8 4 b) (field 12 4 b)
          (field 16 8 b) (field 24 4 b) (take 33 (drop 28 b)).

Definition ibvQ_wf (q : ibvQ) : Prop :=
  0 <= q.(ip_addr) < 2 ^ 32 /\ 0 <= q.(qpn) < 2 ^ 32 /\ 0 <= q.(psn) < 2 ^ 32 /\
  0 <= q.(rkey) < 2 ^ 32 /\ 0 <= q.(vaddr) < 2 ^ 64 /\ 0 <= q.(size) < 2 ^ 32 /\
  length q.(gid) = 33%nat.

#[export] Instance ibvQ_wf_dec q : Decision (ibvQ_wf q).
Proof. unfold ibvQ_wf. apply _. Defined.

(** ** The GID text *)

(** The ASCII code of a lowercase hexadecimal digit. *)
Definition hex_digit (d : Z) : Z := if decide (d < 10) then 48 + d else 87 + d.

(** The [n] lowest hexadecimal digits of [x], most significant first. *)
Fixpoint hex_digits (n : nat) (x : Z) : list Z :=
  match n with
  | O => []
  | S n' => hex_digits n' (Z.shiftr x 4) ++ [hex_digit (Z.land x 15)]
  end.

(** ["%08x"] of an [unsigned int]: eight digits, zero-padded. *)
Definition fmt_08x (x : Z) : list Z := hex_digits 8 x.

(** What [sprintf(local_ibvQ->gid, "%08x%08x%08x%08x", ip, ip, ip, ip)]
    stores, its terminating NUL included. *)
Definition gid_text (ip : Z) : list Z :=
  fmt_08x ip ++ fmt_08x ip ++ fmt_08x ip ++ fmt_08x ip ++ [0].

(** Reading the text back, as a peer parsing the GID does. *)
Definition hex_value (c : Z) : Z := if decide (c <= 57) then c - 48 else c - 87.

Definition parse_hex (l : list Z) : Z := foldl (fun acc c => 16 * acc + hex_value c) 0 l.

(** A lowercase hexadecimal digit's ASCII code. *)
Definition is_hex_char (c : Z) : Prop := 48 <= c <= 57 \/ 97 <= c <= 102.

#[export] Instance is_hex_char_dec c : Decision (is_hex_char c).
Proof. unfold is_hex_char. apply _. Defined.

(** ** The remote GID *)

(** Lines 341-346: [remote_gid = 0x0000FFFF00000000 | ip], then its two
    halves byte-swapped and exchanged. *)
Definition remote_gid_of (ip : Z) : Z :=
  let g := Z.lor 0x0000FFFF00000000 ip in
  let high_part := htonl (wrap32 (Z.shiftr g 32)) in
  let low_part := htonl (Z.land (wrap32 g) 0xFFFFFFFF) in
  Z.lor (Z.shiftl low_part 32) high_part.

(** The 16 bytes of [union ibv_gid] after [global.subnet_prefix] and
    [global.interface_id] are stored (lines 405-410). *)
Definition gid_raw (subnet_prefix interface_id : Z) : list Z :=
  le_bytes 8 subnet_prefix ++ le_bytes 8 interface_id.

(** The IPv4-mapped IPv6 address [::ffff:a.b.c.d] of [ip = a.b.c.d] in
    network byte order, the GID RoCE v2 gives an IPv4 port. *)
Definition ipv4_mapped (ip : Z) : list Z :=
  replicate 10 0 ++ [255; 255] ++ rev (le_bytes 4 ip).

(** ** Little-endian round trips *)

Lemma land255 x : Z.land x 255 = x mod 256.
Proof. change 255 with (Z.ones 8). apply Z.land_ones. lia. Qed.

Lemma le_bytes_length n x : length (le_bytes n x) = n.
Proof. revert x. induction n; intros; cbn; auto. Qed.

Lemma le_bytes_bytes n x : Forall is_byte (le_bytes n x).
Proof.
  revert x. induction n; intros x; constructor; auto.
  rewrite land255. unfold is_byte. pose proof (Z.mod_pos_bound x 256). lia.
Qed.

Lemma le_value_bytes n x : le_value (le_bytes n x) = x mod 2 ^ (8 * Z.of_nat n).
Proof.
  revert x. induction n as [|n IH]; intros x; cbn [le_bytes le_value].
  - rewrite Z.mod_1_r. reflexivity.
  - rewrite IH, land255, Z.shiftr_div_pow2 by lia.
    replace (2 ^ (8 * Z.of_nat (S n))) with (2 ^ 8 * 2 ^ (8 * Z.of_nat n))
      by (rewrite <- Z.pow_add_r by lia; f_equal; lia).
    rewrite mod_mul_split by lia. reflexivity.
Qed.

Lemma le_value_app l1 l2 :
  le_value (l1 ++ l2) = le_value l1 + 2 ^ (8 * Z.of_nat (length l1)) * le_value l2.
Proof.
  induction l1 as [|b l1 IH]; cbn [app le_value length]; [lia|].
  rewrite IH. replace (8 * Z.of_nat (S (length l1))) with (8 + 8 * Z.of_nat (length l1)) by lia.
  rewrite Z.pow_add_r by lia. lia.
Qed.

Lemma le_value_range l :
  Forall is_byte l -> 0 <= le_value l < 2 ^ (8 * Z.of_nat (length l)).
Proof.
  induction 1 as [|b l Hb _ IH]; cbn [le_value length]; [lia|].
  replace (8 * Z.of_nat (S (length l))) with (8 + 8 * Z.of_nat (length l)) by lia.
  rewrite Z.pow_add_r by lia. unfold is_byte in Hb. lia.
Qed.

Lemma le_bytes_value l : Forall is_byte l -> le_bytes (length l) (le_value l) = l.
Proof.
  induction 1 as [|b l Hb _ IH]; [reflexivity|]. cbn [length le_bytes le_value].
  unfold is_byte in Hb. rewrite land255, Z.shiftr_div_pow2 by lia.
  change (2 ^ 8) with 256. rewrite (Z.mul_comm 256), Z.mod_add, Z.div_add by lia.
  rewrite Z.mod_small, Z.div_small by lia. rewrite Z.add_0_l, IH. reflexivity.
Qed.

Lemma le_value_bytes_small n x : 0 <= x < 2 ^ (8 * Z.of_nat n) -> le_value (le_bytes n x) = x.
Proof. intros. rewrite le_value_bytes. apply Z.mod_small. lia. Qed.

Create Rewrite HintDb wire.
#[export] Hint Rewrite le_bytes_length le_value_app : wire.

Lemma ibvQ_bytes_length q pad :
  length q.(gid) = 33%nat -> length (ibvQ_bytes q pad) = (61 + length pad)%nat.
Proof. intros Hg. unfold ibvQ_bytes. rewrite !length_app, !le_bytes_length, Hg. lia. Qed.

(** A field of [n] bytes read back from the struct's image. *)
Lemma le_field_read (img : list Z) n x :
  0 <= x < 2 ^ (8 * Z.of_nat n) -> le_value img = le_value (le_bytes n x) -> le_value img = x.
Proof. intros Hx ->. apply le_value_bytes_small, Hx. Qed.

Lemma ibvQ_decode_encode q pad :
  ibvQ_wf q -> ibvQ_of_bytes (ibvQ_bytes q pad) = q.
Proof.
  destruct q as [ip qp ps rk va sz g]. intros (?&?&?&?&?&?&Hg). cbn in Hg.
  unfold ibvQ_of_bytes, field. cbn [ip_addr qpn psn rkey vaddr size gid].
  f_equal;
    try (apply (le_field_read _ 4); [cbn in *; lia | reflexivity]);
    try (apply (le_field_read _ 8); [cbn in *; lia | reflexivity]).
  change (take 33 (g ++ pad) = g). apply take_app_length'. done.
Qed.

(** ** The GID text *)

Lemma hex_digits_length n x : length (hex_digits n x) = n.
Proof. revert x. induction n; intros; cbn; [done|]. rewrite length_app, IHn. cbn. lia. Qed.

Lemma hex_value_digit d : 0 <= d < 16 -> hex_value (hex_digit d) = d.
Proof. intros. unfold hex_digit, hex_value. repeat case_decide; lia. Qed.

Lemma parse_hex_digits n x : parse_hex (hex_digits n x) = x mod 16 ^ Z.of_nat n.
Proof.
  revert x. induction n as [|n IH]; intros x; [by rewrite Z.mod_1_r|].
  unfold parse_hex in *. cbn [hex_digits]. rewrite foldl_app, IH. cbn [foldl].
  change 15 with (Z.ones 4). rewrite Z.land_ones, Z.shiftr_div_pow2 by lia.
  rewrite hex_value_digit by (pose proof (Z.mod_pos_bound x (2 ^ 4)); lia).
  replace (16 ^ Z.of_nat (S n)) with (2 ^ 4 * 16 ^ Z.of_nat n)
    by (rewrite Nat2Z.inj_succ, Z.pow_succ_r by lia; lia).
  rewrite mod_mul_split by lia. lia.
Qed.

(** ** The remote GID *)

Lemma htonl_value x : htonl x = le_value (rev (le_bytes 4 x)).
Proof. reflexivity. Qed.

(** The image of the interface id is the bytes [00 00 ff ff] followed by
    the address in network order. *)
Lemma remote_gid_value ip :
  0 <= ip < 2 ^ 32 -> remote_gid_of ip = le_value ([0; 0; 255; 255] ++ rev (le_bytes 4 ip)).
Proof.
  intros Hip. unfold remote_gid_of. cbv zeta.
  change 0x0000FFFF00000000 with (Z.shiftl 65535 32).
  rewrite (lor_shiftl_low 65535 ip 32) by lia. rewrite Z.shiftr_div_pow2 by lia.
  rewrite Z.div_add_l, (Z.div_small ip), Z.add_0_r by lia.
  unfold wrap32. rewrite (Z.add_comm (65535 * 2 ^ 32)), Z.mod_add, (Z.mod_small ip) by lia.
  change 0xFFFFFFFF with (Z.ones 32). rewrite Z.land_ones, (Z.mod_small ip) by lia.
  change (htonl (65535 mod 2 ^ 32)) with 4294901760.
  rewrite lor_shiftl_low by lia. rewrite le_value_app.
  change (le_value [0; 0; 255; 255]) with 4294901760.
  change (2 ^ (8 * Z.of_nat (length [0; 0; 255; 255]))) with (2 ^ 32).
  unfold htonl. lia.
Qed.

Lemma hex_digits_chars n x : Forall is_hex_char (hex_digits n x).
Proof.
  revert x. induction n as [|n IH]; intros x; cbn; [constructor|].
  apply Forall_app; split; [apply IH|]. constructor; [|constructor].
  change 15 with (Z.ones 4). rewrite Z.land_ones by lia.
  pose proof (Z.mod_pos_bound x (2 ^ 4)). unfold hex_digit, is_hex_char.
  case_decide; cbn in *; lia.
Qed.

Lemma fmt_08x_round_trip x : 0 <= x < 2 ^ 32 -> parse_hex (fmt_08x x) = x.
Proof. intros. unfold fmt_08x. rewrite parse_hex_digits. apply Z.mod_small. cbn in *. lia. Qed.

Lemma gid_text_length ip : length (gid_text ip) = 33%nat.
Proof. unfold gid_text, fmt_08x. rewrite !length_app, !hex_digits_length. reflexivity. Qed.

(** [sprintf(local_ibvQ->gid, "%08x%08x%08x%08x", ...)] of a 32-bit
    address fills [char gid[33]] exactly: 32 lowercase hexadecimal digits
    and the terminating NUL, no byte beyond the array, and each eight-digit
    group reads back as the address. *)
Theorem gid_text_fits ip :
  0 <= ip < 2 ^ 32 ->
  (length (gid_text ip) = 33)%nat /\ Forall is_hex_char (take 32 (gid_text ip)) /\
  drop 32 (gid_text ip) = [0] /\ parse_hex (fmt_08x ip) = ip.
Proof.
  intros Hip. unfold gid_text.
  assert (Hl : length (fmt_08x ip) = 8%nat) by apply hex_digits_length.
  split_conj.
  - apply gid_text_length.
  - rewrite !app_assoc, take_app_length' by (rewrite !length_app, Hl; reflexivity).
    rewrite !Forall_app. unfold fmt_08x. split_conj; apply hex_digits_chars.
  - rewrite !app_assoc, drop_app_length' by (rewrite !length_app, Hl; reflexivity). reflexivity.
  - by apply fmt_08x_round_trip.
Qed.

(** C16: The GID the server programs as the destination of its queue pair
    (lines 341-346 and 404-410) is the IPv4-mapped IPv6 address
    [::ffff:a.b.c.d] of the address [a.b.c.d] the peer sent: ten zero
    bytes, [ff ff], then the address in network byte order. *)
Theorem remote_gid_ipv4_mapped ip :
  0 <= ip < 2 ^ 32 -> gid_raw 0 (remote_gid_of ip) = ipv4_mapped ip.
Proof.
  intros Hip. unfold gid_raw, ipv4_mapped. rewrite remote_gid_value by exact Hip.
  set (L := [0; 0; 255; 255] ++ rev (le_bytes 4 ip)).
  assert (HL : length L = 8%nat) by (subst L; rewrite length_app, length_rev, le_bytes_length; reflexivity).
  assert (HB : Forall is_byte L).
  { subst L. apply Forall_app. split; [repeat constructor; cbv; discriminate|].
    apply Forall_rev, le_bytes_bytes. }
  rewrite <- HL, le_bytes_value by exact HB. subst L. reflexivity.
Qed.
