(* ===== verification/RdmaServer.v ===== *)
(** * RdmaServer: [main] of src/scripts/network/RDMA_server_v2.c

    The server opens the first RDMA device, allocates a protection domain,
    a 2 MiB-rounded buffer, a memory region, a completion channel and
    queue and a reliable-connection queue pair, moves the pair to INIT,
    accepts one TCP connection, exchanges [struct ibvQ] with the peer
    (Wire.v), moves the pair to RTR and RTS, writes a 64-byte message into
    the buffer, posts one RDMA WRITE and polls once for its completion.
    Every failure jumps to the label [end], which releases everything.

    [main] is modelled as state passing over [srv], the part of the
    process the code reads and writes:
    - [vars]: the scalar automatic variables of [main] that have been
      assigned; a variable absent from the map is indeterminate, and
      reading it is undefined behaviour ([Indeterminate]), which is what
      [goto end] across their initialisations leaves behind;
    - the two [malloc]ed [struct ibvQ], the 1024-byte [recv_buf], the
      bytes stored into the [calloc]ed buffer (absent bytes are zero) and
      the heap blocks not yet freed;
    - the TCP connection: the segments the peer sent and not yet read,
      and the bytes written to it;
    - [calls]: the verbs, socket and libc calls with an effect outside the
      process, most recent first.
    What each library call returns is a field of [verbs_env]; the
    [printf]s are not modelled. The four phases before [end] and the
    clean-up are one definition each, composed as the code's [goto]s
    compose them. *)

From stdpp Require Import strings.
From S2P Require Import Prelude Wire.

(** ** The environment *)

(** What the library calls of [main] return, one field per call site. *)
Record verbs_env := mk_env {
  e_dev_list : Z;            (* ibv_get_device_list(NULL) *)
  e_devices : list Z;        (* its entries before the NULL terminator *)
  e_context : Z;             (* ibv_open_device *)
  e_pd : Z;                  (* ibv_alloc_pd *)
  e_calloc : Z;              (* calloc(1, n_pages * hugePageSize) *)
  e_mr : Z;                  (* ibv_reg_mr *)
  e_lkey : Z;                (* mr->lkey *)
  e_rkey : Z;                (* mr->rkey *)
  e_comp_channel : Z;        (* ibv_create_comp_channel *)
  e_cq : Z;                  (* ibv_create_cq *)
  e_qp : Z;                  (* ibv_create_qp *)
  e_qp_num : Z;              (* qp->qp_num *)
  e_modify_init : Z;         (* ibv_modify_qp to INIT *)
  e_socket : Z;              (* socket *)
  e_setsockopt : Z;          (* setsockopt(SO_REUSEADDR) *)
  e_bind : Z;                (* bind *)
  e_accept : Z;              (* accept *)
  e_peer_open : bool;        (* the peer still reads: write succeeds *)
  e_malloc_remote : Z;       (* malloc for remote_ibvQ *)
  e_malloc_local : Z;        (* malloc for local_ibvQ *)
  e_pad : list Z;            (* the three padding bytes of *local_ibvQ *)
  e_query_gid : Z;           (* ibv_query_gid *)
  e_modify_rtr : Z;          (* ibv_modify_qp to RTR *)
  e_modify_rts : Z;          (* ibv_modify_qp to RTS *)
  e_poll : Z;                (* ibv_poll_cq(comp_queue, 1, &wc) *)
  e_wc_status : Z            (* wc.status when a completion was polled *)
}.

(** The testing parameters of lines 96-104, which the comment says are
    later to come from the command line; [own_ip] is [ip_addr]. *)
Record params := mk_params {
  n_bench_runs : Z;
  n_reps : Z;
  min_size : Z;
  max_size : Z;
  lat_test : bool;
  thr_test : bool;
  write_op : bool;
  own_ip : Z
}.

(** The values the file sets. *)
Definition params_v2 : params := mk_params 1 1 64 64 true false true 0.

(** ** Queue-pair attributes and work requests *)

Record rtr_attr := mk_rtr {
  rtr_dest_qp_num : Z;
  rtr_rq_psn : Z;
  rtr_max_dest_rd_atomic : Z;
  rtr_min_rnr_timer : Z;
  rtr_port_num : Z;
  rtr_dgid : list Z;
  rtr_sgid_index : Z;
  rtr_hop_limit : Z
}.

Record rts_attr := mk_rts {
  rts_sq_psn : Z;
  rts_timeout : Z;
  rts_min_rnr_timer : Z;
  rts_retry_cnt : Z;
  rts_rnr_retry : Z;
  rts_max_rd_atomic : Z
}.

Inductive wr_opcode := IBV_WR_RDMA_WRITE | IBV_WR_RDMA_READ.

Record send_wr := mk_wr {
  wr_id : Z;
  sge_addr : Z;
  sge_length : Z;
  sge_lkey : Z;
  opcode : wr_opcode;
  remote_addr : Z;
  wr_rkey : Z
}.

(** The calls with an effect outside [main], in the order made. *)
Inductive call :=
| RegMR (addr len : Z)
| ModifyInit (qp port pkey_index : Z)
| ModifyRTR (qp : Z) (a : rtr_attr)
| ModifyRTS (qp : Z) (a : rts_attr)
| Listen (fd : Z)
| PostSend (qp : Z) (wr : send_wr)
| Close (fd : Z)
| Free (p : Z)
| Destroy (what : string) (h : Z).

#[export] Instance rtr_attr_eq_dec : EqDecision rtr_attr.
Proof. solve_decision. Defined.
#[export] Instance rts_attr_eq_dec : EqDecision rts_attr.
Proof. solve_decision. Defined.
#[export] Instance wr_opcode_eq_dec : EqDecision wr_opcode.
Proof. solve_decision. Defined.
#[export] Instance send_wr_eq_dec : EqDecision send_wr.
Proof. solve_decision. Defined.
#[export] Instance call_eq_dec : EqDecision call.
Proof. solve_decision. Defined.

(** ** The automatic variables of [main] *)

Module Var.
Inductive t :=
| mult_factor | dev_list | context | pd | n_pages | buf | mr | comp_channel | comp_queue
| qp | sockfd | connfd | recv_qpid | ack | remote_gid | rc | errno.

Definition index (x : t) : nat :=
  match x with
  | mult_factor => 0 | dev_list => 1 | context => 2 | pd => 3 | n_pages => 4 | buf => 5
  | mr => 6 | comp_channel => 7 | comp_queue => 8 | qp => 9 | sockfd => 10 | connfd => 11
  | recv_qpid => 12 | ack => 13 | remote_gid => 14 | rc => 15 | errno => 16
  end.

Definition eqb (x y : t) : bool := Nat.eqb (index x) (index y).
End Var.

(** ** The state *)

Record srv := mk_srv {
  vars : Var.t -> option Z;
  remote_q : option ibvQ;
  local_q : option ibvQ;
  recv_buf : list Z;
  hmem : gmap Z Z;
  live : list Z;
  stream : list (list Z);
  sent : list Z;
  calls : list call
}.

(** The process before [main]'s first statement, the peer's segments
    waiting on the connection. *)
Definition init_srv (peer : list (list Z)) : srv :=
  mk_srv (fun _ => None) None None [] ∅ [] peer [] [].

Definition set_vars (s : srv) v := mk_srv v s.(remote_q) s.(local_q) s.(recv_buf) s.(hmem) s.(live) s.(stream) s.(sent) s.(calls).
Definition set_remote (s : srv) q := mk_srv s.(vars) (Some q) s.(local_q) s.(recv_buf) s.(hmem) s.(live) s.(stream) s.(sent) s.(calls).
Definition set_local (s : srv) q := mk_srv s.(vars) s.(remote_q) (Some q) s.(recv_buf) s.(hmem) s.(live) s.(stream) s.(sent) s.(calls).
Definition set_recv_buf (s : srv) b := mk_srv s.(vars) s.(remote_q) s.(local_q) b s.(hmem) s.(live) s.(stream) s.(sent) s.(calls).
Definition set_hmem (s : srv) m := mk_srv s.(vars) s.(remote_q) s.(local_q) s.(recv_buf) m s.(live) s.(stream) s.(sent) s.(calls).
Definition set_live (s : srv) l := mk_srv s.(vars) s.(remote_q) s.(local_q) s.(recv_buf) s.(hmem) l s.(stream) s.(sent) s.(calls).
Definition set_stream (s : srv) st := mk_srv s.(vars) s.(remote_q) s.(local_q) s.(recv_buf) s.(hmem) s.(live) st s.(sent) s.(calls).
Definition set_sent (s : srv) b := mk_srv s.(vars) s.(remote_q) s.(local_q) s.(recv_buf) s.(hmem) s.(live) s.(stream) b s.(calls).
Definition set_calls (s : srv) c := mk_srv s.(vars) s.(remote_q) s.(local_q) s.(recv_buf) s.(hmem) s.(live) s.(stream) s.(sent) c.

(** ** Primitive operations *)

(** Assigning an automatic variable of [main]. *)
Definition assign (x : Var.t) (v : Z) : ST srv unit :=
  st_modify (fun s => set_vars s (fun y => if Var.eqb y x then Some v else s.(vars) y)).

(** Reading one: undefined when it was never assigned. *)
Definition read_var (x : Var.t) : ST srv Z :=
  s ← st_get; st_of_option Indeterminate (s.(vars) x).

Definition log_call (c : call) : ST srv unit :=
  st_modify (fun s => set_calls s (c :: s.(calls))).

(** [read(connfd, recv_buf, n)]: the bytes of the segment at the head of
    the connection, at most [n], stored at the start of [recv_buf];
    0 at the end of the stream. *)
Definition sock_read (n : nat) : ST srv Z :=
  s ← st_get;
  match s.(stream) with
  | [] => mret 0
  | seg :: rest =>
      let k := Nat.min n (length seg) in
      st_put (set_stream (set_recv_buf s (take k seg ++ drop k s.(recv_buf)))
                         (if decide (k < length seg)%nat then drop k seg :: rest else rest));;
      mret (Z.of_nat k)
  end.

(** [free(p)]: nothing for NULL; a block an allocation returned and not
    yet freed is released; any other value is undefined. *)
Definition c_free (p : Z) : ST srv unit :=
  if decide (p = 0) then mret () else
  s ← st_get;
  if decide (p ∈ s.(live))
  then st_put (set_calls (set_live s (list_difference s.(live) [p])) (Free p :: s.(calls)))
  else st_stuck InvalidFree.

(** [ibv_destroy_qp(qp)] and the other releases read the handle and
    dereference it. *)
Definition destroy (what : string) (x : Var.t) : ST srv unit :=
  h ← read_var x; if decide (h = 0) then st_stuck NullDeref else log_call (Destroy what h).

(** The buffer's bytes [b] stored from address [p] on. *)
Fixpoint bytes_at (p : Z) (b : list Z) : gmap Z Z :=
  match b with
  | [] => ∅
  | v :: b' => <[p := v]> (bytes_at (p + 1) b')
  end.

(** [*(uint64_t * )p]: eight bytes of the [calloc]ed buffer. *)
Definition load_u64 (s : srv) (p : Z) : Z :=
  le_value (map (fun i => default 0 (s.(hmem) !! (p + i))) (seqZ 0 8)).

(** ** The constants *)

Definition hugePageSize : Z := 2 * 1024 * 1024.
Definition msgAck : Z := 1.

(** Lines 151 and 153 in [uint32_t] arithmetic: [hugePageSize] is
    converted to unsigned and every result wraps at 2^32. *)
Definition n_pages_of (max_size : Z) : Z := wrap32 (max_size + hugePageSize - 1) / hugePageSize.
Definition buf_bytes (n_pages : Z) : Z := wrap32 (n_pages * hugePageSize).

(** The 64 bytes lines 530-593 store, "Hello, AMD OHC! I block network
    threats but this is not a threat", without a terminating NUL. *)
Definition hello_msg : list Z :=
  [0x48; 0x65; 0x6c; 0x6c; 0x6f; 0x2c; 0x20; 0x41; 0x4D; 0x44; 0x20; 0x4F; 0x48; 0x43; 0x21; 0x20;
   0x49; 0x20; 0x62; 0x6c; 0x6f; 0x63; 0x6b; 0x20; 0x6e; 0x65; 0x74; 0x77; 0x6f; 0x72; 0x6b; 0x20;
   0x74; 0x68; 0x72; 0x65; 0x61; 0x74; 0x73; 0x20; 0x62; 0x75; 0x74; 0x20; 0x74; 0x68; 0x69; 0x73;
   0x20; 0x69; 0x73; 0x20; 0x6e; 0x6f; 0x74; 0x20; 0x61; 0x20; 0x74; 0x68; 0x72; 0x65; 0x61; 0x74].

Section Server.
Variable env : verbs_env.
Variable prm : params.

(** [write(connfd, p, n)]: all [n] bytes while the peer reads, -1 once it
    has gone. *)
Definition sock_write (b : list Z) : ST srv Z :=
  if env.(e_peer_open)
  then st_modify (fun s => set_sent s (s.(sent) ++ b));; mret (Z.of_nat (length b))
  else mret (-1).

(** [malloc(sizeof(struct ibvQ))], whose result the code stores through
    unchecked: NULL makes that store a NULL dereference. *)
Definition malloc_ibvQ (p : Z) : ST srv unit :=
  if decide (p = 0) then st_stuck NullDeref
  else st_modify (fun s => set_live s (p :: s.(live))).

(** ** The phases of [main] *)

(** Lines 96-230: device, context, protection domain, buffer, memory
    region, completion channel and queue, queue pair, INIT. [false] is a
    [goto end]. *)
Definition setup_verbs : ST srv bool :=
  assign Var.mult_factor (if prm.(write_op) then 2 else 1);;
  assign Var.dev_list env.(e_dev_list);;
  if decide (env.(e_dev_list) = 0) then mret false else
  (match env.(e_devices) with [] => st_stuck NullDeref | _ :: _ => mret () end);;
  assign Var.context env.(e_context);;
  if decide (env.(e_context) = 0) then mret false else
  assign Var.pd env.(e_pd);;
  if decide (env.(e_pd) = 0) then mret false else
  assign Var.n_pages (n_pages_of prm.(max_size));;
  assign Var.buf env.(e_calloc);;
  if decide (env.(e_calloc) = 0) then mret false else
  st_modify (fun s => set_live s (env.(e_calloc) :: s.(live)));;
  assign Var.mr env.(e_mr);;
  if decide (env.(e_mr) = 0) then mret false else
  log_call (RegMR env.(e_calloc) prm.(max_size));;
  assign Var.comp_channel env.(e_comp_channel);;
  if decide (env.(e_comp_channel) = 0) then mret false else
  assign Var.comp_queue env.(e_cq);;
  if decide (env.(e_cq) = 0) then mret false else
  assign Var.qp env.(e_qp);;
  if decide (env.(e_qp) = 0) then mret false else
  log_call (ModifyInit env.(e_qp) 1 0);;
  mret (bool_decide (env.(e_modify_init) = 0)).

(** Lines 239-298: socket, [SO_REUSEADDR], bind, the listen check (which
    tests [sockfd], not [listen]'s result), listen, accept. *)
Definition setup_socket : ST srv bool :=
  assign Var.sockfd (-1);;
  st_modify (fun s => set_recv_buf s (replicate 1024 0));;
  assign Var.sockfd env.(e_socket);;
  if decide (env.(e_socket) = -1) then mret false else
  if decide (env.(e_setsockopt) < 0) then mret false else
  if decide (env.(e_bind) < 0) then mret false else
  sockfd ← read_var Var.sockfd;
  if decide (sockfd < 0) then mret false else
  log_call (Listen sockfd);;
  assign Var.connfd env.(e_accept);;
  mret (bool_decide (0 <= env.(e_accept))).

(** The [struct ibvQ] the server fills at lines 362-373. *)
Definition local_of (rq : ibvQ) (buf n_pages : Z) : ibvQ :=
  mk_ibvQ prm.(own_ip) env.(e_qp_num) rq.(psn) env.(e_rkey) buf (buf_bytes n_pages)
          (gid_text prm.(own_ip)).

(** Lines 300-394: read the peer's qpid, acknowledge it, read the peer's
    [struct ibvQ], build the remote GID, fill and send the local one.
    Each failure closes [connfd] before its [goto end]. *)
Definition exchange : ST srv bool :=
  connfd ← read_var Var.connfd;
  n ← sock_read 4;
  if decide (n ≠ 4) then log_call (Close connfd);; mret false else
  s ← st_get;
  assign Var.recv_qpid (field 0 4 s.(recv_buf));;
  assign Var.ack msgAck;;
  w ← sock_write [Z.land msgAck 255];
  if decide (w ≠ 1) then log_call (Close connfd);; mret false else
  n ← sock_read sizeof_ibvQ;
  if decide (n ≠ Z.of_nat sizeof_ibvQ) then log_call (Close connfd);; mret false else
  malloc_ibvQ env.(e_malloc_remote);;
  s ← st_get;
  let rq := ibvQ_of_bytes (take sizeof_ibvQ s.(recv_buf)) in
  st_put (set_remote s rq);;
  assign Var.remote_gid (remote_gid_of rq.(ip_addr));;
  malloc_ibvQ env.(e_malloc_local);;
  buf ← read_var Var.buf;
  n_pages ← read_var Var.n_pages;
  let lq := local_of rq buf n_pages in
  st_modify (fun s => set_local s lq);;
  w ← sock_write (ibvQ_bytes lq env.(e_pad));
  if decide (w ≠ Z.of_nat sizeof_ibvQ) then log_call (Close connfd);; mret false
  else mret true.

(** The attributes of lines 403-428 and 487-495. *)
Definition rtr_of (rq : ibvQ) (remote_gid : Z) : rtr_attr :=
  mk_rtr rq.(qpn) rq.(psn) 1 12 1 (gid_raw 0 remote_gid) 3 0xFF.

Definition rts_of (rq : ibvQ) : rts_attr := mk_rts rq.(psn) 19 30 10 1 1.

(** Lines 402-503: query the local GID, then RTR and RTS; the errors of
    both transitions are stored in [errno] and otherwise ignored. *)
Definition connect_qp : ST srv bool :=
  s ← st_get;
  rq ← st_of_option Indeterminate s.(remote_q);
  g ← read_var Var.remote_gid;
  assign Var.rc env.(e_query_gid);;
  if decide (env.(e_query_gid) ≠ 0) then mret false else
  qp ← read_var Var.qp;
  log_call (ModifyRTR qp (rtr_of rq g));;
  assign Var.errno env.(e_modify_rtr);;
  log_call (ModifyRTS qp (rts_of rq));;
  assign Var.errno env.(e_modify_rts);;
  mret true.

(** The work request of lines 598-619. *)
Definition wr_of (hMem : Z) (rq : ibvQ) : send_wr :=
  mk_wr 0 hMem 64 env.(e_lkey)
        (if prm.(write_op) then IBV_WR_RDMA_WRITE else IBV_WR_RDMA_READ) rq.(vaddr) rq.(rkey).

(** Lines 517-659: store the message at [local_ibvQ->vaddr], post it and
    poll once; [wc] is written only when the poll returns a completion,
    and its [status] is read either way. *)
Definition send_message : ST srv unit :=
  s ← st_get;
  lq ← st_of_option Indeterminate s.(local_q);
  rq ← st_of_option Indeterminate s.(remote_q);
  let hMem := lq.(vaddr) in
  n_pages ← read_var Var.n_pages;
  if decide (buf_bytes n_pages < Z.of_nat (length hello_msg)) then st_stuck HeapOverflow else
  st_modify (fun s => set_hmem s (bytes_at hMem hello_msg ∪ s.(hmem)));;
  qp ← read_var Var.qp;
  log_call (PostSend qp (wr_of hMem rq));;
  if decide (1 <= env.(e_poll)) then mret () else st_stuck Indeterminate.

(** Lines 669-698, the label [end]. *)
Definition cleanup : ST srv Z :=
  buf ← read_var Var.buf;
  (if decide (buf ≠ 0) then s ← st_get; c_free (load_u64 s buf) else mret ());;
  destroy "ibv_destroy_qp" Var.qp;;
  destroy "ibv_destroy_cq" Var.comp_queue;;
  destroy "ibv_destroy_comp_channel" Var.comp_channel;;
  destroy "ibv_dereg_mr" Var.mr;;
  destroy "ibv_dealloc_pd" Var.pd;;
  destroy "ibv_close_device" Var.context;;
  connfd ← read_var Var.connfd;
  log_call (Close connfd);;
  mret 0.

(** The statements before [end], a [goto end] ending each phase early. *)
Definition main_body : ST srv unit :=
  ok1 ← setup_verbs;
  if negb ok1 then mret () else
  ok2 ← setup_socket;
  if negb ok2 then mret () else
  ok3 ← exchange;
  if negb ok3 then mret () else
  ok4 ← connect_qp;
  if negb ok4 then mret () else
  send_message.

Definition main : ST srv Z := main_body;; cleanup.

End Server.

(** ** Running the phases *)

(** The library calls of the set-up and the handshake all succeed (the
    RTR and RTS transitions aside, whose results [main] ignores). *)
Definition setup_ok (env : verbs_env) : Prop :=
  env.(e_dev_list) ≠ 0 /\ env.(e_devices) ≠ [] /\ env.(e_context) ≠ 0 /\ env.(e_pd) ≠ 0 /\
  env.(e_calloc) ≠ 0 /\ env.(e_mr) ≠ 0 /\ env.(e_comp_channel) ≠ 0 /\ env.(e_cq) ≠ 0 /\
  env.(e_qp) ≠ 0 /\ env.(e_modify_init) = 0 /\ 0 <= env.(e_socket) /\
  0 <= env.(e_setsockopt) /\ 0 <= env.(e_bind) /\ 0 <= env.(e_accept) /\
  env.(e_peer_open) = true /\ env.(e_malloc_remote) ≠ 0 /\ env.(e_malloc_local) ≠ 0 /\
  length env.(e_pad) = 3%nat /\ env.(e_query_gid) = 0.

(** The first eight bytes of the message, read as a little-endian
    [uint64_t]: ['H' 'e' 'l' 'l' 'o' ',' ' ' 'A']. *)
Definition hello_word : Z := 0x41202c6f6c6c6548.

(** x86-64 user space: the addresses the allocations return are below
    2^47. *)
Definition user_pointers (env : verbs_env) : Prop :=
  0 < env.(e_calloc) < 2 ^ 47 /\ 0 < env.(e_malloc_remote) < 2 ^ 47 /\
  0 < env.(e_malloc_local) < 2 ^ 47.

Lemma bytes_at_lookup p l (i : nat) :
  (i < length l)%nat -> bytes_at p l !! (p + Z.of_nat i) = l !! i.
Proof.
  revert p i. induction l as [|v l IH]; intros p i Hi; cbn in *; [lia|].
  destruct i as [|i].
  - rewrite Z.add_0_r. apply lookup_insert_eq.
  - rewrite lookup_insert_ne by lia. replace (p + Z.of_nat (S i)) with (p + 1 + Z.of_nat i) by lia.
    apply IH. lia.
Qed.

Lemma load_u64_hello v r l rb m lv st se c p :
  load_u64 (mk_srv v r l rb (bytes_at p hello_msg ∪ m) lv st se c) p = hello_word.
Proof.
  unfold load_u64. cbn [hmem].
  erewrite map_ext_in with (g := fun i => default 0 (hello_msg !! Z.to_nat i)).
  - reflexivity.
  - intros i Hi. apply list_elem_of_In, elem_of_seqZ in Hi.
    replace (p + i) with (p + Z.of_nat (Z.to_nat i)) by lia.
    destruct (hello_msg !! Z.to_nat i) as [x|] eqn:E.
    + erewrite lookup_union_Some_l; [reflexivity|]. rewrite bytes_at_lookup, E; [done|].
      cbn. lia.
    + apply lookup_ge_None in E. cbn in E. lia.
Qed.

Lemma load_u64_empty v r l rb lv st se c p :
  load_u64 (mk_srv v r l rb ∅ lv st se c) p = 0.
Proof. reflexivity. Qed.

Lemma local_of_bytes_length env prm rq b n pad :
  length (ibvQ_bytes (local_of env prm rq b n) pad) = (61 + length pad)%nat.
Proof. apply ibvQ_bytes_length, gid_text_length. Qed.

(** Symbolic execution of [main]: unfold the phases and the monad, then
    alternate reduction of the state with the decisions the hypotheses
    settle and the lengths of the byte strings read and written. *)
Ltac srv_unfold_all :=
  unfold main_body, setup_verbs, setup_socket, exchange, connect_qp, send_message, cleanup;
  unfold destroy, c_free, assign, log_call, read_var, sock_read, sock_write, malloc_ibvQ;
  unfold st_modify, st_get, st_put, st_of_option, st_stuck;
  unfold mbind, st_bind, mret, st_ret, sizeof_ibvQ;
  unfold set_vars, set_remote, set_local, set_recv_buf, set_hmem, set_live, set_stream,
    set_sent, set_calls, init_srv.

Ltac srv_reduce := cbn [set_vars set_remote set_local set_recv_buf set_hmem set_live set_stream
  set_sent set_calls vars remote_q local_q recv_buf hmem live stream sent calls negb init_srv
  length hello_msg Var.eqb Var.index Nat.eqb e_dev_list e_devices e_context e_pd e_calloc e_mr
  e_lkey e_rkey e_comp_channel e_cq e_qp e_qp_num e_modify_init e_socket e_setsockopt e_bind
  e_accept e_peer_open e_malloc_remote e_malloc_local e_pad e_query_gid e_modify_rtr
  e_modify_rts e_poll e_wc_status].

Ltac srv_step :=
  first
  [ progress srv_reduce
  | progress rewrite ?le_bytes_length, ?local_of_bytes_length, ?load_u64_hello, ?load_u64_empty
  | match goal with
    | H : length _ = _ |- _ => progress rewrite ?H
    | H : vars _ _ = _ |- _ => progress rewrite ?H
    | H : stream _ = _ |- _ => progress rewrite ?H
    | H : remote_q _ = _ |- _ => progress rewrite ?H
    | H : local_q _ = _ |- _ => progress rewrite ?H
    end
  | rewrite Nat.min_l by lia
  | rewrite Nat.min_r by lia
  | rewrite decide_False by (done || lia)
  | rewrite decide_True by (done || lia)
  | rewrite decide_False by (rewrite ?elem_of_cons, ?elem_of_nil; unfold hello_word; lia)
  | rewrite bool_decide_true by (done || lia)
  | rewrite bool_decide_false by (done || lia) ].

Ltac srv_run := srv_unfold_all; repeat srv_step.

(** Name the fields of the environment and split [setup_ok]. *)
Ltac destruct_env env :=
  destruct env as [dl devs ctx pd cal mr lk rk ch cq qp qn mi so ss bi ac po mre mlo epad qg
    rtr rts pl st].

Ltac destruct_setup_ok H :=
  unfold setup_ok in H; cbn in H;
  destruct H as (?&?&?&?&?&?&?&?&?&?&?&?&?&?&->&?&?&?&?);
  match goal with d : list Z |- _ => destruct d as [|?d ?devs]; [congruence|] end.


(** The buffer [recv_buf] holds, after the qpid and then the peer's
    64-byte [struct ibvQ] arrived in one segment each. *)
Lemma recv_buf_after_reads (b4 b64 : list Z) :
  length b4 = 4%nat -> length b64 = 64%nat ->
  take 64 (take 64 b64 ++ drop 64 (take 4 b4 ++ drop 4 (replicate 1024 0))) = b64.
Proof.
  intros H4 H64. rewrite (take_ge b64) by lia. apply take_app_length'. done.
Qed.

(** C13: When every library call of the set-up succeeds and the peer
    sends its qpid and then its [struct ibvQ] [rq], [main] reaches the end
    of its statements having sent the acknowledgement byte and its own
    [struct ibvQ], and having made exactly these calls: register the
    buffer, INIT, listen, RTR towards the peer's queue pair, packet
    sequence number and GID, RTS, and one RDMA WRITE of the message
    stored at the start of the buffer to the peer's address and key.
    The results of the RTR and RTS transitions play no part. *)
Theorem handshake_posts_write env prm qpid rq pad :
  setup_ok env -> 1 <= env.(e_poll) -> ibvQ_wf rq -> length pad = 3%nat ->
  64 <= buf_bytes (n_pages_of prm.(max_size)) ->
  exists s, main_body env prm (init_srv [le_bytes 4 qpid; ibvQ_bytes rq pad]) = Ret () s /\
    s.(sent) = [1] ++ ibvQ_bytes (local_of env prm rq env.(e_calloc) (n_pages_of prm.(max_size)))
                                 env.(e_pad) /\
    s.(calls) = [PostSend env.(e_qp) (wr_of env prm env.(e_calloc) rq);
                 ModifyRTS env.(e_qp) (rts_of rq);
                 ModifyRTR env.(e_qp) (rtr_of rq (remote_gid_of rq.(ip_addr)));
                 Listen env.(e_socket); ModifyInit env.(e_qp) 1 0;
                 RegMR env.(e_calloc) prm.(max_size)] /\
    s.(hmem) = bytes_at env.(e_calloc) hello_msg.
Proof.
  intros Hok Hpoll Hwf Hpad Hsz.
  assert (Hlen : length (ibvQ_bytes rq pad) = 64%nat)
    by (rewrite ibvQ_bytes_length, Hpad; [done|apply Hwf]).
  destruct_env env. destruct_setup_ok Hok. cbn in Hpoll.
  eexists. split; [srv_run; reflexivity|]. srv_reduce.
  rewrite recv_buf_after_reads, ibvQ_decode_encode by (done || apply le_bytes_length).
  cbn [vaddr local_of].
  split_conj; [reflexivity | reflexivity | apply map_union_empty].
Qed.

(** C36: The buffer of lines 151-153 in [uint32_t] arithmetic: up to
    [2^32 - 2 MiB] bytes it is [max_size] rounded up to whole 2 MiB pages;
    beyond, the sum wraps and the buffer [calloc] is asked for, and the
    one [ibv_reg_mr] registers [max_size] bytes of, is empty. *)
Theorem buf_bytes_wrap m :
  0 <= m < 2 ^ 32 ->
  (m <= 2 ^ 32 - hugePageSize ->
     m <= buf_bytes (n_pages_of m) < m + hugePageSize /\ buf_bytes (n_pages_of m) mod hugePageSize = 0) /\
  (2 ^ 32 - hugePageSize < m -> buf_bytes (n_pages_of m) = 0).
Proof.
  unfold buf_bytes, n_pages_of, wrap32, hugePageSize. intros Hm. split; intros Hb.
  - rewrite (Z.mod_small (m + _ - 1)) by lia.
    pose proof (Z.div_mod (m + 2 * 1024 * 1024 - 1) (2 * 1024 * 1024) ltac:(lia)) as Hd.
    pose proof (Z.mod_pos_bound (m + 2 * 1024 * 1024 - 1) (2 * 1024 * 1024) ltac:(lia)).
    rewrite Z.mod_small by lia. rewrite Z.mod_mul by lia. split; [lia|reflexivity].
  - rewrite (Z.mod_eq (m + _ - 1)) by lia.
    assert (E : (m + 2 * 1024 * 1024 - 1) / 2 ^ 32 = 1)
      by (symmetry; apply Z.div_unique with (m + 2 * 1024 * 1024 - 1 - 2 ^ 32); lia).
    rewrite E, Z.div_small by lia. reflexivity.
Qed.

(** A run that ends stuck: evaluate it and take its stuck reason. *)
Ltac fail_here := eexists _, _; split; [unfold main; srv_run; reflexivity | auto].

(** The set-up calls before [accept] succeed. *)
Definition reaches_accept (env : verbs_env) : Prop :=
  env.(e_dev_list) ≠ 0 /\ env.(e_devices) ≠ [] /\ env.(e_context) ≠ 0 /\ env.(e_pd) ≠ 0 /\
  env.(e_calloc) ≠ 0 /\ env.(e_mr) ≠ 0 /\ env.(e_comp_channel) ≠ 0 /\ env.(e_cq) ≠ 0 /\
  env.(e_qp) ≠ 0 /\ env.(e_modify_init) = 0 /\ 0 <= env.(e_socket) /\
  0 <= env.(e_setsockopt) /\ 0 <= env.(e_bind).

(** C14: On the success path [main] never returns: the clean-up passes
    [free] the first eight bytes of the message ([*buf], "Hello, A"
    read as a [uint64_t]) instead of [buf], a value no allocation
    returned. *)
Theorem main_frees_message env prm qpid rq pad :
  setup_ok env -> 1 <= env.(e_poll) -> user_pointers env -> ibvQ_wf rq -> length pad = 3%nat ->
  64 <= buf_bytes (n_pages_of prm.(max_size)) ->
  exists s, main env prm (init_srv [le_bytes 4 qpid; ibvQ_bytes rq pad]) = Stuck InvalidFree s.
Proof.
  intros Hok Hpoll Hu Hwf Hpad Hsz.
  assert (Hlen : length (ibvQ_bytes rq pad) = 64%nat)
    by (rewrite ibvQ_bytes_length, Hpad; [done|apply Hwf]).
  destruct_env env. destruct_setup_ok Hok. unfold user_pointers in Hu. cbn in Hpoll, Hu.
  eexists. unfold main. srv_run. reflexivity.
Qed.

(** C15: A failure of any set-up call before [accept] jumps to [end]
    with a variable the clean-up reads still unassigned or a handle
    still NULL: [main] never returns then, it reads an indeterminate
    value or dereferences NULL. *)
Theorem main_setup_failure env prm peer :
  ~ reaches_accept env ->
  exists w s, main env prm (init_srv peer) = Stuck w s /\ (w = Indeterminate \/ w = NullDeref).
Proof.
  unfold reaches_accept. destruct_env env. cbn. intros Hn.
  destruct (decide (dl = 0)); [fail_here|].
  destruct devs as [|d devs]; [fail_here|].
  destruct (decide (ctx = 0)); [fail_here|].
  destruct (decide (pd = 0)); [fail_here|].
  destruct (decide (cal = 0)); [fail_here|].
  destruct (decide (mr = 0)); [fail_here|].
  destruct (decide (ch = 0)); [fail_here|].
  destruct (decide (cq = 0)); [fail_here|].
  destruct (decide (qp = 0)); [fail_here|].
  destruct (decide (mi = 0)); [|fail_here].
  destruct (decide (so = -1)); [fail_here|].
  destruct (decide (ss < 0)); [fail_here|].
  destruct (decide (bi < 0)); [fail_here|].
  destruct (decide (so < 0)); [fail_here|].
  exfalso. apply Hn. split_conj; (done || lia).
Qed.

(** C34: A [read] that returns the peer's [struct ibvQ] in pieces is
    taken for a failure: the server closes [connfd], jumps to [end],
    releases the verbs objects, closes [connfd] a second time and returns
    0 without having freed anything. *)
Theorem short_read_closes_twice env prm qpid seg rest :
  setup_ok env -> (length seg < 64)%nat ->
  exists s, main env prm (init_srv (le_bytes 4 qpid :: seg :: rest)) = Ret 0 s /\
    s.(calls) = [Close env.(e_accept);
                 Destroy "ibv_close_device" env.(e_context); Destroy "ibv_dealloc_pd" env.(e_pd);
                 Destroy "ibv_dereg_mr" env.(e_mr);
                 Destroy "ibv_destroy_comp_channel" env.(e_comp_channel);
                 Destroy "ibv_destroy_cq" env.(e_cq); Destroy "ibv_destroy_qp" env.(e_qp);
                 Close env.(e_accept); Listen env.(e_socket); ModifyInit env.(e_qp) 1 0;
                 RegMR env.(e_calloc) prm.(max_size)].
Proof.
  intros Hok Hseg. destruct_env env. destruct_setup_ok Hok.
  eexists. split; [unfold main; srv_run; reflexivity|].
  reflexivity.
Qed.

(** C35: [ibv_poll_cq] does not wait: when the WRITE has not completed
    yet it returns 0 and leaves [wc] unwritten, and line 655 reads
    [wc.status] all the same, an indeterminate value. *)
Theorem empty_poll_reads_wc env prm qpid rq pad :
  setup_ok env -> env.(e_poll) < 1 -> ibvQ_wf rq -> length pad = 3%nat ->
  64 <= buf_bytes (n_pages_of prm.(max_size)) ->
  exists s, main_body env prm (init_srv [le_bytes 4 qpid; ibvQ_bytes rq pad]) = Stuck Indeterminate s /\
    PostSend env.(e_qp) (wr_of env prm env.(e_calloc) rq) ∈ s.(calls).
Proof.
  intros Hok Hpoll Hwf Hpad Hsz.
  assert (Hlen : length (ibvQ_bytes rq pad) = 64%nat)
    by (rewrite ibvQ_bytes_length, Hpad; [done|apply Hwf]).
  destruct_env env. destruct_setup_ok Hok. cbn in Hpoll.
  eexists. split; [srv_run; reflexivity|]. srv_reduce.
  rewrite recv_buf_after_reads, ibvQ_decode_encode by (done || apply le_bytes_length).
  left.
Qed.
