(* ===== verification/RdmaScenarios.v ===== *)
(** * RdmaScenarios: concrete runs of the RDMA handshake server

    One environment in which every library call succeeds ([env_ok]), the
    peer alveo-u55c-08 of the file's header comment (10.253.74.94,
    184371806) with a queue pair [rq0], and variants in which one call
    fails or the peer splits its message. Each witness applies a theorem
    of Wire.v or RdmaServer.v at these inputs, its hypotheses checked by
    evaluation. *)

From stdpp Require Import strings.
From S2P Require Import Prelude Wire RdmaServer.

(** Handles and addresses a run of the server might see. *)
Definition env_ok : verbs_env :=
  mk_env 0x1000 [0x2000] 0x3000 0x4000 0x7f1200000000 0x5000 11 22 0x6000 0x7000 0x8000 0x123
         0 3 0 0 4 true 0x9000 0xa000 [0; 0; 0] 0 0 0 1 0.

(** The same run with the RTR transition failing with [EINVAL]. *)
Definition env_rtr_einval : verbs_env :=
  mk_env 0x1000 [0x2000] 0x3000 0x4000 0x7f1200000000 0x5000 11 22 0x6000 0x7000 0x8000 0x123
         0 3 0 0 4 true 0x9000 0xa000 [0; 0; 0] 0 22 0 1 0.

(** No RDMA device: [ibv_get_device_list] returns NULL. *)
Definition env_no_device : verbs_env :=
  mk_env 0 [] 0 0 0 0 0 0 0 0 0 0 0 0 0 0 0 true 0 0 [0; 0; 0] 0 0 0 0 0.

(** The completion has not arrived when the server polls. *)
Definition env_no_completion : verbs_env :=
  mk_env 0x1000 [0x2000] 0x3000 0x4000 0x7f1200000000 0x5000 11 22 0x6000 0x7000 0x8000 0x123
         0 3 0 0 4 true 0x9000 0xa000 [0; 0; 0] 0 0 0 0 0.

Definition peer_ip : Z := 184371806.

Definition rq0 : ibvQ := mk_ibvQ peer_ip 0x456 777 33 0x7f0000001000 2097152 (gid_text peer_ip).

Definition pad0 : list Z := [0; 0; 0].

Ltac env_facts := unfold setup_ok, user_pointers; cbn; split_conj; (discriminate || lia || reflexivity).

(** ** Wire *)

Lemma remote_gid_ipv4_mapped_witness :
  gid_raw 0 (remote_gid_of peer_ip) = [0; 0; 0; 0; 0; 0; 0; 0; 0; 0; 255; 255; 10; 253; 74; 94].
Proof. rewrite (remote_gid_ipv4_mapped peer_ip) by (unfold peer_ip; lia). reflexivity. Defined.

Lemma gid_text_fits_witness :
  (length (gid_text peer_ip) = 33)%nat /\ Forall is_hex_char (take 32 (gid_text peer_ip)) /\
  drop 32 (gid_text peer_ip) = [0] /\ parse_hex (fmt_08x peer_ip) = peer_ip.
Proof. apply gid_text_fits. unfold peer_ip. lia. Defined.


(** ** The server *)

Lemma buf_bytes_wrap_witness :
  (64 <= buf_bytes (n_pages_of 64) < 64 + hugePageSize /\
   buf_bytes (n_pages_of 64) mod hugePageSize = 0) /\
  buf_bytes (n_pages_of 4294000000) = 0.
Proof.
  split.
  - apply (proj1 (buf_bytes_wrap 64 ltac:(lia))). unfold hugePageSize. lia.
  - apply (proj2 (buf_bytes_wrap 4294000000 ltac:(lia))). unfold hugePageSize. lia.
Defined.

Lemma handshake_posts_write_witness :
  exists s, main_body env_rtr_einval params_v2 (init_srv [le_bytes 4 0x456; ibvQ_bytes rq0 pad0]) = Ret () s /\
    s.(sent) = [1] ++ ibvQ_bytes (local_of env_rtr_einval params_v2 rq0 0x7f1200000000 (n_pages_of 64)) [0; 0; 0] /\
    s.(calls) = [PostSend 0x8000 (wr_of env_rtr_einval params_v2 0x7f1200000000 rq0);
                 ModifyRTS 0x8000 (rts_of rq0);
                 ModifyRTR 0x8000 (rtr_of rq0 (remote_gid_of peer_ip));
                 Listen 3; ModifyInit 0x8000 1 0; RegMR 0x7f1200000000 64] /\
    s.(hmem) = bytes_at 0x7f1200000000 hello_msg.
Proof.
  apply (handshake_posts_write env_rtr_einval params_v2 0x456 rq0 pad0).
  - env_facts.
  - cbn. lia.
  - vm_decide.
  - reflexivity.
  - vm_compute. discriminate.
Defined.

Lemma main_frees_message_witness :
  exists s, main env_ok params_v2 (init_srv [le_bytes 4 0x456; ibvQ_bytes rq0 pad0]) = Stuck InvalidFree s.
Proof.
  apply (main_frees_message env_ok params_v2 0x456 rq0 pad0).
  - env_facts.
  - cbn. lia.
  - env_facts.
  - vm_decide.
  - reflexivity.
  - vm_compute. discriminate.
Defined.

Lemma main_setup_failure_witness :
  exists w s, main env_no_device params_v2 (init_srv []) = Stuck w s /\
    (w = Indeterminate \/ w = NullDeref).
Proof.
  apply main_setup_failure. unfold reaches_accept. cbn. intros [H _]. apply H. reflexivity.
Defined.

Lemma short_read_closes_twice_witness :
  exists s, main env_ok params_v2 (init_srv [le_bytes 4 0x456; take 32 (ibvQ_bytes rq0 pad0);
                                            drop 32 (ibvQ_bytes rq0 pad0)]) = Ret 0 s /\
    s.(calls) = [Close 4; Destroy "ibv_close_device" 0x3000; Destroy "ibv_dealloc_pd" 0x4000;
                 Destroy "ibv_dereg_mr" 0x5000; Destroy "ibv_destroy_comp_channel" 0x6000;
                 Destroy "ibv_destroy_cq" 0x7000; Destroy "ibv_destroy_qp" 0x8000;
                 Close 4; Listen 3; ModifyInit 0x8000 1 0; RegMR 0x7f1200000000 64].
Proof.
  apply (short_read_closes_twice env_ok params_v2 0x456).
  - env_facts.
  - vm_compute. lia.
Defined.

Lemma empty_poll_reads_wc_witness :
  exists s, main_body env_no_completion params_v2 (init_srv [le_bytes 4 0x456; ibvQ_bytes rq0 pad0])
    = Stuck Indeterminate s /\
    PostSend 0x8000 (wr_of env_no_completion params_v2 0x7f1200000000 rq0) ∈ s.(calls).
Proof.
  apply (empty_poll_reads_wc env_no_completion params_v2 0x456 rq0 pad0).
  - env_facts.
  - cbn. lia.
  - vm_decide.
  - reflexivity.
  - vm_compute. discriminate.
Defined.

