(* ===== verification/Bench.v ===== *)
(** * Bench: what the two Coyote RDMA examples share

    src/artifacts/coyote-experiments/sw/examples/perf_rdma/main.cpp and
    .../rdma_receiver/main.cpp begin with the same text, lines 30-139:
    the parameters, the command-line options, the RDMA IP address from the
    environment, the queue pair and its TCP exchange, the scatter-gather
    entry and the pointer [hMem] to the queue pair's buffer.  This file
    holds that preamble and what both programs use after it:
    - the Coyote library calls they make ([ibvQpMap], [ibvQpConn]), as
      events of a trace; the library is not in the repository, so a call
      is an event and what it returns is a field of [coyote_env];
    - the bytes of [hMem], an array of [n_pages] huge pages: a store or a
      load outside it is [OutOfBounds];
    - the two kinds of C loops they run: an [int] counter against an
      [unsigned] bound ([int_for]) and a [uint32_t] counter ([u32_for]).
    - [ibvSync] as a barrier between the two hosts ([joint]), which two
      traces can pass exactly when they call it as often ([joint_syncs],
      [joint_of_syncs]).
    Here a completion wait is the one event [WaitDone t]; the polling loop
    it stands for, with the [stalled] flag of the signal handler [gotInt],
    is Stall.v.  The [std::cout] output is not modelled. *)

From stdpp Require Import strings.
From S2P Require Import Prelude.

(** ** Parameters, lines 37-47 *)

Definition targetRegion : Z := 0.
Definition qpId : Z := 0.
Definition port : Z := 18488.

Definition defNBenchRuns : Z := 1.
Definition defNRepsThr : Z := 1000.
Definition defNRepsLat : Z := 100.
Definition defMinSize : Z := 128.
Definition defMaxSize : Z := 32 * 1024.
Definition defOper : bool := false.

(** [hugePageSize] of the Coyote header cDefs.hpp (2 MiB); the header is
    not in the repository. *)
Definition hugePageSize_cdefs : Z := 2 * 1024 * 1024.

(** ** The command line, lines 62-75

    The options [boost::program_options] has stored: [None] when the
    option is absent, its value (a [uint32_t], a [string] or a [bool])
    otherwise.  A value [boost] cannot convert makes [store] throw; the
    model starts from the converted values. *)
Record cmdline := mk_cmdline {
  opt_tcpaddr : option string;   (* --tcpaddr, -t *)
  opt_benchruns : option Z;      (* --benchruns, -b *)
  opt_repst : option Z;          (* --repst, -r *)
  opt_repsl : option Z;          (* --repsl, -l *)
  opt_mins : option Z;           (* --mins, -n *)
  opt_maxs : option Z;           (* --maxs, -x *)
  opt_oper : option bool         (* --oper, -w *)
}.

Definition no_options : cmdline := mk_cmdline None None None None None None None.

Definition opt_u32 (o : option Z) : Prop :=
  match o with None => True | Some v => 0 <= v < 2 ^ 32 end.

Definition cmdline_wf (c : cmdline) : Prop :=
  opt_u32 c.(opt_benchruns) /\ opt_u32 c.(opt_repst) /\ opt_u32 c.(opt_repsl) /\
  opt_u32 c.(opt_mins) /\ opt_u32 c.(opt_maxs).

(** ** The automatic variables of lines 77-106 *)

Record args := mk_args {
  tcp_mstr_ip : string;
  n_bench_runs : Z;
  n_reps_thr : Z;
  n_reps_lat : Z;
  min_size : Z;
  max_size : Z;
  oper : bool;
  mstr : bool;
  ibv_ip : string;
  n_pages : Z;
  size : Z
}.

(** Lines 77-106.  [getenv] returning [nullptr] throws a
    [std::runtime_error] no handler catches ([None]).  [n_pages] is
    computed in [uint32_t]: [max_size + hugePageSize - 1] wraps for
    [max_size] above [2^32 - 2^21].  [old_mem_content] (line 84) is only
    ever stored to and is left out. *)
Definition read_args (cl : cmdline) (env_var_ip : option string) : option args :=
  match env_var_ip with
  | None => None
  | Some ip =>
      let '(tcp, m) :=
        match cl.(opt_tcpaddr) with Some t => (t, false) | None => (""%string, true) end in
      let max_s := default defMaxSize cl.(opt_maxs) in
      let min_s := default defMinSize cl.(opt_mins) in
      Some (mk_args tcp (default defNBenchRuns cl.(opt_benchruns))
              (default defNRepsThr cl.(opt_repst)) (default defNRepsLat cl.(opt_repsl))
              min_s max_s (default defOper cl.(opt_oper)) m ip
              (wrap32 (max_s + hugePageSize_cdefs - 1) / hugePageSize_cdefs) min_s)
  end.

(** The bytes of the buffer [addQpair] allocates: [n_pages] huge pages. *)
Definition buffer_bytes (a : args) : Z := a.(n_pages) * hugePageSize_cdefs.

(** ** The library calls *)

Inductive ibvOpcode := IBV_WR_RDMA_READ | IBV_WR_RDMA_WRITE.

Inductive ev :=
| AddQpair (qp_id region : Z) (ip : string) (n_pages : Z)
| ExchangeQpMaster (port : Z)
| ExchangeQpSlave (ip : string) (port : Z)
| IbvSync (mstr : bool)
| IbvClear
| IbvPostSend (len : Z) (op : ibvOpcode)   (* [ibvPostSend(&wr)], [wr.sg_list = &sg] *)
| WaitDone (t : Z)                          (* [while(iqp->ibvDone() < t)] *)
| WaitSent (t : Z)                          (* [while(iqp->ibvSent() < t)] *)
| SendAck (v : Z)
| CloseAck
| ReadAck
| CloseConnection.

#[export] Instance ibvOpcode_eq_dec : EqDecision ibvOpcode.
Proof. solve_decision. Defined.
#[export] Instance ev_eq_dec : EqDecision ev.
Proof. solve_decision. Defined.

(** What the library gives the programs. *)
Record coyote_env := mk_cenv {
  env_ip : option string;   (* getenv("DEVICE_1_IP_ADDRESS_0") *)
  bench_calls : nat;        (* how many times cBench::runtime calls its argument *)
  buf_init : gmap Z Z;      (* hMem as addQpair leaves it; absent bytes are 0 *)
  peer_bytes : list Z       (* rdma_receiver: what the peer's WRITE leaves at hMem[0..] *)
}.

(** ** The state: the buffer, [sg.len] and the calls made, most recent first *)

Record bstate := mk_bs {
  mem : gmap Z Z;
  sg_len : Z;
  events : list ev
}.

Definition log (e : ev) : ST bstate unit :=
  st_modify (fun s => mk_bs s.(mem) s.(sg_len) (e :: s.(events))).

Definition set_sg_len (v : Z) : ST bstate unit :=
  st_modify (fun s => mk_bs s.(mem) v s.(events)).

(** [hMem[o] = v] and [hMem[o]] on a buffer of [buf_len] bytes. *)
Definition store_byte (buf_len o v : Z) : ST bstate unit :=
  if decide (0 <= o < buf_len)
  then st_modify (fun s => mk_bs (<[o:=v]> s.(mem)) s.(sg_len) s.(events))
  else st_stuck OutOfBounds.

Definition load_byte (buf_len o : Z) : ST bstate Z :=
  if decide (0 <= o < buf_len)
  then s ← st_get; mret (default 0 (s.(mem) !! o))
  else st_stuck OutOfBounds.

(** ** Loops

    [for (int i = a; i < b; i++)] with [b] unsigned: [i] is converted to
    [unsigned] for the test, so the body runs for [a .. b - 1]; when
    [b >= 2^31] the body runs for [i = INT_MAX] too and [i++] overflows. *)
Definition int_for {S} (a b : Z) (body : Z -> ST S unit) : ST S unit :=
  if decide (b < 2 ^ 31) then st_iter body (seqZ a (b - a))
  else st_iter body (seqZ a (2 ^ 31 - a));; st_stuck SignedOverflow.

(** [for (uint32_t i = a; i <= b; i++)]: [i++] wraps, so the loop runs
    forever when [b = UINT32_MAX]; [fuel] bounds the iterations. *)
Fixpoint u32_for {S} (fuel : nat) (i b : Z) (body : Z -> ST S unit) : ST S unit :=
  match fuel with
  | O => st_stuck OutOfFuel
  | S f => if decide (i <= b) then body i;; u32_for f (wrap32 (i + 1)) b body else mret ()
  end.

(** ** The common set-up, lines 118-137 *)

Definition opcode_of (a : args) : ibvOpcode :=
  if a.(oper) then IBV_WR_RDMA_WRITE else IBV_WR_RDMA_READ.

(** [addQpair], the exchange with the peer as master or slave, and
    [sg.len = size]. *)
Definition setup (a : args) : ST bstate unit :=
  log (AddQpair qpId targetRegion a.(ibv_ip) a.(n_pages));;
  (if a.(mstr) then log (ExchangeQpMaster port) else log (ExchangeQpSlave a.(tcp_mstr_ip) port));;
  set_sg_len a.(size).

(** The process after the queue pair's buffer is allocated. *)
Definition init_bs (env : coyote_env) : bstate := mk_bs env.(buf_init) 0 [].

(** ** Lemmas *)

(** A command that only appends [evs] to the trace, run when [sg.len]
    is [len]. *)
Definition emits (len : Z) (c : ST bstate unit) (evs : list ev) : Prop :=
  forall s, s.(sg_len) = len -> c s = Ret () (mk_bs s.(mem) s.(sg_len) (rev evs ++ s.(events))).

Section Emits.
Context (len : Z).

Lemma emits_log e : emits len (log e) [e].
Proof. intros s _. reflexivity. Qed.

Lemma emits_bind c1 c2 e1 e2 : emits len c1 e1 -> emits len c2 e2 -> emits len (c1;; c2) (e1 ++ e2).
Proof.
  intros H1 H2 s Hs. rewrite (st_bind_Ret _ _ _ _ _ (H1 s Hs)), H2 by exact Hs. cbn.
  rewrite rev_app_distr, <- app_assoc. reflexivity.
Qed.

Lemma emits_ret : emits len (mret ()) [].
Proof. intros [m l e] _. reflexivity. Qed.

Lemma emits_iter {A} (f : A -> ST bstate unit) (g : A -> list ev) l :
  (forall x, x ∈ l -> emits len (f x) (g x)) -> emits len (st_iter f l) (concat (map g l)).
Proof.
  induction l as [|x l IH]; intros Hf; cbn [st_iter concat map].
  - apply emits_ret.
  - apply emits_bind; [apply Hf; left|]. apply IH. intros y Hy. apply Hf. by right.
Qed.

Lemma emits_int_for a b f g :
  b < 2 ^ 31 -> (forall i, a <= i < b -> emits len (f i) (g i)) ->
  emits len (int_for a b f) (concat (map g (seqZ a (b - a)))).
Proof.
  intros Hb Hf. unfold int_for. rewrite decide_True by lia. apply emits_iter.
  intros i Hi. apply elem_of_seqZ in Hi. apply Hf. lia.
Qed.

Lemma emits_int_for0 b f g :
  0 <= b < 2 ^ 31 -> (forall i, 0 <= i < b -> emits len (f i) (g i)) ->
  emits len (int_for 0 b f) (concat (map g (seqZ 0 b))).
Proof. intros Hb Hf. rewrite <- (Z.sub_0_r b) at 2. apply emits_int_for; [lia|exact Hf]. Qed.

(** Running a command that emits, followed by a continuation. *)
Lemma emits_bind_run {B} c (k : unit -> ST bstate B) evs s :
  emits len c evs -> s.(sg_len) = len ->
  (c ≫= k) s = k () (mk_bs s.(mem) s.(sg_len) (rev evs ++ s.(events))).
Proof. intros Hc Hs. apply st_bind_Ret, Hc, Hs. Qed.

(** [for (uint32_t i = a; i <= b; i++)] with [b < UINT32_MAX] ends after
    [b - a + 1] iterations. *)
Lemma emits_u32_for fuel i b f g :
  0 <= i -> b < 2 ^ 32 - 1 -> (Z.to_nat (b - i + 1) < fuel)%nat ->
  (forall r, i <= r <= b -> emits len (f r) (g r)) ->
  emits len (u32_for fuel i b f) (concat (map g (seqZ i (b - i + 1)))).
Proof.
  revert i. induction fuel as [|fuel IH]; intros i Hi Hb Hf Hg; [lia|]. cbn [u32_for].
  destruct (decide (i <= b)).
  - rewrite seqZ_cons by lia. cbn [map concat]. apply emits_bind; [apply Hg; lia|].
    rewrite wrap32_small by lia. replace (Z.pred (b - i + 1)) with (b - (i + 1) + 1) by lia.
    rewrite <- Z.add_1_r. apply IH; [lia|lia|lia|]. intros r Hr. apply Hg. lia.
  - rewrite seqZ_nil by lia. apply emits_ret.
Qed.

Lemma emits_ext c e1 e2 : e1 = e2 -> emits len c e1 -> emits len c e2.
Proof. intros ->. auto. Qed.

(** A command that reads [sg.len] sees [len]. *)
Lemma emits_get (f : Z -> ST bstate unit) evs :
  emits len (f len) evs -> emits len (s' ← st_get; f s'.(sg_len)) evs.
Proof.
  intros Hf s Hs. change (f s.(sg_len) s = Ret () (mk_bs s.(mem) s.(sg_len) (rev evs ++ s.(events)))).
  rewrite Hs at 1. apply Hf, Hs.
Qed.

End Emits.

Create HintDb bench.
#[export] Hint Resolve emits_log emits_ret emits_bind emits_get : bench.

Lemma setup_run a s :
  setup a s = Ret () (mk_bs s.(mem) a.(size)
    ([if a.(mstr) then ExchangeQpMaster port else ExchangeQpSlave a.(tcp_mstr_ip) port;
      AddQpair qpId targetRegion a.(ibv_ip) a.(n_pages)] ++ s.(events))).
Proof. unfold setup. destruct (mstr a); reflexivity. Qed.

Lemma concat_map_const {A B} (x : B) (l : list A) :
  concat (map (fun _ => [x]) l) = replicate (length l) x.
Proof. induction l as [|y l IH]; cbn; [reflexivity|]. rewrite IH. reflexivity. Qed.

(** ** Stores to consecutive bytes *)

Lemma store_byte_run buf o v s :
  0 <= o < buf -> store_byte buf o v s = Ret () (mk_bs (<[o:=v]> s.(mem)) s.(sg_len) s.(events)).
Proof. intros. unfold store_byte. rewrite decide_True by lia. reflexivity. Qed.

(** [n] stores [hMem[b + k] = val k], [k = 0 .. n-1], inside the buffer. *)
Lemma stores_run buf b n (val : Z -> Z) s :
  0 <= b -> 0 <= n -> b + n <= buf ->
  exists m', st_iter (fun k => store_byte buf (b + k) (val k)) (seqZ 0 n) s
             = Ret () (mk_bs m' s.(sg_len) s.(events)) /\
    forall o, m' !! o = if decide (b <= o < b + n) then Some (val (o - b)) else s.(mem) !! o.
Proof.
  intros Hb Hn Hbuf. rewrite <- (Z2Nat.id n) in Hbuf |- * by lia.
  induction (Z.to_nat n) as [|k IH].
  - exists s.(mem). split; [destruct s; reflexivity|]. intros o. rewrite decide_False by lia. reflexivity.
  - destruct IH as (m & Hrun & Hm); [lia|].
    exists (<[b + Z.of_nat k := val (Z.of_nat k)]> m). rewrite seqZ_S, st_iter_app. split.
    + rewrite (st_bind_Ret _ _ _ _ _ Hrun). cbn [st_iter].
      rewrite (st_bind_Ret _ _ _ _ _ (store_byte_run buf (b + Z.of_nat k) _ _ ltac:(lia))).
      reflexivity.
    + intros o. destruct (decide (o = b + Z.of_nat k)) as [->|Hne].
      * rewrite lookup_insert_eq, decide_True by lia. do 2 f_equal. lia.
      * rewrite lookup_insert_ne by congruence. rewrite Hm.
        destruct (decide (b <= o < b + Z.of_nat k)), (decide (b <= o < b + Z.of_nat (S k))); auto; lia.
Qed.

(** [n] blocks of [w] bytes, [hMem[w*i + k] = val k]: the loop nest of
    both fills. *)
Lemma blocks_run buf w n (off : Z -> Z -> Z) (val : Z -> Z) s :
  0 < w -> 0 <= n -> w * n <= buf -> (forall i k, off i k = w * i + k) ->
  exists m', st_iter (fun i => st_iter (fun k => store_byte buf (off i k) (val k)) (seqZ 0 w))
                     (seqZ 0 n) s = Ret () (mk_bs m' s.(sg_len) s.(events)) /\
    forall o, m' !! o = if decide (0 <= o < w * n) then Some (val (o mod w)) else s.(mem) !! o.
Proof.
  intros Hw Hn Hbuf Hoff.
  rewrite (st_iter_ext _ (fun i => st_iter (fun k => store_byte buf (w * i + k) (val k)) (seqZ 0 w)))
    by (intros i _; apply st_iter_ext; intros k _; rewrite Hoff; reflexivity).
  clear Hoff. rewrite <- (Z2Nat.id n) in Hbuf |- * by lia.
  induction (Z.to_nat n) as [|k IH].
  - exists s.(mem). split; [destruct s; reflexivity|]. intros o. rewrite decide_False by lia. reflexivity.
  - destruct IH as (m & Hrun & Hm); [lia|].
    destruct (stores_run buf (w * Z.of_nat k) w val (mk_bs m s.(sg_len) s.(events))) as (m' & Hrun' & Hm');
      [lia|lia|lia|].
    exists m'. rewrite seqZ_S, st_iter_app. split.
    + rewrite (st_bind_Ret _ _ _ _ _ Hrun). cbn [st_iter].
      rewrite (st_bind_Ret _ _ _ _ _ Hrun'). reflexivity.
    + intros o. rewrite Hm'. cbn [mem]. rewrite Hm.
      destruct (decide (w * Z.of_nat k <= o < w * Z.of_nat k + w)).
      * rewrite decide_True by lia. do 2 f_equal.
        rewrite (Z.mod_unique o w (Z.of_nat k) (o - w * Z.of_nat k)); lia.
      * destruct (decide (0 <= o < w * Z.of_nat k)), (decide (0 <= o < w * Z.of_nat (S k))); auto; lia.
Qed.

(** Two nested loops [for i < m, for j < w] over [i * w + j] visit
    [0 .. w*m - 1] in order. *)
Lemma st_iter_blocks {St} w m (g : Z -> ST St unit) s :
  0 <= w -> 0 <= m ->
  st_iter (fun i => st_iter (fun j => g (i * w + j)) (seqZ 0 w)) (seqZ 0 m) s = st_iter g (seqZ 0 (w * m)) s.
Proof.
  intros Hw Hm. rewrite <- (Z2Nat.id m) by lia. clear Hm. revert s.
  induction (Z.to_nat m) as [|n IH]; intros s; [rewrite Z.mul_0_r; reflexivity|].
  rewrite seqZ_S, st_iter_app. replace (w * Z.of_nat (S n)) with (w * Z.of_nat n + w) by lia.
  rewrite seqZ_app, st_iter_app by lia. apply st_bind_ext; [exact IH|]. intros [] s'.
  rewrite st_iter_single.
  replace (seqZ (0 + w * Z.of_nat n) w) with (Z.add (w * Z.of_nat n) <$> seqZ 0 w)
    by (rewrite fmap_add_seqZ; f_equal; lia).
  rewrite st_iter_fmap, (st_iter_ext _ (fun x => g (w * Z.of_nat n + x))); [reflexivity|].
  intros j _. f_equal. lia.
Qed.

(** ** [ibvSync] as a barrier

    [ibvSync] of the Coyote library exchanges a token with the peer over
    the TCP connection: it returns once the peer's [ibvSync] has sent its
    own.  Two runs can both complete only if their calls interleave so
    that every [ibvSync] of one meets an [ibvSync] of the other; [joint]
    is that interleaving (the other calls are not constrained). *)

Definition is_sync (e : ev) : bool := match e with IbvSync _ => true | _ => false end.

Inductive joint : list ev -> list ev -> Prop :=
| joint_nil : joint [] []
| joint_left e t1 t2 : is_sync e = false -> joint t1 t2 -> joint (e :: t1) t2
| joint_right e t1 t2 : is_sync e = false -> joint t1 t2 -> joint t1 (e :: t2)
| joint_sync b1 b2 t1 t2 : joint t1 t2 -> joint (IbvSync b1 :: t1) (IbvSync b2 :: t2).

Definition syncs (t : list ev) : nat := length (filter (fun e => is_sync e = true) t).

Lemma syncs_app t1 t2 : syncs (t1 ++ t2) = (syncs t1 + syncs t2)%nat.
Proof. unfold syncs. rewrite filter_app, length_app. reflexivity. Qed.

Lemma syncs_cons e t : syncs (e :: t) = ((if is_sync e then 1 else 0) + syncs t)%nat.
Proof. unfold syncs. rewrite filter_cons. destruct (is_sync e); reflexivity. Qed.

(** The barrier pairs the calls one to one. *)
Lemma joint_syncs t1 t2 : joint t1 t2 -> syncs t1 = syncs t2.
Proof. induction 1; rewrite ?syncs_cons; cbn [is_sync]; rewrite ?H; lia. Qed.

Lemma syncs_nil : syncs [] = 0%nat.
Proof. reflexivity. Qed.

Lemma syncs_replicate n e : is_sync e = false -> syncs (replicate n e) = 0%nat.
Proof. intros He. induction n as [|n IH]; [reflexivity|]. cbn [replicate]. rewrite syncs_cons, He, IH. reflexivity. Qed.

Lemma syncs_concat_map {A} (f : A -> list ev) k (l : list A) :
  (forall x, syncs (f x) = k) -> syncs (concat (map f l)) = (k * length l)%nat.
Proof.
  intros Hf. induction l as [|x l IH]; cbn [map concat length]; [rewrite syncs_nil; lia|].
  rewrite syncs_app, Hf, IH. lia.
Qed.

(** Conversely, two traces with as many [ibvSync] calls each can be
    interleaved so that the barrier pairs them: the barrier is the only
    constraint between the two runs. *)
Lemma joint_of_syncs_len n t1 t2 :
  (length t1 + length t2 <= n)%nat -> syncs t1 = syncs t2 -> joint t1 t2.
Proof.
  revert t1 t2. induction n as [|n IH]; intros t1 t2 Hlen Hs.
  - destruct t1, t2; cbn in Hlen; try lia. constructor.
  - destruct t1 as [|e1 t1]; [destruct t2 as [|e2 t2]; [constructor|]|].
    + rewrite syncs_nil, syncs_cons in Hs. destruct (is_sync e2) eqn:E2; cbn in Hs; [lia|].
      apply joint_right; [exact E2|]. apply IH; [cbn in Hlen |- *; lia|rewrite syncs_nil; lia].
    + rewrite syncs_cons in Hs. destruct (is_sync e1) eqn:E1; cbn in Hs.
      * destruct t2 as [|e2 t2]; [rewrite syncs_nil in Hs; lia|].
        rewrite syncs_cons in Hs. destruct (is_sync e2) eqn:E2; cbn in Hs.
        -- destruct e1; try discriminate. destruct e2; try discriminate.
           apply joint_sync. apply IH; [cbn in Hlen |- *; lia|lia].
        -- apply joint_right; [exact E2|]. apply IH; [cbn in Hlen |- *; lia|].
           rewrite syncs_cons, E1. cbn. lia.
      * apply joint_left; [exact E1|]. apply IH; [cbn in Hlen |- *; lia|lia].
Qed.

Lemma joint_of_syncs t1 t2 : syncs t1 = syncs t2 -> joint t1 t2.
Proof. apply (joint_of_syncs_len (length t1 + length t2)). lia. Qed.

(** Reading a byte inside the buffer. *)
Lemma load_byte_ok buf o s :
  0 <= o < buf -> load_byte buf o s = Ret (default 0 (s.(mem) !! o)) s.
Proof. intros. unfold load_byte. rewrite decide_True by lia. reflexivity. Qed.
