(* ===== verification/Stall.v ===== *)
(** * Stall: the completion waits of perf_rdma and rdma_receiver and SIGINT

    Both programs install [gotInt] for SIGINT before anything else
    (src/artifacts/coyote-experiments/sw/examples/perf_rdma/main.cpp,
    lines 31-34 and 56-60; the same lines in rdma_receiver/main.cpp):
    the handler only sets the atomic flag [stalled], and SIGINT no longer
    ends the process.  A wait for completions is a loop polling the
    library's counter, [while(iqp->ibvDone() < t) { if (stalled.load())
    throw ...; }] (perf_rdma lines 246, 269 and 285, rdma_receiver line
    154); the slave's latency wait, line 309, is [while(iqp->ibvDone() <
    t) {}] and never looks at the flag.

    What each poll reads comes from outside the process: [done k] is the
    value [ibvDone()] returns at the [k]-th poll, and [sigint] the poll
    before which the handler has run, if it runs.  The loops return the
    index of the poll that ends them; [fuel] bounds the polls.  The
    events [WaitDone t] of Bench.v stand for these loops. *)

From stdpp Require Import base list.
From S2P Require Import Prelude.

(** [stalled] at the [k]-th poll: [gotInt] stores [true] and nothing
    stores [false] again. *)
Definition stalled_at (sigint : option nat) (k : nat) : bool :=
  match sigint with Some j => bool_decide (j <= k)%nat | None => false end.

Section Wait.
Context (done : nat -> Z) (t : Z).

(** [while(iqp->ibvDone() < t) { if (stalled.load()) throw
    std::runtime_error(...); }]: the exception is not caught. *)
Fixpoint wait_done_chk (sigint : option nat) (fuel k : nat) : stuck_reason + nat :=
  match fuel with
  | O => inl OutOfFuel
  | S f =>
      if decide (done k < t)
      then if stalled_at sigint k then inl Uncaught else wait_done_chk sigint f (S k)
      else inr k
  end.

(** [while(iqp->ibvDone() < t) {}], line 309. *)
Fixpoint wait_done_spin (fuel k : nat) : stuck_reason + nat :=
  match fuel with
  | O => inl OutOfFuel
  | S f => if decide (done k < t) then wait_done_spin f (S k) else inr k
  end.

(** ** Properties *)

(** C23: Refinement.  Both waits return at the first poll that sees [t]
    completions, when no SIGINT came before it: they implement the event
    [WaitDone t] of the benchmark's model, within one more poll of fuel
    than the polls the counter takes to reach [t]. *)
Theorem wait_done_refines sigint n fuel k :
  (forall j, (j < n)%nat -> done (k + j)%nat < t /\ stalled_at sigint (k + j)%nat = false) ->
  t <= done (k + n)%nat -> (n < fuel)%nat ->
  wait_done_chk sigint fuel k = inr (k + n)%nat /\ wait_done_spin fuel k = inr (k + n)%nat.
Proof.
  revert fuel k. induction n as [|n IH]; intros [|f] k Hbefore Ht Hf; try lia;
    cbn [wait_done_chk wait_done_spin].
  - rewrite Nat.add_0_r in Ht |- *. rewrite !decide_False by lia. split; reflexivity.
  - destruct (Hbefore 0%nat ltac:(lia)) as (Hlt & Hst). rewrite Nat.add_0_r in Hlt, Hst.
    rewrite !decide_True by exact Hlt. rewrite Hst.
    replace (k + S n)%nat with (S k + n)%nat in Ht |- * by lia. apply IH; [|exact Ht|lia].
    intros j Hj. replace (S k + j)%nat with (k + S j)%nat by lia. apply Hbefore. lia.
Qed.

(** C24: Liveness.  When the counter never reaches [t] (the peer is gone)
    and SIGINT arrives before poll [j], the checking waits of lines 246,
    269, 285 and 154 throw at the first poll from [j] on, but the slave's
    latency wait of line 309 polls for ever: since [gotInt] replaced the
    default action, Ctrl-C cannot end a slave stuck there. *)
Theorem sigint_stops_checked_waits_only j k :
  (forall m, done m < t) ->
  (forall fuel, (j - k < fuel)%nat -> wait_done_chk (Some j) fuel k = inl Uncaught) /\
  (forall fuel, wait_done_spin fuel k = inl OutOfFuel).
Proof.
  intros Hd. split.
  - intros fuel. revert k. induction fuel as [|f IH]; intros k Hf; [lia|]. cbn [wait_done_chk stalled_at].
    rewrite decide_True by apply Hd. case_bool_decide; [reflexivity|]. apply IH. lia.
  - intros fuel. revert k. induction fuel as [|f IH]; intros k; [reflexivity|]. cbn [wait_done_spin].
    rewrite decide_True by apply Hd. apply IH.
Qed.

End Wait.
