(* ===== verification/PerfRdma.v ===== *)
(** * PerfRdma: [main] of src/artifacts/coyote-experiments/sw/examples/perf_rdma/main.cpp

    The RDMA benchmark runs on two hosts: the master (no [--tcpaddr])
    measures, the slave answers.  After the common preamble (Bench.v) and
    a first [ibvSync], it fills [hMem] with a 64-byte pattern (lines
    143-213) and sweeps the transfer size [sg.len] from [min_size],
    doubling it while it is at most [max_size] (lines 216-358).  For each
    size the master runs a throughput and a latency benchmark through
    [cBench::runtime] (lines 222-274); the slave, in write mode, waits for
    the master's requests and posts its own (lines 279-340).  Both end
    with the acknowledgement exchange of lines 363-369.

    The state is Bench's [bstate]: the buffer, [sg.len] and the library
    calls made.  The sweep has no bound in the code, so [sweep] takes
    fuel; running out of it is [OutOfFuel]. *)

From stdpp Require Import strings.
From S2P Require Import Prelude Bench.

(** ** The fill, lines 143-213 *)

(** The 64 bytes lines 144-207 store into each 64-byte block. *)
Definition fill_pattern : list Z :=
  [0x3b; 0x29; 0x6e; 0x17; 0xc2; 0x9e; 0x0c; 0xd2; 0x65; 0x2b; 0x7b; 0xaf; 0xeb; 0xba; 0xc9; 0xb5;
   0x41; 0x63; 0x04; 0xd0; 0xd8; 0x24; 0xf7; 0x52; 0x20; 0x4f; 0xc3; 0xaf; 0x86; 0x3e; 0x10; 0xd7;
   0xbc; 0x39; 0xa6; 0xeb; 0x9a; 0xef; 0x8e; 0x75; 0xa6; 0xf1; 0x4f; 0xc5; 0x3f; 0x89; 0x1e; 0x25;
   0xd5; 0x3e; 0x21; 0x7c; 0x54; 0xf1; 0x54; 0x87; 0x71; 0xd6; 0x7c; 0x6b; 0xe2; 0x19; 0x7e; 0xd1].

(** One iteration of the loop of line 143: [hMem[64*i+k] = ...] for
    [k = 0 .. 63], in this order. *)
Definition fill_block (buf_len i : Z) : ST bstate unit :=
  st_iter (fun k => store_byte buf_len (64 * i + k) (nth (Z.to_nat k) fill_pattern 0)) (seqZ 0 64).

Definition fill (a : args) : ST bstate unit :=
  int_for 0 (a.(max_size) / 64) (fill_block (buffer_bytes a)).

Section Perf.
Context (env : coyote_env) (a : args).

(** [iqp->ibvPostSend(&wr)]: [wr] points to [sg], so the request carries
    the current [sg.len]. *)
Definition post : ST bstate unit :=
  s ← st_get; log (IbvPostSend s.(sg_len) (opcode_of a)).

(** The values of [n_runs] the successive calls of a benchmark lambda see
    after their [n_runs++], when [n_runs] was [n0] before
    [bench.runtime]. *)
Definition runs_from (n0 : Z) : list Z :=
  map (fun k => wrap32 (n0 + Z.of_nat k)) (seq 1 env.(bench_calls)).

(** [benchmark_thr], lines 235-247, after its [n_runs++]. *)
Definition benchmark_thr (n_runs : Z) : ST bstate unit :=
  int_for 0 a.(n_reps_thr) (fun _ => post);;
  log (WaitDone (wrap32 (a.(n_reps_thr) * n_runs))).

(** The completions the [i]-th latency request of run [n_runs] waits
    for, [(i+1) + ((n_runs-1) * n_reps_lat)] in [unsigned] arithmetic. *)
Definition lat_target (n_runs i : Z) : Z := wrap32 (i + 1 + (n_runs - 1) * a.(n_reps_lat)).

(** [benchmark_lat], lines 261-271, after its [n_runs++]. *)
Definition benchmark_lat (n_runs : Z) : ST bstate unit :=
  int_for 0 a.(n_reps_lat) (fun i => post;; log (WaitDone (lat_target n_runs i))).

(** The master's measurements for one size, lines 231-273: [n_runs]
    starts at 0 for both benchmarks (lines 232 and 256). *)
Definition master_round : ST bstate unit :=
  st_iter benchmark_thr (runs_from 0);;
  log IbvClear;;
  log (IbvSync a.(mstr));;
  st_iter benchmark_lat (runs_from 0).

(** One run of the slave's throughput loop, lines 285-293. *)
Definition slave_thr_run (n_runs : Z) : ST bstate unit :=
  log (WaitDone (wrap32 (a.(n_reps_thr) * n_runs)));;
  int_for 0 a.(n_reps_thr) (fun _ => post).

(** One iteration of the slave's latency loop, lines 309-332: the read
    [old_mem_content = hMem[sg.len/8-1]] takes its index in [unsigned]
    arithmetic. *)
Definition slave_lat_step (n_runs i : Z) : ST bstate unit :=
  log (WaitDone (lat_target n_runs i));;
  s ← st_get;
  _ ← load_byte (buffer_bytes a) (wrap32 (s.(sg_len) / 8 - 1));
  post;;
  log (WaitSent (lat_target n_runs i)).

(** The slave's part for one size, lines 279-344: the throughput loop
    counts with a [uint32_t], the latency loop with an [int]. *)
Definition slave_round (fuel : nat) : ST bstate unit :=
  if a.(oper) then
    u32_for fuel 1 a.(n_bench_runs) slave_thr_run;;
    log IbvClear;;
    log (IbvSync a.(mstr));;
    int_for 1 (a.(n_bench_runs) + 1) (fun n_runs => int_for 0 a.(n_reps_lat) (slave_lat_step n_runs))
  else log (IbvSync a.(mstr)).

(** The body of the sweep, lines 217-357: [sg.len *= 2] wraps. *)
Definition round (fuel : nat) : ST bstate unit :=
  log IbvClear;;
  log (IbvSync a.(mstr));;
  (if a.(mstr) then master_round else slave_round fuel);;
  s ← st_get;
  set_sg_len (wrap32 (s.(sg_len) * 2)).

(** [while(sg.len <= max_size)], line 216. *)
Fixpoint sweep (fuel : nat) : ST bstate unit :=
  match fuel with
  | O => st_stuck OutOfFuel
  | S f =>
      s ← st_get;
      if decide (s.(sg_len) <= a.(max_size)) then round f;; sweep f else mret ()
  end.

(** Lines 363-369. *)
Definition finish : ST bstate unit :=
  if a.(mstr) then log (SendAck 1);; log CloseAck else log ReadAck;; log CloseConnection.

(** Lines 118-371. *)
Definition run (fuel : nat) : ST bstate unit :=
  setup a;;
  log (IbvSync a.(mstr));;
  fill a;;
  sweep fuel;;
  finish.

End Perf.

(** [main], lines 49-106: the arguments, then the run. *)
Definition perf_main (env : coyote_env) (cl : cmdline) (fuel : nat) : ST bstate unit :=
  match read_args cl env.(env_ip) with
  | None => st_stuck Uncaught
  | Some a => run env a fuel
  end.

(** ** What the master's run should be

    The trace the master produces, written from what the benchmark
    means: for each size, [n_reps_thr] requests and a wait for all of them
    per call of the throughput lambda, then for each latency request a
    wait for it; the sizes are [min_size * 2^k] up to [max_size]. *)

Section MasterSpec.
Context (a : args) (calls : nat).

Definition calls_seq : list Z := map Z.of_nat (seq 1 calls).

Definition thr_spec (len r : Z) : list ev :=
  replicate (Z.to_nat a.(n_reps_thr)) (IbvPostSend len (opcode_of a)) ++
  [WaitDone (a.(n_reps_thr) * r)].

Definition lat_spec (len r : Z) : list ev :=
  concat (map (fun i => [IbvPostSend len (opcode_of a); WaitDone (i + 1 + (r - 1) * a.(n_reps_lat))])
              (seqZ 0 a.(n_reps_lat))).

Definition round_spec (len : Z) : list ev :=
  [IbvClear; IbvSync true] ++ concat (map (thr_spec len) calls_seq) ++
  [IbvClear; IbvSync true] ++ concat (map (lat_spec len) calls_seq).

Definition master_prefix : list ev :=
  [AddQpair qpId targetRegion a.(ibv_ip) a.(n_pages); ExchangeQpMaster port; IbvSync true].

Definition master_trace (sizes : list Z) : list ev :=
  master_prefix ++ concat (map round_spec sizes) ++ [SendAck 1; CloseAck].

End MasterSpec.

Definition doubling_sizes (min max : Z) : list Z :=
  filter (fun v => v <= max) (map (fun k => min * 2 ^ Z.of_nat k) (seq 0 32)).

(** The sizes the sweep visits, with the same fuel: [None] when the
    fuel runs out before [sg.len] exceeds [max]. *)
Fixpoint visited (max : Z) (fuel : nat) (v : Z) : option (list Z) :=
  match fuel with
  | O => None
  | S f => if decide (v <= max) then l ← visited max f (wrap32 (v * 2)); Some (v :: l) else Some []
  end.


(** Every [ibvDone] wait asks for exactly the requests posted since the
    last [ibvClear]. *)
Fixpoint waits_match_from (n : Z) (tr : list ev) : bool :=
  match tr with
  | [] => true
  | IbvClear :: tr' => waits_match_from 0 tr'
  | IbvPostSend _ _ :: tr' => waits_match_from (n + 1) tr'
  | WaitDone t :: tr' => bool_decide (t = n) && waits_match_from n tr'
  | _ :: tr' => waits_match_from n tr'
  end.

Definition waits_match (tr : list ev) : bool := waits_match_from 0 tr.

(** The conditions under which the master's waits do not wrap and its
    [int] loop counters do not overflow. *)
Definition master_ok (a : args) (calls : nat) : Prop :=
  a.(mstr) = true /\ 0 <= a.(n_reps_thr) < 2 ^ 31 /\ 0 <= a.(n_reps_lat) < 2 ^ 31 /\
  Z.of_nat calls < 2 ^ 32 /\
  a.(n_reps_thr) * Z.of_nat calls < 2 ^ 32 /\ a.(n_reps_lat) * Z.of_nat calls < 2 ^ 32.

(** ** The arguments *)

Lemma read_args_Some cl ip a :
  read_args cl ip = Some a ->
  a.(n_pages) = wrap32 (a.(max_size) + hugePageSize_cdefs - 1) / hugePageSize_cdefs /\
  a.(size) = a.(min_size) /\ a.(mstr) = bool_decide (cl.(opt_tcpaddr) = None).
Proof. destruct ip; [|discriminate]. cbn. destruct (opt_tcpaddr cl); intros [= <-]; auto. Qed.

Lemma read_args_wf cl ip a :
  cmdline_wf cl -> read_args cl ip = Some a ->
  0 <= a.(min_size) < 2 ^ 32 /\ 0 <= a.(max_size) < 2 ^ 32.
Proof.
  intros (_ & _ & _ & Hmin & Hmax). destruct ip; [|discriminate]. cbn.
  destruct (opt_tcpaddr cl); intros [= <-]; cbn;
    destruct (opt_mins cl), (opt_maxs cl); cbn in *; unfold defMinSize, defMaxSize; lia.
Qed.

(** Above [2^32 - 2^21], [max_size + hugePageSize - 1] wraps and
    [n_pages] is 0. *)
Lemma n_pages_wrap max : 2 ^ 32 - 2 ^ 21 < max < 2 ^ 32 ->
  wrap32 (max + hugePageSize_cdefs - 1) / hugePageSize_cdefs = 0.
Proof.
  intros Hm. unfold wrap32, hugePageSize_cdefs.
  rewrite (Z.mod_eq _ (2 ^ 32)) by lia.
  replace ((max + 2 * 1024 * 1024 - 1) / 2 ^ 32) with 1.
  - apply Z.div_small. lia.
  - apply (Z.div_unique _ _ _ (max + 2 * 1024 * 1024 - 1 - 2 ^ 32)); lia.
Qed.

(** Without wrap-around, the [n_pages] huge pages cover [max_size]
    bytes, so they hold the [max_size / 64] blocks of the fill. *)
Lemma buffer_covers cl ip a :
  read_args cl ip = Some a -> 0 <= a.(max_size) <= 2 ^ 32 - 2 ^ 21 -> a.(max_size) <= buffer_bytes a.
Proof.
  intros Ha Hm. destruct (read_args_Some _ _ _ Ha) as (Hn & _). unfold buffer_bytes.
  rewrite Hn, wrap32_small by (unfold hugePageSize_cdefs; lia). unfold hugePageSize_cdefs.
  pose proof (Z.div_mod (a.(max_size) + 2 * 1024 * 1024 - 1) (2 * 1024 * 1024) ltac:(lia)).
  pose proof (Z.mod_pos_bound (a.(max_size) + 2 * 1024 * 1024 - 1) (2 * 1024 * 1024) ltac:(lia)).
  lia.
Qed.

Lemma fill_fits cl ip a :
  read_args cl ip = Some a -> 0 <= a.(max_size) <= 2 ^ 32 - 2 ^ 21 ->
  64 * (a.(max_size) / 64) <= buffer_bytes a.
Proof.
  intros Ha Hm. pose proof (buffer_covers _ _ _ Ha Hm). pose proof (Z.mul_div_le a.(max_size) 64). lia.
Qed.

(** The fill stores the pattern into [hMem[0 .. 64 * (max_size/64) - 1]]
    and leaves the rest of the buffer as it was. *)
Lemma fill_run a s :
  0 <= a.(max_size) < 2 ^ 32 -> 64 * (a.(max_size) / 64) <= buffer_bytes a ->
  exists m', fill a s = Ret () (mk_bs m' s.(sg_len) s.(events)) /\
    forall o, m' !! o = if decide (0 <= o < 64 * (a.(max_size) / 64))
                        then Some (nth (Z.to_nat (o mod 64)) fill_pattern 0) else s.(mem) !! o.
Proof.
  intros Hm Hb. unfold fill, int_for. rewrite decide_True by (apply Z.div_lt_upper_bound; lia).
  rewrite Z.sub_0_r.
  apply (blocks_run _ 64 _ (fun i k => 64 * i + k) (fun k => nth (Z.to_nat k) fill_pattern 0));
    [lia| |lia|reflexivity].
  apply Z.div_pos; lia.
Qed.

(** ** The master's run *)

Section MasterRun.
Context (env : coyote_env) (a : args) (Hok : master_ok a env.(bench_calls)).

Lemma post_emits len : emits len (post a) [IbvPostSend len (opcode_of a)].
Proof. apply (emits_get _ (fun v => log (IbvPostSend v (opcode_of a)))), emits_log. Qed.

Lemma calls_seq_range r : r ∈ calls_seq env.(bench_calls) -> 1 <= r <= Z.of_nat env.(bench_calls).
Proof.
  unfold calls_seq. intros (k & -> & Hk)%list_elem_of_fmap.
  apply list_elem_of_In, in_seq in Hk. lia.
Qed.

Lemma runs_from_0 : runs_from env 0 = calls_seq env.(bench_calls).
Proof.
  destruct Hok as (_ & _ & _ & Hc & _). unfold runs_from, calls_seq.
  apply map_ext_in. intros k Hk%in_seq. apply wrap32_small. lia.
Qed.

Lemma thr_emits len r :
  1 <= r <= Z.of_nat env.(bench_calls) -> emits len (benchmark_thr a r) (thr_spec a len r).
Proof.
  destruct Hok as (_ & Ht & _ & _ & Htc & _). intros Hr. unfold benchmark_thr, thr_spec.
  apply emits_bind.
  - eapply emits_ext; [|apply emits_int_for0; [lia|intros; apply post_emits]].
    rewrite concat_map_const, length_seqZ. reflexivity.
  - rewrite wrap32_small by nia. apply emits_log.
Qed.

Lemma lat_emits len r :
  1 <= r <= Z.of_nat env.(bench_calls) -> emits len (benchmark_lat a r) (lat_spec a len r).
Proof.
  destruct Hok as (_ & _ & Hl & _ & _ & Hlc). intros Hr. unfold benchmark_lat, lat_spec.
  apply emits_int_for0; [lia|]. intros i Hi.
  apply (emits_bind _ _ _ [_] [_]); [apply post_emits|].
  unfold lat_target. rewrite wrap32_small by nia. apply emits_log.
Qed.

Lemma master_round_emits len :
  emits len (master_round env a)
    (concat (map (thr_spec a len) (calls_seq env.(bench_calls))) ++ [IbvClear; IbvSync true] ++
     concat (map (lat_spec a len) (calls_seq env.(bench_calls)))).
Proof.
  unfold master_round. rewrite runs_from_0. destruct Hok as (Hm & _). rewrite Hm.
  apply emits_bind; [apply emits_iter; intros r Hr; apply thr_emits, calls_seq_range, Hr|].
  apply (emits_bind _ _ _ [_]); [apply emits_log|].
  apply (emits_bind _ _ _ [_]); [apply emits_log|].
  apply emits_iter. intros r Hr. apply lat_emits, calls_seq_range, Hr.
Qed.

Lemma round_master_run f s :
  round env a f s =
  Ret () (mk_bs s.(mem) (wrap32 (s.(sg_len) * 2))
            (rev (round_spec a env.(bench_calls) s.(sg_len)) ++ s.(events))).
Proof.
  unfold round. destruct Hok as (Hm & _). rewrite Hm.
  rewrite (emits_bind_run _ _ _ _ _ (emits_log _ IbvClear) eq_refl).
  rewrite (emits_bind_run _ _ _ _ _ (emits_log _ (IbvSync true)) eq_refl).
  rewrite (emits_bind_run _ _ _ _ _ (master_round_emits _) eq_refl).
  cbn. unfold round_spec. rewrite !rev_app_distr, <- !app_assoc. reflexivity.
Qed.

Lemma sweep_S f s :
  sweep env a (S f) s =
  (if decide (s.(sg_len) <= a.(max_size)) then round env a f;; sweep env a f else mret ()) s.
Proof. reflexivity. Qed.

Lemma sweep_master_run fuel s :
  match visited a.(max_size) fuel s.(sg_len) with
  | Some l => exists v, sweep env a fuel s =
      Ret () (mk_bs s.(mem) v (rev (concat (map (round_spec a env.(bench_calls)) l)) ++ s.(events)))
  | None => exists s', sweep env a fuel s = Stuck OutOfFuel s'
  end.
Proof.
  revert s. induction fuel as [|f IH]; intros s; cbn [visited].
  - eexists. reflexivity.
  - rewrite sweep_S. destruct (decide (sg_len s <= max_size a)) as [Hle|]; [|exists s.(sg_len); destruct s; reflexivity].
    rewrite (st_bind_Ret _ _ _ _ _ (round_master_run f s)).
    specialize (IH (mk_bs s.(mem) (wrap32 (s.(sg_len) * 2))
                          (rev (round_spec a env.(bench_calls) s.(sg_len)) ++ s.(events)))).
    cbn [sg_len mem events] in IH. destruct (visited _ f _) as [vs|]; cbn [mbind option_bind]; [|exact IH].
    destruct IH as (v & ->). exists v. cbn [map concat]. rewrite rev_app_distr, <- app_assoc. reflexivity.
Qed.

End MasterRun.

(** ** The sizes the sweep visits *)





Lemma filter_above max (l : list Z) :
  Forall (fun v => max < v) l -> filter (fun v => v <= max) l = [].
Proof. induction 1; [reflexivity|]. rewrite filter_cons_False by lia. assumption. Qed.

Lemma visited_doubling_from max min n j fuel :
  0 < min -> max < 2 ^ 31 -> (j + n = 32)%nat -> (n < fuel)%nat ->
  visited max fuel (min * 2 ^ Z.of_nat j) =
  Some (filter (fun v => v <= max) (map (fun k => min * 2 ^ Z.of_nat k) (seq j n))).
Proof.
  intros Hmin Hmax. revert j fuel. induction n as [|n IH]; intros j [|f] Hjn Hf; try lia.
  - cbn [visited seq map filter]. rewrite decide_False; [reflexivity|].
    replace j with 32%nat by lia. pose proof (Z.pow_pos_nonneg 2 (Z.of_nat 32)). nia.
  - cbn [visited seq map]. case_decide as Hle.
    + rewrite filter_cons_True by exact Hle.
      replace (wrap32 (min * 2 ^ Z.of_nat j * 2)) with (min * 2 ^ Z.of_nat (S j)).
      * rewrite (IH (S j) f) by lia. reflexivity.
      * rewrite Nat2Z.inj_succ, Z.pow_succ_r by lia. rewrite wrap32_small; [lia|].
        pose proof (Z.pow_pos_nonneg 2 (Z.of_nat j)). nia.
    + rewrite filter_cons_False by exact Hle. rewrite filter_above; [reflexivity|].
      apply Forall_forall. intros v (k & -> & Hk%list_elem_of_In%in_seq)%list_elem_of_fmap.
      assert (2 ^ Z.of_nat j <= 2 ^ Z.of_nat k) by (apply Z.pow_le_mono_r; lia). nia.
Qed.

Lemma visited_doubling max min fuel :
  0 < min -> max < 2 ^ 31 -> (33 <= fuel)%nat -> visited max fuel min = Some (doubling_sizes min max).
Proof.
  intros. rewrite <- (Z.mul_1_r min) at 1. change 1 with (2 ^ Z.of_nat 0).
  apply visited_doubling_from; lia.
Qed.

(** ** [main] as master *)

Section MasterMain.
Context (env : coyote_env) (cl : cmdline) (a : args).
Context (Ha : read_args cl env.(env_ip) = Some a) (Hok : master_ok a env.(bench_calls)).
Context (Hmax : 0 <= a.(max_size) <= 2 ^ 32 - 2 ^ 21).

(** The master's run: the sizes [visited] gives, or out of fuel. *)
Lemma perf_master_main fuel :
  match visited a.(max_size) fuel a.(min_size) with
  | Some l => exists s, perf_main env cl fuel (init_bs env) = Ret () s /\
      rev s.(events) = master_trace a env.(bench_calls) l /\
      forall o, s.(mem) !! o = if decide (0 <= o < 64 * (a.(max_size) / 64))
                               then Some (nth (Z.to_nat (o mod 64)) fill_pattern 0)
                               else env.(buf_init) !! o
  | None => exists s, perf_main env cl fuel (init_bs env) = Stuck OutOfFuel s
  end.
Proof.
  destruct (read_args_Some _ _ _ Ha) as (_ & Hsize & _). pose proof Hok as (Hm & _).
  unfold perf_main. rewrite Ha. unfold run.
  rewrite (st_bind_Ret _ _ _ _ _ (setup_run _ _)), Hm.
  rewrite (emits_bind_run _ _ _ _ _ (emits_log _ _) eq_refl). cbn [mem sg_len events].
  destruct (fill_run a (mk_bs (buf_init env) (size a) ([IbvSync true] ++
              [ExchangeQpMaster port; AddQpair qpId targetRegion (ibv_ip a) (n_pages a)] ++ [])))
    as (m' & Hf & Hm'); [lia|eapply fill_fits; eauto|].
  rewrite (st_bind_Ret _ _ _ _ _ Hf).
  pose proof (sweep_master_run env a Hok fuel (mk_bs m' (size a) ([IbvSync true] ++
              [ExchangeQpMaster port; AddQpair qpId targetRegion (ibv_ip a) (n_pages a)] ++ [])))
    as Hs.
  cbn [sg_len mem events] in Hs. rewrite Hsize in Hs |- *.
  destruct (visited _ fuel _) as [l|].
  - destruct Hs as (v & Hs). rewrite (st_bind_Ret _ _ _ _ _ Hs).
    eexists. split; [unfold finish; rewrite Hm; reflexivity|]. split.
    + cbn [events rev]. unfold master_trace, master_prefix.
      rewrite !rev_app_distr, rev_involutive. cbn [rev app]. rewrite <- !app_assoc. reflexivity.
    + exact Hm'.
  - destruct Hs as (s' & Hs). rewrite (st_bind_Stuck _ _ _ _ _ Hs). eexists. reflexivity.
Qed.

End MasterMain.

(** ** The wait protocol of the master's trace *)

Fixpoint posts_after (n : Z) (tr : list ev) : Z :=
  match tr with
  | [] => n
  | IbvClear :: tr' => posts_after 0 tr'
  | IbvPostSend _ _ :: tr' => posts_after (n + 1) tr'
  | _ :: tr' => posts_after n tr'
  end.

Lemma waits_match_app n l1 l2 :
  waits_match_from n (l1 ++ l2) = waits_match_from n l1 && waits_match_from (posts_after n l1) l2.
Proof.
  revert n. induction l1 as [|e l1 IH]; intros n; [reflexivity|].
  destruct e; cbn [app waits_match_from posts_after]; rewrite ?IH, ?andb_assoc; reflexivity.
Qed.

Lemma posts_after_app n l1 l2 : posts_after n (l1 ++ l2) = posts_after (posts_after n l1) l2.
Proof. revert n. induction l1 as [|e l1 IH]; intros n; [reflexivity|]. destruct e; apply IH. Qed.

(** A block and the counter it leaves. *)
Definition block_ok (n : Z) (l : list ev) (n' : Z) : Prop :=
  waits_match_from n l = true /\ posts_after n l = n'.

Lemma block_ok_app n l1 n1 l2 n2 : block_ok n l1 n1 -> block_ok n1 l2 n2 -> block_ok n (l1 ++ l2) n2.
Proof.
  intros [H1 P1] [H2 P2]. split.
  - rewrite waits_match_app, H1, P1, H2. reflexivity.
  - rewrite posts_after_app, P1. exact P2.
Qed.

Lemma block_ok_posts n k len op :
  block_ok n (replicate k (IbvPostSend len op)) (n + Z.of_nat k).
Proof.
  revert n. induction k as [|k IH]; intros n; [split; [reflexivity|cbn; lia]|].
  destruct (IH (n + 1)) as [H P]. split; [exact H|]. cbn. rewrite P. lia.
Qed.

Lemma block_ok_wait n : block_ok n [WaitDone n] n.
Proof. split; cbn; [rewrite bool_decide_eq_true_2 by reflexivity|]; reflexivity. Qed.

Section RoundOk.
Context (a : args) (len : Z).
Context (Ht : 0 <= a.(n_reps_thr)) (Hl : 0 <= a.(n_reps_lat)).

Lemma thr_blocks_ok k r0 :
  block_ok (a.(n_reps_thr) * Z.of_nat r0) (concat (map (thr_spec a len) (map Z.of_nat (seq (S r0) k))))
           (a.(n_reps_thr) * Z.of_nat (r0 + k)).
Proof.
  revert r0. induction k as [|k IH]; intros r0.
  - split; [reflexivity|]. cbn. f_equal. lia.
  - cbn [seq map concat]. unfold thr_spec. rewrite <- app_assoc.
    eapply block_ok_app; [apply block_ok_posts|].
    replace (a.(n_reps_thr) * Z.of_nat r0 + Z.of_nat (Z.to_nat a.(n_reps_thr)))
      with (a.(n_reps_thr) * Z.of_nat (S r0)) by lia.
    eapply block_ok_app; [apply block_ok_wait|].
    replace (r0 + S k)%nat with (S r0 + k)%nat by lia. apply IH.
Qed.

Lemma lat_steps_ok r k :
  block_ok ((r - 1) * a.(n_reps_lat))
    (concat (map (fun i => [IbvPostSend len (opcode_of a); WaitDone (i + 1 + (r - 1) * a.(n_reps_lat))])
                 (seqZ 0 (Z.of_nat k))))
    ((r - 1) * a.(n_reps_lat) + Z.of_nat k).
Proof.
  induction k as [|k IH].
  { rewrite seqZ_nil by lia. split; cbn [map concat posts_after]; [reflexivity|lia]. }
  rewrite seqZ_S, map_app, concat_app. eapply block_ok_app; [exact IH|].
  cbn [map concat app]. split.
  - cbn. rewrite bool_decide_eq_true_2 by lia. reflexivity.
  - cbn. lia.
Qed.

Lemma lat_blocks_ok k r0 :
  block_ok (a.(n_reps_lat) * Z.of_nat r0) (concat (map (lat_spec a len) (map Z.of_nat (seq (S r0) k))))
           (a.(n_reps_lat) * Z.of_nat (r0 + k)).
Proof.
  revert r0. induction k as [|k IH]; intros r0.
  - split; [reflexivity|]. cbn. f_equal. lia.
  - cbn [seq map concat]. unfold lat_spec at 1.
    pose proof (lat_steps_ok (Z.of_nat (S r0)) (Z.to_nat a.(n_reps_lat))) as H.
    rewrite Z2Nat.id in H by lia.
    replace (a.(n_reps_lat) * Z.of_nat r0) with ((Z.of_nat (S r0) - 1) * a.(n_reps_lat)) at 1 by lia.
    eapply block_ok_app; [exact H|].
    replace ((Z.of_nat (S r0) - 1) * a.(n_reps_lat) + a.(n_reps_lat))
      with (a.(n_reps_lat) * Z.of_nat (S r0)) by lia.
    replace (r0 + S k)%nat with (S r0 + k)%nat by lia. apply IH.
Qed.

Lemma round_spec_ok calls n : waits_match_from n (round_spec a calls len) = true.
Proof.
  unfold round_spec, calls_seq. cbn [app waits_match_from].
  destruct (thr_blocks_ok calls 0) as [H1 P1]. rewrite Z.mul_0_r in H1, P1.
  rewrite waits_match_app, H1, P1. cbn [app waits_match_from andb].
  destruct (lat_blocks_ok calls 0) as [H2 _]. rewrite Z.mul_0_r in H2. exact H2.
Qed.

End RoundOk.

Lemma master_trace_ok a calls l :
  0 <= a.(n_reps_thr) -> 0 <= a.(n_reps_lat) -> waits_match (master_trace a calls l) = true.
Proof.
  intros Ht Hl. unfold waits_match, master_trace, master_prefix. cbn [app waits_match_from].
  rewrite waits_match_app. apply andb_true_intro. split; [|reflexivity].
  generalize 0. induction l as [|len l IH]; intros n; [reflexivity|].
  cbn [map concat]. rewrite waits_match_app, round_spec_ok by assumption. apply IH.
Qed.

(** ** Out-of-bounds accesses *)

Lemma fill_oob a s :
  buffer_bytes a = 0 -> 64 <= a.(max_size) < 2 ^ 32 -> fill a s = Stuck OutOfBounds s.
Proof.
  intros Hb Hm. unfold fill, int_for. rewrite decide_True by (apply Z.div_lt_upper_bound; lia).
  rewrite Z.sub_0_r, seqZ_cons by (apply Z.div_str_pos; lia). cbn [st_iter].
  apply st_bind_Stuck. unfold fill_block. rewrite Hb. reflexivity.
Qed.

(** The slave's part for one size in write mode, up to its first
    latency step. *)
Section SlaveRun.
Context (env : coyote_env) (a : args).
Context (Hslave : a.(mstr) = false) (Hoper : a.(oper) = true).
Context (Hruns : 1 <= a.(n_bench_runs) < 2 ^ 31 - 1).
Context (Hthr : 0 <= a.(n_reps_thr) < 2 ^ 31) (Hlat : 1 <= a.(n_reps_lat) < 2 ^ 31).

Lemma slave_thr_emits len r :
  emits len (slave_thr_run a r)
    ([WaitDone (wrap32 (a.(n_reps_thr) * r))] ++ concat (map (fun _ => [IbvPostSend len (opcode_of a)])
                                                    (seqZ 0 a.(n_reps_thr)))).
Proof.
  apply emits_bind; [apply emits_log|]. apply emits_int_for0; [lia|]. intros. apply post_emits.
Qed.

(** The first latency step reads [hMem[sg.len/8 - 1]]. *)
Lemma slave_round_read f s :
  (Z.to_nat a.(n_bench_runs) < f)%nat ->
  ~ (0 <= wrap32 (s.(sg_len) / 8 - 1) < buffer_bytes a) ->
  exists s', slave_round a f s = Stuck OutOfBounds s'.
Proof.
  intros Hf Hout. unfold slave_round. rewrite Hoper.
  rewrite (emits_bind_run _ _ _ _ _ (emits_u32_for s.(sg_len) f 1 a.(n_bench_runs) (slave_thr_run a) _
             ltac:(lia) ltac:(lia) ltac:(lia) (fun r _ => slave_thr_emits _ r)) eq_refl).
  rewrite (emits_bind_run _ _ _ _ _ (emits_log _ _) eq_refl).
  rewrite (emits_bind_run _ _ _ _ _ (emits_log _ _) eq_refl). cbn [sg_len mem events].
  unfold int_for at 1. rewrite decide_True by lia.
  rewrite seqZ_cons by lia. cbn [st_iter]. eexists. apply st_bind_Stuck.
  unfold int_for. rewrite decide_True by lia. rewrite Z.sub_0_r, seqZ_cons by lia. cbn [st_iter].
  apply st_bind_Stuck. unfold slave_lat_step.
  rewrite (emits_bind_run _ _ _ _ _ (emits_log _ _) eq_refl). cbn [sg_len mem events].
  erewrite st_bind_Ret; [|reflexivity]. cbn beta. apply st_bind_Stuck.
  unfold load_byte. rewrite decide_False by exact Hout. reflexivity.
Qed.

End SlaveRun.

(** ** Properties of [main] *)

(** C17: Refinement.  Run as master with [0 < min_size], [max_size < 2^31],
    [int] loop bounds below [2^31] and wait targets that do not wrap,
    [main] returns within 33 iterations of the sweep, and the library
    calls it makes are exactly [master_trace] over the sizes
    [min_size * 2^k <= max_size]: for each size, per call of each
    benchmark lambda, its requests of [sg.len] bytes and its waits. *)
Theorem perf_master_refines env cl a fuel :
  cmdline_wf cl -> read_args cl env.(env_ip) = Some a -> master_ok a env.(bench_calls) ->
  0 < a.(min_size) -> a.(max_size) < 2 ^ 31 -> (33 <= fuel)%nat ->
  exists s, perf_main env cl fuel (init_bs env) = Ret () s /\
    rev s.(events) = master_trace a env.(bench_calls) (doubling_sizes a.(min_size) a.(max_size)).
Proof.
  intros Hwf Ha Hok Hmin Hmax Hf. destruct (read_args_wf _ _ _ Hwf Ha) as (_ & Hm).
  pose proof (perf_master_main env cl a Ha Hok ltac:(lia) fuel) as H.
  rewrite visited_doubling in H by lia. destruct H as (s & Hrun & Htr & _). eauto.
Qed.



(** C22: Invariant.  As master, in every run of [main] that returns, each
    wait [while(ibvDone() < t)] asks for exactly the requests posted since
    the last [ibvClear]: the throughput wait for all [n_reps_thr * n_runs]
    of them, the latency wait for the one just posted. *)
Theorem perf_master_waits_match env cl a fuel s :
  cmdline_wf cl -> read_args cl env.(env_ip) = Some a -> master_ok a env.(bench_calls) ->
  a.(max_size) <= 2 ^ 32 - 2 ^ 21 ->
  perf_main env cl fuel (init_bs env) = Ret () s -> waits_match (rev s.(events)) = true.
Proof.
  intros Hwf Ha Hok Hmax Hrun. destruct (read_args_wf _ _ _ Hwf Ha) as (_ & Hm).
  pose proof Hok as (_ & Ht & Hl & _).
  pose proof (perf_master_main env cl a Ha Hok ltac:(lia) fuel) as H.
  destruct (visited _ _ _) as [l|].
  - destruct H as (s' & Hrun' & Htr & _). rewrite Hrun in Hrun'. injection Hrun' as <-.
    rewrite Htr. apply master_trace_ok; lia.
  - destruct H as (s' & Hrun'). congruence.
Qed.


(** C27: Bounds.  When [max_size] is above [2^32 - 2^21], the [uint32_t]
    sum [max_size + hugePageSize - 1] wraps, [n_pages] is 0, the queue
    pair gets no buffer and the first store of the fill,
    [hMem[0] = 0x3b], is out of bounds, for master and slave alike. *)
Theorem perf_fill_overflow env cl a fuel :
  cmdline_wf cl -> read_args cl env.(env_ip) = Some a -> 2 ^ 32 - 2 ^ 21 < a.(max_size) ->
  exists s, perf_main env cl fuel (init_bs env) = Stuck OutOfBounds s.
Proof.
  intros Hwf Ha Hmax. destruct (read_args_wf _ _ _ Hwf Ha) as (_ & Hm).
  destruct (read_args_Some _ _ _ Ha) as (Hn & _).
  unfold perf_main. rewrite Ha. unfold run.
  rewrite (st_bind_Ret _ _ _ _ _ (setup_run _ _)).
  rewrite (emits_bind_run _ _ _ _ _ (emits_log _ _) eq_refl).
  eexists. apply st_bind_Stuck, fill_oob; [|lia].
  unfold buffer_bytes. rewrite Hn, n_pages_wrap by lia. reflexivity.
Qed.

(** C26: Error.  The slave in write mode with [min_size < 8] reads
    [hMem[sg.len/8 - 1]] in its first latency step: [sg.len/8 - 1] is
    [0u - 1 = 2^32 - 1], far outside the buffer, so [main] has undefined
    behaviour once the throughput loop is done. *)
Theorem perf_slave_small_read env cl a fuel :
  cmdline_wf cl -> read_args cl env.(env_ip) = Some a ->
  a.(mstr) = false -> a.(oper) = true ->
  1 <= a.(n_bench_runs) < 2 ^ 31 - 1 -> 0 <= a.(n_reps_thr) < 2 ^ 31 -> 1 <= a.(n_reps_lat) < 2 ^ 31 ->
  a.(min_size) < 8 -> a.(min_size) <= a.(max_size) < 2 ^ 31 -> (Z.to_nat a.(n_bench_runs) + 2 <= fuel)%nat ->
  exists s, perf_main env cl fuel (init_bs env) = Stuck OutOfBounds s.
Proof.
  intros Hwf Ha Hslave Hoper Hruns Hthr Hlat Hmin Hmax Hf.
  destruct (read_args_wf _ _ _ Hwf Ha) as (Hmin0 & _).
  destruct (read_args_Some _ _ _ Ha) as (Hn & Hsize & _).
  unfold perf_main. rewrite Ha. unfold run.
  rewrite (st_bind_Ret _ _ _ _ _ (setup_run _ _)).
  rewrite (emits_bind_run _ _ _ _ _ (emits_log _ _) eq_refl). cbn [mem sg_len events].
  destruct (fill_run a (mk_bs (buf_init env) (size a) (rev [IbvSync (mstr a)] ++
              [if mstr a then ExchangeQpMaster port else ExchangeQpSlave (tcp_mstr_ip a) port;
               AddQpair qpId targetRegion (ibv_ip a) (n_pages a)] ++ [])))
    as (m' & Hfill & _); [lia|eapply fill_fits; [exact Ha|lia]|].
  rewrite (st_bind_Ret _ _ _ _ _ Hfill).
  destruct fuel as [|f]; [lia|]. apply st_bind_Stuck_ex.
  rewrite sweep_S. cbn [sg_len]. rewrite Hsize, decide_True by lia. apply st_bind_Stuck_ex.
  unfold round. rewrite Hslave.
  rewrite (emits_bind_run _ _ _ _ _ (emits_log _ _) eq_refl).
  rewrite (emits_bind_run _ _ _ _ _ (emits_log _ _) eq_refl).
  cbn iota. apply st_bind_Stuck_ex.
  match goal with |- exists _, slave_round a f ?st = _ =>
    destruct (slave_round_read a Hoper Hruns Hthr Hlat f st) as (s' & Hs) end; [lia| |].
  - cbn [sg_len]. rewrite Z.div_small by lia. unfold buffer_bytes. rewrite Hn.
    unfold hugePageSize_cdefs. change (wrap32 (0 - 1)) with (2 ^ 32 - 1). rewrite wrap32_small by lia.
    pose proof (Z.div_le_upper_bound (max_size a + 2 * 1024 * 1024 - 1) (2 * 1024 * 1024) 1025).
    lia.
  - eauto.
Qed.
