(* ===== verification/Receiver.v ===== *)
(** * Receiver: [main] of src/artifacts/coyote-experiments/sw/examples/rdma_receiver/main.cpp

    The receiver is perf_rdma's preamble (lines 30-139, Bench.v) without
    the [ibvSync] of line 140, which is commented out, followed by a fill
    of its own (lines 145-150), a wait for one completed RDMA operation
    (line 154) and the construction of a [std::string] from [hMem] (line
    156), which reads bytes up to the first NUL.

    The peer's RDMA WRITE is not an action of this program: [deliver]
    models the bytes it leaves at the start of [hMem], [coyote_env.peer_bytes]
    saying which.  Nothing orders the WRITE against the fill (the
    [ibvSync] of line 140 is commented out); it has landed by the time
    [ibvDone()] reaches 1.  So the receiver is modelled for every landing
    point: [k] is the number of the fill's stores done when the WRITE
    lands, and its theorems hold for every [k]. *)

From stdpp Require Import strings.
From S2P Require Import Prelude Bench PerfRdma.

(** Bytes [bytes] written from offset [o] on. *)
Fixpoint write_bytes (o : Z) (bytes : list Z) (m : gmap Z Z) : gmap Z Z :=
  match bytes with
  | [] => m
  | b :: bs => write_bytes (o + 1) bs (<[o:=b]> m)
  end.

(** The peer's WRITE into the [buf] bytes of [hMem]. *)
Definition deliver (buf : Z) (bytes : list Z) : ST bstate unit :=
  st_modify (fun s => mk_bs (write_bytes 0 (take (Z.to_nat buf) bytes) s.(mem)) s.(sg_len) s.(events)).

(** When the peer's WRITE lands is not decided by this program: with the
    [ibvSync] of line 140 commented out, nothing orders it against the
    fill.  [k] is the number of the fill's stores done when it lands;
    the WRITE lands just before store [n] when [n = k]. *)
Definition peer_lands (env : coyote_env) (a : args) (k : nat) (n : Z) : ST bstate unit :=
  if decide (n = Z.of_nat k) then deliver (buffer_bytes a) env.(peer_bytes) else mret ().

(** Lines 145-150: [hMem[i*8+j] = 1] for [i < max_size/64], [j < 8], the
    store [i*8+j] preceded by the peer's WRITE when it lands there. *)
Definition recv_fill (env : coyote_env) (a : args) (k : nat) : ST bstate unit :=
  int_for 0 (a.(max_size) / 64)
    (fun i => int_for 0 8 (fun j => peer_lands env a k (i * 8 + j);;
                                    store_byte (buffer_bytes a) (i * 8 + j) 1)).

(** [std::string mem_content(hMem)], line 156: the bytes from [hMem[0]]
    up to the first NUL; a read past the buffer is [OutOfBounds], so the
    fuel [buf + 1] is never what stops the scan. *)
Fixpoint c_string_from (buf : Z) (fuel : nat) (o : Z) : ST bstate (list Z) :=
  match fuel with
  | O => st_stuck OutOfBounds
  | S f =>
      b ← load_byte buf o;
      if decide (b = 0) then mret [] else rest ← c_string_from buf f (o + 1); mret (b :: rest)
  end.

Definition c_string (buf : Z) : ST bstate (list Z) := c_string_from buf (S (Z.to_nat buf)) 0.

(** Lines 118-174: the queue pair and the exchange, the fill, the wait,
    the string, which is what the program prints.  A WRITE that lands
    after the last store of the fill lands before the wait of line 154
    returns. *)
Definition recv_run (env : coyote_env) (a : args) (k : nat) : ST bstate (list Z) :=
  setup a;;
  recv_fill env a k;;
  (if decide (8 * (a.(max_size) / 64) <= Z.of_nat k) then deliver (buffer_bytes a) env.(peer_bytes)
   else mret ());;
  log (WaitDone 1);;
  c_string (buffer_bytes a).

(** [main], lines 49-175: the arguments, lines 62-106, are perf_rdma's
    text, [read_args]. *)
Definition receiver_main (env : coyote_env) (cl : cmdline) (k : nat) : ST bstate (list Z) :=
  match read_args cl env.(env_ip) with
  | None => st_stuck Uncaught
  | Some a => recv_run env a k
  end.

(** ** The peer's bytes *)

(** The bytes the peer's WRITE leaves in [hMem]. *)
Definition peer_data (env : coyote_env) (a : args) : list Z :=
  take (Z.to_nat (buffer_bytes a)) env.(peer_bytes).

Lemma write_bytes_lookup o bs m p :
  write_bytes o bs m !! p =
  if decide (o <= p < o + Z.of_nat (length bs)) then bs !! Z.to_nat (p - o) else m !! p.
Proof.
  revert o m. induction bs as [|b bs IH]; intros o m; cbn [write_bytes length].
  - rewrite decide_False by lia. reflexivity.
  - rewrite IH. destruct (decide (o + 1 <= p < o + 1 + Z.of_nat (length bs))).
    + rewrite decide_True by lia. replace (Z.to_nat (p - o)) with (S (Z.to_nat (p - (o + 1)))) by lia.
      reflexivity.
    + destruct (decide (p = o)) as [->|Hne].
      * rewrite lookup_insert_eq, decide_True by lia. rewrite Z.sub_diag. reflexivity.
      * rewrite lookup_insert_ne by congruence. rewrite decide_False by lia. reflexivity.
Qed.

Lemma deliver_run buf bytes s :
  deliver buf bytes s = Ret () (mk_bs (write_bytes 0 (take (Z.to_nat buf) bytes) s.(mem)) s.(sg_len) s.(events)).
Proof. reflexivity. Qed.

(** The peer's WRITE on [hMem]. *)
Lemma deliver_lookup env a m p :
  write_bytes 0 (take (Z.to_nat (buffer_bytes a)) env.(peer_bytes)) m !! p =
  if decide (0 <= p < Z.of_nat (length (peer_data env a))) then peer_data env a !! Z.to_nat p else m !! p.
Proof. rewrite write_bytes_lookup, Z.sub_0_r. reflexivity. Qed.

(** ** The fill, with the WRITE landing in it *)

(** [hMem] after the first [n] stores of the fill, from [m0]. *)
Definition fill_mem (env : coyote_env) (a : args) (k : nat) (m0 : gmap Z Z) (n o : Z) : option Z :=
  if decide (0 <= o < n /\ Z.of_nat k <= o) then Some 1
  else if decide (Z.of_nat k < n /\ 0 <= o < Z.of_nat (length (peer_data env a)))
  then peer_data env a !! Z.to_nat o
  else if decide (0 <= o < n) then Some 1 else m0 !! o.

Lemma recv_stores_run env a k n s :
  0 <= n <= buffer_bytes a ->
  exists m', st_iter (fun n => peer_lands env a k n;; store_byte (buffer_bytes a) n 1) (seqZ 0 n) s
             = Ret () (mk_bs m' s.(sg_len) s.(events)) /\
    forall o, m' !! o = fill_mem env a k s.(mem) n o.
Proof.
  intros Hn. rewrite <- (Z2Nat.id n) in Hn |- * by lia. induction (Z.to_nat n) as [|i IH].
  - exists s.(mem). split; [destruct s; reflexivity|]. intros o. unfold fill_mem.
    rewrite !decide_False by lia. reflexivity.
  - destruct IH as (m & Hrun & Hm); [lia|]. rewrite seqZ_S, st_iter_app, (st_bind_Ret _ _ _ _ _ Hrun).
    rewrite st_iter_single, Z.add_0_l. unfold peer_lands.
    destruct (decide (Z.of_nat i = Z.of_nat k)) as [Hik|Hik].
    + eexists. split.
      * rewrite (st_bind_Ret _ _ _ _ _ (deliver_run _ _ _)), store_byte_run by lia. reflexivity.
      * intros o. cbn [mem]. destruct (decide (o = Z.of_nat i)) as [->|Hne].
        -- rewrite lookup_insert_eq. unfold fill_mem. rewrite decide_True by lia. reflexivity.
        -- rewrite lookup_insert_ne by congruence. rewrite deliver_lookup, Hm. unfold fill_mem.
           repeat case_decide; try lia; reflexivity.
    + eexists. split.
      * rewrite (st_bind_Ret _ _ _ _ _ (st_ret_run _ _)), store_byte_run by lia. reflexivity.
      * intros o. cbn [mem]. destruct (decide (o = Z.of_nat i)) as [->|Hne].
        -- rewrite lookup_insert_eq. unfold fill_mem. repeat case_decide; try lia; reflexivity.
        -- rewrite lookup_insert_ne by congruence. rewrite Hm. unfold fill_mem.
           repeat case_decide; try lia; reflexivity.
Qed.

Lemma recv_fill_run env a k s :
  0 <= a.(max_size) < 2 ^ 32 -> 8 * (a.(max_size) / 64) <= buffer_bytes a ->
  exists m', recv_fill env a k s = Ret () (mk_bs m' s.(sg_len) s.(events)) /\
    forall o, m' !! o = fill_mem env a k s.(mem) (8 * (a.(max_size) / 64)) o.
Proof.
  intros Hm Hb. pose proof (Z.div_pos a.(max_size) 64 ltac:(lia)).
  destruct (recv_stores_run env a k (8 * (a.(max_size) / 64)) s) as (m' & Hrun & Hm'); [lia|].
  exists m'. split; [|exact Hm']. rewrite <- Hrun. unfold recv_fill, int_for at 1.
  rewrite decide_True by (apply Z.div_lt_upper_bound; lia). rewrite Z.sub_0_r.
  rewrite (st_iter_ext _ (fun i => st_iter (fun j => (fun n => peer_lands env a k n;;
             store_byte (buffer_bytes a) n 1) (i * 8 + j)) (seqZ 0 8)))
    by (intros i _; unfold int_for; rewrite decide_True by lia; reflexivity).
  apply (st_iter_blocks 8 _ (fun n => peer_lands env a k n;; store_byte (buffer_bytes a) n 1)); lia.
Qed.

(** ** Reading the C string *)

Section CString.
Context (buf : Z) (s : bstate).
Let byte (p : Z) : Z := default 0 (s.(mem) !! p).

(** The bytes before the first NUL, when it is inside the buffer. *)
Lemma c_string_from_ok k fuel o :
  0 <= o -> o + Z.of_nat k < buf -> (k < fuel)%nat ->
  (forall j, (j < k)%nat -> byte (o + Z.of_nat j) <> 0) -> byte (o + Z.of_nat k) = 0 ->
  c_string_from buf fuel o s = Ret (byte <$> seqZ o (Z.of_nat k)) s.
Proof.
  revert fuel o. induction k as [|k IH]; intros [|f] o Ho Hk Hf Hnz Hz; try lia; cbn [c_string_from].
  - rewrite (st_bind_Ret _ _ _ _ _ (load_byte_ok buf o s ltac:(lia))). rewrite Z.add_0_r in Hz.
    rewrite decide_True by exact Hz. reflexivity.
  - rewrite (st_bind_Ret _ _ _ _ _ (load_byte_ok buf o s ltac:(lia))).
    pose proof (Hnz 0%nat ltac:(lia)) as H0. rewrite Z.add_0_r in H0. rewrite decide_False by exact H0.
    assert (Hrest : c_string_from buf f (o + 1) s = Ret (byte <$> seqZ (o + 1) (Z.of_nat k)) s).
    { apply IH; [lia|lia|lia| |].
      - intros j Hj. replace (o + 1 + Z.of_nat j) with (o + Z.of_nat (S j)) by lia. apply Hnz. lia.
      - replace (o + 1 + Z.of_nat k) with (o + Z.of_nat (S k)) by lia. exact Hz. }
    rewrite (st_bind_Ret _ _ _ _ _ Hrest).
    rewrite (seqZ_cons o) by lia. rewrite Nat2Z.inj_succ, Z.pred_succ, <- Z.add_1_r. reflexivity.
Qed.

(** No NUL from [o] to the end of the buffer: the scan reads past it. *)
Lemma c_string_from_oob fuel o :
  0 <= o <= buf -> (Z.to_nat (buf - o) < fuel)%nat -> (forall p, o <= p < buf -> byte p <> 0) ->
  c_string_from buf fuel o s = Stuck OutOfBounds s.
Proof.
  revert o. induction fuel as [|f IH]; intros o Ho Hf Hnz; [lia|]. cbn [c_string_from].
  destruct (decide (o = buf)) as [->|Hne].
  - apply st_bind_Stuck. unfold load_byte. rewrite decide_False by lia. reflexivity.
  - rewrite (st_bind_Ret _ _ _ _ _ (load_byte_ok buf o s ltac:(lia))).
    rewrite decide_False by (apply Hnz; lia). apply st_bind_Stuck. apply IH; [lia|lia|].
    intros p Hp. apply Hnz. lia.
Qed.

End CString.

(** ** [main] up to the string *)

Section RecvMain.
Context (env : coyote_env) (cl : cmdline) (a : args) (k : nat).
Context (Hwf : cmdline_wf cl) (Ha : read_args cl env.(env_ip) = Some a).
Context (Hmax : a.(max_size) <= 2 ^ 32 - 2 ^ 21).

(** What [hMem] holds when the string is built: a [1] of the fill where
    its store came after the WRITE, else the peer's byte, else a [1] of
    the fill, else the buffer as it was allocated. *)
Definition recv_mem_spec (o : Z) : option Z :=
  if decide (0 <= o < 8 * (a.(max_size) / 64) /\ Z.of_nat k <= o) then Some 1
  else if decide (0 <= o < Z.of_nat (length (peer_data env a))) then peer_data env a !! Z.to_nat o
  else if decide (0 <= o < 8 * (a.(max_size) / 64)) then Some 1 else env.(buf_init) !! o.

Lemma recv_main_run :
  exists s', receiver_main env cl k (init_bs env) = c_string (buffer_bytes a) s' /\
    s'.(events) = [WaitDone 1; if a.(mstr) then ExchangeQpMaster port else ExchangeQpSlave a.(tcp_mstr_ip) port;
                   AddQpair qpId targetRegion a.(ibv_ip) a.(n_pages)] /\
    forall o, s'.(mem) !! o = recv_mem_spec o.
Proof.
  destruct (read_args_wf _ _ _ Hwf Ha) as (_ & Hm). pose proof (buffer_covers _ _ _ Ha ltac:(lia)).
  unfold receiver_main. rewrite Ha. unfold recv_run.
  rewrite (st_bind_Ret _ _ _ _ _ (setup_run _ _)).
  match goal with |- exists _, (recv_fill env a k ≫= _) ?st = _ /\ _ =>
    destruct (recv_fill_run env a k st) as (m' & Hf & Hm');
      [lia|pose proof (Z.mul_div_le a.(max_size) 64); lia|] end.
  rewrite (st_bind_Ret _ _ _ _ _ Hf). cbn [mem] in Hm'.
  destruct (decide (8 * (a.(max_size) / 64) <= Z.of_nat k)) as [Hlate|Hearly].
  - rewrite (st_bind_Ret _ _ _ _ _ (deliver_run _ _ _)).
    rewrite (emits_bind_run _ _ _ _ _ (emits_log _ _) eq_refl).
    eexists. split; [reflexivity|]. split; [reflexivity|].
    intros o. cbn [mem]. rewrite deliver_lookup, Hm'. unfold recv_mem_spec, fill_mem.
    repeat case_decide; try lia; reflexivity.
  - rewrite (st_bind_Ret _ _ _ _ _ (st_ret_run _ _)).
    rewrite (emits_bind_run _ _ _ _ _ (emits_log _ _) eq_refl).
    eexists. split; [reflexivity|]. split; [reflexivity|].
    intros o. cbn [mem]. rewrite Hm'. unfold recv_mem_spec, fill_mem.
    repeat case_decide; try lia; reflexivity.
Qed.

End RecvMain.

Lemma length_concat_replicate {A} n (l : list A) : length (concat (replicate n l)) = (n * length l)%nat.
Proof. induction n as [|n IH]; cbn; [reflexivity|]. rewrite length_app, IH. lia. Qed.

Lemma Forall_concat_replicate {A} (P : A -> Prop) n l :
  Forall P l -> Forall P (concat (replicate n l)).
Proof. intros Hl. induction n as [|n IH]; cbn; [constructor|]. apply Forall_app_2; assumption. Qed.

Lemma fill_pattern_nonzero : Forall (fun b => b <> 0) fill_pattern.
Proof. repeat constructor; discriminate. Qed.

(** ** Properties *)

(** C29: Functional.  On a zeroed buffer, when the peer's WRITE leaves
    [L] non-zero bytes, fewer than the buffer holds, and lands after the
    first [k] stores of the fill, the receiver prints, for each offset
    below the larger of [L] and [F = 8 * (max_size / 64)], a [1] where
    the fill stored after the WRITE ([k <= o < F]), else the peer's byte,
    else a [1] of the fill.  The output depends on [k]: a WRITE that lands
    before the fill is overwritten by it. *)
Theorem receiver_prints env cl a k :
  cmdline_wf cl -> read_args cl env.(env_ip) = Some a -> a.(max_size) <= 2 ^ 32 - 2 ^ 21 ->
  env.(buf_init) = ∅ -> Forall (fun b => b <> 0) env.(peer_bytes) ->
  Z.of_nat (length env.(peer_bytes)) < buffer_bytes a ->
  exists s, receiver_main env cl k (init_bs env) =
    Ret ((fun o => if decide (Z.of_nat k <= o < 8 * (a.(max_size) / 64)) then 1
                   else default 1 (env.(peer_bytes) !! Z.to_nat o))
         <$> seqZ 0 (Z.of_nat (Nat.max (length env.(peer_bytes)) (Z.to_nat (8 * (a.(max_size) / 64)))))) s.
Proof.
  intros Hwf Ha Hmax Hinit Hpeer Hlen.
  destruct (read_args_wf _ _ _ Hwf Ha) as (_ & Hm). pose proof (buffer_covers _ _ _ Ha ltac:(lia)) as Hcov.
  destruct (recv_main_run env cl a k Hwf Ha Hmax) as (s' & Hrun & _ & Hmem).
  rewrite Hrun. exists s'. unfold c_string.
  set (peer := peer_bytes env) in *. set (F := 8 * (a.(max_size) / 64)).
  set (K := Nat.max (length peer) (Z.to_nat F)).
  pose proof (Z.mul_div_le a.(max_size) 64 ltac:(lia)). pose proof (Z.div_pos a.(max_size) 64 ltac:(lia)).
  set (f := fun o => if decide (Z.of_nat k <= o < F) then 1 else default 1 (peer !! Z.to_nat o)).
  assert (Hbyte : forall o, 0 <= o -> default 0 (s'.(mem) !! o) = if decide (o < Z.of_nat K) then f o else 0).
  { intros o Ho. rewrite Hmem. unfold recv_mem_spec, peer_data. fold peer. rewrite take_ge by lia.
    rewrite Hinit, lookup_empty. unfold f. fold F.
    destruct (peer !! Z.to_nat o) eqn:E; [apply lookup_lt_Some in E|apply lookup_ge_None in E];
      repeat case_decide; cbn; try lia; reflexivity. }
  assert (Hnz : forall o, 0 <= o -> f o <> 0).
  { intros o Ho. unfold f. case_decide; [discriminate|].
    destruct (peer !! Z.to_nat o) eqn:E; cbn; [|discriminate].
    eapply Forall_lookup_1 in Hpeer; [exact Hpeer|exact E]. }
  rewrite (c_string_from_ok _ _ K); [|lia|lia|lia| |].
  - f_equal. apply list_fmap_ext. intros i x (-> & Hi)%lookup_seqZ.
    rewrite Hbyte, decide_True by lia. reflexivity.
  - intros j Hj. rewrite Hbyte, decide_True by lia. apply Hnz. lia.
  - rewrite Hbyte, decide_False by lia. reflexivity.
Qed.

(** C25: Error.  When the peer is perf_rdma and its WRITE fills the whole
    buffer with the fill pattern of perf_rdma (lines 144-207), which has
    no NUL byte, [std::string(hMem)] reads past the end of the buffer,
    wherever the WRITE lands in the fill. *)
Theorem receiver_reads_past_pattern env cl a k nblk :
  cmdline_wf cl -> read_args cl env.(env_ip) = Some a -> a.(max_size) <= 2 ^ 32 - 2 ^ 21 ->
  env.(peer_bytes) = concat (replicate nblk fill_pattern) -> buffer_bytes a <= 64 * Z.of_nat nblk ->
  exists s, receiver_main env cl k (init_bs env) = Stuck OutOfBounds s.
Proof.
  intros Hwf Ha Hmax Hpeer Hbuf.
  destruct (read_args_wf _ _ _ Hwf Ha) as (_ & Hm). pose proof (buffer_covers _ _ _ Ha ltac:(lia)).
  destruct (recv_main_run env cl a k Hwf Ha Hmax) as (s' & Hrun & _ & Hmem).
  rewrite Hrun. exists s'. unfold c_string. apply c_string_from_oob; [lia|lia|].
  intros p Hp. rewrite Hmem. unfold recv_mem_spec, peer_data. rewrite Hpeer.
  case_decide; [discriminate|].
  pose proof (length_concat_replicate nblk fill_pattern) as Hl. cbn [length fill_pattern] in Hl.
  rewrite length_take, Hl, decide_True by lia.
  rewrite lookup_take_lt by lia.
  destruct (concat (replicate nblk fill_pattern) !! Z.to_nat p) eqn:E; cbn; [|apply lookup_ge_None in E; lia].
  eapply (Forall_lookup_1 (fun b => b <> 0)); [|exact E]. apply Forall_concat_replicate, fill_pattern_nonzero.
Qed.
