(* ===== verification/PerfSlave.v ===== *)
(** * PerfSlave: the slave side of perf_rdma and its pairing with the master

    The slave ([--tcpaddr] given) runs the same [main] as the master,
    src/artifacts/coyote-experiments/sw/examples/perf_rdma/main.cpp,
    lines 49-371, modelled by [perf_main] of PerfRdma.v; its own branch is
    [slave_round] (lines 279-344).  This file states what the slave should
    do, [slave_trace]: per size, in write mode, wait for the master's
    throughput requests of each run and answer with as many, then for each
    latency request wait for it, answer it and wait for the answer to be
    sent; in read mode only the barrier.  It proves that [perf_main] as
    slave makes exactly these calls, with the fuel it needs, and that a
    master and a slave run with the same sizes meet at every [ibvSync]. *)

From stdpp Require Import strings.
From S2P Require Import Prelude Bench PerfRdma.

(** ** What the slave's run should be *)

Section SlaveSpec.
Context (a : args).

Definition slave_thr_spec (len r : Z) : list ev :=
  [WaitDone (a.(n_reps_thr) * r)] ++ replicate (Z.to_nat a.(n_reps_thr)) (IbvPostSend len (opcode_of a)).

Definition slave_lat_spec (len r : Z) : list ev :=
  concat (map (fun i => [WaitDone (i + 1 + (r - 1) * a.(n_reps_lat)); IbvPostSend len (opcode_of a);
                         WaitSent (i + 1 + (r - 1) * a.(n_reps_lat))])
              (seqZ 0 a.(n_reps_lat))).

Definition slave_round_spec (len : Z) : list ev :=
  [IbvClear; IbvSync false] ++
  (if a.(oper)
   then concat (map (slave_thr_spec len) (seqZ 1 a.(n_bench_runs))) ++ [IbvClear; IbvSync false] ++
        concat (map (slave_lat_spec len) (seqZ 1 a.(n_bench_runs)))
   else [IbvSync false]).

Definition slave_trace (sizes : list Z) : list ev :=
  [AddQpair qpId targetRegion a.(ibv_ip) a.(n_pages); ExchangeQpSlave a.(tcp_mstr_ip) port; IbvSync false] ++
  concat (map slave_round_spec sizes) ++ [ReadAck; CloseConnection].

End SlaveSpec.

(** The conditions under which the slave's waits do not wrap and its
    [int] loop counters do not overflow: [n_runs] of the latency loop
    runs up to [n_bench_runs + 1 < 2^31]. *)
Definition slave_ok (a : args) : Prop :=
  a.(mstr) = false /\ 0 <= a.(n_reps_thr) < 2 ^ 31 /\ 0 <= a.(n_reps_lat) < 2 ^ 31 /\
  0 <= a.(n_bench_runs) < 2 ^ 31 - 1 /\
  a.(n_reps_thr) * a.(n_bench_runs) < 2 ^ 32 /\ a.(n_reps_lat) * a.(n_bench_runs) < 2 ^ 32.

(** ** The slave's round *)

(** Reading a byte inside the buffer leaves the trace alone. *)
Lemma emits_load len buf o (k : ST bstate unit) evs :
  0 <= o < buf -> emits len k evs -> emits len (_ ← load_byte buf o; k) evs.
Proof. intros Ho Hk s Hs. rewrite (st_bind_Ret _ _ _ _ _ (load_byte_ok buf o s Ho)). apply Hk, Hs. Qed.

(** [sg.len / 8 - 1] is inside a buffer of at least [sg.len >= 8] bytes. *)
Lemma lat_read_index len buf :
  8 <= len <= buf -> len < 2 ^ 32 -> 0 <= wrap32 (len / 8 - 1) < buf.
Proof.
  intros Hl Hw. pose proof (Z.div_mod len 8 ltac:(lia)). pose proof (Z.mod_pos_bound len 8 ltac:(lia)).
  rewrite wrap32_small; lia.
Qed.

Section SlaveRound.
Context (env : coyote_env) (a : args) (Hok : slave_ok a).
Context (len : Z) (Hlen : 8 <= len <= buffer_bytes a) (Hlen32 : len < 2 ^ 31).

Lemma slave_lat_step_emits r i :
  1 <= r <= a.(n_bench_runs) -> 0 <= i < a.(n_reps_lat) ->
  emits len (slave_lat_step a r i)
    [WaitDone (i + 1 + (r - 1) * a.(n_reps_lat)); IbvPostSend len (opcode_of a);
     WaitSent (i + 1 + (r - 1) * a.(n_reps_lat))].
Proof.
  intros Hr Hi. destruct Hok as (_ & _ & Hl & Hb & _ & Hlb).
  unfold slave_lat_step, lat_target. rewrite wrap32_small by nia.
  apply (emits_bind _ _ _ [_] [_; _]); [apply emits_log|].
  apply (emits_get _ (fun v => _ ← load_byte (buffer_bytes a) (wrap32 (v / 8 - 1));
                               post a;; log (WaitSent (i + 1 + (r - 1) * a.(n_reps_lat))))).
  apply emits_load; [apply lat_read_index; lia|].
  apply (emits_bind _ _ _ [_] [_]); [apply post_emits|apply emits_log].
Qed.

Lemma slave_lat_emits r :
  1 <= r <= a.(n_bench_runs) ->
  emits len (int_for 0 a.(n_reps_lat) (slave_lat_step a r)) (slave_lat_spec a len r).
Proof.
  intros Hr. pose proof Hok as (_ & _ & Hl & _). apply emits_int_for0; [lia|].
  intros i Hi. apply slave_lat_step_emits; lia.
Qed.

Lemma slave_thr_spec_emits r :
  1 <= r <= a.(n_bench_runs) -> emits len (slave_thr_run a r) (slave_thr_spec a len r).
Proof.
  intros Hr. pose proof Hok as (_ & Ht & _ & _ & Htb & _).
  eapply emits_ext; [|apply (slave_thr_emits a Ht)].
  unfold slave_thr_spec. rewrite wrap32_small by nia. rewrite concat_map_const, length_seqZ. reflexivity.
Qed.

(** The slave's part of a round, lines 279-344, with more fuel than
    [n_bench_runs] for its [uint32_t] loop. *)
Lemma slave_round_emits f :
  (Z.to_nat a.(n_bench_runs) < f)%nat ->
  emits len (slave_round a f) (drop 2 (slave_round_spec a len)).
Proof.
  intros Hf. pose proof Hok as (Hm & _ & _ & Hb & _). unfold slave_round, slave_round_spec.
  rewrite Hm. cbn [app drop]. destruct (oper a); [|apply emits_log].
  apply emits_bind.
  { eapply emits_ext; [|apply (emits_u32_for _ f 1 _ _ (slave_thr_spec a len)); [lia|lia|lia|]].
    - f_equal. f_equal. f_equal. lia.
    - intros r Hr. apply slave_thr_spec_emits. lia. }
  apply (emits_bind _ _ _ [_]); [apply emits_log|].
  apply (emits_bind _ _ _ [_]); [apply emits_log|].
  eapply emits_ext; [|apply (emits_int_for _ 1 _ _ (slave_lat_spec a len)); [lia|]].
  - f_equal. f_equal. f_equal. lia.
  - intros r Hr. apply slave_lat_emits. lia.
Qed.

End SlaveRound.

Lemma round_slave_run env a f s :
  slave_ok a -> (Z.to_nat a.(n_bench_runs) < f)%nat ->
  8 <= s.(sg_len) <= buffer_bytes a -> s.(sg_len) < 2 ^ 31 ->
  round env a f s =
  Ret () (mk_bs s.(mem) (wrap32 (s.(sg_len) * 2)) (rev (slave_round_spec a s.(sg_len)) ++ s.(events))).
Proof.
  intros Hok Hf Hlen Hlen32. pose proof Hok as (Hm & _). unfold round. rewrite Hm.
  rewrite (emits_bind_run _ _ _ _ _ (emits_log _ IbvClear) eq_refl).
  rewrite (emits_bind_run _ _ _ _ _ (emits_log _ (IbvSync false)) eq_refl).
  cbn iota. erewrite st_bind_Ret; [|apply (slave_round_emits a Hok _ Hlen Hlen32 f Hf); reflexivity].
  erewrite st_bind_Ret; [|reflexivity]. cbn. rewrite drop_0, <- !app_assoc. reflexivity.
Qed.

(** ** The sweep, for any round that only appends to the trace

    [R len] is what a round appends when [sg.len] is [len]; [P] holds of
    every size the sweep visits, and each round needs [bound] of fuel. *)

Section SweepRun.
Context (env : coyote_env) (a : args) (R : Z -> list ev) (P : Z -> Prop) (bound : nat).
Context (HP : forall v, P v -> v <= a.(max_size) -> P (wrap32 (v * 2))).
Context (Hround : forall f s, (bound <= f)%nat -> P s.(sg_len) -> s.(sg_len) <= a.(max_size) ->
  round env a f s = Ret () (mk_bs s.(mem) (wrap32 (s.(sg_len) * 2)) (rev (R s.(sg_len)) ++ s.(events)))).

Lemma sweep_run fuel s l :
  P s.(sg_len) -> visited a.(max_size) fuel s.(sg_len) = Some l -> (bound + length l <= fuel)%nat ->
  exists v, sweep env a fuel s = Ret () (mk_bs s.(mem) v (rev (concat (map R l)) ++ s.(events))).
Proof.
  revert s l. induction fuel as [|f IH]; intros s l HPs Hv Hb; [discriminate|].
  cbn [visited] in Hv. rewrite sweep_S. destruct (decide (sg_len s <= max_size a)) as [Hle|].
  - destruct (visited _ f _) as [l'|] eqn:Hv'; [|discriminate]. cbn [mbind option_bind] in Hv. injection Hv as <-.
    rewrite (st_bind_Ret _ _ _ _ _ (Hround f s ltac:(cbn in Hb; lia) HPs Hle)).
    destruct (IH (mk_bs s.(mem) (wrap32 (s.(sg_len) * 2)) (rev (R s.(sg_len)) ++ s.(events))) l')
      as (v & Hs); [apply HP; assumption|exact Hv'|cbn in Hb; lia|].
    exists v. rewrite Hs. cbn [map concat events mem]. rewrite rev_app_distr, <- app_assoc. reflexivity.
  - injection Hv as <-. exists s.(sg_len). destruct s. reflexivity.
Qed.

End SweepRun.

Lemma length_doubling_sizes min max : (length (doubling_sizes min max) <= 32)%nat.
Proof. unfold doubling_sizes. rewrite length_filter, length_map, length_seq. lia. Qed.

(** ** [main] as slave *)

Section SlaveMain.
Context (env : coyote_env) (cl : cmdline) (a : args).
Context (Hwf : cmdline_wf cl) (Ha : read_args cl env.(env_ip) = Some a) (Hok : slave_ok a).
Context (Hmin : 8 <= a.(min_size)) (Hmax : a.(max_size) < 2 ^ 31).

Lemma perf_slave_main fuel :
  (Z.to_nat a.(n_bench_runs) + 33 <= fuel)%nat ->
  exists s, perf_main env cl fuel (init_bs env) = Ret () s /\
    rev s.(events) = slave_trace a (doubling_sizes a.(min_size) a.(max_size)).
Proof.
  intros Hf. destruct (read_args_Some _ _ _ Ha) as (_ & Hsize & _).
  destruct (read_args_wf _ _ _ Hwf Ha) as (_ & Hmax0). pose proof Hok as (Hm & _).
  pose proof (buffer_covers _ _ _ Ha ltac:(lia)) as Hbuf.
  unfold perf_main. rewrite Ha. unfold run.
  rewrite (st_bind_Ret _ _ _ _ _ (setup_run _ _)), Hm.
  rewrite (emits_bind_run _ _ _ _ _ (emits_log _ _) eq_refl). cbn [mem sg_len events].
  match goal with |- context [(fill a ≫= _) ?st] => destruct (fill_run a st) as (m' & Hfill & _) end;
    [lia|eapply fill_fits; [exact Ha|lia]|].
  rewrite (st_bind_Ret _ _ _ _ _ Hfill).
  assert (HP : forall v, 8 <= v -> v <= a.(max_size) -> 8 <= wrap32 (v * 2))
    by (intros v Hv Hvm; rewrite wrap32_small; lia).
  assert (HR : forall f s, (S (Z.to_nat a.(n_bench_runs)) <= f)%nat -> 8 <= s.(sg_len) ->
    s.(sg_len) <= a.(max_size) -> round env a f s =
    Ret () (mk_bs s.(mem) (wrap32 (s.(sg_len) * 2)) (rev (slave_round_spec a s.(sg_len)) ++ s.(events))))
    by (intros f' s' Hf' Hs' Hs'm; apply round_slave_run; [exact Hok|lia|lia|lia]).
  match goal with |- context [(sweep env a fuel ≫= _) ?st] =>
    destruct (sweep_run env a (slave_round_spec a) (fun v => 8 <= v) _ HP HR
                fuel st (doubling_sizes a.(min_size) a.(max_size))) as (v & Hsw) end.
  - cbn [sg_len]. lia.
  - cbn [sg_len]. rewrite Hsize. apply visited_doubling; lia.
  - pose proof (length_doubling_sizes a.(min_size) a.(max_size)). lia.
  - rewrite (st_bind_Ret _ _ _ _ _ Hsw). eexists. split; [unfold finish; rewrite Hm; reflexivity|].
    cbn [events rev]. unfold slave_trace. rewrite !rev_app_distr, rev_involutive. cbn [rev app].
    rewrite <- !app_assoc. reflexivity.
Qed.

End SlaveMain.

(** ** The barrier calls of the two sides

    Each round makes two [ibvSync] calls on either side, whatever the
    mode; the request and wait blocks make none. *)

Lemma syncs_thr_spec a len r : syncs (thr_spec a len r) = 0%nat.
Proof. unfold thr_spec. rewrite syncs_app, syncs_replicate by reflexivity. reflexivity. Qed.

Lemma syncs_lat_spec a len r : syncs (lat_spec a len r) = 0%nat.
Proof. unfold lat_spec. rewrite (syncs_concat_map _ 0) by reflexivity. lia. Qed.

Lemma syncs_slave_thr_spec a len r : syncs (slave_thr_spec a len r) = 0%nat.
Proof. unfold slave_thr_spec. rewrite syncs_app, syncs_replicate by reflexivity. reflexivity. Qed.

Lemma syncs_slave_lat_spec a len r : syncs (slave_lat_spec a len r) = 0%nat.
Proof. unfold slave_lat_spec. rewrite (syncs_concat_map _ 0) by reflexivity. lia. Qed.

Create Rewrite HintDb syncs.
#[export] Hint Rewrite syncs_app syncs_cons syncs_nil syncs_thr_spec syncs_lat_spec
  syncs_slave_thr_spec syncs_slave_lat_spec : syncs.

Ltac syncs_blocks :=
  rewrite ?(syncs_concat_map _ 0) by (intros; autorewrite with syncs; reflexivity);
  autorewrite with syncs; cbn [is_sync]; lia.

Lemma syncs_round_spec a calls len : syncs (round_spec a calls len) = 2%nat.
Proof. unfold round_spec. autorewrite with syncs. syncs_blocks. Qed.

Lemma syncs_slave_round_spec a len : syncs (slave_round_spec a len) = 2%nat.
Proof. unfold slave_round_spec. destruct (oper a); autorewrite with syncs; syncs_blocks. Qed.

Lemma syncs_master_trace a calls l : syncs (master_trace a calls l) = (1 + 2 * length l)%nat.
Proof.
  unfold master_trace, master_prefix. rewrite !syncs_app, (syncs_concat_map _ 2) by apply syncs_round_spec.
  autorewrite with syncs. cbn [is_sync]. lia.
Qed.

Lemma syncs_slave_trace a l : syncs (slave_trace a l) = (1 + 2 * length l)%nat.
Proof.
  unfold slave_trace. rewrite !syncs_app, (syncs_concat_map _ 2) by apply syncs_slave_round_spec.
  autorewrite with syncs. cbn [is_sync]. lia.
Qed.

(** ** Properties of [main] as slave, and of the two runs together *)

(** C18: Refinement.  Run as slave ([--tcpaddr] given) with
    [8 <= min_size], [max_size < 2^31], [int] loop bounds below [2^31]
    and wait targets that do not wrap, [main] returns once it has fuel
    for the sweep and for its [uint32_t] throughput loop, and the library
    calls it makes are exactly [slave_trace] over the sizes
    [min_size * 2^k <= max_size]: in write mode, per run, a wait for the
    master's [n_reps_thr * n_runs] requests and as many of its own, then
    per latency request a wait for it, the answer and a wait for the
    answer to be sent. *)
Theorem perf_slave_refines env cl a fuel :
  cmdline_wf cl -> read_args cl env.(env_ip) = Some a -> slave_ok a ->
  8 <= a.(min_size) -> a.(max_size) < 2 ^ 31 -> (Z.to_nat a.(n_bench_runs) + 33 <= fuel)%nat ->
  exists s, perf_main env cl fuel (init_bs env) = Ret () s /\
    rev s.(events) = slave_trace a (doubling_sizes a.(min_size) a.(max_size)).
Proof. intros Hwf Ha Hok Hmin Hmax Hf. apply (perf_slave_main env cl a Hwf Ha Hok Hmin Hmax fuel Hf). Qed.

(** C19: Liveness.  A master and a slave run of [main] that satisfy the
    conditions of their refinement theorems both return, and their calls
    can be interleaved so that every [ibvSync] of one meets one of the
    other exactly when the two sweeps visit as many sizes: with the same
    [-n] and [-x] the two hosts never wait at the barrier for ever, and
    nothing in [main] checks that they were given the same. *)
Theorem perf_master_slave_joint envm clm am fm envs cls as_ fs :
  cmdline_wf clm -> read_args clm envm.(env_ip) = Some am -> master_ok am envm.(bench_calls) ->
  0 < am.(min_size) -> am.(max_size) < 2 ^ 31 -> (33 <= fm)%nat ->
  cmdline_wf cls -> read_args cls envs.(env_ip) = Some as_ -> slave_ok as_ ->
  8 <= as_.(min_size) -> as_.(max_size) < 2 ^ 31 -> (Z.to_nat as_.(n_bench_runs) + 33 <= fs)%nat ->
  exists sm ss, perf_main envm clm fm (init_bs envm) = Ret () sm /\
    perf_main envs cls fs (init_bs envs) = Ret () ss /\
    (joint (rev sm.(events)) (rev ss.(events)) <->
     length (doubling_sizes am.(min_size) am.(max_size)) = length (doubling_sizes as_.(min_size) as_.(max_size))).
Proof.
  intros Hwfm Ham Hokm Hminm Hmaxm Hfm Hwfs Has Hoks Hmins Hmaxs Hfs.
  destruct (read_args_wf _ _ _ Hwfm Ham) as (_ & Hm0).
  pose proof (perf_master_main envm clm am Ham Hokm ltac:(lia) fm) as Hm.
  rewrite visited_doubling in Hm by lia. destruct Hm as (sm & Hrm & Htm & _).
  destruct (perf_slave_main envs cls as_ Hwfs Has Hoks Hmins Hmaxs fs Hfs) as (ss & Hrs & Hts).
  exists sm, ss. split; [exact Hrm|]. split; [exact Hrs|].
  rewrite Htm, Hts. split.
  - intros Hj. apply joint_syncs in Hj. rewrite syncs_master_trace, syncs_slave_trace in Hj. lia.
  - intros Hl. apply joint_of_syncs. rewrite syncs_master_trace, syncs_slave_trace. lia.
Qed.
