(* ===== verification/BenchScenarios.v ===== *)
(** * BenchScenarios: concrete runs of perf_rdma and rdma_receiver

    The command lines the witnesses use: no options (the defaults of
    lines 42-47, as master), a small master run ([-r 2 -l 2 -n 64 -x 128]),
    the size sweeps that never end ([-n 0], [-x 2147483648]), a maximum
    size whose page count wraps ([-x 4294967295]), a slave in write
    mode with [-n 4], and slaves with the small run's options and with
    [-x 256] instead; for the waits, a counter that gains one completion
    per poll and one that stays at 0.  Each witness applies a theorem of
    PerfRdma.v, PerfSlave.v, Receiver.v or Stall.v at these
    inputs, its hypotheses checked by evaluation. *)

From stdpp Require Import strings.
From S2P Require Import Prelude Bench Stall PerfRdma Receiver PerfSlave.

Definition ip0 : string := "10.253.74.94".

(** [cBench::runtime] calling its argument once; a zeroed buffer. *)
Definition env_perf : coyote_env := mk_cenv (Some ip0) 1 ∅ [].

Definition cl_small : cmdline := mk_cmdline None None (Some 2) (Some 2) (Some 64) (Some 128) None.
Definition cl_maxwrap : cmdline := mk_cmdline None None None None None (Some 4294967295) None.
Definition cl_slave : cmdline :=
  mk_cmdline (Some "10.253.74.95"%string) None None None (Some 4) (Some 64) (Some true).
Definition cl_slave_small : cmdline :=
  mk_cmdline (Some "10.253.74.95"%string) None (Some 2) (Some 2) (Some 64) (Some 128) (Some true).
Definition cl_slave_256 : cmdline :=
  mk_cmdline (Some "10.253.74.95"%string) None (Some 2) (Some 2) (Some 64) (Some 256) (Some true).

Definition args_of (cl : cmdline) : args := default (mk_args "" 0 0 0 0 0 false true "" 0 0) (read_args cl (Some ip0)).

(** The receiver's peer wrote two bytes; and one that wrote a whole
    2 MiB of perf_rdma's pattern. *)
Definition env_recv : coyote_env := mk_cenv (Some ip0) 1 ∅ [0x3b; 0x29].
Definition full_blocks : nat := Z.to_nat 32768.
Definition env_recv_full : coyote_env := mk_cenv (Some ip0) 1 ∅ (concat (replicate full_blocks fill_pattern)).

(** The small master run, evaluated once. *)
Definition state_of {A} (o : outcome bstate A) : bstate := match o with Ret _ s | Stuck _ s => s end.
Definition small_master_run := Eval vm_compute in perf_main env_perf cl_small 33 (init_bs env_perf).

Lemma small_master_run_eq : perf_main env_perf cl_small 33 (init_bs env_perf) = Ret () (state_of small_master_run).
Proof. vm_compute. reflexivity. Qed.

Ltac bench_hyps :=
  unfold cmdline_wf, master_ok, slave_ok, opt_u32, buffer_bytes; cbn;
  unfold defNBenchRuns, defNRepsThr, defNRepsLat, defMinSize, defMaxSize, defOper, hugePageSize_cdefs;
  cbn; split_conj; (exact I || reflexivity || lia).

(** ** perf_rdma *)

Lemma perf_master_refines_witness :
  exists s, perf_main env_perf no_options 33 (init_bs env_perf) = Ret () s /\
    rev s.(events) = master_trace (args_of no_options) 1 (doubling_sizes 128 32768).
Proof. apply (perf_master_refines env_perf no_options (args_of no_options) 33); bench_hyps. Defined.



Lemma perf_master_waits_match_witness :
  waits_match (rev (state_of small_master_run).(events)) = true.
Proof.
  apply (perf_master_waits_match env_perf cl_small (args_of cl_small) 33); [bench_hyps..|].
  apply small_master_run_eq.
Defined.

Lemma perf_fill_overflow_witness :
  exists s, perf_main env_perf cl_maxwrap 33 (init_bs env_perf) = Stuck OutOfBounds s.
Proof. apply (perf_fill_overflow env_perf cl_maxwrap (args_of cl_maxwrap)); bench_hyps. Defined.

Lemma perf_slave_small_read_witness :
  exists s, perf_main env_perf cl_slave 3 (init_bs env_perf) = Stuck OutOfBounds s.
Proof. apply (perf_slave_small_read env_perf cl_slave (args_of cl_slave)); bench_hyps. Defined.


Lemma perf_slave_refines_witness :
  exists s, perf_main env_perf cl_slave_small 34 (init_bs env_perf) = Ret () s /\
    rev s.(events) = slave_trace (args_of cl_slave_small) (doubling_sizes 64 128).
Proof. apply (perf_slave_refines env_perf cl_slave_small (args_of cl_slave_small) 34); bench_hyps. Defined.

(** The small master run meets a slave with the same options at every
    barrier, and cannot meet one that was given [-x 256]. *)
Lemma perf_master_slave_joint_witness :
  (exists sm ss, perf_main env_perf cl_small 33 (init_bs env_perf) = Ret () sm /\
     perf_main env_perf cl_slave_small 34 (init_bs env_perf) = Ret () ss /\
     joint (rev sm.(events)) (rev ss.(events))) /\
  (exists sm ss, perf_main env_perf cl_small 33 (init_bs env_perf) = Ret () sm /\
     perf_main env_perf cl_slave_256 34 (init_bs env_perf) = Ret () ss /\
     ~ joint (rev sm.(events)) (rev ss.(events))).
Proof.
  split.
  - destruct (perf_master_slave_joint env_perf cl_small (args_of cl_small) 33
                env_perf cl_slave_small (args_of cl_slave_small) 34) as (sm & ss & Hm & Hs & Hj); [bench_hyps..|].
    exists sm, ss. split; [exact Hm|]. split; [exact Hs|]. apply Hj. reflexivity.
  - destruct (perf_master_slave_joint env_perf cl_small (args_of cl_small) 33
                env_perf cl_slave_256 (args_of cl_slave_256) 34) as (sm & ss & Hm & Hs & Hj); [bench_hyps..|].
    exists sm, ss. split; [exact Hm|]. split; [exact Hs|]. intros H. apply Hj in H. vm_compute in H. discriminate.
Defined.

(** ** The waits *)

(** One completion per poll, SIGINT before the sixth: a wait for 3
    completions returns at the fourth poll. *)
Lemma wait_done_refines_witness :
  wait_done_chk (fun m => Z.of_nat m) 3 (Some 5%nat) 4 0 = inr 3%nat /\
  wait_done_spin (fun m => Z.of_nat m) 3 4 0 = inr 3%nat.
Proof.
  apply (wait_done_refines (fun m => Z.of_nat m) 3 (Some 5%nat) 3 4 0); [|cbn; lia|lia].
  intros j Hj. split; [lia|apply bool_decide_eq_false_2; lia].
Defined.

(** A peer that never completes anything, SIGINT before the third poll. *)
Lemma sigint_stops_checked_waits_only_witness :
  (forall fuel, (2 - 0 < fuel)%nat -> wait_done_chk (fun _ => 0) 1 (Some 2%nat) fuel 0 = inl Uncaught) /\
  (forall fuel, wait_done_spin (fun _ => 0) 1 fuel 0 = inl OutOfFuel).
Proof. apply (sigint_stops_checked_waits_only (fun _ => 0) 1 2 0). intros. lia. Defined.

(** ** rdma_receiver *)

(** With [-x 128] the fill stores 16 bytes.  A WRITE of two bytes that
    lands after the fill is printed followed by fourteen [1]s; one that
    lands before the first store is overwritten and only [1]s are
    printed. *)
Lemma receiver_prints_witness :
  (exists s, receiver_main env_recv cl_small 16 (init_bs env_recv) = Ret ([0x3b; 0x29] ++ replicate 14 1) s) /\
  (exists s, receiver_main env_recv cl_small 0 (init_bs env_recv) = Ret (replicate 16 1) s).
Proof.
  split.
  - apply (receiver_prints env_recv cl_small (args_of cl_small) 16);
      [bench_hyps|bench_hyps|bench_hyps|reflexivity|repeat constructor; lia|bench_hyps].
  - apply (receiver_prints env_recv cl_small (args_of cl_small) 0);
      [bench_hyps|bench_hyps|bench_hyps|reflexivity|repeat constructor; lia|bench_hyps].
Defined.

Lemma receiver_reads_past_pattern_witness :
  exists s, receiver_main env_recv_full no_options 0 (init_bs env_recv_full) = Stuck OutOfBounds s.
Proof.
  apply (receiver_reads_past_pattern env_recv_full no_options (args_of no_options) 0 full_blocks);
    [bench_hyps|bench_hyps|bench_hyps|reflexivity|vm_compute; discriminate].
Defined.

